(* ===== verification/_CoqProject ===== *)
-Q . S2P
Prelude.v
GoStrings.v
Protocol.v
Payload.v
Ansi.v
Html.v
Osc.v
CmdLifecycle.v
SessionValues.v
Buffer.v
Batcher.v
Pipeline.v
Session.v
Spawning.v
Transport.v
TransportServe.v
System.v
Tickers.v
Pty.v
Event.v
Files.v
History.v
Recording.v
Commands.v
Debug.v
Paths.v
ClientConfig.v
ClientRpc.v
SessionManager.v
DaemonTypes.v
Daemon.v
DaemonExample.v
DaemonLemmas.v
DaemonFrame.v
DaemonClients.v
DaemonLoops.v
DaemonReplies.v
DaemonWaiters.v
DaemonOutput.v
DaemonSessions.v
DaemonHistory.v
ClientHistory.v
ClientStream.v
Adapters.v
Subscriptions.v
ClientCalls.v
ClientExample.v
ClientDaemon.v
Config.v
ClientRestore.v
ClientConnect.v
EnvFiles.v
Cli.v
CliDaemon.v
Startup.v
Discovery.v
Hosts.v
Tmux.v
Emulator.v
