(* ===== verification/Prelude.v ===== *)
(** * wmux: a verification library for the wmux terminal-session daemon

    wmux keeps shells alive in a daemon.  A client program connects over a Unix
    socket with two channels: on the control channel it sends one request after
    another and gets their responses, events and streamed histories; on the
    stream channel it gets the output of the sessions it is attached to.  The
    daemon owns the sessions (a process, a pseudo terminal, a bounded buffer of
    output, an optional screen emulator), reads their output at intervals,
    scans it for escape sequences, tracks the commands that the shells mark,
    records and stores what it is told to, and answers waits.

    This library models that program as it is written and proves what makes
    its parts correct.  Each file models one part, with the names of the code,
    and opens with the source files that it models.

    ** The parts

    Foundations.
    - [Prelude]: bytes and Go strings, errors, machine integers, generic
      lemmas and tactics.  [GoStrings]: the functions of [strings] and
      [strconv] that the code uses.  [Files]: a file system as maps of
      directories and files, with the calls of [os] that the code makes.

    Text and frames (pure functions).
    - [Protocol] ([internal/platform/protocol]): message types, the frame
      codec, connections.  [Payload] ([internal/daemon/values.go], the copies
      in [pkg/client]): the payloads of the stream channel.
    - [Ansi], [Html] ([internal/platform/ansi]): stripping escape sequences
      and turning them into HTML.  [Osc] ([internal/daemon/osc.go], [da.go]):
      the scanners for the sequences that the daemon acts on.
    - [SessionValues] ([internal/session/values.go]): session identifiers.

    Sessions.
    - [Buffer], [Batcher], [Pipeline] ([internal/session/backpressure.go],
      [batcher.go], parts of [service.go]): the output path of one session, as
      interleaved steps of its goroutines.
    - [Session] ([internal/session/service.go], [reaper.go], [watchdog.go]):
      the map of sessions and each operation on it.  [Spawning]: creations
      that run at once, with the semaphore of [options.go] and the mutex as
      steps, which show that whole operations may be taken as steps.
    - [CmdLifecycle] ([internal/cmdlifecycle]): the tracker of the commands
      that shells mark with OSC 133.

    Connections and events.
    - [Transport] ([internal/transport], [internal/platform/auth]): the
      handshake, the registry of clients, automation modes, heartbeats.
      [TransportServe]: the accept loop and the handshakes it starts, in any
      order.
    - [Tickers]: the goroutines of the reaper, the watchdog and the
      heartbeats.  [Pty] ([internal/platform/pty]): terminals and processes,
      over the answers of the operating system.  [System]
      ([internal/platform/ipc/peercred*.go], [ppid_darwin.go],
      [HandleSignals], [internal/platform/logger]): who is at the other end of
      a socket, parents on macOS, signals, log levels.
    - [Event] ([internal/platform/event]): the event bus.

    Storage.
    - [History] ([internal/platform/history]), [Recording]
      ([internal/platform/recording]), [Commands]
      ([internal/platform/commands], [internal/daemon/cmdrepository.go]).

    The daemon ([internal/daemon/service.go], [entity.go], [environment.go],
    [reconcile.go], [shutdown.go]).
    - [SessionManager]: the interface through which the daemon uses the
      sessions, as a class with laws; its instance over [Session] is the
      adapter of [pkg/client/adapter.go].
    - [DaemonTypes]: the requests, the state and the effects.  [Daemon]: every
      handler, [dispatch], flushing, [onExit], start and shutdown.
    - [DaemonExample]: concrete parameters.  [DaemonLemmas], [DaemonFrame]:
      equations, and a class of relations that hold along every handler
      because they hold along its elementary changes.
    - [DaemonClients], [DaemonReplies], [DaemonWaiters], [DaemonOutput],
      [DaemonSessions], [DaemonHistory]: the theorems, by subject.
    - [DaemonLoops]: the goroutines that read requests and send output, and
      how they end.

    The programs around it.
    - [Debug] ([internal/platform/debug]): the tracer and its configuration.
      [Paths]: path strings and the paths that they name.
    - [ClientConfig] ([pkg/client/options.go], [namespace.go], the command
      line of an auto-started daemon), [ClientRpc] ([sendRequest] and
      [readControl] as interleaved steps), [ClientHistory] (the history
      reader), [ClientStream] ([stream.go], [event.go], [Close]: the life of a
      client's connection).
    - [Adapters] ([pkg/client/adapter.go]): the adapters of the transport
      server and of emulators, and output from a terminal to the caller of the
      client library.  [Subscriptions] (the goroutine of [handleSubscribe]):
      events from the bus to the handler of the client library.
    - [EnvFiles] ([internal/daemon/environment.go]): what a forwarded
      environment leaves on a file system with symbolic links.
    - [ClientCalls] ([pkg/client/session.go], [exec.go], [wait.go],
      [metadata.go], [environment.go], [recording.go]): each method of the
      client over a function that sends a request; the record [agree] states
      what the two sides' encodings promise each other, and [ClientExample]
      has encodings that keep it.  [ClientDaemon]: the methods over the
      daemon's handlers.  [ClientConnect] ([client.go], [stream.go]): the
      handshakes, over the sockets and over the transport server.
    - [Cli] ([cmd/wmux/main.go]): every command as a function of its arguments
      and of what arrives; [CliDaemon]: commands against the daemon.  [Tmux]
      ([cmd/wmux-tmux]): the shim, over the client's methods.
    - [Config] ([internal/platform/config]), [ClientRestore]
      ([pkg/client/restore.go]), [Startup] ([pkg/client/daemon.go],
      [cmd/wmux/daemon.go], the pid file, the token file): what is on the disk
      before a daemon serves and after it has stopped.  [Discovery]
      ([internal/daemon/autodaemon.go]).  [Hosts]
      ([internal/platform/ipc/listener.go], the end of [Serve]): several
      daemons on one machine.
    - [Emulator] ([addons/charmvt]): the screen emulator over a terminal of
      the vt library.

    ** How the model corresponds to the code

    - A Go [string] or [[]byte] is a list of bytes.  An [error] is [ENew] of
      its text or a wrapped error; a call that may fail returns a [result].
      Indices that Go writes as -1 for absence are options.
    - An [int] is a [Z] that wraps where the code can overflow; a byte of a
      length wraps at 256.  A time or a duration is a [Z] of nanoseconds.
    - A map is a [gmap]; where Go ranges over a map the model enumerates it in
      the order of [map_to_list], and the statements do not depend on that
      order.  An object that goroutines share by pointer is in a store, under
      the number of its allocation.
    - A handler of the daemon is a function from the state to the effects
      (replies, broadcasts, events) and the next state.  Handlers run under
      the daemon's locks one at a time; what can come between two of them is
      a step of the relations [dstep] and [exec].
    - Goroutines of the output path, the batcher, the command-history writer,
      the daemon ([lstep]), the server ([serve_step]), a subscription
      ([world_step]), creations ([cstep]), the client's connection
      ([control_step]) and its callers are steps of step relations or partial
      step functions, so the theorems range over every interleaving.
    - What is not in the repository is a parameter: [encoding/json] (class
      [Json] and the arguments for marshalled text), [net/url], the results of
      system calls, the environment, the capacities that [append] chooses
      ([slack]), screen emulators (class [ScreenEmulator]).

    ** What the theorems show

    - Text: the decoder accepts exactly the frames of this version within the
      bound; frames, payloads, identifiers and the daemon's command line round
      trip; stripping, HTML and scanning compute what a specification on
      well-formed output says, and HTML never lets markup through.
    - Sessions: the invariant of the service, each operation on every branch,
      output delivered exactly once and in order, the buffer as a refinement
      of a queue, concurrent creations as a refinement of a sequence of them.
    - The daemon: the maps of clients and sessions agree; every request is
      answered once, on its connection; output reaches exactly the clients
      attached; waiters are kept well formed and are answered when a session
      exits; rows are counted as a scan from the start would; prefixes kill
      exactly their sessions; a history reaches the client's reader whole.
    - From end to end: what is read from a terminal while a client is attached
      is what its data handler is called with, through the daemon's broadcast,
      the server's registry, the wire and the client's goroutine; the events
      that a client asked for reach its handler in order; only clients
      whose connection lives are attached; every registered connection has
      been authorized and belongs to one client; a connection that ends
      releases its callers.
    - Programs: a client that starts a daemon is connected to it; commands of
      [wmux] and of the shim do to the daemon, print and return what they say;
      a crashed session's history is loaded as it was written; a rendered
      scrollback is shown again; the configuration watcher reports changes; a
      forwarded environment is the current one.
    - Storage: histories and recordings are bounded beginnings or whole lines;
      eviction keeps the newest; the last command history reaches the disk.
    - What the code does not do: a number of theorems state behaviour that a
      comment or a document promises otherwise (a second attach, output
      nobody watches, command histories of a served daemon, late responses,
      stale waits, patterns across pieces, sizes that overflow, an empty
      history on the command line, the token of [wmux daemon], histories after
      a restart, histories that are not read to their end, emulators that are
      never closed, clients that stay registered, a second daemon that takes
      the socket of the first, subscriptions that outlive their client, files
      that a variable's name replaces, a limit of spawns that is never met).

    ** Fuel and bounds

    Loops that are not structural take fuel.  [read_all] is proved to end
    within one read for each byte and one more; [chunks] within the length of
    the dump; the process walk within its depth bound, which is the code's;
    the scanners within the length of their input, and their theorems state
    the result for that fuel.

    ** Not modelled

    - The operating system and the libraries themselves: their answers are
      parameters (the descriptors of sockets, the pty library, process tables,
      random bytes), as are TOML and koanf, the text of JSON, the handler of
      [log/slog], and the terminal emulator of the vt library.
    - The strings of [internal/platform/buildinfo] that the linker sets, the
      tracer's calls inside the other parts, and dependency wiring
      ([module.go]).
    - Symbolic links in the middle of a path: [EnvFiles] follows them at its
      end, where the code makes them. *)

From Stdlib Require Export NArith ZArith Lia.
From Stdlib Require Export Strings.Byte.
From stdpp Require Export base countable gmap sets list sorting strings.

#[global] Set Default Goal Selector "!".

(** ** Bytes and Go strings

    A Go [string] and a Go [[]byte] are both sequences of bytes; both are
    modelled by [bytes].  A literal is written [#"text"]. *)

Abbreviation byte := Byte.byte.
Abbreviation bytes := (list Byte.byte).

Declare Scope go_scope.
Delimit Scope go_scope with go.
Bind Scope go_scope with Byte.byte.

Notation "# s" := (String.list_byte_of_string s%string)
  (at level 1, s at level 0, format "# s") : go_scope.
Open Scope go_scope.
#[local] Open Scope Z_scope.

#[export] Instance byte_eq_decision : EqDecision byte := Byte.byte_eq_dec.

#[export] Instance byte_inhabited : Inhabited byte := populate x00.

#[export] Program Instance byte_countable : Countable byte := {|
  encode b := encode (Byte.to_N b);
  decode p := n ← decode p; Byte.of_N n
|}.
Next Obligation.
  intros b; simpl. rewrite decode_encode. simpl. apply Byte.of_to_N.
Qed.

(** The unsigned value of a byte, and the byte [byte(n)] converts to. *)
Definition byte_val (b : byte) : Z := Z.of_N (Byte.to_N b).

Definition byte_of (n : Z) : byte :=
  match Byte.of_N (Z.to_N (n mod 256)) with
  | Some b => b
  | None => Byte.x00
  end.

Lemma byte_val_range b : 0 <= byte_val b < 256.
Proof. unfold byte_val. pose proof (Byte.to_N_bounded b). lia. Qed.

Lemma byte_val_of n : byte_val (byte_of n) = n mod 256.
Proof.
  unfold byte_val, byte_of.
  pose proof (Z.mod_pos_bound n 256 ltac:(lia)) as Hb.
  destruct (Byte.of_N (Z.to_N (n mod 256))) as [b|] eqn:E.
  - apply Byte.to_of_N in E. lia.
  - apply Byte.of_N_None_iff in E. lia.
Qed.

Lemma byte_of_val b : byte_of (byte_val b) = b.
Proof.
  unfold byte_of. rewrite Z.mod_small by apply byte_val_range.
  unfold byte_val. rewrite N2Z.id, Byte.of_to_N. done.
Qed.

Lemma byte_val_inj b1 b2 : byte_val b1 = byte_val b2 → b1 = b2.
Proof. intros E. rewrite <- (byte_of_val b1), E. apply byte_of_val. Qed.

(** ** Machine integers *)

Lemma lor_shiftl_add a b k :
  0 <= k → 0 <= a < 2 ^ k → Z.lor a (Z.shiftl b k) = a + 2 ^ k * b.
Proof.
  intros Hk Ha. rewrite Z.shiftl_mul_pow2, (Z.mul_comm b) by lia.
  assert (Hz : Z.land a (2 ^ k * b) = 0).
  { apply Z.bits_inj_iff'. intros i Hi. rewrite Z.land_spec, Z.bits_0.
    destruct (decide (i < k)).
    - rewrite Z.mul_comm, Z.mul_pow2_bits_low by lia. apply andb_false_r.
    - destruct (decide (a = 0)) as [->|]; [by rewrite Z.testbit_0_l|].
      rewrite (Z.bits_above_log2 a i); [done|lia|].
      enough (Z.log2 a < k) by lia. apply Z.log2_lt_pow2; lia. }
  rewrite Z.add_nocarry_lxor by done. symmetry. by apply Z.lxor_lor.
Qed.

Definition two63 : Z := 2 ^ 63.

Definition max_i64 : Z := two63 - 1.

Definition min_i64 : Z := - two63.

(** Two's-complement wrap-around of [int64] (and of [int] on the 64-bit
    platforms wmux supports). *)
Definition wrap_i64 (z : Z) : Z := (z + two63) mod (2 * two63) - two63.

Definition in_i64 (z : Z) : Prop := min_i64 <= z <= max_i64.

(** Conversion to [uint16], as in the window-size fields. *)
Definition wrap_u16 (z : Z) : Z := z mod 2 ^ 16.

Lemma wrap_i64_range z : in_i64 (wrap_i64 z).
Proof.
  unfold in_i64, wrap_i64, min_i64, max_i64.
  assert (0 < 2 * two63) by (unfold two63; lia).
  pose proof (Z.mod_pos_bound (z + two63) (2 * two63)). lia.
Qed.

Lemma wrap_i64_id z : in_i64 z → wrap_i64 z = z.
Proof.
  unfold in_i64, wrap_i64, min_i64, max_i64. intros H.
  rewrite Z.mod_small; lia.
Qed.

(** ** Errors

    [errors.New] gives a sentinel, identified by its text (the texts of the
    sentinels of one package are pairwise different); [fmt.Errorf] with a
    [%w] verb at the end of its format wraps an error under a context. *)
Inductive error :=
  | ENew (msg : bytes)
  | EWrap (ctx : bytes) (inner : error).

#[export] Instance error_eq_decision : EqDecision error.
Proof. solve_decision. Defined.

(** [err.Error()]. *)
Fixpoint err_text (e : error) : bytes :=
  match e with
  | ENew m => m
  | EWrap c i => c ++ #": " ++ err_text i
  end.

(** [errors.Is(e, target)]. *)
Fixpoint err_is (e target : error) : bool :=
  bool_decide (e = target) ||
  match e with
  | ENew _ => false
  | EWrap _ i => err_is i target
  end.

(** A Go function returning [(T, error)]. *)
Inductive result (T : Type) :=
  | Ok (v : T)
  | Err (e : error).
Arguments Ok {T} v.
Arguments Err {T} e.

#[export] Instance result_eq_decision T `{EqDecision T} : EqDecision (result T).
Proof. solve_decision. Defined.

Definition result_map {A B} (f : A → B) (r : result A) : result B :=
  match r with
  | Ok v => Ok (f v)
  | Err e => Err e
  end.

(** [fmt.Errorf("ctx: %w", err)] on the error component. *)
Definition wrap_err {A} (ctx : bytes) (r : result A) : result A :=
  match r with
  | Ok v => Ok v
  | Err e => Err (EWrap ctx e)
  end.

Definition is_ok {A} (r : result A) : bool :=
  match r with
  | Ok _ => true
  | Err _ => false
  end.

Lemma err_is_refl e : err_is e e = true.
Proof. destruct e; simpl; rewrite bool_decide_true by done; done. Qed.

Lemma err_is_wrap c e t : err_is e t = true → err_is (EWrap c e) t = true.
Proof. intros H. simpl. rewrite H. apply orb_true_r. Qed.

(** ** Time

    A [time.Time] is its nanoseconds since the Unix epoch; the zero time is
    1 January of year 1.  [Sub] saturates at the range of [Duration]. *)
Abbreviation time := Z (only parsing).

Definition zero_time : time := -62135596800 * 10 ^ 9.

Definition millisecond : Z := 10 ^ 6.

Definition time_sub (t u : time) : Z := Z.max min_i64 (Z.min max_i64 (t - u)).

(** [Duration.Milliseconds]: division truncated towards zero. *)
Definition milliseconds (d : Z) : Z := Z.quot d millisecond.

(** ** Generic lemmas on lists *)

Lemma take_drop_app {A} (l k : list A) n :
  n = length l → take n (l ++ k) = l ∧ drop n (l ++ k) = k.
Proof. intros ->. by rewrite take_app_length, drop_app_length. Qed.

Lemma last_n_app_1 {A} (l : list A) (x : A) n :
  (0 < n)%nat →
  drop (length (l ++ [x]) - n) (l ++ [x]) =
    drop (length (drop (length l - n) l) + 1 - n) (drop (length l - n) l) ++ [x].
Proof.
  intros Hn. rewrite length_app, length_drop. simpl.
  rewrite drop_drop.
  destruct (decide (length l < n)%nat) as [Hlt|Hge].
  - replace (length l + 1 - n)%nat with 0%nat by lia.
    replace (length l - n + _)%nat with 0%nat by lia. done.
  - rewrite drop_app_le by lia. f_equal. f_equal. lia.
Qed.

Lemma app_inj_length {A} (a b c d : list A) :
  length a = length c → a ++ b = c ++ d → a = c ∧ b = d.
Proof. intros Hl He. by apply app_inj_1. Qed.

Lemma filter_all {A} (P : A → Prop) `{∀ x, Decision (P x)} l : Forall P l → filter P l = l.
Proof.
  induction 1 as [|x l Hx Hl IH]; [done|]. rewrite filter_cons_True by done. by rewrite IH.
Qed.

Lemma filter_none {A} (P : A → Prop) `{∀ x, Decision (P x)} l :
  Forall (λ x, ¬ P x) l → filter P l = [].
Proof.
  induction 1 as [|x l Hx Hl IH]; [done|]. by rewrite filter_cons_False.
Qed.

Lemma filter_ext_in {A} (P Q : A → Prop) `{∀ x, Decision (P x)} `{∀ x, Decision (Q x)} (l : list A) :
  (∀ x, x ∈ l → P x ↔ Q x) → filter P l = filter Q l.
Proof.
  induction l as [|x l IH]; intros Hpq; [done|].
  rewrite !filter_cons, IH by (intros y Hy; apply Hpq; by right).
  specialize (Hpq x ltac:(by left)). repeat case_decide; naive_solver.
Qed.

Lemma sublist_eq_length {A} (l1 l2 : list A) :
  l1 `sublist_of` l2 → (length l2 ≤ length l1)%nat → l1 = l2.
Proof.
  induction 1 as [|x l1 l2 Hs IH|x l1 l2 Hs IH]; cbn; intros Hl; [done|f_equal; apply IH; lia|].
  pose proof (sublist_length _ _ Hs). lia.
Qed.

Lemma NoDup_fmap_filter {A B} (f : A → B) (P : A → Prop) `{∀ x, Decision (P x)} (l : list A) :
  NoDup (f <$> l) → NoDup (f <$> filter P l).
Proof.
  induction l as [|x l IH]; intros Hl; [done|]. cbn [fmap list_fmap] in Hl.
  apply NoDup_cons in Hl as [Hx Hl]. rewrite filter_cons. case_decide; [|by apply IH].
  cbn [fmap list_fmap]. apply NoDup_cons. split; [|by apply IH].
  intros Hin. apply Hx. apply list_elem_of_fmap in Hin as (y & -> & Hy).
  apply list_elem_of_filter in Hy as [_ Hy]. apply list_elem_of_fmap. by exists y.
Qed.

(** ** Automation shared by the components *)

Create HintDb wmux.
Create Rewrite HintDb wmux.
Create Rewrite HintDb wmux_len.
#[export] Hint Resolve byte_val_range wrap_i64_range err_is_refl err_is_wrap : wmux.
#[export] Hint Rewrite byte_val_of byte_of_val : wmux.
#[export] Hint Rewrite @length_app @length_take @length_drop @length_fmap : wmux_len.

(** Normalises list lengths, then closes the arithmetic. *)
Ltac len := autorewrite with wmux_len in *; simpl in *; lia.

(** Case analysis on every [match] and [if] of the goal, keeping equations. *)
Ltac cases := repeat (case_match; simplify_eq/=).

(** [destruct_and?] and injectivity, then stdpp's first-order closer. *)
Ltac go := simplify_eq/=; try done; try naive_solver; try lia.
