(* ===== verification/GoStrings.v ===== *)
(** * Go's [bytes], [strings] and [strconv] functions

    The functions of Go's standard library that wmux calls on byte slices
    and strings, as executable definitions on [bytes], with the lemmas the
    components share.  A position that Go reports as [-1] is [None] here. *)

From S2P Require Import Prelude.

(** ** Searching *)

(** [bytes.IndexByte(s, c)]. *)
Fixpoint index_byte (s : bytes) (c : byte) : option nat :=
  match s with
  | [] => None
  | x :: s' => if decide (x = c) then Some 0 else S <$> index_byte s' c
  end.

(** [strings.LastIndex(s, string(c))] for a one-byte separator. *)
Fixpoint last_index_byte (s : bytes) (c : byte) : option nat :=
  match s with
  | [] => None
  | x :: s' =>
      match last_index_byte s' c with
      | Some i => Some (S i)
      | None => if decide (x = c) then Some 0 else None
      end
  end.

(** [strings.HasPrefix(s, p)]. *)
Fixpoint has_prefix (s p : bytes) {struct p} : bool :=
  match p, s with
  | [], _ => true
  | _ :: _, [] => false
  | y :: p', x :: s' => bool_decide (x = y) && has_prefix s' p'
  end.

(** [strings.HasSuffix(s, p)]. *)
Definition has_suffix (s p : bytes) : bool := has_prefix (reverse s) (reverse p).

(** [strings.TrimSuffix(s, p)]. *)
Definition trim_suffix (s p : bytes) : bytes :=
  if has_suffix s p then take (length s - length p) s else s.

(** [bytes.Index(s, sub)]. *)
Fixpoint index (s sub : bytes) : option nat :=
  if has_prefix s sub then Some 0
  else match s with
       | [] => None
       | _ :: s' => S <$> index s' sub
       end.

(** [bytes.Contains(s, sub)]. *)
Definition contains (s sub : bytes) : bool :=
  match index s sub with
  | Some _ => true
  | None => false
  end.

(** [bytes.Count(s, []byte{c})]. *)
Definition count_byte (c : byte) (s : bytes) : nat :=
  length (filter (λ x, x = c) s).

(** ** Splitting and joining *)

(** [strings.SplitN(s, string(c), n)] for [n > 0]: at most [n] parts. *)
Fixpoint split_n (n : nat) (c : byte) (s : bytes) : list bytes :=
  match n with
  | 0 => []
  | 1 => [s]
  | S n' =>
      match index_byte s c with
      | None => [s]
      | Some i => take i s :: split_n n' c (drop (S i) s)
      end
  end.

(** [strings.Split(s, string(c))]: a text has at most [length s + 1] parts. *)
Definition split (c : byte) (s : bytes) : list bytes := split_n (S (length s)) c s.

(** [strings.Join(parts, sep)]. *)
Fixpoint join (sep : bytes) (parts : list bytes) : bytes :=
  match parts with
  | [] => []
  | [p] => p
  | p :: ps => p ++ sep ++ join sep ps
  end.

(** ** Numbers *)

Definition is_digit (b : byte) : bool :=
  bool_decide ((48 <= byte_val b <= 57)%Z).

(** The error of a number that cannot be parsed, or is out of range. *)
Definition ErrSyntax : error := ENew #"invalid syntax".

Definition ErrRange : error := ENew #"value out of range".

(** [strconv.ParseUint(s, 10, 64)]: digits are read from the left; the first
    byte that is not a digit is a syntax error, and the first digit that
    takes the value past [2^64 - 1] is a range error with that maximum. *)
Fixpoint parse_uint_loop (n : Z) (s : bytes) : Z * option error :=
  match s with
  | [] => (n, None)
  | c :: s' =>
      if negb (is_digit c) then (0%Z, Some ErrSyntax)
      else
        let n' := (n * 10 + (byte_val c - 48))%Z in
        if bool_decide ((2 ^ 64 <= n')%Z) then ((2 ^ 64 - 1)%Z, Some ErrRange)
        else parse_uint_loop n' s'
  end.

Definition parse_uint (s : bytes) : Z * option error :=
  match s with
  | [] => (0%Z, Some ErrSyntax)
  | _ => parse_uint_loop 0 s
  end.

(** The optional sign of a decimal integer. *)
Definition split_sign (s : bytes) : bool * bytes :=
  match s with
  | c :: s' =>
      if decide (c = "-"%byte) then (true, s')
      else if decide (c = "+"%byte) then (false, s')
      else (false, s)
  | [] => (false, [])
  end.

(** [strconv.ParseInt(s, 10, 64)], and [strconv.Atoi(s)], which agrees with
    it on a 64-bit platform: the value returned beside an error is 0 for a
    syntax error and the nearest [int64] for a range error. *)
Definition parse_int (s : bytes) : Z * option error :=
  let '(neg, digits) := split_sign s in
  match parse_uint digits with
  | (un, Some e) =>
      if decide (e = ErrRange)
      then (if neg then min_i64 else max_i64, Some ErrRange)
      else (0%Z, Some e)
  | (un, None) =>
      if negb neg && bool_decide ((two63 <= un)%Z) then (max_i64, Some ErrRange)
      else if neg && bool_decide ((two63 < un)%Z) then (min_i64, Some ErrRange)
      else ((if neg then - un else un)%Z, None)
  end.

Definition atoi (s : bytes) : Z * option error := parse_int s.

(** Decimal digits of a natural number, most significant first. *)
Fixpoint dec_loop (fuel : nat) (n : Z) (acc : bytes) : bytes :=
  match fuel with
  | 0 => acc
  | S f =>
      let acc' := byte_of (48 + n mod 10) :: acc in
      if decide ((n / 10 = 0)%Z) then acc' else dec_loop f (n / 10)%Z acc'
  end.

(** [strconv.Itoa] and the [%d] verb: a decimal numeral has at most as many
    digits as the number has bits. *)
Definition itoa (z : Z) : bytes :=
  let digits n := dec_loop (S (Z.to_nat (Z.log2 n))) n [] in
  if bool_decide ((z < 0)%Z) then "-"%byte :: digits (- z)%Z else digits z.

(** ** Case and space *)

(** [strings.ToUpper] on the ASCII range.  The code points outside ASCII
    whose upper case is an ASCII letter give [I] and [S] only, and none of
    wmux's uses looks for either. *)
Definition to_upper_byte (b : byte) : byte :=
  if bool_decide ((97 <= byte_val b <= 122)%Z) then byte_of (byte_val b - 32) else b.

Definition to_upper (s : bytes) : bytes := to_upper_byte <$> s.

(** The UTF-8 encodings of the code points that [unicode.IsSpace] accepts. *)
Definition spaces : list bytes :=
  [[x09]; [x0a]; [x0b]; [x0c]; [x0d]; [x20]; [xc2; x85]; [xc2; xa0]; [xe1; x9a; x80];
   [xe2; x80; x80]; [xe2; x80; x81]; [xe2; x80; x82]; [xe2; x80; x83]; [xe2; x80; x84];
   [xe2; x80; x85]; [xe2; x80; x86]; [xe2; x80; x87]; [xe2; x80; x88]; [xe2; x80; x89];
   [xe2; x80; x8a]; [xe2; x80; xa8]; [xe2; x80; xa9]; [xe2; x80; xaf]; [xe2; x81; x9f];
   [xe3; x80; x80]]%byte.

(** Drops the leading [pats] of [s], longest run first; each pattern is
    non-empty, so [length s] rounds are enough. *)
Fixpoint trim_left_loop (fuel : nat) (pats : list bytes) (s : bytes) : bytes :=
  match fuel with
  | 0 => s
  | S f =>
      match list_find (λ p, has_prefix s p = true) pats with
      | Some (_, p) => trim_left_loop f pats (drop (length p) s)
      | None => s
      end
  end.

(** [strings.TrimSpace]. *)
Definition trim_space (s : bytes) : bytes :=
  let l := trim_left_loop (length s) spaces s in
  reverse (trim_left_loop (length l) (reverse <$> spaces) (reverse l)).

(** ** Lemmas *)

Lemma index_byte_Some s c i :
  index_byte s c = Some i ↔ s !! i = Some c ∧ c ∉ take i s.
Proof.
  revert i. induction s as [|x s IH]; intros i; simpl.
  - split; [done|]. intros [H _]. by rewrite lookup_nil in H.
  - case_decide as E.
    + subst. split; [intros [= <-]; split; [done|simpl; set_solver]|].
      intros [Hl Hn]. destruct i; [done|]. simpl in Hn. set_solver.
    + rewrite fmap_Some. split.
      * intros (j & Hj & ->). apply IH in Hj as [H1 H2]. simpl.
        split; [done|]. set_solver.
      * intros [Hl Hn]. destruct i as [|j]; [simpl in *; congruence|].
        exists j. split; [|done]. apply IH. simpl in *. set_solver.
Qed.

Lemma index_byte_None s c : index_byte s c = None ↔ c ∉ s.
Proof.
  induction s as [|x s IH]; simpl; [set_solver|].
  case_decide as E; [subst; set_solver|].
  rewrite fmap_None, IH. set_solver.
Qed.

Lemma index_byte_bound s c i : index_byte s c = Some i → i < length s.
Proof. intros [H _]%index_byte_Some. by apply lookup_lt_Some in H. Qed.

Lemma index_byte_split s c i :
  index_byte s c = Some i → s = take i s ++ c :: drop (S i) s.
Proof. intros [H _]%index_byte_Some. by rewrite take_drop_middle. Qed.

Lemma index_byte_app_l s1 s2 c :
  c ∉ s1 → index_byte (s1 ++ c :: s2) c = Some (length s1).
Proof.
  intros Hn. apply index_byte_Some. rewrite list_lookup_middle by done.
  rewrite take_app_length. done.
Qed.

Lemma last_index_byte_Some s c i :
  last_index_byte s c = Some i ↔ s !! i = Some c ∧ c ∉ drop (S i) s.
Proof.
  revert i. induction s as [|x s IH]; intros i; simpl.
  - split; [done|]. intros [H _]. by rewrite lookup_nil in H.
  - destruct (last_index_byte s c) as [j|] eqn:E.
    + destruct (proj1 (IH j) eq_refl) as [H1 H2]. split.
      * intros [= <-]. done.
      * intros [Hl Hn]. f_equal. destruct i as [|k].
        -- exfalso. apply Hn. rewrite drop_0. by eapply list_elem_of_lookup_2.
        -- simpl in *. enough (Some j = Some k) by congruence. by apply IH.
    + assert (Hni : c ∉ s).
      { intros [k Hk]%list_elem_of_lookup.
        assert (∃ k, s !! k = Some c ∧ c ∉ drop (S k) s) as (k' & Hk').
        { clear -Hk. revert k Hk. induction s as [|y s IH]; intros k Hk; [done|].
          destruct (decide (c ∈ s)) as [[m Hm]%list_elem_of_lookup|Hn].
          - destruct (IH m Hm) as (k' & ? & ?). by exists (S k').
          - destruct k; simpl in Hk; [exists 0; by simplify_eq|].
            exfalso. apply Hn. by eapply list_elem_of_lookup_2. }
        apply IH in Hk'. done. }
      case_decide as Ex.
      * subst. split; [intros [= <-]; by rewrite drop_0|].
        intros [Hl _]. destruct i; [done|]. exfalso. apply Hni.
        by eapply list_elem_of_lookup_2.
      * split; [done|]. intros [Hl _]. destruct i; simpl in Hl; [congruence|].
        exfalso. apply Hni. by eapply list_elem_of_lookup_2.
Qed.

Lemma last_index_byte_None s c : last_index_byte s c = None ↔ c ∉ s.
Proof.
  induction s as [|x s IH]; simpl; [set_solver|].
  destruct (last_index_byte s c) eqn:E.
  - split; [done|]. intros H. discriminate (proj2 IH ltac:(set_solver)).
  - pose proof (proj1 IH eq_refl). case_decide; [subst; set_solver|]. set_solver.
Qed.

Lemma has_prefix_spec s p : has_prefix s p = true ↔ p `prefix_of` s.
Proof.
  revert s. induction p as [|y p IH]; intros s; simpl.
  - split; [intros _; apply prefix_nil|done].
  - destruct s as [|x s]; simpl.
    + split; [done|]. intros [k Hk]. done.
    + rewrite andb_true_iff, bool_decide_eq_true, IH. split.
      * intros [-> H]. by apply prefix_cons.
      * intros H. split; [by apply prefix_cons_inv_1 in H|by apply prefix_cons_inv_2 in H].
Qed.

Lemma has_prefix_app p s : has_prefix (p ++ s) p = true.
Proof. apply has_prefix_spec. by exists s. Qed.

Lemma has_prefix_length s p : has_prefix s p = true → length p <= length s.
Proof. intros H%has_prefix_spec. by apply prefix_length. Qed.

Lemma index_Some_prefix s sub i :
  index s sub = Some i → has_prefix (drop i s) sub = true ∧ i <= length s.
Proof.
  revert i. induction s as [|x s IH]; intros i; simpl index.
  - case_match eqn:E; [|done]. intros [= <-]. done.
  - case_match eqn:E; [intros [= <-]; split; [done|lia]|].
    intros (j & Hj & ->)%fmap_Some. apply IH in Hj as [? ?]. simpl. split; [done|lia].
Qed.

Lemma index_Some_first s sub i j :
  index s sub = Some i → j < i → has_prefix (drop j s) sub = false.
Proof.
  revert i j. induction s as [|x s IH]; intros i j; simpl index.
  - case_match; [intros [= <-]; lia|done].
  - case_match eqn:E; [intros [= <-]; lia|].
    intros (k & Hk & ->)%fmap_Some Hj. destruct j; [done|]. simpl.
    eapply IH; [done|lia].
Qed.

Lemma index_None s sub i : index s sub = None → has_prefix (drop i s) sub = false.
Proof.
  revert i. induction s as [|x s IH]; intros i; simpl index.
  - case_match eqn:E; [done|]. intros _. by rewrite drop_nil.
  - case_match eqn:E; [done|]. intros Hn%fmap_None. destruct i; [done|]. by apply IH.
Qed.

Lemma index_bound s sub i : index s sub = Some i → i + length sub <= length s.
Proof.
  intros [H ?]%index_Some_prefix. apply has_prefix_length in H.
  rewrite length_drop in H. lia.
Qed.

Lemma count_byte_app c s1 s2 : count_byte c (s1 ++ s2) = count_byte c s1 + count_byte c s2.
Proof. unfold count_byte. by rewrite filter_app, length_app. Qed.

Lemma count_byte_take_drop c n s :
  count_byte c s = count_byte c (take n s) + count_byte c (drop n s).
Proof. by rewrite <- count_byte_app, take_drop. Qed.

Lemma split_n_nonempty n c s : 0 < n → split_n n c s ≠ [].
Proof. destruct n as [|[|n]]; simpl; [lia|done|]. intros _. by case_match. Qed.

Lemma join_cons sep p ps : ps ≠ [] → join sep (p :: ps) = p ++ sep ++ join sep ps.
Proof. by destruct ps. Qed.

Lemma join_split_n n c s : 0 < n → join [c] (split_n n c s) = s.
Proof.
  revert s. induction n as [|n IH]; intros s Hn; [lia|].
  destruct n as [|n]; [done|].
  change (split_n (S (S n)) c s) with
    (match index_byte s c with
     | None => [s]
     | Some i => take i s :: split_n (S n) c (drop (S i) s)
     end).
  destruct (index_byte s c) as [i|] eqn:E; [|done].
  rewrite join_cons by (apply split_n_nonempty; lia).
  rewrite IH by lia. symmetry. by apply index_byte_split.
Qed.

Lemma join_split c s : join [c] (split c s) = s.
Proof. apply join_split_n. lia. Qed.

(** *** Decimal numerals *)

Section Decimal.
#[local] Open Scope Z_scope.

(** The value of a digit string read after [m]. *)
Definition dec_value (m : Z) (s : bytes) : Z :=
  foldl (λ n c, n * 10 + (byte_val c - 48)) m s.

Lemma dec_value_mono m s :
  0 <= m → Forall (λ c, is_digit c = true) s → m <= dec_value m s.
Proof.
  intros Hm Hs. revert m Hm. induction Hs as [|c s Hc Hs IH]; intros m Hm; [simpl; lia|].
  apply bool_decide_eq_true in Hc. simpl.
  specialize (IH (m * 10 + (byte_val c - 48)) ltac:(lia)).
  unfold dec_value in *. cbn [foldl]. lia.
Qed.

Lemma parse_uint_loop_digits m s :
  0 <= m → Forall (λ c, is_digit c = true) s → dec_value m s < 2 ^ 64 →
  parse_uint_loop m s = (dec_value m s, None).
Proof.
  intros Hm Hs. revert m Hm. induction Hs as [|c s Hc Hs IH]; intros m Hm Hlt; [done|].
  cbn [parse_uint_loop]. rewrite Hc. cbn [negb]. apply bool_decide_eq_true in Hc.
  set (m' := m * 10 + (byte_val c - 48)) in *.
  pose proof (dec_value_mono m' s ltac:(lia) Hs) as Hmono.
  change (dec_value m (c :: s)) with (dec_value m' s) in *.
  rewrite bool_decide_false by lia. apply IH; lia.
Qed.

Lemma is_digit_of n : 0 <= n < 10 → is_digit (byte_of (48 + n)) = true.
Proof.
  intros H. apply bool_decide_eq_true. rewrite byte_val_of, Z.mod_small; lia.
Qed.

Lemma dec_loop_spec fuel n acc :
  0 <= n < 2 ^ Z.of_nat fuel → (0 < fuel)%nat →
  ∃ ds, dec_loop fuel n acc = ds ++ acc ∧ ds ≠ [] ∧
    Forall (λ c, is_digit c = true) ds ∧
    ∀ m, dec_value m ds = m * 10 ^ Z.of_nat (length ds) + n.
Proof.
  revert n acc. induction fuel as [|fuel IH]; intros n acc Hn Hf; [lia|].
  pose proof (Z.mod_pos_bound n 10 ltac:(lia)) as Hmod.
  pose proof (Z.div_mod n 10 ltac:(lia)) as Hdm.
  assert (Hd : is_digit (byte_of (48 + n mod 10)) = true) by (by apply is_digit_of).
  assert (Hv : byte_val (byte_of (48 + n mod 10)) = 48 + n mod 10)
    by (rewrite byte_val_of, Z.mod_small; lia).
  cbn [dec_loop]. case_decide as H0.
  - exists [byte_of (48 + n mod 10)]. split_and!; [done|done|by constructor|].
    intros m. unfold dec_value. cbn [foldl length]. rewrite Hv. lia.
  - assert (0 <= n / 10) by (apply Z.div_pos; lia).
    assert (n / 10 < 2 ^ Z.of_nat fuel).
    { rewrite Nat2Z.inj_succ, Z.pow_succ_r in Hn by lia. lia. }
    assert (0 < fuel)%nat by (destruct fuel; [simpl in *; lia|lia]).
    destruct (IH (n / 10) (byte_of (48 + n mod 10) :: acc)) as (ds & -> & Hne & Hds & Hval);
      [lia|done|].
    exists (ds ++ [byte_of (48 + n mod 10)]). split_and!.
    + by rewrite <- app_assoc.
    + by destruct ds.
    + apply Forall_app. split; [done|by constructor].
    + intros m. unfold dec_value in *. rewrite foldl_app, Hval. cbn [foldl].
      rewrite Hv, length_app, Nat2Z.inj_add. cbn [length].
      rewrite Z.pow_add_r by lia. change (10 ^ Z.of_nat 1) with 10. lia.
Qed.

(** The digits of a natural number. *)
Lemma digits_spec n :
  0 <= n →
  let ds := dec_loop (S (Z.to_nat (Z.log2 n))) n [] in
  ds ≠ [] ∧ Forall (λ c, is_digit c = true) ds ∧ dec_value 0 ds = n.
Proof.
  intros Hn. destruct (dec_loop_spec (S (Z.to_nat (Z.log2 n))) n [])
    as (ds & E & Hne & Hds & Hv); [|lia|].
  - split; [done|]. rewrite Nat2Z.inj_succ, Z2Nat.id by apply Z.log2_nonneg.
    destruct (decide (n = 0)) as [->|]; [done|]. apply Z.log2_spec. lia.
  - rewrite app_nil_r in E. cbv zeta. rewrite E. split_and!; [done|done|].
    rewrite Hv. lia.
Qed.

Lemma parse_uint_digits ds :
  ds ≠ [] → Forall (λ c, is_digit c = true) ds → dec_value 0 ds < 2 ^ 64 →
  parse_uint ds = (dec_value 0 ds, None).
Proof.
  intros Hne Hds Hlt. unfold parse_uint. destruct ds; [done|].
  by apply parse_uint_loop_digits.
Qed.

Lemma split_sign_digits ds :
  ds ≠ [] → Forall (λ c, is_digit c = true) ds → split_sign ds = (false, ds).
Proof.
  intros Hne Hds. destruct Hds as [|c s Hc Hs]; [done|]. apply bool_decide_eq_true in Hc.
  simpl. by rewrite !decide_False by (intros ->; destruct Hc as [Hc _]; by apply Hc).
Qed.

Lemma parse_int_itoa z : in_i64 z → parse_int (itoa z) = (z, None).
Proof.
  unfold in_i64, min_i64, max_i64. intros Hz.
  assert (two63 < 2 ^ 64) by (unfold two63; lia).
  unfold itoa, parse_int. case_bool_decide as Hs.
  - destruct (digits_spec (- z)) as (Hne & Hds & Hv); [lia|].
    cbn [split_sign]. rewrite decide_True by done.
    rewrite parse_uint_digits, Hv by (done || lia). cbn [negb andb].
    rewrite bool_decide_false by lia. f_equal. lia.
  - destruct (digits_spec z) as (Hne & Hds & Hv); [lia|].
    rewrite split_sign_digits, parse_uint_digits, Hv by (done || lia). cbn [negb andb].
    by rewrite bool_decide_false by lia.
Qed.

Lemma itoa_chars z : Forall (λ c, is_digit c = true ∨ c = "-"%byte) (itoa z).
Proof.
  unfold itoa. case_bool_decide as Hs.
  - constructor; [by right|].
    eapply Forall_impl; [apply digits_spec; lia|]. intros c ?. by left.
  - eapply Forall_impl; [apply digits_spec; lia|]. intros c ?. by left.
Qed.

Lemma itoa_nonempty z : itoa z ≠ [].
Proof. unfold itoa. case_bool_decide; [done|]. apply digits_spec. lia. Qed.
End Decimal.

#[export] Hint Resolve index_byte_bound index_bound has_prefix_app : wmux.

(** ** Fields *)

(** The leading space of a text, if it starts with one: its encoding. *)
Definition leading_space (s : bytes) : option bytes :=
  snd <$> list_find (λ p, has_prefix s p = true) spaces.

(** [strings.Fields]: the runs between spaces; every round reads a byte. *)
Fixpoint fields_loop (fuel : nat) (s cur : bytes) : list bytes :=
  let emit := match cur with [] => [] | _ => [cur] end in
  match fuel, s with
  | 0, _ | _, [] => emit
  | S f, x :: s' =>
      match leading_space s with
      | Some p => emit ++ fields_loop f (drop (length p) s) []
      | None => fields_loop f s' (cur ++ [x])
      end
  end.

Definition fields (s : bytes) : list bytes := fields_loop (length s) s [].

(** ** Hexadecimal ([encoding/hex]) *)

Definition hex_digit (n : Z) : byte := byte_of (if bool_decide (n < 10)%Z then 48 + n else 87 + n)%Z.

Definition hex_pair (b : byte) : bytes := [hex_digit (byte_val b / 16)%Z; hex_digit (byte_val b mod 16)%Z].

(** [hex.EncodeToString]. *)
Definition hex_encode (s : bytes) : bytes := s ≫= hex_pair.

Definition hex_value (c : byte) : option Z :=
  let v := byte_val c in
  if bool_decide (48 <= v <= 57)%Z then Some (v - 48)%Z
  else if bool_decide (97 <= v <= 102)%Z then Some (v - 87)%Z else None.

(** What [hex_encode] wrote. *)
Fixpoint hex_decode (s : bytes) : option bytes :=
  match s with
  | [] => Some []
  | a :: b :: s =>
      x ← hex_value a; y ← hex_value b; rest ← hex_decode s; Some (byte_of (x * 16 + y)%Z :: rest)
  | _ => None
  end.

Lemma hex_decode_encode s : hex_decode (hex_encode s) = Some s.
Proof.
  induction s as [|b s IH]; [done|]. unfold hex_encode in *. rewrite bind_cons. unfold hex_pair at 1. cbn [app hex_decode].
  rewrite IH. by destruct b.
Qed.

#[export] Instance hex_encode_inj : Inj (=) (=) hex_encode.
Proof. intros s t H. apply (inj Some). by rewrite <- !hex_decode_encode, H. Qed.

Lemma length_hex_encode s : length (hex_encode s) = 2 * length s.
Proof. induction s as [|b s IH]; [done|]. unfold hex_encode in *. rewrite bind_cons, length_app, IH. cbn. lia. Qed.
