(* ===== verification/Protocol.v ===== *)
(** * The binary wire protocol: [internal/platform/protocol]

    Frames and their message types ([entity.go]), the codec that writes a
    frame to an [io.Writer] and reads one from an [io.Reader] ([service.go]),
    and the connection wrapper ([conn.go]).

    A reader is the bytes still to come and what the stream ends with: the
    end of file, or an error.  A writer accepts bytes until its room is used
    up.  Both are the least a [net.Conn] promises. *)

From S2P Require Import Prelude GoStrings.

#[local] Open Scope Z_scope.

(** ** Message types ([entity.go]) *)

Definition ProtocolVersion : byte := x01.

Definition HeaderSize : nat := 6.

Definition MaxPayloadSize : Z := 4 * 1024 * 1024.

(** [type MessageType byte]; a frame may carry any byte. *)
Definition MessageType : Set := byte.

Definition MsgData : MessageType := x01.

Definition MsgCreate : MessageType := x02.

Definition MsgAttach : MessageType := x03.

Definition MsgDetach : MessageType := x04.

Definition MsgKill : MessageType := x05.

Definition MsgResize : MessageType := x06.

Definition MsgList : MessageType := x07.

Definition MsgInfo : MessageType := x08.

Definition MsgInput : MessageType := x09.

Definition MsgEvent : MessageType := x0a.

Definition MsgHeartbeat : MessageType := x0b.

Definition MsgHeartbeatAck : MessageType := x0c.

Definition MsgError : MessageType := x0d.

Definition MsgOK : MessageType := x0e.

Definition MsgShutdown : MessageType := x0f.

Definition MsgAuth : MessageType := x10.

Definition MsgStatus : MessageType := x11.

Definition MsgMetaSet : MessageType := x12.

Definition MsgMetaGet : MessageType := x13.

Definition MsgEnvForward : MessageType := x14.

Definition MsgExec : MessageType := x15.

Definition MsgExecSync : MessageType := x16.

Definition MsgWait : MessageType := x17.

Definition MsgRecord : MessageType := x18.

Definition MsgHistory : MessageType := x19.

Definition MsgHistoryEnd : MessageType := x1a.

Definition MsgKillPrefix : MessageType := x1b.

Definition MsgUpdateEmulatorScrollback : MessageType := x1c.

(** [MessageType.String]. *)
Definition MessageType_String (m : MessageType) : bytes :=
  match m with
  | x01 => #"data"
  | x02 => #"create"
  | x03 => #"attach"
  | x04 => #"detach"
  | x05 => #"kill"
  | x06 => #"resize"
  | x07 => #"list"
  | x08 => #"info"
  | x09 => #"input"
  | x0a => #"event"
  | x0b => #"heartbeat"
  | x0c => #"heartbeat_ack"
  | x0d => #"error"
  | x0e => #"ok"
  | x0f => #"shutdown"
  | x10 => #"auth"
  | x11 => #"status"
  | x12 => #"meta_set"
  | x13 => #"meta_get"
  | x14 => #"env_forward"
  | x15 => #"exec"
  | x16 => #"exec_sync"
  | x17 => #"wait"
  | x18 => #"record"
  | x19 => #"history"
  | x1a => #"history_end"
  | x1b => #"kill_prefix"
  | x1c => #"update_emulator_scrollback"
  | _ => #"unknown"
  end.

Record Frame := mkFrame {
  Version : byte;
  Type_ : MessageType;
  Payload : bytes
}.

#[export] Instance Frame_eq_decision : EqDecision Frame.
Proof. solve_decision. Defined.

Definition ErrVersionMismatch : error := ENew #"protocol: version mismatch".

Definition ErrPayloadTooLarge : error := ENew #"protocol: payload too large".

Definition ErrInvalidFrame : error := ENew #"protocol: invalid frame".

Definition ErrShortRead : error := ENew #"protocol: short read".

(** ** [io.Reader] and [io.Writer] *)

(** What is still to be read; [rd_err = None] is a stream that ends with EOF. *)
Record reader := mkReader { rd_data : bytes; rd_err : option error }.

(** [io.ReadFull]: [inl true] stands for [io.EOF] and [io.ErrUnexpectedEOF],
    which [Decode] does not tell apart; [inl false] carries on to the
    reader's own error. *)
Inductive read_failure := EndOfFile | ReadError (e : error).

Definition ReadFull (n : nat) (r : reader) : (bytes + read_failure) * reader :=
  if decide (n <= length (rd_data r))%nat
  then (inl (take n (rd_data r)), mkReader (drop n (rd_data r)) (rd_err r))
  else (inr match rd_err r with
            | None => EndOfFile
            | Some e => ReadError e
            end, mkReader [] (rd_err r)).

(** The bytes accepted so far, and how many more are accepted ([None] for
    without bound) before [Write] fails with [wr_err]. *)
Record writer := mkWriter { wr_out : bytes; wr_room : option nat; wr_err : error }.

Definition Write (w : writer) (p : bytes) : option error * writer :=
  match wr_room w with
  | None => (None, mkWriter (wr_out w ++ p) None (wr_err w))
  | Some room =>
      if decide (length p <= room)%nat
      then (None, mkWriter (wr_out w ++ p) (Some (room - length p)%nat) (wr_err w))
      else (Some (wr_err w), mkWriter (wr_out w ++ take room p) (Some 0%nat) (wr_err w))
  end.

(** ** The codec ([service.go]) *)

(** [binary.BigEndian.PutUint32] and [Uint32]. *)
Definition PutUint32 (n : Z) : bytes :=
  [byte_of (Z.shiftr n 24); byte_of (Z.shiftr n 16); byte_of (Z.shiftr n 8); byte_of n].

Definition Uint32 (b : bytes) : Z :=
  match b with
  | [b0; b1; b2; b3] =>
      Z.lor (byte_val b3) (Z.lor (Z.shiftl (byte_val b2) 8)
        (Z.lor (Z.shiftl (byte_val b1) 16) (Z.shiftl (byte_val b0) 24)))
  | _ => 0
  end.

Definition frame_header (f : Frame) : bytes :=
  Version f :: Type_ f :: PutUint32 (Z.of_nat (length (Payload f)) mod 2 ^ 32).

(** The bytes of a frame on the wire. *)
Definition wire (f : Frame) : bytes := frame_header f ++ Payload f.

(** [Codec.Encode]. *)
Definition Encode (w : writer) (f : Frame) : option error * writer :=
  if bool_decide (Z.of_nat (length (Payload f)) > MaxPayloadSize)
  then (Some ErrPayloadTooLarge, w)
  else
    match Write w (frame_header f) with
    | (Some e, w') => (Some (EWrap #"protocol: write header" e), w')
    | (None, w') =>
        if bool_decide (0 < length (Payload f))%nat
        then match Write w' (Payload f) with
             | (Some e, w'') => (Some (EWrap #"protocol: write payload" e), w'')
             | (None, w'') => (None, w'')
             end
        else (None, w')
    end.

(** [Codec.Decode]. *)
Definition Decode (r : reader) : result Frame * reader :=
  match ReadFull HeaderSize r with
  | (inr EndOfFile, r') => (Err ErrShortRead, r')
  | (inr (ReadError e), r') => (Err (EWrap #"protocol: read header" e), r')
  | (inl header, r') =>
      match header with
      | version :: msgType :: len =>
          if negb (bool_decide (version = ProtocolVersion))
          then (Err ErrVersionMismatch, r')
          else
            let payloadLen := Uint32 len in
            if bool_decide (payloadLen > MaxPayloadSize)
            then (Err ErrPayloadTooLarge, r')
            else if bool_decide (payloadLen > 0)
            then match ReadFull (Z.to_nat payloadLen) r' with
                 | (inr EndOfFile, r'') => (Err ErrShortRead, r'')
                 | (inr (ReadError e), r'') => (Err (EWrap #"protocol: read payload" e), r'')
                 | (inl payload, r'') => (Ok (mkFrame version msgType payload), r'')
                 end
            else (Ok (mkFrame version msgType []), r')
      | _ => (Err ErrShortRead, r')
      end
  end.

(** ** The connection ([conn.go]) *)

Definition ReadFrame (r : reader) : result Frame * reader :=
  let '(res, r') := Decode r in (wrap_err #"conn read" res, r').

Definition WriteFrame (w : writer) (f : Frame) : option error * writer :=
  let '(err, w') := Encode w f in (EWrap #"conn write" <$> err, w').

(** The loop that every reader of a connection runs: frames are read until
    [ReadFrame] fails.  Each round consumes a header, so the number of bytes
    bounds the rounds. *)
Fixpoint read_loop (fuel : nat) (r : reader) : list Frame * option error :=
  match fuel with
  | O => ([], None)
  | S n =>
      match ReadFrame r with
      | (Err e, _) => ([], Some e)
      | (Ok f, r') => let '(fs, e) := read_loop n r' in (f :: fs, e)
      end
  end.

Definition read_all (r : reader) : list Frame * option error :=
  read_loop (S (length (rd_data r))) r.

(** The loop that writes frames in turn until one fails. *)
Fixpoint write_all (w : writer) (fs : list Frame) : option error * writer :=
  match fs with
  | [] => (None, w)
  | f :: fs' =>
      match WriteFrame w f with
      | (Some e, w') => (Some e, w')
      | (None, w') => write_all w' fs'
      end
  end.

(** A frame a peer can send: this protocol version and a payload in bounds. *)
Definition valid_frame (f : Frame) : Prop :=
  Version f = ProtocolVersion ∧ Z.of_nat (length (Payload f)) <= MaxPayloadSize.

#[global] Arguments PutUint32 : simpl never.
#[global] Arguments Uint32 : simpl never.
#[global] Arguments wire : simpl never.

(** ** Lemmas *)

Lemma length_PutUint32 n : length (PutUint32 n) = 4%nat.
Proof. done. Qed.

Lemma Uint32_sum b0 b1 b2 b3 :
  Uint32 [b0; b1; b2; b3] =
    byte_val b3 + 2 ^ 8 * byte_val b2 + 2 ^ 16 * byte_val b1 + 2 ^ 24 * byte_val b0.
Proof.
  unfold Uint32.
  replace (Z.lor (Z.shiftl (byte_val b2) 8)
    (Z.lor (Z.shiftl (byte_val b1) 16) (Z.shiftl (byte_val b0) 24)))
    with (Z.shiftl (Z.lor (byte_val b2) (Z.shiftl (Z.lor (byte_val b1)
            (Z.shiftl (byte_val b0) 8)) 8)) 8)
    by (rewrite !Z.shiftl_lor, !Z.shiftl_shiftl by lia; done).
  rewrite !lor_shiftl_add by (pose proof byte_val_range; auto with lia). lia.
Qed.

Lemma Uint32_PutUint32 n : 0 <= n < 2 ^ 32 → Uint32 (PutUint32 n) = n.
Proof.
  intros H. unfold PutUint32. rewrite Uint32_sum, !byte_val_of.
  rewrite !Z.shiftr_div_pow2 by lia.
  change (2 ^ 24) with 16777216. change (2 ^ 16) with 65536.
  change (2 ^ 8) with 256. change (2 ^ 32) with 4294967296 in H.
  assert (n / 65536 = n / 256 / 256) as -> by (rewrite Z.div_div by lia; done).
  assert (n / 16777216 = n / 256 / 256 / 256) as ->
    by (rewrite !Z.div_div by lia; done).
  set (q1 := n / 256). set (q2 := q1 / 256). set (q3 := q2 / 256).
  assert (0 <= q3 < 256) by (unfold q3, q2, q1; rewrite !Z.div_div by lia;
    split; [apply Z.div_pos; lia|apply Z.div_lt_upper_bound; lia]).
  rewrite (Z.mod_small q3) by lia.
  pose proof (Z.div_mod n 256 ltac:(lia) : n = 256 * q1 + n mod 256).
  pose proof (Z.div_mod q1 256 ltac:(lia) : q1 = 256 * q2 + q1 mod 256).
  pose proof (Z.div_mod q2 256 ltac:(lia) : q2 = 256 * q3 + q2 mod 256).
  clearbody q1 q2 q3. lia.
Qed.

Lemma Uint32_range b : length b = 4%nat → 0 <= Uint32 b < 2 ^ 32.
Proof.
  destruct b as [|b0 [|b1 [|b2 [|b3 [|]]]]]; try done. intros _. rewrite Uint32_sum.
  pose proof (byte_val_range b0). pose proof (byte_val_range b1).
  pose proof (byte_val_range b2). pose proof (byte_val_range b3). lia.
Qed.

Lemma Uint32_inj a b :
  length a = 4%nat → length b = 4%nat → Uint32 a = Uint32 b → a = b.
Proof.
  destruct a as [|a0 [|a1 [|a2 [|a3 [|]]]]]; try done. intros _.
  destruct b as [|b0 [|b1 [|b2 [|b3 [|]]]]]; try done. intros _. rewrite !Uint32_sum.
  change (2 ^ 24) with 16777216. change (2 ^ 16) with 65536. change (2 ^ 8) with 256.
  intros E.
  pose proof (byte_val_range a0). pose proof (byte_val_range a1).
  pose proof (byte_val_range a2). pose proof (byte_val_range a3).
  pose proof (byte_val_range b0). pose proof (byte_val_range b1).
  pose proof (byte_val_range b2). pose proof (byte_val_range b3).
  assert (byte_val a3 = byte_val b3) by lia. assert (byte_val a2 = byte_val b2) by lia.
  assert (byte_val a1 = byte_val b1) by lia. assert (byte_val a0 = byte_val b0) by lia.
  repeat f_equal; by apply byte_val_inj.
Qed.

Lemma PutUint32_Uint32 b : length b = 4%nat → PutUint32 (Uint32 b) = b.
Proof.
  intros H. apply Uint32_inj; [done|done|]. by apply Uint32_PutUint32, Uint32_range.
Qed.

Lemma length_frame_header f : length (frame_header f) = HeaderSize.
Proof. done. Qed.

Lemma length_wire f : length (wire f) = (HeaderSize + length (Payload f))%nat.
Proof. unfold wire. by rewrite length_app. Qed.

#[export] Hint Rewrite length_wire length_frame_header length_PutUint32 : wmux_len.

Lemma ReadFull_app p rest e :
  ReadFull (length p) (mkReader (p ++ rest) e) = (inl p, mkReader rest e).
Proof.
  unfold ReadFull; simpl. rewrite decide_True by len.
  by rewrite take_app_length, drop_app_length.
Qed.

Lemma ReadFull_inl n r p r' :
  ReadFull n r = (inl p, r') →
  rd_data r = p ++ rd_data r' ∧ length p = n ∧ rd_err r' = rd_err r.
Proof.
  unfold ReadFull. case_decide; [|done]. intros [= <- <-]. simpl.
  rewrite take_drop, length_take. split_and!; [done|lia|done].
Qed.

Lemma ReadFull_inr n r p r' :
  ReadFull n r = (inr p, r') →
  (length (rd_data r) < n)%nat ∧ r' = mkReader [] (rd_err r) ∧
  p = match rd_err r with None => EndOfFile | Some e => ReadError e end.
Proof. unfold ReadFull. case_decide; [done|]. intros [= <- <-]. split; [lia|done]. Qed.

Lemma max_payload_u32 n : 0 <= n <= MaxPayloadSize → 0 <= n < 2 ^ 32.
Proof. unfold MaxPayloadSize. lia. Qed.

Lemma Decode_wire f rest e :
  valid_frame f → Decode (mkReader (wire f ++ rest) e) = (Ok f, mkReader rest e).
Proof.
  intros [Hv Hl]. destruct f as [v t p]; simpl in Hv, Hl. subst v.
  unfold Decode, wire. rewrite <- app_assoc.
  rewrite <- (length_frame_header (mkFrame ProtocolVersion t p)), ReadFull_app.
  cbn [frame_header Version Type_ Payload].
  rewrite bool_decide_true by done. cbn [negb].
  rewrite Z.mod_small, Uint32_PutUint32 by (apply max_payload_u32; lia).
  rewrite bool_decide_false by lia. case_bool_decide as Hp.
  - by rewrite Nat2Z.id, ReadFull_app.
  - by destruct p; [|simpl in Hp; lia].
Qed.

Lemma Decode_Ok_inv r f r' :
  Decode r = (Ok f, r') →
  valid_frame f ∧ rd_data r = wire f ++ rd_data r' ∧ rd_err r' = rd_err r.
Proof.
  unfold Decode. destruct (ReadFull HeaderSize r) as [[h|[|e]] r1] eqn:E1; try done.
  apply ReadFull_inl in E1 as (Hd & Hlen & He).
  destruct h as [|v [|t len]]; try done.
  assert (Hl4 : length len = 4%nat) by (simpl in Hlen; unfold HeaderSize in Hlen; lia).
  pose proof (Uint32_range len Hl4) as Hr.
  case_bool_decide as Hv; [|done]. subst v. cbn [negb].
  case_bool_decide as Hmax; [done|]. case_bool_decide as Hpos.
  - destruct (ReadFull (Z.to_nat (Uint32 len)) r1) as [[p|[|e]] r2] eqn:E2; try done.
    apply ReadFull_inl in E2 as (Hd2 & Hlp & He2). intros [= <- <-].
    unfold valid_frame, wire, frame_header. cbn [Version Type_ Payload].
    split_and!; [done|lia| |congruence].
    rewrite Hlp, Z2Nat.id, Z.mod_small, PutUint32_Uint32 by (done || lia).
    rewrite Hd, Hd2. cbn [app]. by rewrite <- app_assoc.
  - intros [= <- <-]. unfold valid_frame, wire, frame_header.
    cbn [Version Type_ Payload length].
    split_and!; [done|unfold MaxPayloadSize; lia| |done].
    replace (Z.of_nat 0 mod 2 ^ 32) with (Uint32 len) by (change (Z.of_nat 0 mod 2 ^ 32) with 0; lia).
    rewrite PutUint32_Uint32 by done. by rewrite Hd, app_nil_r.
Qed.

Lemma WriteFrame_valid w f :
  wr_room w = None → valid_frame f →
  WriteFrame w f = (None, mkWriter (wr_out w ++ wire f) None (wr_err w)).
Proof.
  intros Hr [_ Hl]. unfold WriteFrame, Encode. rewrite bool_decide_false by lia.
  unfold Write. rewrite Hr. cbn [wr_room wr_out wr_err]. unfold wire.
  case_bool_decide as Hp.
  - by rewrite <- app_assoc.
  - destruct (Payload f); [by rewrite app_nil_r|simpl in Hp; lia].
Qed.

Lemma read_loop_wires fs n e :
  Forall valid_frame fs → (length fs < n)%nat →
  read_loop n (mkReader (concat (wire <$> fs)) e) =
    (fs, Some (EWrap #"conn read" match e with
                                  | None => ErrShortRead
                                  | Some e => EWrap #"protocol: read header" e
                                  end)).
Proof.
  intros Hv. revert n. induction Hv as [|f fs Hf Hv IH]; intros n Hn; simpl in Hn.
  - destruct n; [lia|]. simpl. by destruct e.
  - destruct n as [|n]; [lia|]. cbn [read_loop fmap list_fmap concat].
    unfold ReadFrame. rewrite Decode_wire by done. simpl. by rewrite IH by lia.
Qed.

Lemma write_all_valid w fs :
  wr_room w = None → Forall valid_frame fs →
  write_all w fs = (None, mkWriter (wr_out w ++ concat (wire <$> fs)) None (wr_err w)).
Proof.
  intros Hr Hv. revert w Hr. induction Hv as [|f fs Hf Hv IH]; intros w Hr; simpl.
  - rewrite app_nil_r. destruct w; simpl in *. by subst.
  - rewrite WriteFrame_valid by done. rewrite IH by done. simpl. by rewrite <- app_assoc.
Qed.

Lemma length_concat_wires fs : (length fs <= length (concat (wire <$> fs)))%nat.
Proof.
  induction fs as [|f fs IH]; [done|]. cbn [fmap list_fmap concat length].
  rewrite length_app, length_wire. unfold HeaderSize. lia.
Qed.

(** ** Theorems *)

(** C1: a reader that decodes a frame has consumed exactly the bytes that
    [Encode] writes for it, and every such frame decodes: the decoder accepts
    a prefix of the stream precisely when it is the wire form of a frame of
    this protocol version with a payload of at most [MaxPayloadSize] bytes. *)
Theorem Decode_accepts_exactly_wire_frames r f r' :
  Decode r = (Ok f, r') ↔
    valid_frame f ∧ rd_data r = wire f ++ rd_data r' ∧ rd_err r' = rd_err r.
Proof.
  split; [apply Decode_Ok_inv|].
  intros (Hv & Hd & He). destruct r as [d e], r' as [d' e']; simpl in *; subst.
  by apply Decode_wire.
Qed.

(** C2: a sequence of frames within bounds, written in turn to a connection
    that accepts them, is read back by the reading loop of the other end as
    the same sequence, after which the loop stops with a short read. *)
Theorem frames_written_are_frames_read fs werr :
  Forall valid_frame fs →
  ∃ out, write_all (mkWriter [] None werr) fs = (None, mkWriter out None werr) ∧
    read_all (mkReader out None) = (fs, Some (EWrap #"conn read" ErrShortRead)).
Proof.
  intros Hv. exists (concat (wire <$> fs)). split; [by rewrite write_all_valid|].
  unfold read_all. apply (read_loop_wires fs _ None Hv).
  pose proof (length_concat_wires fs). simpl. lia.
Qed.

Lemma frames_written_are_frames_read_witness :
  Forall valid_frame [mkFrame x01 MsgList []; mkFrame x01 MsgOK #"[]"] ∧
  ∃ out, write_all (mkWriter [] None ErrShortRead)
      [mkFrame x01 MsgList []; mkFrame x01 MsgOK #"[]"] =
        (None, mkWriter out None ErrShortRead) ∧
    read_all (mkReader out None) =
      ([mkFrame x01 MsgList []; mkFrame x01 MsgOK #"[]"],
       Some (EWrap #"conn read" ErrShortRead)).
Proof.
  assert (H : Forall valid_frame [mkFrame x01 MsgList []; mkFrame x01 MsgOK #"[]"])
    by (repeat constructor; vm_compute; done).
  split; [exact H|]. exact (frames_written_are_frames_read _ ErrShortRead H).
Defined.


Lemma Write_spec w p :
  match Write w p with
  | (None, w') => wr_out w' = wr_out w ++ p ∧ wr_err w' = wr_err w
  | (Some e, w') => e = wr_err w ∧
      ∃ n, (n < length p)%nat ∧ wr_out w' = wr_out w ++ take n p
  end.
Proof.
  unfold Write. destruct (wr_room w) as [n|]; [|done].
  case_decide; simpl; [done|]. split; [done|]. exists n. split; [lia|done].
Qed.

Lemma Decode_truncated f n :
  valid_frame f → (n < length (wire f))%nat →
  fst (Decode (mkReader (take n (wire f)) None)) = Err ErrShortRead.
Proof.
  intros Hv Hn. destruct (Decode (mkReader (take n (wire f)) None)) as [[g|e] r'] eqn:E.
  - exfalso. pose proof (Decode_Ok_inv _ _ _ E) as (Hg & Hd & _). cbn [rd_data] in Hd.
    (* the frame read is the one written, since the decoder reads it from the whole wire *)
    assert (Decode (mkReader (wire f ++ []) None) =
      (Ok g, mkReader (rd_data r' ++ drop n (wire f)) None)) as E2.
    { assert (wire f = wire g ++ rd_data r' ++ drop n (wire f)) as Ew
        by (rewrite app_assoc, <- Hd; symmetry; apply take_drop).
      rewrite app_nil_r. rewrite Ew at 1. by apply Decode_wire. }
    rewrite Decode_wire in E2 by done. injection E2 as _ E3.
    symmetry in E3. apply app_eq_nil in E3 as [_ E3].
    apply (f_equal length) in E3. rewrite length_drop in E3. cbn [length] in E3. lia.
  - simpl. unfold Decode in E.
    destruct (ReadFull HeaderSize _) as [[h|[|]] r1] eqn:E1; try by simplify_eq/=.
    + apply ReadFull_inl in E1 as (Hd & Hlh & He). cbn [rd_data rd_err] in Hd, He.
      assert (h = frame_header f) as ->.
      { rewrite <- (take_app_length' h (rd_data r1) HeaderSize) by done. rewrite <- Hd.
        rewrite take_take. unfold wire. apply (f_equal length) in Hd.
        rewrite length_take, length_app in Hd. rewrite Nat.min_l by lia.
        by rewrite take_app_length'. }
      destruct f as [v t p]. destruct Hv as [Hv Hl]. cbn in Hv, Hl. subst v.
      cbn [frame_header Version Type_ Payload] in *.
      rewrite bool_decide_true in E by done. cbn [negb] in E.
      rewrite Z.mod_small, Uint32_PutUint32 in E by (apply max_payload_u32; lia).
      rewrite bool_decide_false in E by lia. case_bool_decide; [|done].
      destruct (ReadFull _ r1) as [[q|[|]] r2] eqn:E2; try by simplify_eq/=.
      apply ReadFull_inr in E2 as (_ & _ & E2). by rewrite He in E2.
    + by apply ReadFull_inr in E1 as (_ & _ & E1).
Qed.

Lemma take_wire f n :
  (n <= HeaderSize)%nat → take n (wire f) = take n (frame_header f).
Proof. intros H. unfold wire. by apply take_app_le. Qed.

(** Encoding a frame either writes the whole of its wire form, or refuses
    an over-long payload before writing anything, or fails with the
    connection's error part of the way; and whatever part was written, the
    peer whose connection then closes reports a short read and never a frame. *)
Theorem Encode_fails_cleanly w f :
  Version f = ProtocolVersion →
  match Encode w f with
  | (None, w') => valid_frame f ∧ wr_out w' = wr_out w ++ wire f
  | (Some e, w') =>
      (e = ErrPayloadTooLarge ∧ ¬ valid_frame f ∧ w' = w) ∨
      (valid_frame f ∧ err_is e (wr_err w) = true ∧
       ∃ sent, wr_out w' = wr_out w ++ sent ∧
         fst (Decode (mkReader sent None)) = Err ErrShortRead)
  end.
Proof.
  intros Hver. unfold Encode. case_bool_decide as Hmax.
  { left. split_and!; [done| |done]. intros [_ ?]. lia. }
  assert (Hv : valid_frame f) by (split; [done|lia]).
  pose proof (Write_spec w (frame_header f)) as H1.
  destruct (Write w (frame_header f)) as [[e|] w1].
  { right. destruct H1 as (-> & n & Hn & Ho). split_and!; [done|auto with wmux|].
    exists (take n (wire f)). rewrite take_wire by (change HeaderSize with (length (frame_header f)); lia).
    split; [done|]. rewrite <- take_wire by (change HeaderSize with (length (frame_header f)); lia).
    apply Decode_truncated; [done|]. rewrite length_wire. unfold HeaderSize in *.
    rewrite length_frame_header in Hn. unfold HeaderSize in Hn. lia. }
  destruct H1 as [Ho He]. case_bool_decide as Hp.
  - pose proof (Write_spec w1 (Payload f)) as H2.
    destruct (Write w1 (Payload f)) as [[e|] w2].
    + right. destruct H2 as (-> & n & Hn & Ho2). rewrite <- He.
      split_and!; [done|auto with wmux|]. exists (take (HeaderSize + n) (wire f)).
      split.
      * by rewrite Ho2, Ho, <- app_assoc.
      * apply Decode_truncated; [done|]. rewrite length_wire. lia.
    + destruct H2 as [Ho2 _]. split; [done|]. by rewrite Ho2, Ho, <- app_assoc.
  - split; [done|]. rewrite Ho. unfold wire.
    destruct (Payload f); [by rewrite app_nil_r|simpl in Hp; lia].
Qed.

Lemma Encode_fails_cleanly_witness :
  let w := mkWriter [] (Some 8%nat) (ENew #"broken pipe") in
  let f := mkFrame x01 MsgOK #"id42" in
  Version f = ProtocolVersion ∧
  match Encode w f with
  | (None, w') => valid_frame f ∧ wr_out w' = wr_out w ++ wire f
  | (Some e, w') =>
      (e = ErrPayloadTooLarge ∧ ¬ valid_frame f ∧ w' = w) ∨
      (valid_frame f ∧ err_is e (wr_err w) = true ∧
       ∃ sent, wr_out w' = wr_out w ++ sent ∧
         fst (Decode (mkReader sent None)) = Err ErrShortRead)
  end.
Proof.
  intros w f. split; [reflexivity|]. exact (Encode_fails_cleanly w f eq_refl).
Defined.
