(* ===== verification/Payload.v ===== *)
(** * Binary payloads of the data and input messages

    [internal/daemon/values.go], and the client's copies of the same format
    in [pkg/client]: [decodeDataPayload] ([stream.go]) and the payload that
    [Client.Write] builds ([session.go]).  The format is
    [[session_id_len:1][session_id:N][data:rest]]; the length is one byte,
    written by the conversion [byte(len(id))]. *)

From S2P Require Import Prelude GoStrings.

#[local] Open Scope Z_scope.

Definition ErrPayloadTooShort : error := ENew #"daemon: payload too short".

Definition errDataPayloadTooShort : error := ENew #"client: data payload too short".

Definition EncodeDataPayload (sessionID data : bytes) : bytes :=
  [byte_of (Z.of_nat (length sessionID))] ++ sessionID ++ data.

(** [AcquireDataPayload] appends the same parts to a pooled buffer cut to
    length zero; [pooled] is what the buffer last held. *)
Definition AcquireDataPayload (pooled sessionID data : bytes) : bytes :=
  let buf := take 0 pooled in
  let buf := buf ++ [byte_of (Z.of_nat (length sessionID))] in
  let buf := buf ++ sessionID in
  buf ++ data.

(** The decoder of both sides: [errShort] is the error of the one that calls it. *)
Definition decode_payload (errShort : error) (payload : bytes) : result (bytes * bytes) :=
  match payload with
  | [] => Err errShort
  | b :: rest =>
      let idLen := Z.to_nat (byte_val b) in
      if bool_decide (length payload < 1 + idLen)%nat then Err errShort
      else Ok (take idLen rest, drop idLen rest)
  end.

Definition DecodeDataPayload : bytes → result (bytes * bytes) :=
  decode_payload ErrPayloadTooShort.

Definition EncodeInputPayload (sessionID data : bytes) : bytes :=
  EncodeDataPayload sessionID data.

Definition DecodeInputPayload (payload : bytes) : result (bytes * bytes) :=
  DecodeDataPayload payload.

(** [pkg/client]: the decoder of the stream channel and the payload of [Write]. *)
Definition decodeDataPayload : bytes → result (bytes * bytes) :=
  decode_payload errDataPayloadTooShort.

Definition client_Write_payload (sessionID data : bytes) : bytes :=
  [byte_of (Z.of_nat (length sessionID))] ++ sessionID ++ data.

(** ** Lemmas *)

Lemma decode_payload_encode e id data :
  Z.of_nat (length id) < 256 →
  decode_payload e (EncodeDataPayload id data) = Ok (id, data).
Proof.
  intros H. unfold EncodeDataPayload. cbn [decode_payload app].
  rewrite byte_val_of, Z.mod_small, Nat2Z.id by lia.
  rewrite bool_decide_false by (cbn [length]; rewrite length_app; lia).
  by rewrite take_app_length, drop_app_length.
Qed.

Lemma decode_payload_long e id data :
  decode_payload e (EncodeDataPayload id data) =
    Ok (take (length id mod 256) id, drop (length id mod 256) id ++ data).
Proof.
  unfold EncodeDataPayload. cbn [decode_payload app].
  rewrite byte_val_of. change 256 with (Z.of_nat 256).
  rewrite <- Nat2Z.inj_mod, Nat2Z.id.
  assert (length id mod 256 <= length id)%nat as Hle by (apply Nat.Div0.mod_le).
  rewrite bool_decide_false by (cbn [length]; rewrite length_app; lia).
  by rewrite take_app_le, drop_app_le by done.
Qed.

Lemma decode_payload_Ok_inv e p id data :
  decode_payload e p = Ok (id, data) →
  Z.of_nat (length id) < 256 ∧ p = EncodeDataPayload id data.
Proof.
  unfold decode_payload. destruct p as [|b rest]; [done|].
  case_bool_decide as Hl; [done|]. intros [= <- <-]. simpl in Hl.
  pose proof (byte_val_range b).
  assert (length (take (Z.to_nat (byte_val b)) rest) = Z.to_nat (byte_val b)) as E
    by (rewrite length_take; lia).
  rewrite E. split; [lia|]. unfold EncodeDataPayload.
  rewrite E, Z2Nat.id, byte_of_val, take_drop by lia. done.
Qed.

(** ** Theorems *)

(** The payload a sender builds for a session identifier of fewer than
    256 bytes decodes, on the daemon's side and on the client's, to exactly
    that identifier and that data, whatever the pooled buffer held before;
    and a payload that decodes is the encoding of what it decodes to. *)
Theorem payload_roundtrip id data pooled :
  Z.of_nat (length id) < 256 →
  DecodeDataPayload (AcquireDataPayload pooled id data) = Ok (id, data) ∧
  decodeDataPayload (AcquireDataPayload pooled id data) = Ok (id, data) ∧
  DecodeInputPayload (client_Write_payload id data) = Ok (id, data) ∧
  (∀ p id' data', DecodeDataPayload p = Ok (id', data') →
    p = AcquireDataPayload pooled id' data').
Proof.
  intros H.
  assert (E : ∀ i d, AcquireDataPayload pooled i d = EncodeDataPayload i d)
    by (intros; unfold AcquireDataPayload; cbn [take app]; by rewrite <- app_assoc).
  rewrite !E. split_and!; try by apply decode_payload_encode.
  intros p id' data' Hd. rewrite E. by apply decode_payload_Ok_inv in Hd as [_ ->].
Qed.

Lemma payload_roundtrip_witness :
  Z.of_nat (length #"proj/shell") < 256 ∧
  DecodeDataPayload (AcquireDataPayload #"old" #"proj/shell" #"ls") = Ok (#"proj/shell", #"ls").
Proof.
  split; [vm_compute; reflexivity|].
  exact (proj1 (payload_roundtrip #"proj/shell" #"ls" #"old" ltac:(vm_compute; reflexivity))).
Defined.

(** The length byte wraps around, so an identifier of 256 bytes or more,
    which nothing in the code refuses, never survives the round trip: the
    receiver gets the identifier cut to its length modulo 256 and the rest of
    it in front of the data, and no error. *)
Theorem payload_long_id_is_corrupted id data :
  256 <= Z.of_nat (length id) →
  DecodeDataPayload (EncodeDataPayload id data) =
    Ok (take (length id mod 256) id, drop (length id mod 256) id ++ data) ∧
  take (length id mod 256) id ≠ id.
Proof.
  intros H. split; [apply decode_payload_long|].
  intros E. apply (f_equal length) in E. rewrite length_take in E.
  pose proof (Nat.mod_upper_bound (length id) 256). lia.
Qed.

Lemma payload_long_id_is_corrupted_witness :
  256 <= Z.of_nat (length (replicate 256 "a"%byte)) ∧
  DecodeDataPayload (EncodeDataPayload (replicate 256 "a"%byte) #"x") =
    Ok ([], replicate 256 "a"%byte ++ #"x").
Proof.
  split; [vm_compute; discriminate|].
  exact (proj1 (payload_long_id_is_corrupted (replicate 256 "a"%byte) #"x"
    ltac:(vm_compute; discriminate))).
Defined.
