(* ===== verification/Ansi.v ===== *)
(** * Escape-sequence stripping: [internal/platform/ansi/strip.go]

    The scanning loops of [Strip] as recursion on the bytes not yet read, and
    a grammar of well-formed terminal output against which [Strip] and
    [ToHTML] are specified. *)

From S2P Require Import Prelude GoStrings.

#[local] Open Scope Z_scope.

Definition ESC : byte := x1b.

Definition BEL : byte := x07.

Definition in_range (lo hi : Z) (b : byte) : bool :=
  bool_decide (lo <= byte_val b <= hi).

(** The inner loop of a CSI sequence: up to and including a byte in
    [0x40..0x7E]. *)
Fixpoint skip_csi (data : bytes) : bytes :=
  match data with
  | [] => []
  | b :: rest => if in_range 64 126 b then rest else skip_csi rest
  end.

(** The inner loop of an OSC sequence: up to and including BEL, or ESC [\]. *)
Fixpoint skip_osc (data : bytes) : bytes :=
  match data with
  | [] => []
  | b :: rest =>
      if decide (b = BEL) then rest
      else match rest with
           | c :: rest' =>
               if decide (b = ESC ∧ c = "\"%byte) then rest' else skip_osc rest
           | [] => []
           end
  end.

(** The outer loop; every round reads at least one byte, so as many rounds as
    bytes are enough. *)
Fixpoint Strip_loop (fuel : nat) (data : bytes) : bytes :=
  match fuel, data with
  | O, _ | _, [] => []
  | S n, b :: rest =>
      if decide (b = ESC) then
        match rest with
        | [] => []
        | c :: rest' =>
            if decide (c = "["%byte) then Strip_loop n (skip_csi rest')
            else if decide (c = "]"%byte) then Strip_loop n (skip_osc rest')
            else Strip_loop n rest'
        end
      else b :: Strip_loop n rest
  end.

Definition Strip (data : bytes) : bytes := Strip_loop (length data) data.

(** ** Well-formed terminal output *)

(** One item of terminal output: a byte of text, a control sequence with its
    parameter, intermediate and final bytes, an operating-system command with
    its terminator (BEL or ESC [\]), or a two-byte escape. *)
Inductive token :=
  | Text (b : byte)
  | Csi (params inter : bytes) (final : byte)
  | Osc (body : bytes) (bel : bool)
  | Esc2 (c : byte).

Definition valid_token (t : token) : Prop :=
  match t with
  | Text b => b ≠ ESC
  | Csi params inter final =>
      Forall (λ b, in_range 48 63 b = true) params ∧
      Forall (λ b, in_range 32 47 b = true) inter ∧ in_range 64 126 final = true
  | Osc body _ => (BEL ∉ body) ∧ contains body [ESC; "\"%byte] = false
  | Esc2 c => c ≠ "["%byte ∧ c ≠ "]"%byte
  end.

Definition render_token (t : token) : bytes :=
  match t with
  | Text b => [b]
  | Csi params inter final => ESC :: "["%byte :: params ++ inter ++ [final]
  | Osc body bel => ESC :: "]"%byte :: body ++ (if bel then [BEL] else [ESC; "\"%byte])
  | Esc2 c => [ESC; c]
  end.

Definition render (ts : list token) : bytes := ts ≫= render_token.

Definition text_of (ts : list token) : bytes :=
  ts ≫= (λ t, match t with | Text b => [b] | _ => [] end).

(** ** Lemmas *)

Lemma skip_csi_length data : (length (skip_csi data) <= length data)%nat.
Proof. induction data as [|b rest IH]; simpl; [lia|]. case_match; simpl; lia. Qed.

Lemma skip_osc_length data : (length (skip_osc data) <= length data)%nat.
Proof.
  induction data as [|b rest IH]; simpl; [lia|].
  case_decide; [lia|]. destruct rest as [|c rest']; [simpl; lia|].
  case_decide; simpl in *; lia.
Qed.

Lemma Strip_loop_fuel n m data :
  (length data <= n)%nat → (length data <= m)%nat →
  Strip_loop n data = Strip_loop m data.
Proof.
  revert m data. induction n as [|n IH]; intros m data Hn Hm.
  { destruct data; [by destruct m|simpl in Hn; lia]. }
  destruct data as [|b rest]; [by destruct m|]. destruct m as [|m]; [simpl in Hm; lia|].
  simpl in Hn, Hm. cbn [Strip_loop]. case_decide; [|f_equal; apply IH; lia].
  destruct rest as [|c rest']; [done|]. simpl in Hn, Hm.
  pose proof (skip_csi_length rest'). pose proof (skip_osc_length rest').
  repeat case_decide; apply IH; lia.
Qed.

Lemma Strip_cons b rest :
  Strip (b :: rest) =
    if decide (b = ESC) then
      match rest with
      | [] => []
      | c :: rest' =>
          if decide (c = "["%byte) then Strip (skip_csi rest')
          else if decide (c = "]"%byte) then Strip (skip_osc rest')
          else Strip rest'
      end
    else b :: Strip rest.
Proof.
  unfold Strip at 1. cbn [length Strip_loop]. case_decide; [|done].
  destruct rest as [|c rest']; [done|].
  pose proof (skip_csi_length rest'). pose proof (skip_osc_length rest').
  repeat case_decide; apply Strip_loop_fuel; simpl; lia.
Qed.

Lemma skip_csi_token params inter final rest :
  valid_token (Csi params inter final) →
  skip_csi (params ++ inter ++ [final] ++ rest) = rest.
Proof.
  intros (Hp & Hi & Hf).
  assert (Hskip : ∀ l r, Forall (λ b, in_range 64 126 b = false) l →
    skip_csi (l ++ r) = skip_csi r).
  { intros l r Hl. induction Hl as [|b l Hb Hl IH]; [done|]. simpl. by rewrite Hb. }
  assert (Hlow : ∀ lo hi b, hi < 64 → in_range lo hi b = true → in_range 64 126 b = false).
  { intros lo hi b Hh. unfold in_range.
    intros ?%bool_decide_eq_true. apply bool_decide_eq_false. lia. }
  rewrite Hskip by (eapply Forall_impl; [exact Hp|]; intros b; by apply Hlow).
  rewrite Hskip by (eapply Forall_impl; [exact Hi|]; intros b; by apply Hlow).
  simpl. by rewrite Hf.
Qed.

Lemma contains_cons_false b s sub :
  contains (b :: s) sub = false → contains s sub = false.
Proof.
  unfold contains. simpl. destruct (has_prefix (b :: s) sub); [done|].
  by destruct (index s sub).
Qed.

Lemma skip_osc_token body (bel : bool) rest :
  valid_token (Osc body bel) →
  skip_osc (body ++ (if bel then [BEL] else [ESC; "\"%byte]) ++ rest) = rest.
Proof.
  intros [Hb Hc]. induction body as [|b body IH].
  { destruct bel; simpl; by repeat case_decide; simplify_eq. }
  assert (b ≠ BEL) as Hne by set_solver.
  specialize (IH ltac:(set_solver) (contains_cons_false _ _ _ Hc)).
  cbn [app skip_osc]. rewrite decide_False by done.
  destruct (body ++ _) as [|c r] eqn:E; [by destruct body, bel|].
  rewrite decide_False; [done|]. intros [-> ->].
  destruct body as [|c' body].
  - destruct bel; simplify_eq/=.
  - injection E as -> _. unfold contains in Hc. simpl in Hc.
    by repeat case_decide.
Qed.

Lemma Strip_token t rest :
  valid_token t →
  Strip (render_token t ++ rest) = text_of [t] ++ Strip rest.
Proof.
  intros Hv. destruct t as [b|params inter final|body bel|c].
  - cbn [render_token app text_of mbind list_bind].
    by rewrite Strip_cons, decide_False by done.
  - cbn [render_token app text_of mbind list_bind].
    rewrite Strip_cons, decide_True, decide_True by done.
    rewrite <- !app_assoc. by rewrite skip_csi_token.
  - cbn [render_token app text_of mbind list_bind].
    rewrite Strip_cons, decide_True, decide_False, decide_True by done.
    rewrite <- !app_assoc. by rewrite skip_osc_token.
  - destruct Hv as [H1 H2]. cbn [render_token app text_of mbind list_bind].
    by rewrite Strip_cons, decide_True, !decide_False by done.
Qed.

Lemma Strip_no_ESC data : ESC ∉ Strip data.
Proof.
  unfold Strip. generalize (length data). intros n. revert data.
  induction n as [|n IH]; intros data; simpl; [set_solver|].
  destruct data as [|b rest]; [set_solver|].
  case_decide; [|apply not_elem_of_cons; auto].
  destruct rest as [|c rest']; [set_solver|]. repeat case_decide; apply IH.
Qed.

Lemma Strip_plain data : ESC ∉ data → Strip data = data.
Proof.
  induction data as [|b rest IH]; intros H; [done|].
  rewrite Strip_cons, decide_False by set_solver. f_equal. apply IH. set_solver.
Qed.

Lemma Strip_render ts : Forall valid_token ts → Strip (render ts) = text_of ts.
Proof.
  intros Hts. induction Hts as [|t ts Ht Hts IH]; [done|].
  change (render (t :: ts)) with (render_token t ++ render ts).
  rewrite Strip_token, IH by done.
  change (text_of (t :: ts)) with
    ((match t with Text b => [b] | _ => [] end) ++ text_of ts).
  unfold text_of at 1. simpl. by rewrite app_nil_r.
Qed.

(** ** Theorems *)

(** C40: on well-formed terminal output [Strip] returns exactly the text, every
    control sequence, operating-system command and two-byte escape removed;
    on any bytes whatever the result contains no escape byte, so stripping
    it again changes nothing. *)
Theorem Strip_correct :
  (∀ ts, Forall valid_token ts → Strip (render ts) = text_of ts) ∧
  (∀ data, (ESC ∉ Strip data) ∧ Strip (Strip data) = Strip data).
Proof.
  split; [apply Strip_render|].
  intros data. split; [apply Strip_no_ESC|]. apply Strip_plain, Strip_no_ESC.
Qed.

Example Strip_example :
  Strip (#"a" ++ [ESC] ++ #"[1;31mred" ++ [ESC] ++ #"]0;title" ++ [BEL] ++ #"!" ++ [ESC] ++ #"M.") =
    #"ared!.".
Proof. reflexivity. Qed.
