(* ===== verification/Html.v ===== *)
(** * Terminal output as HTML: [internal/platform/ansi/html.go]

    The SGR state, the interpretation of SGR parameters and the loop of
    [ToHTML], with the shape of its output: a [pre] element that holds escaped
    text and flat, closed [span] elements whose style attribute the input
    cannot break out of. *)

From S2P Require Import Prelude GoStrings Ansi.

#[local] Open Scope Z_scope.

(** ** State and styles *)

Definition basic16 : list bytes :=
  [ #"#000000"; #"#aa0000"; #"#00aa00"; #"#aa5500"; #"#0000aa"; #"#aa00aa"; #"#00aaaa"; #"#aaaaaa";
   #"#555555"; #"#ff5555"; #"#55ff55"; #"#ffff55"; #"#5555ff"; #"#ff55ff"; #"#55ffff"; #"#ffffff"].

(** [basic16[i]], for the indices the code computes. *)
Definition basic (i : Z) : bytes := basic16 !!! Z.to_nat i.

Record sgrState := mkSgr {
  bold : bool;
  italic : bool;
  underline : bool;
  fg : bytes;
  bg : bytes;
}.

Definition reset : sgrState := mkSgr false false false [] [].

Definition style (s : sgrState) : bytes :=
  let parts :=
    (if bold s then [ #"font-weight:bold"] else []) ++
    (if italic s then [ #"font-style:italic"] else []) ++
    (if underline s then [ #"text-decoration:underline"] else []) ++
    (if decide (fg s = []) then [] else [ #"color:" ++ fg s]) ++
    (if decide (bg s = []) then [] else [ #"background-color:" ++ bg s]) in
  match parts with
  | [] => []
  | _ => join #";" parts
  end.

(** [fmt.Sprintf("rgb(%d,%d,%d)", r, g, b)]. *)
Definition rgb (r g b : Z) : bytes :=
  #"rgb(" ++ itoa r ++ #"," ++ itoa g ++ #"," ++ itoa b ++ #")".

Definition color256 (idx : Z) : bytes :=
  if bool_decide (idx < 0) || bool_decide (255 < idx) then []
  else if bool_decide (idx < 16) then basic idx
  else if bool_decide (idx < 232) then
    let idx := idx - 16 in
    rgb (idx / 36 * 51) ((idx / 6) mod 6 * 51) (idx mod 6 * 51)
  else
    let v := (idx - 232) * 10 + 8 in
    rgb v v v.

(** ** SGR parameters *)

(** The extended colour after code 38 or 48: what the code does with the codes
    that follow it, as the new colour (if any) and the codes still unread. *)
Definition extended_color (codes : list bytes) : option bytes * list bytes :=
  match codes with
  | [] => (None, [])
  | m :: rest =>
      let mode := fst (atoi m) in
      match rest with
      | c :: rest' =>
          if decide (mode = 5) then (Some (color256 (fst (atoi c))), rest')
          else match rest with
               | r :: g :: b :: rest'' =>
                   if decide (mode = 2)
                   then (Some (rgb (fst (atoi r)) (fst (atoi g)) (fst (atoi b))), rest'')
                   else (None, rest)
               | _ => (None, rest)
               end
      | [] => (None, rest)
      end
  end.

Definition between (lo hi n : Z) : bool := bool_decide (lo <= n) && bool_decide (n <= hi).

(** The [switch] on one code, for all cases but 38 and 48. *)
Definition simple_code (s : sgrState) (n : Z) : sgrState :=
  let '(mkSgr bo it un f b) := s in
  if decide (n = 0) then reset
  else if decide (n = 1) then mkSgr true it un f b
  else if decide (n = 3) then mkSgr bo true un f b
  else if decide (n = 4) then mkSgr bo it true f b
  else if decide (n = 22) then mkSgr false it un f b
  else if decide (n = 23) then mkSgr bo false un f b
  else if decide (n = 24) then mkSgr bo it false f b
  else if between 30 37 n then mkSgr bo it un (basic (n - 30)) b
  else if decide (n = 39) then mkSgr bo it un [] b
  else if between 40 47 n then mkSgr bo it un f (basic (n - 40))
  else if decide (n = 49) then mkSgr bo it un f []
  else if between 90 97 n then mkSgr bo it un (basic (n - 90 + 8)) b
  else if between 100 107 n then mkSgr bo it un f (basic (n - 100 + 8))
  else s.

(** The loop over the codes; every round reads at least one. *)
Fixpoint applySGR_loop (fuel : nat) (s : sgrState) (codes : list bytes) : sgrState :=
  match fuel, codes with
  | O, _ | _, [] => s
  | S k, c :: rest =>
      match atoi c with
      | (_, Some _) => applySGR_loop k s rest
      | (n, None) =>
          if decide (n = 38) then
            let '(col, rest) := extended_color rest in
            applySGR_loop k (mkSgr (bold s) (italic s) (underline s) (default (fg s) col) (bg s)) rest
          else if decide (n = 48) then
            let '(col, rest) := extended_color rest in
            applySGR_loop k (mkSgr (bold s) (italic s) (underline s) (fg s) (default (bg s) col)) rest
          else applySGR_loop k (simple_code s n) rest
      end
  end.

Definition applySGR (s : sgrState) (params : bytes) : sgrState :=
  match params with
  | [] => reset
  | _ =>
      let codes := split ";"%byte params in
      applySGR_loop (length codes) s codes
  end.

(** ** Conversion *)

Definition pre_open : bytes :=
  #"<pre style=" ++ [x22] ++
  #"font-family:monospace;background:#000;color:#aaa;padding:8px" ++ [x22] ++ #">".

Definition span_open (sty : bytes) : bytes :=
  #"<span style=" ++ [x22] ++ sty ++ [x22] ++ #">".

(** [html.EscapeString] on the text of one byte. *)
Definition escape_byte (b : byte) : bytes :=
  if decide (b = "&"%byte) then #"&amp;"
  else if decide (b = "'"%byte) then #"&#39;"
  else if decide (b = "<"%byte) then #"&lt;"
  else if decide (b = ">"%byte) then #"&gt;"
  else if decide (b = x22) then #"&#34;"
  else [b].

Definition flushSpan (spanOpen : bool) : bytes := if spanOpen then #"</span>" else [].

Definition openSpan (s : sgrState) : bytes * bool :=
  if decide (style s = []) then ([], false) else (span_open (style s), true).

(** The bytes of a run at the front of [data] that satisfy [p], and the rest. *)
Fixpoint span_while (p : byte → bool) (data : bytes) : bytes * bytes :=
  match data with
  | [] => ([], [])
  | b :: rest =>
      if p b then let '(r, q) := span_while p rest in (b :: r, q) else ([], data)
  end.

(** The main loop: what it still writes after the bytes written so far. *)
Fixpoint ToHTML_loop (fuel : nat) (data : bytes) (state : sgrState) (spanOpen : bool) : bytes :=
  match fuel, data with
  | O, _ | _, [] => flushSpan spanOpen
  | S n, b :: rest =>
      if decide (b = ESC) then
        match rest with
        | [] => flushSpan spanOpen
        | c :: rest' =>
            if decide (c = "["%byte) then
              let '(params, d1) := span_while (in_range 48 63) rest' in
              let '(inter, d2) := span_while (in_range 32 47) d1 in
              match d2 with
              | [] => flushSpan spanOpen
              | finalByte :: d3 =>
                  if decide (finalByte = "m"%byte) then
                    let state' := applySGR state (params ++ inter) in
                    let '(opening, open') := openSpan state' in
                    flushSpan spanOpen ++ opening ++ ToHTML_loop n d3 state' open'
                  else ToHTML_loop n d3 state spanOpen
              end
            else if decide (c = "]"%byte) then ToHTML_loop n (skip_osc rest') state spanOpen
            else ToHTML_loop n rest' state spanOpen
        end
      else escape_byte b ++ ToHTML_loop n rest state spanOpen
  end.

Definition ToHTML (data : bytes) : bytes :=
  pre_open ++ ToHTML_loop (length data) data reset false ++ #"</pre>".

(** ** The shape of the output *)

(** A stretch of text under one style; the empty style has no element. *)
Record run := mkRun { run_style : bytes; run_text : bytes }.

Definition escape (s : bytes) : bytes := s ≫= escape_byte.

Definition render_run (r : run) : bytes :=
  if decide (run_style r = []) then escape (run_text r)
  else span_open (run_style r) ++ escape (run_text r) ++ #"</span>".

(** The bytes a style attribute is made of: nothing that ends the attribute,
    the tag, or starts a character reference. *)
Definition style_byte (b : byte) : Prop := b ∉ [x22; "'"%byte; "<"%byte; ">"%byte; "&"%byte].

Definition run_chars (r : run) : list (bytes * byte) := pair (run_style r) <$> run_text r.

(** What a terminal that keeps an SGR state shows: every byte of text with the
    style in force. *)
Fixpoint styled_text (s : sgrState) (ts : list token) : list (bytes * byte) :=
  match ts with
  | [] => []
  | Text b :: ts => (style s, b) :: styled_text s ts
  | Csi params inter final :: ts =>
      if decide (final = "m"%byte) then styled_text (applySGR s (params ++ inter)) ts
      else styled_text s ts
  | _ :: ts => styled_text s ts
  end.

(** [shape s out chars]: [out] is what the loop writes in state [s], namely the
    rest of the current run, and then runs, which show [chars]. *)
Definition shape (s : sgrState) (out : bytes) (chars : list (bytes * byte)) : Prop :=
  ∃ txt runs,
    out = escape txt ++ flushSpan (bool_decide (style s ≠ [])) ++ (runs ≫= render_run) ∧
    chars = (pair (style s) <$> txt) ++ (runs ≫= run_chars) ∧
    Forall (λ r, Forall style_byte (run_style r)) runs.

Definition safe_state (s : sgrState) : Prop :=
  Forall style_byte (fg s) ∧ Forall style_byte (bg s).

(** ** Lemmas *)

#[local] Instance style_byte_dec b : Decision (style_byte b).
Proof. unfold style_byte. apply _. Defined.

Lemma style_bytes_dec s : bool_decide (Forall style_byte s) = true → Forall style_byte s.
Proof. apply bool_decide_eq_true. Qed.

Lemma basic_safe i : Forall style_byte (basic i).
Proof.
  unfold basic. generalize (Z.to_nat i). intros n.
  do 16 (destruct n as [|n]; [by apply style_bytes_dec|]). apply Forall_nil_2.
Qed.

Lemma itoa_safe z : Forall style_byte (itoa z).
Proof.
  eapply Forall_impl; [apply itoa_chars|]. intros b Hb.
  assert (is_digit b = true ∨ b = "-"%byte → style_byte b) as Hs; [|by apply Hs].
  clear. intros [Hd| ->]; [|by apply (bool_decide_unpack _)].
  apply bool_decide_eq_true in Hd. unfold style_byte.
  rewrite !not_elem_of_cons.
  split_and!; try (intros ->; destruct Hd as [H1 H2]; by (apply H1 || apply H2)).
  apply not_elem_of_nil.
Qed.

Lemma rgb_safe r g b : Forall style_byte (rgb r g b).
Proof.
  unfold rgb. rewrite !Forall_app.
  split_and!; try apply itoa_safe; by apply style_bytes_dec.
Qed.

Lemma color256_safe i : Forall style_byte (color256 i).
Proof. unfold color256. cases; auto using basic_safe, rgb_safe. Qed.

Lemma extended_color_safe codes c rest :
  extended_color codes = (Some c, rest) → Forall style_byte c.
Proof. unfold extended_color. intros H. cases; auto using color256_safe, rgb_safe. Qed.

Lemma simple_code_safe s n : safe_state s → safe_state (simple_code s n).
Proof.
  destruct s as [bo it un f b]. unfold safe_state. simpl. intros [Hf Hb].
  repeat case_match; simpl; auto using basic_safe.
Qed.

Lemma applySGR_loop_safe k s codes : safe_state s → safe_state (applySGR_loop k s codes).
Proof.
  revert s codes. induction k as [|k IH]; intros s codes Hs; [done|].
  cbn [applySGR_loop]. destruct codes as [|c rest]; [done|].
  destruct (atoi c) as [n [e|]]; [by apply IH|].
  destruct Hs as [Hf Hb].
  repeat case_decide; [..|by apply IH, simple_code_safe];
    destruct (extended_color rest) as [[col|] rest'] eqn:E; apply IH; split; simpl;
    eauto using extended_color_safe.
Qed.

Lemma applySGR_safe s p : safe_state s → safe_state (applySGR s p).
Proof.
  intros Hs. unfold applySGR. destruct p; [by split|]. by apply applySGR_loop_safe.
Qed.

Lemma join_safe sep parts :
  Forall style_byte sep → Forall (Forall style_byte) parts → Forall style_byte (join sep parts).
Proof.
  intros Hs Hp. induction Hp as [|p ps Hp Hps IH]; [done|].
  destruct ps; [done|]. rewrite join_cons, !Forall_app by done. done.
Qed.

Lemma style_safe s : safe_state s → Forall style_byte (style s).
Proof.
  intros [Hf Hb]. unfold style.
  assert (∀ sep parts, Forall style_byte sep → Forall (Forall style_byte) parts →
    Forall style_byte (match parts with [] => [] | _ => join sep parts end)) as Hj.
  { intros sep parts ? ?. destruct parts; [done|]. by apply join_safe. }
  apply Hj; [by apply style_bytes_dec|]. rewrite !Forall_app.
  split_and!; case_match; try (by constructor); apply Forall_singleton.
  all: try by apply style_bytes_dec.
  all: apply Forall_app; split; [by apply style_bytes_dec|done].
Qed.

Lemma shape_close s : shape s (flushSpan (bool_decide (style s ≠ []))) [].
Proof. exists [], []. split_and!; [|done|done]. cbn [escape mbind list_bind app]. by rewrite app_nil_r. Qed.

Lemma shape_text s b out chars :
  shape s out chars → shape s (escape_byte b ++ out) ((style s, b) :: chars).
Proof.
  intros (txt & runs & -> & -> & Hs). exists (b :: txt), runs. split_and!; [|done|done].
  unfold escape. cbn [mbind list_bind]. by rewrite <- app_assoc.
Qed.

Lemma shape_sgr s s' out chars :
  safe_state s' → shape s' out chars →
  shape s (flushSpan (bool_decide (style s ≠ [])) ++ fst (openSpan s') ++ out) chars.
Proof.
  intros Hsafe (txt & runs & -> & -> & Hs).
  exists [], (mkRun (style s') txt :: runs). split_and!.
  - cbn [escape mbind list_bind app]. f_equal. unfold render_run, openSpan. cbn [run_style run_text].
    repeat case_decide; rewrite ?bool_decide_false, ?bool_decide_true by naive_solver;
      cbn [fst flushSpan app]; by rewrite <- ?app_assoc.
  - done.
  - constructor; [by apply style_safe|done].
Qed.

Lemma openSpan_snd s : snd (openSpan s) = bool_decide (style s ≠ []).
Proof. unfold openSpan. case_decide; simpl; [rewrite bool_decide_false|rewrite bool_decide_true]; naive_solver. Qed.

Lemma ToHTML_loop_shape n data s :
  safe_state s →
  ∃ chars, shape s (ToHTML_loop n data s (bool_decide (style s ≠ []))) chars.
Proof.
  revert data s. induction n as [|n IH]; intros data s Hs; [eexists; apply shape_close|].
  cbn [ToHTML_loop]. destruct data as [|b rest]; [eexists; apply shape_close|].
  case_decide.
  2: { destruct (IH rest s Hs) as [chars H2]. eexists. by apply shape_text. }
  destruct rest as [|c rest']; [eexists; apply shape_close|].
  case_decide; [|case_decide; by apply IH].
  destruct (span_while (in_range 48 63) rest') as [params d1].
  destruct (span_while (in_range 32 47) d1) as [inter d2].
  destruct d2 as [|f d3]; [eexists; apply shape_close|].
  case_decide; [|by apply IH].
  pose proof (applySGR_safe s (params ++ inter) Hs) as Hs'.
  destruct (IH d3 _ Hs') as [chars Hc]. rewrite <- openSpan_snd in Hc.
  destruct (openSpan (applySGR s (params ++ inter))) as [o op] eqn:E.
  exists chars. change o with (fst (o, op)). rewrite <- E. by apply shape_sgr.
Qed.

Lemma span_while_app p l r :
  Forall (λ b, p b = true) l → (∀ b r', r = b :: r' → p b = false) →
  span_while p (l ++ r) = (l, r).
Proof.
  intros Hl Hr. induction Hl as [|b l Hb Hl IH].
  - destruct r as [|b r']; [done|]. simpl. by rewrite (Hr b r').
  - simpl. by rewrite Hb, IH.
Qed.

Lemma ToHTML_loop_csi n params inter final rest s o :
  valid_token (Csi params inter final) →
  ToHTML_loop (S n) (render_token (Csi params inter final) ++ rest) s o =
    if decide (final = "m"%byte) then
      flushSpan o ++ fst (openSpan (applySGR s (params ++ inter))) ++
        ToHTML_loop n rest (applySGR s (params ++ inter))
          (snd (openSpan (applySGR s (params ++ inter))))
    else ToHTML_loop n rest s o.
Proof.
  intros (Hp & Hi & Hf). cbn [render_token app ToHTML_loop].
  rewrite decide_True, decide_True by done. rewrite <- !app_assoc.
  rewrite span_while_app; [|done|].
  - rewrite span_while_app; [|done|].
    + cbn [app]. case_decide; [|done]. by destruct (openSpan _).
    + intros b r' [= <- <-]. unfold in_range in *. apply bool_decide_eq_true in Hf.
      apply bool_decide_eq_false. lia.
  - intros b r' E. unfold in_range in *. apply bool_decide_eq_true in Hf.
    apply bool_decide_eq_false. destruct Hi as [|c l Hc Hl]; [simplify_eq/=; lia|].
    apply bool_decide_eq_true in Hc. simplify_eq/=. lia.
Qed.

Lemma ToHTML_loop_tokens n ts s :
  Forall valid_token ts → (length (render ts) <= n)%nat → safe_state s →
  shape s (ToHTML_loop n (render ts) s (bool_decide (style s ≠ []))) (styled_text s ts).
Proof.
  intros Hts. revert n s. induction Hts as [|t ts Ht Hts IH]; intros n s Hn Hs.
  { destruct n; apply shape_close. }
  change (render (t :: ts)) with (render_token t ++ render ts) in *.
  destruct n as [|n]; [rewrite length_app in Hn; destruct t; simpl in Hn; lia|].
  rewrite length_app in Hn. destruct t as [b|params inter final|body bel|c].
  - cbn [render_token app ToHTML_loop styled_text length] in *.
    rewrite decide_False by done. apply shape_text, IH; [lia|done].
  - rewrite ToHTML_loop_csi by done. cbn [render_token styled_text length] in *.
    case_decide; [|apply IH; [lia|done]]. rewrite openSpan_snd.
    pose proof (applySGR_safe s (params ++ inter) Hs).
    apply shape_sgr; [done|]. apply IH; [lia|done].
  - pose proof (skip_osc_token body bel (render ts) Ht) as Hk.
    cbn [render_token app ToHTML_loop styled_text length] in *.
    rewrite decide_True, decide_False, decide_True by done.
    rewrite <- app_assoc, Hk. apply IH; [lia|done].
  - destruct Ht as [H1 H2]. cbn [render_token app ToHTML_loop styled_text length] in *.
    rewrite decide_True, !decide_False by done. apply IH; [lia|done].
Qed.

Lemma styled_text_snd s ts : (styled_text s ts).*2 = text_of ts.
Proof.
  revert s. induction ts as [|t ts IH]; intros s; [done|].
  destruct t; cbn [styled_text text_of mbind list_bind app]; try case_decide; try apply IH.
  cbn [fmap list_fmap]. f_equal. apply IH.
Qed.

Lemma shape_reset out chars :
  shape reset out chars →
  ∃ runs, out = runs ≫= render_run ∧ chars = runs ≫= run_chars ∧
    Forall (λ r, Forall style_byte (run_style r)) runs.
Proof.
  intros (txt & runs & -> & -> & Hs). exists (mkRun [] txt :: runs).
  split_and!; [|done|by constructor].
  cbn [mbind list_bind]. done.
Qed.

(** ** Theorems *)


Example ToHTML_example :
  ToHTML ([ESC] ++ #"[1;38;5;196m<b>" ++ [ESC] ++ #"[0mok") =
    pre_open ++ span_open #"font-weight:bold;color:rgb(255,0,0)" ++
    #"&lt;b&gt;</span>ok</pre>".
Proof. vm_compute. reflexivity. Qed.
