(* ===== verification/Osc.v ===== *)
(** * Sequences the daemon looks for in terminal output

    [internal/daemon/osc.go] (OSC 7, 9, 99, 133 and 777), [da.go] (device
    attribute requests) and [parseOSC133Value] of [service.go].  Both scanners
    are specified on the well-formed output of [Ansi]: they report exactly the
    sequences that occur in it, in order. *)

From S2P Require Import Prelude GoStrings Ansi.

(** ** OSC sequences ([osc.go]) *)

Inductive OSCType := OSCTypeCwd | OSCTypeNotification | OSCTypeShellReady | OSCType133.

Record OSCResult := mkOSC { osc_Type : OSCType; osc_Value : bytes; osc_Offset : nat }.

#[export] Instance OSCType_eq_decision : EqDecision OSCType.
Proof. solve_decision. Defined.

#[export] Instance OSCResult_eq_decision : EqDecision OSCResult.
Proof. solve_decision. Defined.

Definition oscIntroducer : bytes := [ESC; "]"%byte].

Definition oscTerminatorST : bytes := [ESC; "\"%byte].

Definition pickOSCEnd (endST endBEL : option nat) : option nat :=
  match endST, endBEL with
  | Some s, Some b => if bool_decide (s < b) then Some s else Some b
  | Some s, None => Some s
  | None, Some b => Some b
  | None, None => None
  end.

Section ParseOSC.
(** [url.Parse]: the path of the URL, or [None] when it does not parse. *)
Variable url_Parse_Path : bytes → option bytes.

(** The body of one sequence: its number, its value and what they report. *)
Definition osc_body (body : bytes) (matchStart : nat) : list OSCResult :=
  match index_byte body ";"%byte with
  | None => []
  | Some semicolon =>
      let oscNum := take semicolon body in
      let oscValue := drop (S semicolon) body in
      if decide (oscNum = #"7") then
        match url_Parse_Path oscValue with
        | Some path =>
            if decide (path = []) then [] else [mkOSC OSCTypeCwd path matchStart]
        | None => []
        end
      else if decide (oscNum = #"9") then [mkOSC OSCTypeNotification oscValue matchStart]
      else if decide (oscNum = #"99") then
        [mkOSC OSCTypeNotification
          match split_n 2 ";"%byte oscValue with
          | [_; rest] => rest
          | _ => oscValue
          end matchStart]
      else if decide (oscNum = #"133") then [mkOSC OSCType133 oscValue matchStart]
      else if decide (oscNum = #"777") then
        match split_n 3 ";"%byte oscValue with
        | p0 :: p1 :: ps =>
            if decide (p0 = #"wmux" ∧ p1 = #"shell-ready")
            then [mkOSC OSCTypeShellReady #"shell-ready" matchStart]
            else [mkOSC OSCTypeNotification (match ps with [p2] => p2 | _ => p1 end) matchStart]
        | _ => [mkOSC OSCTypeNotification oscValue matchStart]
        end
      else []
  end.

(** The scanning loop; a round moves the cursor on by at least two bytes. *)
Fixpoint ParseOSC_loop (fuel : nat) (data : bytes) (cursor : nat) : list OSCResult :=
  match fuel with
  | 0 => []
  | S n =>
      match index (drop cursor data) oscIntroducer with
      | None => []
      | Some idx =>
          let matchStart := cursor + idx in
          let cursor := matchStart + 2 in
          let endST := index (drop cursor data) oscTerminatorST in
          let endBEL := index_byte (drop cursor data) BEL in
          match pickOSCEnd endST endBEL with
          | None => []
          | Some end_ =>
              let bodyEnd := cursor + end_ in
              let body := take end_ (drop cursor data) in
              osc_body body matchStart ++ ParseOSC_loop n data (bodyEnd + 1)
          end
      end
  end.

Definition ParseOSC (data : bytes) : list OSCResult :=
  ParseOSC_loop (S (length data)) data 0.
End ParseOSC.

(** ** OSC 133 payloads ([service.go]) *)

(** The code byte and the exit status; an empty payload has code 0. *)
Definition parseOSC133Value (v : bytes) : byte * Z :=
  match v with
  | [] => (x00, 0%Z)
  | code :: _ =>
      if bool_decide (code = "D"%byte) && bool_decide (2 < length v) then
        let rest := drop 2 v in
        let rest := match index_byte rest ";"%byte with
                    | Some semi => take semi rest
                    | None => rest
                    end in
        (code, fst (atoi rest))
      else (code, 0%Z)
  end.

(** ** Device attribute requests ([da.go]) *)

Inductive DAType := DATypeDA1 | DATypeDA2.

#[export] Instance DAType_eq_decision : EqDecision DAType.
Proof. solve_decision. Defined.

Definition da2Seq0 : bytes := ESC :: #"[>0c".

Definition da2Seq : bytes := ESC :: #"[>c".

Definition da1Seq0 : bytes := ESC :: #"[0c".

Definition da1Seq : bytes := ESC :: #"[c".

(** The scanning loop; every round moves past the next ESC. *)
Fixpoint ParseDA_loop (fuel : nat) (data : bytes) (i : nat) : list DAType :=
  match fuel with
  | 0 => []
  | S n =>
      match index_byte (drop i data) ESC with
      | None => []
      | Some idx =>
          let pos := i + idx in
          let tail := drop pos data in
          if has_prefix tail da2Seq0 then DATypeDA2 :: ParseDA_loop n data (pos + length da2Seq0)
          else if has_prefix tail da2Seq then DATypeDA2 :: ParseDA_loop n data (pos + length da2Seq)
          else if has_prefix tail da1Seq0 then DATypeDA1 :: ParseDA_loop n data (pos + length da1Seq0)
          else if has_prefix tail da1Seq then DATypeDA1 :: ParseDA_loop n data (pos + length da1Seq)
          else ParseDA_loop n data (pos + 1)
      end
  end.

Definition ParseDA (data : bytes) : list DAType := ParseDA_loop (S (length data)) data 0.

Definition DA1Response : bytes := ESC :: #"[?62;22c".

Definition DA2Response : bytes := ESC :: #"[>1;0;0c".

(** ** What well-formed output asks for *)

(** Two-byte escapes of ESC itself would hide the start of the next token. *)
Definition plain_token (t : token) : Prop :=
  valid_token t ∧ match t with Esc2 c => c ≠ ESC | _ => True end.

(** For device attributes also the bodies of OSC sequences hold no ESC. *)
Definition simple_token (t : token) : Prop :=
  plain_token t ∧ match t with Osc body _ => ESC ∉ body | _ => True end.

(** Strictly increasing positions. *)
Fixpoint increasing (l : list nat) : Prop :=
  match l with
  | [] => True
  | x :: l => Forall (lt x) l ∧ increasing l
  end.

(** The reports of the OSC sequences of [ts], which starts at offset [off]. *)
Fixpoint osc_of (url : bytes → option bytes) (off : nat) (ts : list token) : list OSCResult :=
  match ts with
  | [] => []
  | t :: ts =>
      match t with
      | Osc body _ => osc_body url body off
      | _ => []
      end ++ osc_of url (off + length (render_token t)) ts
  end.

Definition da_kind (params : bytes) (final : byte) : list DAType :=
  if decide (final = "c"%byte) then
    if decide (params = #">0" ∨ params = #">") then [DATypeDA2]
    else if decide (params = #"0" ∨ params = []) then [DATypeDA1]
    else []
  else [].

Definition da_of (ts : list token) : list DAType :=
  ts ≫= (λ t, match t with
              | Csi params inter final => da_kind (params ++ inter) final
              | _ => []
              end).

(** ** Lemmas *)

Lemma index_cons x s sub :
  index (x :: s) sub = if has_prefix (x :: s) sub then Some 0 else S <$> index s sub.
Proof. done. Qed.

Lemma index_skip s r p :
  ESC ∉ s → index (s ++ r) (ESC :: p) = (λ i, length s + i) <$> index r (ESC :: p).
Proof.
  induction s as [|x s IH]; intros Hn;
    [cbn [app]; by destruct (index r (ESC :: p))|].
  cbn [app length]. rewrite index_cons.
  assert (has_prefix (x :: s ++ r) (ESC :: p) = false) as ->.
  { cbn [has_prefix]. by rewrite bool_decide_false by set_solver. }
  rewrite IH by set_solver. by destruct (index r _).
Qed.

(** A scan for ESC [c] passes over ESC and a byte other than [c]. *)
Lemma index_skip_esc x c s r :
  x ≠ c → ESC ∉ x :: s →
  index ((ESC :: x :: s) ++ r) [ESC; c] = (λ i, length (ESC :: x :: s) + i) <$> index r [ESC; c].
Proof.
  intros Hx Hs. change ((ESC :: x :: s) ++ r) with (ESC :: ((x :: s) ++ r)). rewrite index_cons.
  assert (has_prefix (ESC :: (x :: s) ++ r) [ESC; c] = false) as ->.
  { cbn [has_prefix app]. by rewrite (bool_decide_false (x = c)), andb_false_r. }
  rewrite (index_skip (x :: s)) by done. by destruct (index r _).
Qed.

Lemma in_range_not_ESC lo hi l :
  (27 < lo)%Z → Forall (λ b, in_range lo hi b = true) l → ESC ∉ l.
Proof.
  intros Hlo Hl Hin. rewrite Forall_forall in Hl. apply Hl in Hin.
  apply bool_decide_eq_true in Hin. change (byte_val ESC) with 27%Z in Hin. lia.
Qed.

Lemma csi_no_ESC params inter final :
  valid_token (Csi params inter final) → ESC ∉ params ++ inter ++ [final].
Proof.
  intros (Hp & Hi & Hf). rewrite !not_elem_of_app. split_and!.
  - by eapply (in_range_not_ESC 48 63).
  - by eapply (in_range_not_ESC 32 47).
  - apply (in_range_not_ESC 64 126); [done|]. by constructor.
Qed.

Lemma index_skip_token t r :
  plain_token t → (∀ body bel, t ≠ Osc body bel) →
  index (render_token t ++ r) oscIntroducer =
    (λ i, length (render_token t) + i) <$> index r oscIntroducer.
Proof.
  intros [Hv Hq] Ho. destruct t as [b|params inter final|body bel|c].
  - apply index_skip. simpl in Hv. set_solver.
  - apply index_skip_esc; [done|]. pose proof (csi_no_ESC _ _ _ Hv). set_solver.
  - by destruct (Ho body bel).
  - destruct Hv as [H1 H2]. apply (index_skip_esc c "]"%byte []); [done|set_solver].
Qed.

Lemma ST_not_within body c r i :
  contains body oscTerminatorST = false → c ≠ "\"%byte → i < length body →
  has_prefix (drop i (body ++ c :: r)) oscTerminatorST = false.
Proof.
  intros Hc Hb Hi. unfold contains in Hc.
  destruct (index body oscTerminatorST) eqn:E; [done|]. pose proof (index_None _ _ i E) as Hn.
  rewrite drop_app_le by lia. pose proof (length_drop body i) as Hl.
  destruct (drop i body) as [|x [|y d]] eqn:Ed; [simpl in Hl; lia| |].
  - cbn [app has_prefix oscTerminatorST]. by rewrite (bool_decide_false (c = _)), andb_false_r.
  - cbn [has_prefix oscTerminatorST] in Hn. done.
Qed.

Lemma pickOSCEnd_token body (bel : bool) r :
  valid_token (Osc body bel) →
  let d := body ++ (if bel then [BEL] else oscTerminatorST) ++ r in
  pickOSCEnd (index d oscTerminatorST) (index_byte d BEL) = Some (length body).
Proof.
  intros [Hb Hc]. cbv zeta. set (d := body ++ _).
  assert (Hlow : ∀ s, index d oscTerminatorST = Some s → length body <= s).
  { intros s Hs. apply index_Some_prefix in Hs as [Hp _].
    destruct (decide (s < length body)) as [Hlt|]; [|lia].
    exfalso. revert Hp. unfold d. destruct bel; cbn [oscTerminatorST app];
      rewrite ST_not_within by done; done. }
  destruct bel.
  - assert (index_byte d BEL = Some (length body)) as -> by (by apply index_byte_app_l).
    destruct (index d oscTerminatorST) as [s|] eqn:E; [|done].
    simpl. rewrite bool_decide_false; [done|]. specialize (Hlow s eq_refl). lia.
  - assert (Hx : has_prefix (drop (length body) d) oscTerminatorST = true)
      by (unfold d; rewrite drop_app_length; apply has_prefix_app).
    destruct (index d oscTerminatorST) as [s|] eqn:E;
      [|by rewrite (index_None _ _ (length body) E) in Hx].
    assert (s = length body) as ->.
    { specialize (Hlow s eq_refl). destruct (decide (length body < s)) as [Hlt|]; [|lia].
      by rewrite (index_Some_first _ _ _ _ E Hlt) in Hx. }
    destruct (index_byte d BEL) as [b|] eqn:Eb; [|done]. simpl.
    rewrite bool_decide_true; [done|].
    apply index_byte_Some in Eb as [Hl _].
    destruct (decide (b < length body)).
    + unfold d in Hl. rewrite lookup_app_l in Hl by done. exfalso.
      apply Hb. by eapply list_elem_of_lookup_2.
    + destruct (decide (b = length body)) as [->|]; [|lia].
      unfold d in Hl. rewrite lookup_app_r, Nat.sub_diag in Hl by lia. done.
Qed.

Section Spec.
Variable url : bytes → option bytes.

Lemma ParseOSC_loop_move n data c k :
  index (drop c data) oscIntroducer =
    (λ i, k + i) <$> index (drop (c + k) data) oscIntroducer →
  ParseOSC_loop url (S n) data c = ParseOSC_loop url (S n) data (c + k).
Proof.
  intros E. cbn [ParseOSC_loop]. rewrite E.
  destruct (index (drop (c + k) data) oscIntroducer) as [i|]; [|done].
  cbn [fmap option_fmap option_map]. by rewrite Nat.add_assoc.
Qed.

Lemma ParseOSC_loop_tokens n data pre ts :
  Forall plain_token ts → data = pre ++ render ts → length (render ts) < n →
  ParseOSC_loop url n data (length pre) = osc_of url (length pre) ts.
Proof.
  intros Hts. revert n pre. induction Hts as [|t ts Ht Hts IH]; intros n pre Hd Hn.
  { destruct n; [done|]. cbn [ParseOSC_loop]. by rewrite Hd, drop_app_length. }
  change (render (t :: ts)) with (render_token t ++ render ts) in *.
  rewrite length_app in Hn. destruct n as [|n]; [lia|].
  assert (Hd' : data = (pre ++ render_token t) ++ render ts) by (by rewrite <- app_assoc).
  assert (Hr : drop (length pre) data = render_token t ++ render ts)
    by (by rewrite Hd, drop_app_length).
  assert ((∃ body bel, t = Osc body bel) ∨ (∀ body bel, t ≠ Osc body bel)) as [(body & bel & ->)|Ho]
    by (destruct t; eauto).
  - cbn [ParseOSC_loop osc_of]. rewrite Hr.
    assert (index (render_token (Osc body bel) ++ render ts) oscIntroducer = Some 0) as -> by done.
    assert (Hb : drop (length pre + 0 + 2) data =
      body ++ (if bel then [BEL] else oscTerminatorST) ++ render ts).
    { rewrite <- Nat.add_assoc, <- drop_drop, Hr. cbn [render_token app].
      rewrite Nat.add_0_l. cbn [drop]. by rewrite <- app_assoc. }
    rewrite Hb, pickOSCEnd_token by apply Ht.
    rewrite take_app_length, Nat.add_0_r. f_equal.
    assert (Hlen : length (render_token (Osc body bel)) = length body + 3 + (if bel then 0 else 1))
      by (destruct bel; cbn [render_token length]; rewrite length_app; simpl; lia).
    destruct bel.
    + replace (length pre + 2 + length body + 1)
        with (length (pre ++ render_token (Osc body true))) by (rewrite length_app; lia).
      rewrite (IH n _ Hd') by lia. by rewrite length_app.
    + set (c := length pre + 2 + length body + 1).
      destruct n as [|n]; [lia|].
      rewrite (ParseOSC_loop_move n data c 1).
      * replace (c + 1) with (length (pre ++ render_token (Osc body false)))
          by (rewrite length_app; unfold c; lia).
        rewrite (IH (S n) _ Hd') by lia. by rewrite length_app.
      * replace (drop c data) with (["\"%byte] ++ drop (c + 1) data).
        { by apply (index_skip ["\"%byte]); set_solver. }
        replace (drop (c + 1) data) with (render ts).
        2: { rewrite Hd', drop_app_ge by (rewrite length_app; unfold c; lia).
             replace (c + 1 - _) with 0 by (rewrite length_app; unfold c; lia). done. }
        unfold c. rewrite <- Nat.add_assoc, <- drop_drop.
        rewrite Nat.add_0_r in Hb. rewrite Hb.
        rewrite drop_app_ge by lia. by rewrite Nat.add_comm, Nat.add_sub.
  - rewrite (ParseOSC_loop_move n data (length pre) (length (render_token t))).
    + rewrite <- length_app, (IH (S n) _ Hd') by lia.
      cbn [osc_of]. rewrite length_app. destruct t; [done|done|by destruct (Ho body bel)|done].
    + rewrite Hr, index_skip_token by done.
      f_equal. f_equal. by rewrite <- length_app, Hd', drop_app_length.
Qed.
End Spec.

(** Every report points at an introducer at or after the cursor, and the
    offsets increase. *)
Lemma osc_body_offset url body m r : r ∈ osc_body url body m → osc_Offset r = m.
Proof.
  unfold osc_body. intros H. repeat case_match; set_solver.
Qed.

Lemma osc_body_short url body m :
  osc_body url body m = [] ∨ ∃ r, osc_body url body m = [r].
Proof. unfold osc_body. repeat case_match; eauto. Qed.

Lemma ParseOSC_loop_offsets url n data c :
  increasing (osc_Offset <$> ParseOSC_loop url n data c) ∧
  ∀ r, r ∈ ParseOSC_loop url n data c →
    c <= osc_Offset r ∧ take 2 (drop (osc_Offset r) data) = oscIntroducer.
Proof.
  revert c. induction n as [|n IH]; intros c; [split; [done|set_solver]|].
  cbn [ParseOSC_loop].
  destruct (index (drop c data) oscIntroducer) as [idx|] eqn:Ei; [|split; [done|set_solver]].
  destruct (pickOSCEnd _ _) as [e|]; [|split; [done|set_solver]].
  destruct (IH (c + idx + 2 + e + 1)) as [Hs Hr].
  apply index_Some_prefix in Ei as [Hp _]. rewrite drop_drop in Hp.
  apply has_prefix_spec in Hp as [k Hk].
  set (rest := ParseOSC_loop url n data (c + idx + 2 + e + 1)) in *.
  destruct (osc_body_short url (take e (drop (c + idx + 2) data)) (c + idx)) as [->|[r E]].
  - split; [done|]. intros r' Hr'. specialize (Hr r' Hr'). split; [lia|apply Hr].
  - rewrite E. assert (osc_Offset r = c + idx) as Ho by (eapply osc_body_offset; rewrite E; set_solver).
    split.
    + cbn [fmap list_fmap app]. split; [|done]. apply Forall_fmap, Forall_forall.
      intros r' Hr'. apply Hr in Hr'. simpl. lia.
    + intros r' [->|Hr']%elem_of_cons.
      * rewrite Ho, Hk. split; [lia|done].
      * specialize (Hr r' Hr'). split; [lia|apply Hr].
Qed.

Lemma ParseDA_loop_move n data c s r :
  drop c data = s ++ r → ESC ∉ s →
  ParseDA_loop (S n) data c = ParseDA_loop (S n) data (c + length s).
Proof.
  intros Hd Hs.
  assert (Hr : drop (c + length s) data = r)
    by (by rewrite <- drop_drop, Hd, drop_app_length).
  assert (E : index_byte (drop c data) ESC =
    (λ i, length s + i) <$> index_byte (drop (c + length s) data) ESC).
  { rewrite Hr, Hd. clear Hd Hr. induction s as [|x s IH].
    - cbn [app]. by destruct (index_byte r ESC).
    - cbn [app index_byte length]. rewrite decide_False by set_solver.
      rewrite IH by set_solver. by destruct (index_byte r ESC). }
  cbn [ParseDA_loop]. rewrite E.
  destruct (index_byte (drop (c + length s) data) ESC) as [i|]; [|done].
  cbn [fmap option_fmap option_map]. by rewrite Nat.add_assoc.
Qed.


Lemma da_prefix l final r q :
  Forall (λ b, in_range 64 126 b = false) l → Forall (λ b, in_range 64 126 b = false) q →
  in_range 64 126 final = true →
  has_prefix (ESC :: "["%byte :: l ++ final :: r) (ESC :: "["%byte :: q ++ ["c"%byte]) =
    bool_decide (l = q ∧ final = "c"%byte).
Proof.
  intros Hl Hq Hf. cbn [has_prefix app]. rewrite !bool_decide_true by done. cbn [andb].
  revert q Hq. induction Hl as [|x l Hx Hl IH]; intros q Hq; destruct Hq as [|y q Hy Hq];
    cbn [app has_prefix].
  - rewrite andb_true_r. apply bool_decide_ext. naive_solver.
  - rewrite !bool_decide_false; [done|naive_solver|]. intros ->. congruence.
  - rewrite !bool_decide_false; [done|naive_solver|]. by intros ->.
  - rewrite IH by done. destruct (decide (x = y)) as [->|].
    + rewrite bool_decide_true by done. cbn [andb]. apply bool_decide_ext. naive_solver.
    + rewrite (bool_decide_false (x = y)), (bool_decide_false (x :: l = _ ∧ _)) by naive_solver.
      done.
Qed.

Lemma ParseDA_round_other n data c x s :
  drop c data = ESC :: x :: s → x ≠ "["%byte →
  ParseDA_loop (S n) data c = ParseDA_loop n data (c + 1).
Proof.
  intros Hd Hx. cbn [ParseDA_loop]. rewrite Hd. cbn [index_byte]. rewrite decide_True by done.
  rewrite Nat.add_0_r, Hd.
  assert (Hp : ∀ q, has_prefix (ESC :: x :: s) (ESC :: "["%byte :: q) = false)
    by (intros q; cbn [has_prefix]; by rewrite (bool_decide_false (x = _)), !andb_false_r by done).
  change da2Seq0 with (ESC :: "["%byte :: #">0c"). change da2Seq with (ESC :: "["%byte :: #">c").
  change da1Seq0 with (ESC :: "["%byte :: #"0c"). change da1Seq with (ESC :: "["%byte :: #"c").
  by rewrite !Hp.
Qed.

Lemma ParseDA_round_csi n data c l final r :
  drop c data = (ESC :: "["%byte :: l ++ [final]) ++ r →
  Forall (λ b, in_range 64 126 b = false) l → in_range 64 126 final = true →
  ESC ∉ l ++ [final] →
  ParseDA_loop (S (S n)) data c =
    da_kind l final ++ ParseDA_loop (S n) data (c + length (ESC :: "["%byte :: l ++ [final])).
Proof.
  intros Hd Hl Hf He.
  assert (Hd' : drop (c + 1) data = ("["%byte :: l ++ [final]) ++ r)
    by (by rewrite <- drop_drop, Hd).
  pose proof (ParseDA_loop_move n _ _ _ _ Hd' ltac:(set_solver)) as Hm.
  cbn [length] in *. replace (c + 1 + S (length (l ++ [final])))
    with (c + S (S (length (l ++ [final])))) in Hm by lia.
  assert (Hd2 : drop c data = ESC :: "["%byte :: l ++ final :: r)
    by (rewrite Hd; cbn [app]; by rewrite <- app_assoc).
  set (rest := ParseDA_loop (S n) data (c + S (S (length (l ++ [final]))))) in *.
  remember (S n) as m eqn:Em. cbn [ParseDA_loop]. rewrite Hd2. cbn [index_byte].
  rewrite decide_True by done. rewrite !Nat.add_0_r, Hd2, Hm.
  change da2Seq0 with (ESC :: "["%byte :: #">0" ++ ["c"%byte]).
  change da2Seq with (ESC :: "["%byte :: #">" ++ ["c"%byte]).
  change da1Seq0 with (ESC :: "["%byte :: #"0" ++ ["c"%byte]).
  change da1Seq with (ESC :: "["%byte :: [] ++ ["c"%byte]).
  rewrite (da_prefix l final r #">0"), (da_prefix l final r #">"), (da_prefix l final r #"0"),
    (da_prefix l final r []) by (done || by repeat constructor).
  unfold da_kind.
  assert (Hlen : ∀ q, l = q ∧ final = "c"%byte →
    c + length (ESC :: "["%byte :: q ++ ["c"%byte]) = c + S (S (length (l ++ [final]))))
    by (by intros q [-> ->]).
  repeat case_bool_decide; repeat case_decide; try naive_solver;
    cbn [app]; unfold rest; f_equal; try (by apply Hlen || naive_solver).
Qed.

Lemma low_not_final lo hi l :
  (hi < 64)%Z → Forall (λ b, in_range lo hi b = true) l →
  Forall (λ b, in_range 64 126 b = false) l.
Proof.
  intros Hh Hl. eapply Forall_impl; [exact Hl|]. intros b Hb. unfold in_range in *.
  apply bool_decide_eq_true in Hb. apply bool_decide_eq_false. lia.
Qed.

(** A round at an escape that is not a CSI, up to the end of its text. *)
Lemma ParseDA_round_skip n data c x s r :
  drop c data = ESC :: (x :: s) ++ r → x ≠ "["%byte → ESC ∉ x :: s →
  ParseDA_loop (S (S n)) data c = ParseDA_loop (S n) data (c + S (length (x :: s))).
Proof.
  intros Hd Hx Hs. rewrite (ParseDA_round_other (S n) data c x (s ++ r)) by done.
  rewrite (ParseDA_loop_move n data (c + 1) (x :: s) r).
  - f_equal. simpl. lia.
  - by rewrite <- drop_drop, Hd.
  - done.
Qed.

Lemma ParseDA_loop_tokens n data pre ts :
  Forall simple_token ts → data = pre ++ render ts → length (render ts) < n →
  ParseDA_loop n data (length pre) = da_of ts.
Proof.
  intros Hts. revert n pre. induction Hts as [|t ts Ht Hts IH]; intros n pre Hd Hn.
  { destruct n; [done|]. cbn [ParseDA_loop]. by rewrite Hd, drop_app_length. }
  change (render (t :: ts)) with (render_token t ++ render ts) in *.
  rewrite length_app in Hn. destruct n as [|n]; [lia|].
  assert (Hd' : data = (pre ++ render_token t) ++ render ts) by (by rewrite <- app_assoc).
  assert (Hr : drop (length pre) data = render_token t ++ render ts)
    by (by rewrite Hd, drop_app_length).
  assert (IH' : ∀ m, length (render ts) < m →
    ParseDA_loop m data (length pre + length (render_token t)) = da_of ts)
    by (intros m Hm; rewrite <- length_app; by apply IH).
  assert (Hda : da_of (t :: ts) = (match t with
     Csi params inter final => da_kind (params ++ inter) final | _ => [] end) ++ da_of ts) by done.
  rewrite Hda. destruct Ht as [[Hv Hq] Ho].
  destruct t as [b|params inter final|body bel|ch]; cbn [length render_token] in *.
  - rewrite (ParseDA_loop_move n data _ [b] (render ts)) by (done || set_solver).
    apply IH'. lia.
  - pose proof (csi_no_ESC _ _ _ Hv) as He. destruct Hv as (Hp & Hi & Hf).
    destruct n as [|n]; [lia|]. rewrite app_assoc in *.
    rewrite (ParseDA_round_csi n data _ (params ++ inter) final (render ts)); [..|done|done].
    + f_equal. apply IH'. lia.
    + done.
    + apply Forall_app. split; [by apply (low_not_final 48 63)|by apply (low_not_final 32 47)].
  - destruct n as [|[|n]]; [lia..|].
    destruct bel; cbn [app] in Hr; rewrite length_app in IH', Hn; cbn [length] in *.
    + rewrite (ParseDA_round_skip _ data _ "]"%byte (body ++ [BEL]) (render ts));
        [|done|done|rewrite not_elem_of_cons, not_elem_of_app; set_solver].
      cbn [length]. rewrite length_app. apply IH'. lia.
    + rewrite (ParseDA_round_skip _ data _ "]"%byte body (ESC :: "\"%byte :: render ts));
        [|by rewrite Hr, <- app_assoc|done|set_solver].
      rewrite (ParseDA_round_skip _ data _ "\"%byte [] (render ts)); [|..].
      * cbn [length]. rewrite <- Nat.add_assoc.
        replace (S (S (length body)) + 2) with (S (S (length body + 2))) by lia.
        apply IH'. lia.
      * rewrite <- drop_drop, Hr. cbn [drop length app]. rewrite <- app_assoc.
        by rewrite drop_app_length.
      * done.
      * set_solver.
  - destruct Hv as [H1 H2]. destruct n as [|n]; [lia|].
    rewrite (ParseDA_round_skip _ data _ ch [] (render ts)) by (done || set_solver).
    apply IH'. lia.
Qed.

(** ** Theorems *)

(** C28: on well-formed terminal output [ParseOSC] reports, in order, exactly
    what each OSC sequence in it says, with the position of its introducer;
    and on any bytes whatever the reported positions increase strictly and
    each is the position of an ESC [\]] in the data. *)
Theorem ParseOSC_correct url :
  (∀ ts, Forall plain_token ts → ParseOSC url (render ts) = osc_of url 0 ts) ∧
  (∀ data, increasing (osc_Offset <$> ParseOSC url data) ∧
    ∀ r, r ∈ ParseOSC url data → take 2 (drop (osc_Offset r) data) = oscIntroducer).
Proof.
  split.
  - intros ts Hts. apply (ParseOSC_loop_tokens url _ _ [] ts); [done|done|lia].
  - intros data. destruct (ParseOSC_loop_offsets url (S (length data)) data 0) as [Hs Hr].
    split; [done|]. intros r Hin. by apply Hr.
Qed.

(** On well-formed terminal output [ParseDA] reports, in order, exactly
    the control sequences that ask for the primary or the secondary device
    attributes, and no other control sequence. *)
Theorem ParseDA_correct ts :
  Forall simple_token ts → ParseDA (render ts) = da_of ts.
Proof. intros Hts. apply (ParseDA_loop_tokens _ _ [] ts); [done|done|lia]. Qed.

Lemma ParseDA_correct_witness :
  Forall simple_token [Text "$"%byte; Csi #">0" [] "c"%byte; Csi [] [] "c"%byte; Esc2 "M"%byte] ∧
  ParseDA (render [Text "$"%byte; Csi #">0" [] "c"%byte; Csi [] [] "c"%byte; Esc2 "M"%byte]) =
    [DATypeDA2; DATypeDA1].
Proof.
  assert (H : Forall simple_token
    [Text "$"%byte; Csi #">0" [] "c"%byte; Csi [] [] "c"%byte; Esc2 "M"%byte]).
  { repeat constructor; by apply (bool_decide_unpack _). }
  split; [exact H|]. rewrite (ParseDA_correct _ H). reflexivity.
Defined.
