(* ===== verification/CmdLifecycle.v ===== *)
(** * Command lifecycle: [internal/cmdlifecycle]

    The per-session state machine that OSC 133 markers drive ([tracker]) and
    the service that keeps one tracker per session, calls the event handler
    and saves the history.  The clock is a parameter of every step: [now k] is
    what the [k]-th call of [s.now()] in that step returns.  Events and saved
    states carry copies of commands, so commands are values. *)

From S2P Require Import Prelude.

#[local] Open Scope Z_scope.

(** ** Data ([entity.go], [events.go]) *)

Inductive State := StateIdle | StatePromptShown | StateUserTyping | StateCommandRunning.

#[export] Instance State_eq_decision : EqDecision State.
Proof. solve_decision. Defined.

Definition State_String (s : State) : bytes :=
  match s with
  | StateIdle => #"idle"
  | StatePromptShown => #"prompt_shown"
  | StateUserTyping => #"user_typing"
  | StateCommandRunning => #"command_running"
  end.

Record Command := mkCommand {
  StartedAt : time;
  EndedAt : time;
  ExitCode : Z;
  StartRow : Z;
  EndRow : Z;
  Orphan : bool;
  OrphanReason : bytes;
}.

#[export] Instance Command_eq_decision : EqDecision Command.
Proof. solve_decision. Defined.

Record SessionState := mkSessionState { ss_History : list Command; ss_InFlight : option Command }.

#[export] Instance SessionState_eq_decision : EqDecision SessionState.
Proof. solve_decision. Defined.

Definition OrphanReasonMissingD : bytes := #"missing_d_marker".

Definition OrphanReasonDaemonRestart : bytes := #"daemon_restart".

Definition ErrSessionNotRegistered : error := ENew #"cmdlifecycle: session not registered".

Definition ErrSessionExists : error := ENew #"cmdlifecycle: session already registered".

Inductive EventKind := EventPromptShown | EventCommandStarted | EventCommandFinished.

#[export] Instance EventKind_eq_decision : EqDecision EventKind.
Proof. solve_decision. Defined.

Record Event := mkEvent { Kind : EventKind; ev_Command : option Command; ev_Row : Z }.

#[export] Instance Event_eq_decision : EqDecision Event.
Proof. solve_decision. Defined.

(** ** The tracker ([service.go]) *)

Record tracker := mkTracker {
  state : State;
  current : option Command;
  history : list Command;
  maxHistory : nat;
}.

Definition newTracker (max : nat) : tracker := mkTracker StateIdle None [] max.

Definition openCommandLocked (t : tracker) (now row : Z) : tracker :=
  mkTracker (state t) (Some (mkCommand now zero_time 0 row 0 false [])) (history t) (maxHistory t).

(** When the ring is full every entry moves down one place, over the oldest. *)
Definition appendHistoryLocked (t : tracker) (c : Command) : tracker :=
  mkTracker (state t) (current t)
    (if decide (length (history t) = maxHistory t)
     then drop 1 (history t) ++ [c]
     else history t ++ [c])
    (maxHistory t).

Definition close (t : tracker) (c : Command) (row : Z) : tracker * Event :=
  let t := appendHistoryLocked t c in
  (mkTracker StateIdle None (history t) (maxHistory t),
   mkEvent EventCommandFinished (Some c) row).

(** The code dereferences the current command, which is present whenever the
    tracker is running a command ([tracker_inv] below). *)
Definition closeOrphanLocked (t : tracker) (now row : Z) (reason : bytes) : tracker * list Event :=
  match current t with
  | None => (t, [])
  | Some c =>
      let '(t, ev) := close t (mkCommand (StartedAt c) now (-1) (StartRow c) row true reason) row in
      (t, [ev])
  end.

(** What cases A, B and C do first. *)
Definition closeRunning (t : tracker) (now row : Z) : tracker * list Event :=
  if decide (state t = StateCommandRunning)
  then closeOrphanLocked t now row OrphanReasonMissingD
  else (t, []).

Definition with_state (t : tracker) (s : State) : tracker :=
  mkTracker s (current t) (history t) (maxHistory t).

Definition handle (t : tracker) (code : byte) (exitCode row : Z) (now : nat → time) :
    tracker * list Event :=
  if decide (code = "A"%byte) then
    let '(t, evs) := closeRunning t (now 0%nat) row in
    if decide (state t = StatePromptShown) then (t, evs)
    else (with_state t StatePromptShown, evs ++ [mkEvent EventPromptShown None row])
  else if decide (code = "B"%byte) then
    let '(t, evs) := closeRunning t (now 0%nat) row in
    (with_state t StateUserTyping, evs)
  else if decide (code = "C"%byte) then
    let '(t1, evs) := closeRunning t (now 0%nat) row in
    let k := if decide (state t = StateCommandRunning) then 1%nat else 0%nat in
    let t2 := with_state (openCommandLocked t1 (now k) row) StateCommandRunning in
    (t2, evs ++ [mkEvent EventCommandStarted (current t2) row])
  else if decide (code = "D"%byte) then
    match state t, current t with
    | StateCommandRunning, Some c =>
        let '(t, ev) := close t
          (mkCommand (StartedAt c) (now 0%nat) exitCode (StartRow c) row false (OrphanReason c)) row in
        (t, [ev])
    | _, _ => (t, [])
    end
  else (t, []).

(** [tracker.snapshot] copies the ring and the current command. *)
Definition snapshot (t : tracker) : SessionState := mkSessionState (history t) (current t).

Definition restore (t : tracker) (st : SessionState) (now : time) : tracker :=
  let t := foldl appendHistoryLocked t (ss_History st) in
  let t := match ss_InFlight st with
           | Some c =>
               appendHistoryLocked t
                 (mkCommand (StartedAt c) now (-1) (StartRow c) (StartRow c) true
                    OrphanReasonDaemonRestart)
           | None => t
           end in
  mkTracker StateIdle None (history t) (maxHistory t).

(** ** The service ([service.go]) *)

(** [SessionState]s and events carry copies, so the trackers are not shared. *)
Record Service := mkService {
  trackers : gmap bytes tracker;
  onEvent : bool;  (** whether a handler is set *)
  s_maxHistory : nat;
}.

Definition defaultMaxHistory : nat := 500.

(** [WithMaxHistory] ignores values that are not positive. *)
Definition WithMaxHistory (n : Z) (s : Service) : Service :=
  mkService (trackers s) (onEvent s) (if bool_decide (0 < n) then Z.to_nat n else s_maxHistory s).

Definition NewService (opts : list (Service → Service)) : Service :=
  foldl (λ s o, o s) (mkService ∅ false defaultMaxHistory) opts.

Definition OnEvent (s : Service) (h : bool) : Service := mkService (trackers s) h (s_maxHistory s).

(** What a call does outside the service: the handler's and the repository's
    calls, in order. *)
Inductive output :=
  | Handler (sessID : bytes) (ev : Event)
  | Save (sessID : bytes) (st : SessionState).

#[export] Instance output_eq_decision : EqDecision output.
Proof. solve_decision. Defined.

Definition with_tracker (s : Service) (id : bytes) (t : tracker) : Service :=
  mkService (<[id := t]> (trackers s)) (onEvent s) (s_maxHistory s).

Definition Register (s : Service) (id : bytes) : option error * Service :=
  match trackers s !! id with
  | Some _ => (Some ErrSessionExists, s)
  | None => (None, with_tracker s id (newTracker (s_maxHistory s)))
  end.

Definition Unregister (s : Service) (id : bytes) : Service :=
  mkService (delete id (trackers s)) (onEvent s) (s_maxHistory s).

Definition is_finished (ev : Event) : bool := bool_decide (Kind ev = EventCommandFinished).

Definition HandleOSC (s : Service) (id : bytes) (code : byte) (exitCode row : Z)
    (now : nat → time) : option error * list output * Service :=
  match trackers s !! id with
  | None => (Some ErrSessionNotRegistered, [], s)
  | Some tr =>
      if bool_decide (code ∈ ["A"; "B"; "C"; "D"]%byte) then
        let '(tr', events) := handle tr code exitCode row now in
        let called := if onEvent s then Handler id <$> events else [] in
        let saved := if existsb is_finished events then [Save id (snapshot tr')] else [] in
        (None, called ++ saved, with_tracker s id tr')
      else (None, [], s)
  end.

Definition Snapshot (s : Service) (id : bytes) : result SessionState :=
  match trackers s !! id with
  | None => Err ErrSessionNotRegistered
  | Some tr => Ok (snapshot tr)
  end.

Definition Restore (s : Service) (id : bytes) (st : SessionState) (now : time) :
    option error * Service :=
  match trackers s !! id with
  | Some _ => (Some ErrSessionExists, s)
  | None => (None, with_tracker s id (restore (newTracker (s_maxHistory s)) st now))
  end.

(** ** Runs of one tracker *)

(** The arguments of a marker: its code, exit status, row and clock. *)
Record marker := mkMarker { m_code : byte; m_exit : Z; m_row : Z; m_now : nat → time }.

Definition run (t : tracker) (ms : list marker) : tracker * list Event :=
  foldl (λ '(t, evs) m,
    let '(t', evs') := handle t (m_code m) (m_exit m) (m_row m) (m_now m) in (t', evs ++ evs'))
    (t, []) ms.

(** The last [n] entries of a list. *)
Definition last_n {A} (n : nat) (l : list A) : list A := drop (length l - n) l.

Definition finished (evs : list Event) : list Command :=
  evs ≫= (λ ev, if is_finished ev then option_list (ev_Command ev) else []).

(** A command as a marker opens it, and as the next marker closes it. *)
Definition opened (c : Command) (row : Z) : Prop :=
  EndedAt c = zero_time ∧ ExitCode c = 0 ∧ StartRow c = row ∧ EndRow c = 0 ∧
  Orphan c = false ∧ OrphanReason c = [].

Definition closes (c c' : Command) (row : Z) : Prop :=
  StartedAt c' = StartedAt c ∧ StartRow c' = StartRow c ∧ EndRow c' = row ∧
  ((Orphan c' = false ∧ OrphanReason c' = []) ∨
   (Orphan c' = true ∧ ExitCode c' = -1 ∧ OrphanReason c' = OrphanReasonMissingD)).

(** [bracketed cur evs cur']: from a tracker whose open command is [cur], the
    events are well formed and leave [cur'] open: prompts are shown between
    commands, and every command is started, then finished, before the next. *)
Inductive bracketed : option Command → list Event → option Command → Prop :=
  | br_nil cur : bracketed cur [] cur
  | br_prompt row evs cur :
      bracketed None evs cur → bracketed None (mkEvent EventPromptShown None row :: evs) cur
  | br_start c row evs cur :
      opened c row → bracketed (Some c) evs cur →
      bracketed None (mkEvent EventCommandStarted (Some c) row :: evs) cur
  | br_finish c c' row evs cur :
      closes c c' row → bracketed None evs cur →
      bracketed (Some c) (mkEvent EventCommandFinished (Some c') row :: evs) cur.

Definition tracker_inv (t : tracker) : Prop :=
  (state t = StateCommandRunning ↔ is_Some (current t)) ∧
  (∀ c, current t = Some c → opened c (StartRow c)) ∧
  (length (history t) <= maxHistory t)%nat.

(** ** Lemmas *)

Lemma bracketed_app c1 e1 c2 e2 c3 :
  bracketed c1 e1 c2 → bracketed c2 e2 c3 → bracketed c1 (e1 ++ e2) c3.
Proof. induction 1; intros H2; cbn [app]; eauto using bracketed. Qed.

Lemma last_n_length {A} n (l : list A) : (length (last_n n l) <= n)%nat.
Proof. unfold last_n. rewrite length_drop. lia. Qed.

Lemma last_n_all {A} n (l : list A) : (length l <= n)%nat → last_n n l = l.
Proof. intros H. unfold last_n. by replace (length l - n)%nat with 0%nat by lia. Qed.

Lemma appendHistory_spec t c :
  (0 < maxHistory t)%nat → (length (history t) <= maxHistory t)%nat →
  history (appendHistoryLocked t c) = last_n (maxHistory t) (history t ++ [c]).
Proof.
  intros Hm Hl. unfold appendHistoryLocked, last_n. cbn [history].
  rewrite length_app. cbn [length]. case_decide as E.
  - rewrite E. replace (maxHistory t + 1 - maxHistory t)%nat with 1%nat by lia.
    by rewrite drop_app_le by lia.
  - by replace (length (history t) + 1 - maxHistory t)%nat with 0%nat by lia.
Qed.

Lemma last_n_snoc {A} n (l : list A) x :
  (0 < n)%nat → last_n n (last_n n l ++ [x]) = last_n n (l ++ [x]).
Proof.
  intros Hn. unfold last_n at 3. rewrite (last_n_app_1 l x n Hn).
  unfold last_n. rewrite length_app. cbn [length].
  pose proof (length_drop l (length l - n)). by rewrite drop_app_le by lia.
Qed.

Lemma finished_app e1 e2 : finished (e1 ++ e2) = finished e1 ++ finished e2.
Proof. apply bind_app. Qed.

(** What closing the running command does, on a tracker that runs one. *)
Lemma closeRunning_spec t now row :
  tracker_inv t → (0 < maxHistory t)%nat →
  let '(t', evs) := closeRunning t now row in
  current t' = None ∧ state t' ≠ StateCommandRunning ∧ maxHistory t' = maxHistory t ∧
  bracketed (current t) evs None ∧
  (evs = [] ∧ t' = t ∨
   ∃ c, finished evs = [c] ∧ existsb is_finished evs = true ∧
     history t' = last_n (maxHistory t) (history t ++ [c])).
Proof.
  intros (Hrun & Hop & Hlen) Hm. unfold closeRunning. case_decide as Hs.
  - destruct (proj1 Hrun Hs) as [c Hc]. destruct (Hop c Hc) as (_ & _ & _ & _ & Ho & Hr).
    unfold closeOrphanLocked. rewrite Hc. cbn. split_and!; try done.
    + constructor; [|constructor]. split_and!; try done. by right.
    + right. eexists. split_and!; [done|done|]. by apply appendHistory_spec.
  - assert (current t = None) as Hc.
    { destruct (current t); [|done]. exfalso. apply Hs, Hrun. eauto. }
    rewrite Hc. split_and!; try done; [constructor|by left].
Qed.

(** What a step adds to the history: nothing, or the one command it finished. *)
Definition adds (t t' : tracker) (evs : list Event) : Prop :=
  (finished evs = [] ∧ existsb is_finished evs = false ∧ history t' = history t) ∨
  (∃ c, finished evs = [c] ∧ existsb is_finished evs = true ∧
    history t' = last_n (maxHistory t) (history t ++ [c])).

Lemma adds_more t t1 t2 e1 e2 :
  adds t t1 e1 → finished e2 = [] → existsb is_finished e2 = false →
  history t2 = history t1 → adds t t2 (e1 ++ e2).
Proof.
  unfold adds. rewrite finished_app, existsb_app. intros [(-> & -> & E)|(c & -> & -> & E)] -> -> ->.
  - by left.
  - right. by exists c.
Qed.

Lemma adds_length t t' evs :
  (length (history t) <= maxHistory t)%nat → adds t t' evs →
  (length (history t') <= maxHistory t)%nat.
Proof. intros Hl [(_ & _ & ->)|(c & _ & _ & ->)]; [done|]. apply last_n_length. Qed.

(** A, B and C: close what runs, then go to a state with its own events. *)
Lemma handle_after_close t now row (t' : tracker) evs evs2 :
  tracker_inv t → (0 < maxHistory t)%nat →
  evs = snd (closeRunning t now row) →
  history t' = history (fst (closeRunning t now row)) → maxHistory t' = maxHistory t →
  (state t' = StateCommandRunning ↔ is_Some (current t')) →
  (∀ c, current t' = Some c → opened c (StartRow c)) →
  bracketed None evs2 (current t') → finished evs2 = [] → existsb is_finished evs2 = false →
  tracker_inv t' ∧ maxHistory t' = maxHistory t ∧
  bracketed (current t) (evs ++ evs2) (current t') ∧ adds t t' (evs ++ evs2).
Proof.
  intros Hinv Hm -> Hh Hmax Hrun Hop Hb Hf He.
  pose proof (closeRunning_spec t now row Hinv Hm) as Hs.
  destruct (closeRunning t now row) as [t1 e1]. cbn [fst snd] in *.
  destruct Hs as (_ & _ & Hm1 & Hb1 & Ha).
  assert (Hadd : adds t t' (e1 ++ evs2)).
  { apply (adds_more _ t1); [|done..].
    destruct Ha as [[-> ->]|Ha]; [by left|by right]. }
  split_and!; [|done| |done].
  - split_and!; [done|done|]. rewrite Hmax. eapply adds_length; [apply Hinv|exact Hadd].
  - by eapply bracketed_app.
Qed.

Lemma handle_spec t code e r now :
  tracker_inv t → (0 < maxHistory t)%nat →
  let '(t', evs) := handle t code e r now in
  tracker_inv t' ∧ maxHistory t' = maxHistory t ∧
  bracketed (current t) evs (current t') ∧ adds t t' evs.
Proof.
  intros Hinv Hm. unfold handle.
  pose proof (closeRunning_spec t (now 0%nat) r Hinv Hm) as Hs.
  pose proof (handle_after_close t (now 0%nat) r) as Hc.
  destruct (closeRunning t (now 0%nat) r) as [t1 e1]. cbn [fst snd] in Hc.
  destruct Hs as (Hcur & Hst & Hm1 & _ & _).
  repeat case_decide; simplify_eq.
  - rewrite <- (app_nil_r e1). apply Hc; try done; rewrite ?Hcur.
    + split; [done|]. by intros [? ?].
    + done.
    + constructor.
  - apply Hc; try done; cbn [current state with_state]; rewrite ?Hcur.
    + split; [done|]. by intros [? ?].
    + done.
    + repeat constructor.
  - rewrite <- (app_nil_r e1). apply Hc; try done; cbn [current state with_state]; rewrite ?Hcur.
    + split; [done|]. by intros [? ?].
    + done.
    + constructor.
  - apply Hc; try done; cbn [current state with_state openCommandLocked].
    + by intros c [= <-].
    + by repeat constructor.
  - apply Hc; try done; cbn [current state with_state openCommandLocked].
    + by intros c [= <-].
    + by repeat constructor.
  - destruct Hinv as (Hrun & Hop & Hlen).
    assert (Hnone : tracker_inv t ∧ maxHistory t = maxHistory t ∧
      bracketed (current t) [] (current t) ∧ adds t t []).
    { split_and!; try done; [constructor|by left]. }
    destruct (state t) eqn:Es; try done. destruct (current t) as [c|] eqn:Ec; [|by rewrite Ec].
    destruct (Hop c eq_refl) as (_ & _ & _ & _ & Ho & Hr).
    assert (adds t (mkTracker StateIdle None
      (history (appendHistoryLocked t (mkCommand (StartedAt c) (now 0%nat) e (StartRow c) r false
        (OrphanReason c)))) (maxHistory t))
      [mkEvent EventCommandFinished (Some (mkCommand (StartedAt c) (now 0%nat) e (StartRow c) r false
        (OrphanReason c))) r]) as Ha.
    { right. eexists. split_and!; [done|done|]. cbn [history]. by rewrite appendHistory_spec. }
    cbn [close]. split_and!; [|done| |exact Ha].
    + split_and!; [|done|].
      * split; [done|]. by intros [? ?].
      * by eapply adds_length in Ha.
    + constructor; [|constructor]. split_and!; try done. by left.
  - split_and!; [done|done|constructor|by left].
Qed.

Lemma run_snoc t ms m :
  run t (ms ++ [m]) =
    let '(t1, evs) := run t ms in
    let '(t2, evs') := handle t1 (m_code m) (m_exit m) (m_row m) (m_now m) in (t2, evs ++ evs').
Proof. unfold run. rewrite foldl_app. cbn [foldl]. by destruct (foldl _ _ ms). Qed.

Lemma newTracker_inv max : tracker_inv (newTracker max).
Proof. split_and!; [split; [done|by intros [? ?]]|done|simpl; lia]. Qed.

Lemma run_spec max ms :
  (0 < max)%nat →
  let '(t, evs) := run (newTracker max) ms in
  tracker_inv t ∧ maxHistory t = max ∧ bracketed None evs (current t) ∧
  history t = last_n max (finished evs).
Proof.
  intros Hm. induction ms as [|m ms IH] using rev_ind.
  { split_and!; [apply newTracker_inv|done|constructor|done]. }
  rewrite run_snoc. destruct (run (newTracker max) ms) as [t1 e1].
  destruct IH as (Hinv & Hmax & Hb & Hh).
  pose proof (handle_spec t1 (m_code m) (m_exit m) (m_row m) (m_now m) Hinv ltac:(lia)) as Hs.
  destruct (handle t1 _ _ _ _) as [t2 e2]. destruct Hs as (Hinv2 & Hmax2 & Hb2 & Ha).
  split_and!; [done|lia|by eapply bracketed_app|].
  rewrite finished_app. destruct Ha as [(-> & _ & ->)|(c & -> & _ & ->)].
  - by rewrite app_nil_r.
  - by rewrite Hh, Hmax, last_n_snoc.
Qed.

(** ** Runs of the service *)

(** Markers of one session, in turn, with everything the service calls. *)
Definition handle_all (s : Service) (id : bytes) (ms : list marker) : list output * Service :=
  foldl (λ '(outs, s) m,
    let '(_, outs', s') := HandleOSC s id (m_code m) (m_exit m) (m_row m) (m_now m) in
    (outs ++ outs', s')) ([], s) ms.

Definition handled (id : bytes) (outs : list output) : list Event :=
  outs ≫= (λ o, match o with
                | Handler i ev => if decide (i = id) then [ev] else []
                | Save _ _ => []
                end).

Definition last_saved (id : bytes) (outs : list output) : option SessionState :=
  last (outs ≫= (λ o, match o with
                      | Save i st => if decide (i = id) then [st] else []
                      | Handler _ _ => []
                      end)).

(** The orphan that [Restore] makes of a command in flight. *)
Definition orphan_of (now : time) (inflight : option Command) : list Command :=
  match inflight with
  | Some c => [mkCommand (StartedAt c) now (-1) (StartRow c) (StartRow c) true
                 OrphanReasonDaemonRestart]
  | None => []
  end.

Lemma HandleOSC_registered s id m tr :
  trackers s !! id = Some tr →
  HandleOSC s id (m_code m) (m_exit m) (m_row m) (m_now m) =
    let '(tr', evs) := handle tr (m_code m) (m_exit m) (m_row m) (m_now m) in
    (None, (if onEvent s then Handler id <$> evs else []) ++
           (if existsb is_finished evs then [Save id (snapshot tr')] else []),
     with_tracker s id tr').
Proof.
  intros Ht. unfold HandleOSC. rewrite Ht. case_bool_decide as Hc; [done|].
  unfold handle. rewrite !decide_False by set_solver. cbn.
  unfold with_tracker. rewrite insert_id by done. destruct s; simpl. by destruct onEvent0.
Qed.

Lemma handled_app id o1 o2 : handled id (o1 ++ o2) = handled id o1 ++ handled id o2.
Proof. apply bind_app. Qed.

Lemma handled_events id evs : handled id (Handler id <$> evs) = evs.
Proof.
  induction evs as [|ev evs IH]; [done|]. unfold handled in *.
  cbn [fmap list_fmap mbind list_bind]. rewrite decide_True by done. cbn [app]. by f_equal.
Qed.

Lemma handled_save id (b : bool) st : handled id (if b then [Save id st] else []) = [].
Proof. by destruct b. Qed.

Lemma last_saved_app id (h : bool) o1 evs (b : bool) st :
  last_saved id (o1 ++ (if h then Handler id <$> evs else []) ++ (if b then [Save id st] else [])) =
    if b then Some st else last_saved id o1.
Proof.
  unfold last_saved. rewrite !bind_app.
  assert (E : ((if h then Handler id <$> evs else []) ≫= (λ o, match o with
      | Save i st => if decide (i = id) then [st] else [] | Handler _ _ => [] end)) = []).
  { destruct h; [|done]. by induction evs. }
  rewrite E. destruct b; cbn [app mbind list_bind].
  - rewrite decide_True by done. cbn [app]. by rewrite last_snoc.
  - by rewrite app_nil_r.
Qed.

(** A session's tracker follows [run], its events reach the handler, and the
    last state saved has the history of the moment. *)
Lemma handle_all_spec s id ms :
  trackers s !! id = Some (newTracker (s_maxHistory s)) → onEvent s = true →
  (0 < s_maxHistory s)%nat →
  let '(outs, s') := handle_all s id ms in
  let '(tr, evs) := run (newTracker (s_maxHistory s)) ms in
  s' = with_tracker s id tr ∧ handled id outs = evs ∧
  default [] (ss_History <$> last_saved id outs) = history tr.
Proof.
  intros Ht Hev Hm. induction ms as [|m ms IH] using rev_ind.
  { simpl. split_and!; [|done|done]. unfold with_tracker. rewrite insert_id by done. by destruct s. }
  unfold handle_all. rewrite foldl_app. fold (handle_all s id ms). rewrite run_snoc.
  pose proof (run_spec (s_maxHistory s) ms Hm) as Hr.
  destruct (handle_all s id ms) as [outs s1]. destruct (run _ ms) as [tr evs].
  destruct IH as (-> & <- & Hl). destruct Hr as (Hinv & Hmax & _ & _).
  cbn [foldl]. rewrite (HandleOSC_registered _ id m tr) by apply lookup_insert_eq.
  pose proof (handle_spec tr (m_code m) (m_exit m) (m_row m) (m_now m) Hinv ltac:(lia)) as Hs.
  destruct (handle tr _ _ _ _) as [tr2 e2]. destruct Hs as (_ & _ & _ & Ha).
  cbn [onEvent with_tracker]. rewrite Hev. split_and!.
  - unfold with_tracker. cbn [trackers onEvent s_maxHistory]. by rewrite insert_insert_eq.
  - by rewrite !handled_app, handled_events, handled_save, app_nil_r.
  - rewrite (last_saved_app id true).
    destruct Ha as [(_ & -> & ->)|(c & _ & -> & _)]; [done|by destruct tr2].
Qed.

Lemma restore_spec max st now :
  (0 < max)%nat →
  let t := restore (newTracker max) st now in
  state t = StateIdle ∧ current t = None ∧ maxHistory t = max ∧
  history t = last_n max (ss_History st ++ orphan_of now (ss_InFlight st)).
Proof.
  intros Hm. unfold restore. cbn [state current history maxHistory].
  assert (Hfold : ∀ l t, maxHistory t = max →
    maxHistory (foldl appendHistoryLocked t l) = max ∧
    (∀ full, history t = last_n max full →
      history (foldl appendHistoryLocked t l) = last_n max (full ++ l))).
  { intros l. induction l as [|c l IH]; intros t Ht.
    - cbn [foldl]. split; [done|]. intros full. by rewrite app_nil_r.
    - cbn [foldl]. destruct (IH (appendHistoryLocked t c)) as [H1 H2]; [done|]. split; [done|].
      intros full Hf. rewrite (cons_middle c), app_assoc. apply H2.
      rewrite appendHistory_spec, Ht, Hf, last_n_snoc;
        [done|done|lia|rewrite Hf, Ht; apply last_n_length]. }
  destruct (Hfold (ss_History st) (newTracker max) eq_refl) as [H1 H2].
  specialize (H2 [] eq_refl). cbn [app] in H2.
  destruct (ss_InFlight st) as [c|]; cbn [orphan_of].
  - split_and!; try done. rewrite appendHistory_spec, H1, H2;
      [by apply last_n_snoc|lia|rewrite H2, H1; apply last_n_length].
  - rewrite app_nil_r. done.
Qed.

(** ** Every operation, on any session *)

Inductive op :=
  | OpRegister (id : bytes)
  | OpUnregister (id : bytes)
  | OpHandleOSC (id : bytes) (m : marker)
  | OpRestore (id : bytes) (st : SessionState) (now : time).

Definition op_id (o : op) : bytes :=
  match o with
  | OpRegister id | OpUnregister id | OpHandleOSC id _ | OpRestore id _ _ => id
  end.

Definition step (s : Service) (o : op) : list output * Service :=
  match o with
  | OpRegister id => ([], snd (Register s id))
  | OpUnregister id => ([], Unregister s id)
  | OpHandleOSC id m =>
      let '(_, outs, s') := HandleOSC s id (m_code m) (m_exit m) (m_row m) (m_now m) in (outs, s')
  | OpRestore id st now => ([], snd (Restore s id st now))
  end.

Definition steps (s : Service) (os : list op) : list output * Service :=
  foldl (λ '(outs, s) o, let '(outs', s') := step s o in (outs ++ outs', s')) ([], s) os.

Definition output_id (o : output) : bytes :=
  match o with
  | Handler id _ | Save id _ => id
  end.

(** The service reduced to one session. *)
Definition only (id : bytes) (s : Service) : Service :=
  mkService (match trackers s !! id with Some t => {[id := t]} | None => ∅ end)
    (onEvent s) (s_maxHistory s).

Lemma only_lookup id s : trackers (only id s) !! id = trackers s !! id.
Proof.
  unfold only. cbn [trackers]. destruct (trackers s !! id); [|done].
  by rewrite lookup_singleton_eq.
Qed.

Lemma only_insert_same id t s : only id (with_tracker s id t) = with_tracker (only id s) id t.
Proof.
  unfold only, with_tracker. cbn [trackers onEvent s_maxHistory]. rewrite lookup_insert_eq.
  f_equal. destruct (trackers s !! id); [|done]. by rewrite insert_singleton_eq.
Qed.

Lemma only_insert_other id j t s : j ≠ id → only id (with_tracker s j t) = only id s.
Proof.
  intros Hj. unfold only, with_tracker. cbn [trackers onEvent s_maxHistory].
  by rewrite lookup_insert_ne.
Qed.

Lemma HandleOSC_outputs s id code e r now o :
  o ∈ (HandleOSC s id code e r now).1.2 → output_id o = id.
Proof.
  unfold HandleOSC. destruct (trackers s !! id); [|set_solver].
  case_bool_decide; [|set_solver]. destruct (handle _ _ _ _ _) as [t' evs]. cbn [fst snd].
  rewrite elem_of_app. intros [Ho|Ho].
  - destruct (onEvent s); [|set_solver]. apply list_elem_of_fmap in Ho as (? & -> & _). done.
  - destruct (existsb _ _); [|set_solver]. by apply list_elem_of_singleton in Ho as ->.
Qed.

Lemma step_same id s o :
  op_id o = id →
  step (only id s) o = ((step s o).1, only id (step s o).2).
Proof.
  intros <-. destruct o as [id|id|id m|id st now]; cbn [step op_id].
  - unfold Register. rewrite only_lookup. destruct (trackers s !! id); [done|].
    cbn [snd fst s_maxHistory only]. by rewrite only_insert_same.
  - cbn [fst snd]. f_equal. unfold Unregister, only. cbn [trackers onEvent s_maxHistory].
    rewrite lookup_delete_eq. f_equal. destruct (trackers s !! id); [|by rewrite delete_empty].
    by rewrite delete_singleton_eq.
  - unfold HandleOSC. rewrite only_lookup. destruct (trackers s !! id); [|done].
    case_bool_decide; [|done]. destruct (handle _ _ _ _ _). cbn [fst snd].
    by rewrite only_insert_same.
  - unfold Restore. rewrite only_lookup. destruct (trackers s !! id); [done|].
    cbn [snd fst s_maxHistory only]. by rewrite only_insert_same.
Qed.

Lemma step_other id s o :
  op_id o ≠ id →
  only id (step s o).2 = only id s ∧ Forall (λ x, output_id x ≠ id) (step s o).1.
Proof.
  intros Hne. destruct o as [j|j|j m|j st now]; cbn [step op_id] in *.
  - unfold Register. destruct (trackers s !! j); [done|]. cbn [fst snd].
    by rewrite only_insert_other.
  - split; [|constructor]. unfold Unregister, only. cbn [snd trackers onEvent s_maxHistory].
    by rewrite lookup_delete_ne.
  - pose proof (HandleOSC_outputs s j (m_code m) (m_exit m) (m_row m) (m_now m)) as Ho.
    destruct (HandleOSC s j _ _ _ _) as [[e outs] s'] eqn:E. cbn [fst snd] in *. split.
    + unfold HandleOSC in E. destruct (trackers s !! j); [|by simplify_eq].
      case_bool_decide; [|by simplify_eq]. destruct (handle _ _ _ _ _). simplify_eq.
      by apply only_insert_other.
    + apply Forall_forall. intros x Hx. by rewrite (Ho x Hx).
  - unfold Restore. destruct (trackers s !! j); [done|]. cbn [fst snd].
    by rewrite only_insert_other.
Qed.

Lemma steps_snoc s os o :
  steps s (os ++ [o]) =
    ((steps s os).1 ++ (step (steps s os).2 o).1, (step (steps s os).2 o).2).
Proof.
  unfold steps. rewrite foldl_app. cbn [foldl]. destruct (foldl _ _ os) as [outs s1].
  cbn [fst snd]. by destruct (step s1 o).
Qed.

Lemma step_outputs id s o : op_id o = id → Forall (λ x, output_id x = id) (step s o).1.
Proof.
  intros <-. destruct o as [j|j|j m|j st now]; cbn [step op_id fst]; try constructor.
  pose proof (HandleOSC_outputs s j (m_code m) (m_exit m) (m_row m) (m_now m)) as Ho.
  destruct (HandleOSC s j _ _ _ _) as [[e outs] s']. by apply Forall_forall.
Qed.

(** ** Theorems *)

(** C23: whatever markers arrive, in any order, the events of a session are
    well bracketed (each command is started once, finished once with the same
    start, and only then is the next one started or a prompt shown), the
    tracker is running a command exactly when one is open, and the history is
    the last [maxHistory] of the commands that finished. *)
Theorem tracker_history_is_last_finished max ms :
  (0 < max)%nat →
  let '(t, evs) := run (newTracker max) ms in
  bracketed None evs (current t) ∧
  (state t = StateCommandRunning ↔ is_Some (current t)) ∧
  history t = last_n max (finished evs) ∧ (length (history t) <= max)%nat.
Proof.
  intros Hm. pose proof (run_spec max ms Hm) as H. destruct (run (newTracker max) ms) as [t evs].
  destruct H as ((H1 & _ & H2) & <- & H3 & H4). done.
Qed.

Definition example_markers : list marker :=
  (λ '(c, r), mkMarker c 0 r (λ k, r * 10 + Z.of_nat k)) <$>
  [("A", 0); ("C", 1); ("D", 2); ("C", 3); ("C", 4); ("A", 5)]%byte.

Lemma tracker_history_is_last_finished_witness :
  (0 < 2)%nat ∧
  let '(t, evs) := run (newTracker 2) example_markers in
  history t = last_n 2 (finished evs) ∧ StartRow <$> history t = [3; 4].
Proof.
  split; [lia|]. pose proof (tracker_history_is_last_finished 2 example_markers ltac:(lia)) as H.
  destruct (run (newTracker 2) example_markers) as [t evs] eqn:E.
  split; [apply H|]. vm_compute in E. by injection E as <- <-.
Defined.

(** The last state saved for a session always has its whole history of
    the moment, so that when the daemon restarts and restores that state, the
    new tracker is idle and holds the finished commands, followed by one
    orphan for a command that was running when the state was saved, up to the
    capacity. *)
Theorem history_survives_restart s s2 id ms now :
  trackers s !! id = Some (newTracker (s_maxHistory s)) → onEvent s = true →
  (0 < s_maxHistory s)%nat → s_maxHistory s2 = s_maxHistory s → trackers s2 !! id = None →
  let '(outs, s1) := handle_all s id ms in
  ∃ tr, trackers s1 !! id = Some tr ∧
    history tr = last_n (s_maxHistory s) (finished (handled id outs)) ∧
    default [] (ss_History <$> last_saved id outs) = history tr ∧
    ∀ st, last_saved id outs = Some st → ∃ tr',
      trackers (snd (Restore s2 id st now)) !! id = Some tr' ∧
      state tr' = StateIdle ∧ current tr' = None ∧
      history tr' = last_n (s_maxHistory s) (history tr ++ orphan_of now (ss_InFlight st)).
Proof.
  intros Ht Hev Hm Hm2 Hn. pose proof (handle_all_spec s id ms Ht Hev Hm) as H.
  pose proof (run_spec (s_maxHistory s) ms Hm) as Hr.
  destruct (handle_all s id ms) as [outs s1]. destruct (run _ ms) as [tr evs].
  destruct H as (-> & -> & Hl). destruct Hr as (_ & _ & _ & Hh).
  exists tr. split_and!; [apply lookup_insert_eq|done|done|].
  intros st Hst. rewrite Hst in Hl. cbn in Hl. unfold Restore. rewrite Hn. cbn [snd].
  eexists. split; [apply lookup_insert_eq|]. rewrite <- Hl, Hm2.
  pose proof (restore_spec (s_maxHistory s) st now Hm) as (H1 & H2 & _ & H4). done.
Qed.

Lemma history_survives_restart_witness :
  let s0 := OnEvent (NewService []) true in
  let s := snd (Register s0 #"a") in
  trackers s !! #"a" = Some (newTracker (s_maxHistory s)) ∧
  let '(outs, s1) := handle_all s #"a" example_markers in
  ∃ tr, trackers s1 !! #"a" = Some tr ∧
    history tr = last_n (s_maxHistory s) (finished (handled #"a" outs)).
Proof.
  intros s0 s. assert (H : trackers s !! #"a" = Some (newTracker (s_maxHistory s))) by reflexivity.
  split; [exact H|].
  pose proof (history_survives_restart s (NewService []) #"a" example_markers 7 H eq_refl
    ltac:(vm_compute; lia) eq_refl eq_refl) as Ht.
  destruct (handle_all s #"a" example_markers) as [outs s1].
  destruct Ht as (tr & H1 & H2 & _). by exists tr.
Defined.

(** Sessions do not interfere: whatever operations are performed on the
    service, a session's tracker, the events its handler sees and the states
    saved for it are those of a service that holds this session alone and
    performs only the operations on it. *)
Theorem sessions_are_isolated s id os :
  let '(outs, s') := steps s os in
  let '(outs1, s1) := steps (only id s) (filter (λ o, op_id o = id) os) in
  only id s' = s1 ∧ filter (λ x, output_id x = id) outs = outs1.
Proof.
  induction os as [|o os IH] using rev_ind; [done|].
  rewrite steps_snoc, filter_app.
  destruct (steps s os) as [outs s']. cbn [fst snd].
  destruct (steps (only id s) (filter (λ o, op_id o = id) os)) as [outs1 s1] eqn:E1.
  destruct IH as [<- <-]. rewrite filter_app. cbn [filter list_filter].
  destruct (decide (op_id o = id)) as [Ho|Ho].
  - rewrite steps_snoc, E1. cbn [fst snd]. rewrite step_same by done. cbn [fst snd].
    split; [done|]. f_equal. by apply filter_all, step_outputs.
  - rewrite app_nil_r, E1. destruct (step_other id s' o Ho) as [H1 H2].
    split; [done|]. replace (filter _ (step s' o).1) with (@nil output); [by rewrite app_nil_r|].
    symmetry. by apply filter_none.
Qed.
