(* ===== verification/SessionValues.v ===== *)
(** * Session identifiers: [internal/session/values.go]

    Validation of session identifiers and prefixes, and the split of an
    identifier at its last slash.  The code ranges over the runes of a string;
    every rune it allows is one byte, and every other rune (a malformed
    encoding included) consists of bytes it does not allow, so the check is
    the same byte by byte. *)

From S2P Require Import Prelude GoStrings.

#[local] Open Scope Z_scope.

Definition ErrInvalidSessionID : error := ENew #"invalid session ID".

Definition ErrInvalidPrefix : error := ENew #"invalid session prefix".

Definition byte_between (lo hi : byte) (b : byte) : bool :=
  bool_decide (byte_val lo <= byte_val b) && bool_decide (byte_val b <= byte_val hi).

Definition isAllowedPrefixRune (r : byte) : bool :=
  byte_between "a"%byte "z"%byte r || byte_between "A"%byte "Z"%byte r ||
  byte_between "0"%byte "9"%byte r ||
  bool_decide (r = "-"%byte) || bool_decide (r = "_"%byte).

Definition isAllowedIDRune (r : byte) : bool :=
  byte_between "a"%byte "z"%byte r || byte_between "A"%byte "Z"%byte r ||
  byte_between "0"%byte "9"%byte r ||
  bool_decide (r = "-"%byte) || bool_decide (r = "_"%byte) || bool_decide (r = "/"%byte).

Definition ValidateSessionID (id : bytes) : option error :=
  if decide (id = []) then Some ErrInvalidSessionID
  else if contains id #".." then Some ErrInvalidSessionID
  else if forallb isAllowedIDRune id then None
  else Some ErrInvalidSessionID.

Definition ExtractPrefix (id : bytes) : bytes * bytes :=
  match last_index_byte id "/"%byte with
  | None => ([], id)
  | Some i => (take i id, drop (S i) id)
  end.

Definition ValidatePrefix (prefix : bytes) : option error :=
  if bool_decide (prefix = []) || bool_decide (64 < Z.of_nat (length prefix)) then Some ErrInvalidPrefix
  else if forallb isAllowedPrefixRune prefix then None
  else Some ErrInvalidPrefix.

(** ** Paths built from identifiers

    [filepath.Join(root, id)] cleans the joined path: empty and [.] segments
    disappear and [..] removes the segment before it.  [clean] does so on the
    segments of an absolute path. *)
Definition clean (segs : list bytes) : list bytes :=
  foldl (λ acc s,
    if decide (s = [] ∨ s = #".") then acc
    else if decide (s = #"..") then take (length acc - 1) acc
    else acc ++ [s]) [] segs.

(** The segments of [filepath.Join(root, id)]. *)
Definition join_path (root : list bytes) (id : bytes) : list bytes :=
  clean (root ++ split "/"%byte id).

(** ** Lemmas *)

Lemma ValidateSessionID_None id :
  ValidateSessionID id = None ↔
    id ≠ [] ∧ contains id #".." = false ∧ Forall (λ b, isAllowedIDRune b = true) id.
Proof.
  unfold ValidateSessionID.
  case_decide as H1; [naive_solver|].
  destruct (contains id #".."); [naive_solver|].
  destruct (forallb isAllowedIDRune id) eqn:E.
  - rewrite forallb_forall in E. split; [intros _|done]. split_and!; [done|done|].
    apply Forall_forall. intros b Hb. apply E. by apply list_elem_of_In.
  - split; [done|]. intros (_ & _ & Hf). rewrite <- not_true_iff_false in E. exfalso. apply E.
    apply forallb_forall. intros b Hb. rewrite Forall_forall in Hf. apply Hf.
    by apply list_elem_of_In.
Qed.

Lemma dot_not_allowed : isAllowedIDRune "."%byte = false.
Proof. reflexivity. Qed.

Lemma split_n_subset n c s p x : p ∈ split_n n c s → x ∈ p → x ∈ s.
Proof.
  revert s. induction n as [|n IH]; intros s Hp Hx; [by apply elem_of_nil in Hp|].
  destruct n as [|n]; [by apply list_elem_of_singleton in Hp as ->|].
  change (split_n (S (S n)) c s) with
    (match index_byte s c with
     | None => [s]
     | Some i => take i s :: split_n (S n) c (drop (S i) s)
     end) in Hp.
  destruct (index_byte s c) as [i|]; [|by apply list_elem_of_singleton in Hp as ->].
  apply elem_of_cons in Hp as [->|Hp].
  - rewrite <- (take_drop i s). apply elem_of_app. by left.
  - rewrite <- (take_drop (S i) s). apply elem_of_app. right. by apply IH.
Qed.

Lemma clean_no_dots acc segs :
  Forall (λ s, "."%byte ∉ s) segs →
  foldl (λ acc s,
    if decide (s = [] ∨ s = #".") then acc
    else if decide (s = #"..") then take (length acc - 1) acc
    else acc ++ [s]) acc segs = acc ++ filter (λ s, s ≠ []) segs.
Proof.
  intros Hs. revert acc. induction Hs as [|s segs Hs Hsegs IH]; intros acc.
  { by rewrite app_nil_r. }
  cbn [foldl]. destruct (decide (s = [])) as [->|Hne].
  - rewrite decide_True by (by left). rewrite IH. by rewrite filter_cons_False by naive_solver.
  - assert (s ≠ #"." ∧ s ≠ #"..") as [H1 H2] by (split; intros ->; apply Hs; by left).
    rewrite decide_False by naive_solver. rewrite decide_False by done.
    rewrite IH, filter_cons_True by done. by rewrite <- app_assoc.
Qed.

Lemma allowed_prefix_ID b : isAllowedPrefixRune b = true → isAllowedIDRune b = true.
Proof. unfold isAllowedPrefixRune, isAllowedIDRune. intros ->. done. Qed.

Lemma allowed_no_dot id : Forall (λ b, isAllowedIDRune b = true) id → "."%byte ∉ id.
Proof. intros H Hin. rewrite Forall_forall in H. specialize (H _ Hin). by vm_compute in H. Qed.

Lemma ValidateSessionID_iff id :
  ValidateSessionID id = None ↔ id ≠ [] ∧ Forall (λ b, isAllowedIDRune b = true) id.
Proof.
  rewrite ValidateSessionID_None. split; [naive_solver|]. intros [H1 H2].
  split_and!; [done| |done].
  unfold contains. destruct (index id #"..") as [i|] eqn:E; [|done]. exfalso.
  apply index_Some_prefix in E as [[k Hk]%has_prefix_spec _].
  apply (allowed_no_dot id H2).
  rewrite <- (take_drop i id), Hk. apply elem_of_app. right. by left.
Qed.

Lemma split_no_dot id :
  "."%byte ∉ id → Forall (λ s, "."%byte ∉ s) (split "/"%byte id).
Proof.
  intros Hn. apply Forall_forall. intros s Hs Hx.
  by apply Hn, (split_n_subset _ _ _ _ _ Hs Hx).
Qed.

Lemma ValidatePrefix_iff p :
  ValidatePrefix p = None ↔
    p ≠ [] ∧ Z.of_nat (length p) <= 64 ∧ Forall (λ b, isAllowedPrefixRune b = true) p.
Proof.
  unfold ValidatePrefix. repeat case_bool_decide; cbn [orb]; try naive_solver lia.
  destruct (forallb isAllowedPrefixRune p) eqn:E.
  - rewrite forallb_forall in E. split; [intros _|done]. split_and!; [done|lia|].
    apply Forall_forall. intros b Hb. apply E. by apply list_elem_of_In.
  - split; [done|]. intros (_ & _ & Hf). rewrite <- not_true_iff_false in E. exfalso. apply E.
    apply forallb_forall. intros b Hb. rewrite Forall_forall in Hf. apply Hf.
    by apply list_elem_of_In.
Qed.

Lemma drop_after (p n : bytes) c : drop (S (length p)) (p ++ c :: n) = n.
Proof.
  replace (S (length p)) with (length (p ++ [c])) by (rewrite length_app; simpl; lia).
  replace (p ++ c :: n) with ((p ++ [c]) ++ n) by (by rewrite <- app_assoc).
  by rewrite drop_app_length.
Qed.

Lemma last_index_byte_app p n c : c ∉ n → last_index_byte (p ++ c :: n) c = Some (length p).
Proof.
  intros Hn. apply last_index_byte_Some. split; [by apply list_lookup_middle|].
  by rewrite drop_after.
Qed.

Lemma ExtractPrefix_app p n : "/"%byte ∉ n → ExtractPrefix (p ++ #"/" ++ n) = (p, n).
Proof.
  intros Hn. unfold ExtractPrefix. change (#"/" ++ n) with ("/"%byte :: n).
  rewrite last_index_byte_app by done. rewrite take_app_length. f_equal.
  apply drop_after.
Qed.

(** ** Theorems *)

(** An identifier is accepted exactly when it is not empty and consists
    of letters, digits, hyphens, underscores and slashes; then the path that
    the history and recording code builds for it never leaves the root
    directory: its segments are the root's followed by the identifier's, with
    none removed and none of them [.] or [..]. *)
Theorem valid_ids_stay_under_root id root :
  (ValidateSessionID id = None ↔ id ≠ [] ∧ Forall (λ b, isAllowedIDRune b = true) id) ∧
  (ValidateSessionID id = None →
    join_path root id = clean root ++ filter (λ s, s ≠ []) (split "/"%byte id) ∧
    (#"." ∉ split "/"%byte id) ∧ (#".." ∉ split "/"%byte id)).
Proof.
  split; [apply ValidateSessionID_iff|].
  intros [_ H]%ValidateSessionID_iff. pose proof (split_no_dot id (allowed_no_dot id H)) as Hs.
  split_and!.
  - unfold join_path, clean. rewrite foldl_app. by apply clean_no_dots.
  - intros Hin. rewrite Forall_forall in Hs. apply (Hs _ Hin). by left.
  - intros Hin. rewrite Forall_forall in Hs. apply (Hs _ Hin). by left.
Qed.

Lemma valid_ids_stay_under_root_witness :
  ValidateSessionID #"proj/shell-1" = None ∧
  join_path [ #"home"; #"wmux"] #"proj/shell-1" = [ #"home"; #"wmux"; #"proj"; #"shell-1"].
Proof.
  split; [reflexivity|].
  rewrite (proj1 (proj2 (valid_ids_stay_under_root #"proj/shell-1" [ #"home"; #"wmux"]) eq_refl)).
  reflexivity.
Defined.

(** The prefix and the name of an identifier determine it, and the name
    holds no slash; a valid prefix holds none either and, with any name that
    is valid and has no slash, makes a valid identifier that splits back into
    the two. *)
Theorem prefix_roundtrip id prefix name :
  (let '(p, n) := ExtractPrefix id in
   ("/"%byte ∉ n) ∧ ((id = n ∧ p = [] ∧ "/"%byte ∉ id) ∨ id = p ++ #"/" ++ n)) ∧
  (ValidatePrefix prefix = None → ValidateSessionID name = None → "/"%byte ∉ name →
   ("/"%byte ∉ prefix) ∧ ValidateSessionID (prefix ++ #"/" ++ name) = None ∧
   ExtractPrefix (prefix ++ #"/" ++ name) = (prefix, name)).
Proof.
  split.
  - unfold ExtractPrefix. destruct (last_index_byte id "/"%byte) as [i|] eqn:E.
    + apply last_index_byte_Some in E as [Hl Hn]. split; [done|]. right.
      symmetry. by apply take_drop_middle.
    + apply last_index_byte_None in E. split; [done|]. by left.
  - intros (Hp1 & _ & Hp)%ValidatePrefix_iff [_ Hn]%ValidateSessionID_iff Hs. split_and!.
    + intros Hin. rewrite Forall_forall in Hp. specialize (Hp _ Hin). by vm_compute in Hp.
    + apply ValidateSessionID_iff. split; [by destruct prefix|].
      rewrite !Forall_app. split_and!; [|by repeat constructor|done].
      eapply Forall_impl; [exact Hp|]. apply allowed_prefix_ID.
    + by apply ExtractPrefix_app.
Qed.

Lemma prefix_roundtrip_witness :
  ValidatePrefix #"proj" = None ∧ ValidateSessionID #"a" = None ∧
  ExtractPrefix #"proj/a" = (#"proj", #"a").
Proof.
  split; [reflexivity|]. split; [reflexivity|].
  apply (proj2 (prefix_roundtrip [] #"proj" #"a") eq_refl eq_refl).
  apply (bool_decide_unpack _). exact I.
Defined.
