(* ===== verification/Buffer.v ===== *)
(** * The output buffer of a session: [internal/session/backpressure.go]

    [Buffer] queues terminal output between the batcher and the daemon's
    broadcaster, raises a flag at its high watermark and clears it below its
    low one, and recycles the backing arrays of the slices it has handed out.
    The backing arrays are therefore modelled: a heap of blocks, and slices
    that point into them. *)

From S2P Require Import Prelude.

#[local] Open Scope nat_scope.

(** ** Slices and backing arrays *)

(** A slice of a block: its offset, its length, and its capacity from there. *)
Record slice := mkSlice { sl_block : nat; sl_off : nat; sl_len : nat; sl_cap : nat }.

Record heap := mkHeap { h_next : nat; h_blocks : gmap nat bytes }.

Definition empty_heap : heap := mkHeap 0 ∅.

Definition block (h : heap) (b : nat) : bytes := default [] (h_blocks h !! b).

Definition sl_bytes (h : heap) (s : slice) : bytes :=
  take (sl_len s) (drop (sl_off s) (block h (sl_block s))).

(** The contents of a possibly nil slice. *)
Definition contents (h : heap) (s : option slice) : bytes :=
  match s with
  | Some s => sl_bytes h s
  | None => []
  end.

Definition slice_len (s : option slice) : nat :=
  match s with
  | Some s => sl_len s
  | None => 0
  end.

(** [make([]byte, n)] filled with [p], in a block of [cap] bytes. *)
Definition alloc (h : heap) (p : bytes) (cap : nat) : slice * heap :=
  (mkSlice (h_next h) 0 (length p) cap,
   mkHeap (S (h_next h)) (<[h_next h := p ++ replicate (cap - length p) x00]> (h_blocks h))).

Definition overwrite (blk p : bytes) (off : nat) : bytes :=
  take off blk ++ p ++ drop (off + length p) blk.

(** A block written in place from [off]. *)
Definition store (h : heap) (b off : nat) (p : bytes) : heap :=
  mkHeap (h_next h) (<[b := overwrite (block h b) p off]> (h_blocks h)).

Section Buffer.
(** How much more than needed [append] allocates when it grows a slice. *)
Variable slack : nat → nat → nat.

(** [append(s, p...)]: in place when the capacity allows, else into a new block. *)
Definition append (h : heap) (s : option slice) (p : bytes) : option slice * heap :=
  match s with
  | Some s =>
      if bool_decide (sl_len s + length p <= sl_cap s) then
        (Some (mkSlice (sl_block s) (sl_off s) (sl_len s + length p) (sl_cap s)),
         store h (sl_block s) (sl_off s + sl_len s) p)
      else
        let need := sl_len s + length p in
        let '(s', h') := alloc h (sl_bytes h s ++ p) (need + slack (sl_cap s) need) in (Some s', h')
  | None =>
      match p with
      | [] => (None, h)
      | _ => let '(s', h') := alloc h p (length p + slack 0 (length p)) in (Some s', h')
      end
  end.

(** ** The buffer *)

(** The debug events, with the sizes they carry. *)
Inductive trace :=
  | BufferAppend (byteLen bufferSize hwm : nat)
  | BufferPause (bufferSize hwm : nat)
  | BufferFlush (byteLen bufferSize : nat)
  | BufferResume (bufferSize lwm : nat).

Record Buffer := mkBuffer {
  data : option slice;
  inFlight : option slice;
  spare : option slice;
  highWatermark : nat;
  lowWatermark : nat;
  paused : bool;
  tracing : bool;  (** [tracer.Enabled()] *)
}.

Definition newBuffer (high low : nat) (tr : bool) : Buffer :=
  mkBuffer None None None high low false tr.

Definition Write (h : heap) (b : Buffer) (p : bytes) : nat * list trace * heap * Buffer :=
  let '(d, sp) :=
    match spare b with
    | Some s =>
        if bool_decide (slice_len (data b) = 0)
        then (Some (mkSlice (sl_block s) (sl_off s) 0 (sl_cap s)), None)
        else (data b, spare b)
    | None => (data b, spare b)
    end in
  let '(d, h) := append h d p in
  let paused' := if bool_decide (highWatermark b <= slice_len d) then true else paused b in
  let tr :=
    if tracing b then
      BufferAppend (length p) (slice_len d) (highWatermark b) ::
      (if negb (paused b) && paused' then [BufferPause (slice_len d) (highWatermark b)] else [])
    else [] in
  (length p, tr, h,
   mkBuffer d (inFlight b) sp (highWatermark b) (lowWatermark b) paused' (tracing b)).

Definition checkResume (b : Buffer) (remaining : nat) : bool :=
  if paused b && bool_decide (remaining < lowWatermark b) then false else paused b.

(** The state after a drain that leaves [d] and rotates the arrays or not. *)
Definition drained (b : Buffer) (d fl sp : option slice) : Buffer :=
  mkBuffer d fl sp (highWatermark b) (lowWatermark b) (checkResume b (slice_len d)) (tracing b).

Definition drain_trace (b : Buffer) (d : option slice) (out : nat) : list trace :=
  if tracing b then
    BufferFlush out (slice_len d) ::
    (if paused b && negb (checkResume b (slice_len d))
     then [BufferResume (slice_len d) (lowWatermark b)] else [])
  else [].

(** [Read]: [None] is the nil slice of an empty buffer. *)
Definition Read (h : heap) (b : Buffer) : option slice * list trace * heap * Buffer :=
  if bool_decide (slice_len (data b) = 0) then (None, [], h, b)
  else
    (data b, drain_trace b None (slice_len (data b)), h,
     drained b None (data b) (inFlight b)).

(** [ReadN], for a count that is not negative. *)
Definition ReadN (h : heap) (b : Buffer) (n : nat) : option slice * list trace * heap * Buffer :=
  match data b with
  | None => (None, [], h, b)
  | Some d =>
      if bool_decide (sl_len d = 0) then (None, [], h, b)
      else if bool_decide (sl_len d <= n) then
        (Some d, drain_trace b None (sl_len d), h, drained b None (Some d) (inFlight b))
      else
        let '(out, h') := alloc h (take n (sl_bytes h d)) n in
        let rest := Some (mkSlice (sl_block d) (sl_off d + n) (sl_len d - n) (sl_cap d - n)) in
        (Some out, drain_trace b rest n, h', drained b rest (inFlight b) (spare b))
  end.

Definition Paused (b : Buffer) : bool := paused b.

Definition Len (b : Buffer) : nat := slice_len (data b).

(** ** Runs *)

Inductive bop := BWrite (p : bytes) | BRead | BReadN (n : nat).

(** One call: the slice it returns, if any. *)
Definition bstep (h : heap) (b : Buffer) (o : bop) : option slice * list trace * heap * Buffer :=
  match o with
  | BWrite p => let '(_, tr, h, b) := Write h b p in (None, tr, h, b)
  | BRead => Read h b
  | BReadN n => ReadN h b n
  end.

(** A run, with the bytes of every slice at the moment it is returned. *)
Fixpoint brun (h : heap) (b : Buffer) (os : list bop) : list (bytes * list trace) * heap * Buffer :=
  match os with
  | [] => ([], h, b)
  | o :: os =>
      let '(out, tr, h, b) := bstep h b o in
      let '(rs, h', b') := brun h b os in ((contents h out, tr) :: rs, h', b')
  end.

(** ** The specification: a queue of bytes with hysteresis *)

Record fifo := mkFifo { queue : bytes; stopped : bool }.

(** Whether the producer must stop: raised at the high watermark, cleared by
    a drain that leaves less than the low one. *)
Definition fifo_step (high low : nat) (tracing : bool) (f : fifo) (o : bop) :
    (bytes * list trace) * fifo :=
  let drain out rest :=
    let stopped' := stopped f && bool_decide (low <= length rest) in
    ((out,
      if tracing then
        BufferFlush (length out) (length rest) ::
        (if stopped f && negb stopped' then [BufferResume (length rest) low] else [])
      else []), mkFifo rest stopped') in
  match o with
  | BWrite p =>
      let q := queue f ++ p in
      let stopped' := stopped f || bool_decide (high <= length q) in
      (([], if tracing then
              BufferAppend (length p) (length q) high ::
              (if negb (stopped f) && stopped' then [BufferPause (length q) high] else [])
            else []), mkFifo q stopped')
  | BRead => if decide (queue f = []) then (([], []), f) else drain (queue f) []
  | BReadN n => if decide (queue f = []) then (([], []), f) else drain (take n (queue f)) (drop n (queue f))
  end.

Fixpoint fifo_run (high low : nat) (tracing : bool) (f : fifo) (os : list bop) :
    list (bytes * list trace) * fifo :=
  match os with
  | [] => ([], f)
  | o :: os =>
      let '(r, f) := fifo_step high low tracing f o in
      let '(rs, f') := fifo_run high low tracing f os in (r :: rs, f')
  end.

(** ** Invariant *)

Definition slice_ok (h : heap) (s : slice) : Prop :=
  sl_block s < h_next h ∧ sl_len s <= sl_cap s ∧
  length (block h (sl_block s)) = sl_off s + sl_cap s.

Definition opt_ok (h : heap) (s : option slice) : Prop :=
  match s with
  | Some s => slice_ok h s
  | None => True
  end.

(** Two slices, if there are two, lie in different blocks. *)
Definition apart (s1 s2 : option slice) : Prop :=
  match s1, s2 with
  | Some s1, Some s2 => sl_block s1 ≠ sl_block s2
  | _, _ => True
  end.

Definition buffer_inv (h : heap) (b : Buffer) : Prop :=
  opt_ok h (data b) ∧ opt_ok h (inFlight b) ∧ opt_ok h (spare b) ∧
  apart (data b) (inFlight b) ∧ apart (data b) (spare b) ∧ apart (inFlight b) (spare b).

(** ** Lemmas *)

Lemma contents_len h s : opt_ok h s → length (contents h s) = slice_len s.
Proof.
  destruct s as [s|]; [|done]. intros (Hb & Hl & Hc). simpl. unfold sl_bytes.
  rewrite length_take, length_drop. lia.
Qed.

Lemma block_insert_eq h b blk n : block (mkHeap n (<[b := blk]> (h_blocks h))) b = blk.
Proof. unfold block. cbn [h_blocks]. by rewrite lookup_insert_eq. Qed.

Lemma block_insert_ne h b c blk n :
  b ≠ c → block (mkHeap n (<[b := blk]> (h_blocks h))) c = block h c.
Proof. intros H. unfold block. cbn [h_blocks]. by rewrite lookup_insert_ne. Qed.

(** A change of one block, and possibly a new one, leaves other slices alone. *)
Lemma frame h b blk n t :
  h_next h <= n → opt_ok h t → (∀ s, t = Some s → sl_block s ≠ b) →
  let h' := mkHeap n (<[b := blk]> (h_blocks h)) in
  opt_ok h' t ∧ contents h' t = contents h t.
Proof.
  intros Hn Ht Hne. destruct t as [t|]; [|done]. destruct Ht as (Hb & Hl & Hc).
  specialize (Hne t eq_refl). unfold opt_ok, slice_ok, contents, sl_bytes. cbn [h_next].
  rewrite block_insert_ne by done. split_and!; [lia|done|done|done].
Qed.

Lemma alloc_spec h p cap :
  length p <= cap →
  let '(s, h') := alloc h p cap in
  slice_ok h' s ∧ sl_bytes h' s = p ∧ sl_block s = h_next h ∧ sl_len s = length p ∧
  (∀ t, opt_ok h t → opt_ok h' t ∧ contents h' t = contents h t ∧ apart (Some s) t).
Proof.
  intros Hc. unfold alloc. cbv zeta. split_and!; try done.
  - unfold slice_ok. cbn [sl_block sl_off sl_len sl_cap h_next].
    rewrite block_insert_eq, length_app, length_replicate. lia.
  - unfold sl_bytes. cbn [sl_block sl_off sl_len]. rewrite block_insert_eq.
    by rewrite drop_0, take_app_length.
  - intros t Ht. destruct (frame h (h_next h) (p ++ replicate (cap - length p) x00) (S (h_next h)) t)
      as [H1 H2]; [lia|done| |].
    + intros s ->. destruct Ht as [Ht _]. lia.
    + split_and!; [done|done|]. destruct t as [t|]; [|done]. destruct Ht as [Ht _].
      cbn [apart sl_block]. lia.
Qed.

Lemma overwrite_length blk p off :
  off + length p <= length blk → length (overwrite blk p off) = length blk.
Proof.
  intros H. unfold overwrite. rewrite !length_app, length_take, length_drop. lia.
Qed.

Lemma overwrite_after blk p off n k :
  off + n = k → k + length p <= length blk →
  take (n + length p) (drop off (overwrite blk p k)) = take n (drop off blk) ++ p.
Proof.
  intros <- H. unfold overwrite.
  rewrite drop_app_le by (rewrite length_take; lia).
  rewrite <- take_drop_commute, app_assoc, take_app_le
    by (rewrite length_app, length_take, length_drop; lia).
  rewrite take_ge by (rewrite length_app, length_take, length_drop; lia). done.
Qed.

Lemma append_spec h s p :
  opt_ok h s →
  let '(s', h') := append h s p in
  opt_ok h' s' ∧ contents h' s' = contents h s ++ p ∧
  (∀ t, opt_ok h t → apart s t →
    opt_ok h' t ∧ contents h' t = contents h t ∧ apart s' t).
Proof.
  intros Hs. destruct s as [s|]; cbn [append].
  - destruct Hs as (Hb & Hl & Hc). case_bool_decide as Hfit.
    + split_and!.
      * unfold opt_ok, slice_ok, store. cbn [sl_block sl_len sl_cap sl_off h_next].
        rewrite block_insert_eq, overwrite_length by lia. lia.
      * unfold contents, sl_bytes, store. cbn [sl_block sl_len sl_off].
        rewrite block_insert_eq. apply overwrite_after; [done|lia].
      * intros t Ht Ha. unfold store.
        edestruct (frame h (sl_block s)) as [H1 H2]; [reflexivity|exact Ht| |].
        -- intros t' ->. by apply not_eq_sym.
        -- split_and!; [exact H1|exact H2|]. by destruct t.
    + set (need := sl_len s + length p).
      pose proof (contents_len h (Some s) (conj Hb (conj Hl Hc))) as Hlen. cbn in Hlen.
      pose proof (alloc_spec h (sl_bytes h s ++ p) (need + slack (sl_cap s) need)) as Ha.
      destruct (alloc h _ _) as [s' h'].
      destruct Ha as (H1 & H2 & _ & _ & H3); [rewrite length_app; lia|].
      split_and!; [done|done|]. intros t Ht _. by apply H3.
  - destruct p as [|x p].
    + split_and!; [done|done|]. by intros t Ht _.
    + pose proof (alloc_spec h (x :: p) (length (x :: p) + slack 0 (length (x :: p)))) as Ha.
      destruct (alloc h _ _) as [s' h']. destruct Ha as (H1 & H2 & _ & _ & H3); [lia|].
      split_and!; [done|done|]. intros t Ht _. by apply H3.
Qed.

Lemma apart_sym s t : apart s t → apart t s.
Proof. destruct s, t; simpl; auto. Qed.

(** The slice a write appends to: the recycled array, or the data. *)
Lemma reuse_spec h b :
  buffer_inv h b →
  let '(d, sp) :=
    match spare b with
    | Some s =>
        if bool_decide (slice_len (data b) = 0)
        then (Some (mkSlice (sl_block s) (sl_off s) 0 (sl_cap s)), None)
        else (data b, spare b)
    | None => (data b, spare b)
    end in
  opt_ok h d ∧ opt_ok h sp ∧ contents h d = contents h (data b) ∧
  apart d (inFlight b) ∧ apart d sp ∧ apart (inFlight b) sp ∧
  (∀ t, apart (data b) t → apart (spare b) t → apart d t ∧ apart sp t).
Proof.
  intros (Hd & Hf & Hs & Hdf & Hds & Hfs).
  destruct (spare b) as [s|] eqn:Es; [|by split_and!]. case_bool_decide as Hl; [|by split_and!].
  assert (contents h (data b) = []) as ->
    by (apply length_zero_iff_nil; by rewrite contents_len).
  destruct Hs as (H1 & H2 & H3). split_and!; try done.
  - split_and!; [done|cbn; lia|done].
  - destruct (inFlight b); [|done]. simpl in *. by apply not_eq_sym.
  - by destruct (inFlight b).
Qed.

Lemma buffer_Write_spec h b p :
  buffer_inv h b →
  let '(n, tr, h', b') := Write h b p in
  let q := contents h (data b) ++ p in
  let stop := paused b || bool_decide (highWatermark b <= length q) in
  n = length p ∧ buffer_inv h' b' ∧ contents h' (data b') = q ∧ inFlight b' = inFlight b ∧
  paused b' = stop ∧
  tr = (if tracing b then
          BufferAppend (length p) (length q) (highWatermark b) ::
          (if negb (paused b) && stop then [BufferPause (length q) (highWatermark b)] else [])
        else []) ∧
  highWatermark b' = highWatermark b ∧ lowWatermark b' = lowWatermark b ∧ tracing b' = tracing b ∧
  (∀ t, opt_ok h t → apart (data b) t → apart (spare b) t →
    opt_ok h' t ∧ contents h' t = contents h t ∧ apart (data b') t ∧ apart (spare b') t).
Proof.
  intros Hinv. pose proof (reuse_spec h b Hinv) as Hr. unfold Write.
  destruct (match spare b with Some _ => _ | None => _ end) as [d sp].
  destruct Hr as (Hd & Hsp & Hc & Hdf & Hdsp & Hfsp & Hother).
  pose proof (append_spec h d p Hd) as Ha. destruct (append h d p) as [d' h'].
  destruct Ha as (Hd' & Hc' & Hfr).
  destruct Hinv as (_ & Hf & _).
  destruct (Hfr _ Hf Hdf) as (Hf' & _ & Hdf'). destruct (Hfr _ Hsp Hdsp) as (Hsp' & _ & Hdsp').
  assert (Hlen : slice_len d' = length (contents h (data b) ++ p))
    by (by rewrite <- (contents_len h'), Hc', Hc).
  assert (Hstop : (if bool_decide (highWatermark b <= slice_len d') then true else paused b) =
    paused b || bool_decide (highWatermark b <= length (contents h (data b) ++ p))).
  { rewrite Hlen. case_bool_decide; by rewrite ?orb_true_r, ?orb_false_r. }
  cbv zeta. cbn [data inFlight spare paused highWatermark lowWatermark tracing].
  rewrite Hstop, Hlen. split_and!; try done.
  - by rewrite Hc', Hc.
  - intros t Ht Ha1 Ha2. destruct (Hother t Ha1 Ha2) as [H1 H2].
    destruct (Hfr t Ht H1) as (? & ? & ?). done.
Qed.

(** What both reads do to the flag. *)
Lemma checkResume_spec b n :
  checkResume b n = paused b && bool_decide (lowWatermark b <= n).
Proof.
  unfold checkResume. destruct (paused b); [|done]. cbn [andb].
  repeat case_bool_decide; try done; lia.
Qed.

(** ** Refinement *)

Definition refines (h : heap) (b : Buffer) (high low : nat) (tr : bool) (f : fifo) : Prop :=
  buffer_inv h b ∧ contents h (data b) = queue f ∧ paused b = stopped f ∧
  highWatermark b = high ∧ lowWatermark b = low ∧ tracing b = tr.

Lemma drain_all_spec h b high low tr f n :
  refines h b high low tr f → queue f ≠ [] → length (queue f) <= n →
  let '(r, f') := fifo_step high low tr f (BReadN n) in
  fifo_step high low tr f BRead = (r, f') ∧
  refines h (drained b None (data b) (inFlight b)) high low tr f' ∧
  (contents h (data b), drain_trace b None (slice_len (data b))) = r.
Proof.
  intros ((Hd & Hf & Hs & Hdf & Hds & Hfs) & Hq & Hp & <- & <- & <-) Hne Hn.
  cbn [fifo_step]. rewrite !decide_False by done.
  rewrite take_ge, drop_ge by done. split; [done|].
  rewrite <- (contents_len h) by done. rewrite Hq, <- Hp. split.
  - unfold refines, drained, buffer_inv. cbn. rewrite checkResume_spec.
    split_and!; done.
  - unfold drain_trace. cbn [slice_len]. by rewrite checkResume_spec.
Qed.

Lemma bstep_refines h b high low tr f o :
  refines h b high low tr f →
  let '(out, t, h', b') := bstep h b o in
  let '(r, f') := fifo_step high low tr f o in
  (contents h' out, t) = r ∧ refines h' b' high low tr f'.
Proof.
  intros HR. pose proof HR as (Hinv & Hq & Hp & Hhi & Hlo & Htr).
  pose proof (proj1 Hinv) as Hdok.
  assert (Hz : slice_len (data b) = 0 ↔ queue f = [])
    by (rewrite <- Hq, <- (contents_len h) by done; apply length_zero_iff_nil).
  destruct o as [p| |n]; cbn [bstep].
  - pose proof (buffer_Write_spec h b p Hinv) as Hw. destruct (Write h b p) as [[[m t] h'] b'].
    destruct Hw as (_ & Hi & Hc & _ & Hp' & -> & Hh' & Hl' & Ht' & _).
    cbn [fifo_step contents]. unfold refines.
    rewrite Hp', Hc, Hq, Hp, Hh', Hl', Ht', Hhi, Htr. done.
  - unfold Read. case_bool_decide as Hl.
    + cbn [fifo_step]. rewrite decide_True by tauto. done.
    + pose proof (drain_all_spec h b high low tr f (length (queue f)) HR ltac:(tauto) (le_n _)) as Hs.
      destruct (fifo_step high low tr f (BReadN _)) as [r f']. destruct Hs as (-> & ? & ?). done.
  - unfold ReadN. destruct (data b) as [d|] eqn:Ed.
    2: { cbn [fifo_step]. rewrite decide_True by (by apply Hz). done. }
    case_bool_decide as Hl.
    { cbn [fifo_step]. rewrite decide_True by (by apply Hz). done. }
    assert (Hne : queue f ≠ []) by (intros ?%Hz; done).
    assert (Hlq : length (queue f) = sl_len d)
      by (rewrite <- Hq, contents_len by done; done).
    case_bool_decide as Hn.
    { pose proof (drain_all_spec h b high low tr f n HR Hne ltac:(lia)) as Hs. rewrite Ed in Hs.
      destruct (fifo_step high low tr f (BReadN n)) as [r f']. destruct Hs as (_ & ? & ?). done. }
    pose proof Hdok as Hdo.
    pose proof (alloc_spec h (take n (sl_bytes h d)) n) as Ha.
    pose proof (contents_len h (Some d) Hdo) as Hdl. cbn [contents slice_len] in Hdl.
    destruct (alloc h (take n (sl_bytes h d)) n) as [out h'].
    destruct Ha as (Ho & Hob & _ & _ & Hfr); [rewrite length_take; lia|].
    set (rest := Some (mkSlice (sl_block d) (sl_off d + n) (sl_len d - n) (sl_cap d - n))).
    destruct Hinv as (_ & Hf & Hs & Hdf & Hds & Hfs). rewrite Ed in Hdf, Hds.
    destruct (Hfr _ Hdo) as (Hd' & Hdc & _). destruct (Hfr _ Hf) as (Hf' & _ & _).
    destruct (Hfr _ Hs) as (Hs' & _ & _).
    assert (Hq' : sl_bytes h d = queue f) by exact Hq.
    assert (Hrest : contents h' rest = drop n (queue f)).
    { rewrite <- Hq'. cbn [contents] in Hdc. rewrite <- Hdc. unfold rest, contents, sl_bytes.
      cbn [sl_block sl_off sl_len]. rewrite <- drop_drop. by rewrite skipn_firstn_comm. }
    assert (Hro : opt_ok h' rest).
    { destruct Hd' as (H1 & H2 & H3). unfold rest. split_and!; cbn; [done|lia|lia]. }
    cbn [fifo_step]. rewrite decide_False by done. cbn [contents]. rewrite Hob, Hq'.
    rewrite <- Hrest, contents_len by done. unfold drain_trace. rewrite checkResume_spec.
    rewrite length_take, Hrest, Hlq, Nat.min_l by lia. rewrite Hp, Hlo, Htr. split; [done|].
    unfold refines, drained. cbn [data inFlight spare paused highWatermark lowWatermark tracing].
    rewrite checkResume_spec, Hp, Hlo. by split_and!.
Qed.

Lemma brun_refines os h b high low tr f :
  refines h b high low tr f →
  let '(rs, h', b') := brun h b os in
  let '(rs', f') := fifo_run high low tr f os in
  rs = rs' ∧ refines h' b' high low tr f'.
Proof.
  revert h b f. induction os as [|o os IH]; intros h b f HR; [done|].
  cbn [brun fifo_run]. pose proof (bstep_refines h b high low tr f o HR) as Hs.
  destruct (bstep h b o) as [[[out t] h1] b1]. destruct (fifo_step high low tr f o) as [r f1].
  destruct Hs as [<- HR1]. specialize (IH h1 b1 f1 HR1).
  destruct (brun h1 b1 os) as [[rs h'] b']. destruct (fifo_run high low tr f1 os) as [rs' f'].
  destruct IH as [-> HR']. done.
Qed.

Lemma newBuffer_refines high low tr :
  refines empty_heap (newBuffer high low tr) high low tr (mkFifo [] false).
Proof. by split_and!. Qed.

(** ** How long a slice stays valid *)

(** A call that empties the buffer hands its array out and retires the one
    handed out before. *)
Definition drains (b : Buffer) (o : bop) : bool :=
  match o with
  | BWrite _ => false
  | BRead => negb (bool_decide (slice_len (data b) = 0))
  | BReadN n => negb (bool_decide (slice_len (data b) = 0)) && bool_decide (slice_len (data b) <= n)
  end.

Fixpoint no_drain (h : heap) (b : Buffer) (os : list bop) : bool :=
  match os with
  | [] => true
  | o :: os => negb (drains b o) && let '(_, _, h, b) := bstep h b o in no_drain h b os
  end.

Definition is_write (o : bop) : bool := match o with BWrite _ => true | _ => false end.

(** A slice that neither the next write nor a read can touch. *)
Definition protected (h : heap) (b : Buffer) (t : option slice) : Prop :=
  opt_ok h t ∧ apart (data b) t ∧ apart (spare b) t.

Lemma bstep_protected h b o t :
  buffer_inv h b → protected h b t → drains b o = false →
  let '(_, _, h', b') := bstep h b o in protected h' b' t ∧ contents h' t = contents h t.
Proof.
  intros Hinv (Ht & H1 & H2) Hnd. destruct o as [p| |n]; cbn [bstep drains] in *.
  - pose proof (buffer_Write_spec h b p Hinv) as Hw. destruct (Write h b p) as [[[m tr] h'] b'].
    destruct Hw as (_ & _ & _ & _ & _ & _ & _ & _ & _ & Hfr).
    destruct (Hfr t Ht H1 H2) as (? & ? & ? & ?). done.
  - unfold Read. destruct (bool_decide _); done.
  - unfold ReadN. destruct (data b) as [d|] eqn:Ed; [|rewrite <- Ed in H1; done].
    cbn [slice_len] in Hnd. case_bool_decide; [unfold protected; by rewrite Ed|].
    case_bool_decide; [done|].
    pose proof (contents_len h (Some d) ltac:(rewrite <- Ed; apply Hinv)) as Hdl.
    pose proof (alloc_spec h (take n (sl_bytes h d)) n) as Ha.
    destruct (alloc h _ n) as [out h'].
    destruct Ha as (_ & _ & _ & _ & Hfr); [rewrite length_take; lia|].
    destruct (Hfr t Ht) as (? & ? & ?). split; [|done]. by split_and!.
Qed.

(** A read changes no bytes that are already there. *)
Lemma bstep_read_contents h b o t :
  buffer_inv h b → opt_ok h t → is_write o = false →
  let '(_, _, h', _) := bstep h b o in opt_ok h' t ∧ contents h' t = contents h t.
Proof.
  intros Hinv Ht Hw. destruct o as [p| |n]; [done| |]; cbn [bstep].
  - unfold Read. by destruct (bool_decide _).
  - unfold ReadN. destruct (data b) as [d|] eqn:Ed; [|done].
    case_bool_decide; [done|]. case_bool_decide; [done|].
    pose proof (alloc_spec h (take n (sl_bytes h d)) n) as Ha.
    destruct (alloc h _ n) as [out h'].
    destruct Ha as (_ & _ & _ & _ & Hfr); [rewrite length_take; lia|].
    by destruct (Hfr t Ht) as (? & ? & ?).
Qed.

Lemma bstep_inv h b o :
  buffer_inv h b → let '(_, _, h', b') := bstep h b o in buffer_inv h' b'.
Proof.
  intros Hinv.
  pose proof (bstep_refines h b _ _ _ (mkFifo (contents h (data b)) (paused b)) o
    (conj Hinv (conj eq_refl (conj eq_refl (conj eq_refl (conj eq_refl eq_refl)))))) as Hs.
  destruct (bstep h b o) as [[[out t] h1] b1]. destruct (fifo_step _ _ _ _ o) as [r f1].
  by destruct Hs as [_ [? _]].
Qed.

Lemma brun_protected os h b t :
  buffer_inv h b → protected h b t → no_drain h b os = true →
  let '(_, h', b') := brun h b os in
  buffer_inv h' b' ∧ opt_ok h' t ∧ contents h' t = contents h t.
Proof.
  revert h b. induction os as [|o os IH]; intros h b Hinv Hp Hn; [by destruct Hp|].
  cbn [brun no_drain] in *. apply andb_true_iff in Hn as [Hd Hn].
  apply negb_true_iff in Hd. pose proof (bstep_inv h b o Hinv) as Hi.
  pose proof (bstep_protected h b o t Hinv Hp Hd) as Hs.
  destruct (bstep h b o) as [[[out tr] h1] b1]. destruct Hs as [Hp1 Hc1].
  specialize (IH h1 b1 Hi Hp1 Hn). destruct (brun h1 b1 os) as [[rs h'] b'].
  by rewrite <- Hc1.
Qed.

Lemma brun_reads os h b t :
  buffer_inv h b → opt_ok h t → Forall (λ o, is_write o = false) os →
  let '(_, h', b') := brun h b os in contents h' t = contents h t.
Proof.
  intros Hinv Ht Hos. revert h b Hinv Ht. induction Hos as [|o os Ho Hos IH]; intros h b Hinv Ht; [done|].
  cbn [brun]. pose proof (bstep_inv h b o Hinv) as Hi.
  pose proof (bstep_read_contents h b o t Hinv Ht Ho) as Hs.
  destruct (bstep h b o) as [[[out tr] h1] b1]. destruct Hs as [Ht1 Hc1].
  specialize (IH h1 b1 Hi Ht1). destruct (brun h1 b1 os) as [[rs h'] b']. by rewrite <- Hc1.
Qed.

(** ** Theorems *)

(** C18: whatever the capacities [append] chooses, a buffer behaves as a queue
    of bytes with a stop flag: every read returns the bytes written and not
    yet read, in order and as they were written, although arrays are reused;
    the flag is raised when a write reaches the high watermark and cleared
    when a read leaves less than the low one, and the debug events say so. *)
Theorem buffer_refines_fifo high low tr os :
  let '(rs, h, b) := brun empty_heap (newBuffer high low tr) os in
  let '(rs', f) := fifo_run high low tr (mkFifo [] false) os in
  rs = rs' ∧ contents h (data b) = queue f ∧ Paused b = stopped f ∧ Len b = length (queue f).
Proof.
  pose proof (brun_refines os _ _ high low tr _ (newBuffer_refines high low tr)) as H.
  destruct (brun empty_heap _ os) as [[rs h] b]. destruct (fifo_run _ _ _ _ os) as [rs' f].
  destruct H as (-> & Hi & Hq & Hp & _). split_and!; [done|done|done|].
  rewrite <- Hq, contents_len by apply Hi. done.
Qed.

(** The slice that [Read] returns keeps its bytes until a write that
    comes after the next call that empties the buffer: through any writes and
    partial reads before that call, and any reads after it. *)
Theorem read_slice_stays_valid high low tr os0 os1 os2 :
  let '(_, h0, b0) := brun empty_heap (newBuffer high low tr) os0 in
  let '(out, _, h1, b1) := Read h0 b0 in
  let '(_, h2, b2) := brun h1 b1 os1 in
  let '(_, h3, _) := brun h2 b2 os2 in
  no_drain h1 b1 os1 = true → Forall (λ o, is_write o = false) os2 →
  contents h3 out = contents h0 (data b0).
Proof.
  pose proof (brun_refines os0 _ _ high low tr _ (newBuffer_refines high low tr)) as H.
  destruct (brun empty_heap _ os0) as [[rs h0] b0]. destruct (fifo_run _ _ _ _ os0) as [rs' f].
  destruct H as (_ & Hi & _). pose proof Hi as (Hd & Hf & Hs & Hdf & Hds & Hfs).
  pose proof (bstep_inv h0 b0 BRead Hi) as Hi1. cbn [bstep] in Hi1. unfold Read in *.
  case_bool_decide as Hl.
  - assert (contents h0 (data b0) = []) as ->
      by (apply length_zero_iff_nil; by rewrite contents_len).
    destruct (brun h0 b0 os1) as [[? h2] b2]. by destruct (brun h2 b2 os2) as [[? h3] b3].
  - assert (Hp : protected h0 (drained b0 None (data b0) (inFlight b0)) (data b0))
      by (split_and!; [done|done|by apply apart_sym]).
    pose proof (brun_protected os1 _ _ _ Hi1 Hp) as H2.
    destruct (brun h0 _ os1) as [[? h2] b2].
    pose proof (brun_reads os2 h2 b2 (data b0)) as H3.
    destruct (brun h2 b2 os2) as [[? h3] b3]. intros Hn Hw.
    destruct (H2 Hn) as (Hi2 & Ho & Hc). by rewrite (H3 Hi2 Ho Hw).
Qed.
End Buffer.

Lemma read_slice_stays_valid_witness :
  let slack := λ _ _ : nat, 0 in
  let os0 := [BWrite #"first"] in let os1 := [BWrite #"second"] in let os2 := [BRead] in
  let '(_, h0, b0) := brun slack empty_heap (newBuffer 100 50 false) os0 in
  let '(out, _, h1, b1) := Read h0 b0 in
  let '(_, h2, b2) := brun slack h1 b1 os1 in
  let '(_, h3, _) := brun slack h2 b2 os2 in
  no_drain slack h1 b1 os1 = true ∧ contents h3 out = #"first".
Proof.
  intros slack os0 os1 os2.
  assert (Hw : Forall (λ o, is_write o = false) os2) by (by repeat constructor).
  exact (conj eq_refl (read_slice_stays_valid slack 100 50 false os0 os1 os2 eq_refl Hw)).
Defined.

(** The bound is tight: the write after the second read reuses the array. *)
Example recycled_after_two_reads :
  let slack := λ _ _ : nat, 0 in
  let '(_, h0, b0) := brun slack empty_heap (newBuffer 100 50 false) [BWrite #"first"] in
  let '(out, _, h1, b1) := Read h0 b0 in
  let '(_, h2, b2) := brun slack h1 b1 [BWrite #"x"; BRead; BWrite #"CRASH"] in
  contents h1 out = #"first" ∧ contents h2 out = #"CRASH".
Proof. vm_compute. split; reflexivity. Qed.
