(* ===== verification/Batcher.v ===== *)
(** * The output batcher of a session: [internal/session/batcher.go]

    [Batcher] collects the chunks read from a terminal and hands them to a
    callback when its timer ticks or when a signal asks for a flush.  The
    adding goroutine and the flushing one interleave, so the component is a
    transition system; [Add] is two steps, since it signals after it unlocks. *)

From S2P Require Import Prelude.

#[local] Open Scope Z_scope.

Definition minBatchInterval : Z := millisecond.

Definition defaultFlushThreshold : Z := 32 * 1024.

Record Batcher := mkBatcher {
  buf : bytes;
  interval : Z;
  flushThreshold : Z;
  done_ : bool;          (** the channel [done] is closed *)
  flush : bool;          (** the channel [flush], of capacity 1, holds a signal *)
  signalling : bool;     (** an [Add] over the threshold has yet to signal *)
  looping : bool;        (** the goroutine [loop] has not returned *)
}.

Definition newBatcher (ival : Z) : Batcher :=
  mkBatcher [] (if bool_decide (ival < minBatchInterval) then minBatchInterval else ival)
    defaultFlushThreshold false false false true.

(** [Add] up to its unlock: [signalling] is its [overThreshold]. *)
Definition Add (b : Batcher) (data : bytes) : Batcher :=
  let buf' := buf b ++ data in
  let overThreshold :=
    bool_decide (0 < flushThreshold b) && bool_decide (flushThreshold b <= Z.of_nat (length buf')) in
  mkBatcher buf' (interval b) (flushThreshold b) (done_ b) (flush b) overThreshold (looping b).

(** The signal that [Add] ends with when it is over the threshold. *)
Definition Add_signal (b : Batcher) : Batcher :=
  mkBatcher (buf b) (interval b) (flushThreshold b) (done_ b) (flush b || signalling b) false (looping b).

(** A send to a full channel is dropped: there is a signal already. *)
Definition FlushNow (b : Batcher) : Batcher :=
  mkBatcher (buf b) (interval b) (flushThreshold b) (done_ b) true (signalling b) (looping b).

Definition Len (b : Batcher) : nat := length (buf b).

Definition Stop (b : Batcher) : Batcher :=
  mkBatcher (buf b) (interval b) (flushThreshold b) true (flush b) (signalling b) (looping b).

(** The callback's argument is a copy; [None] when it is not called. *)
Definition doFlush (b : Batcher) : option bytes * Batcher :=
  match buf b with
  | [] => (None, b)
  | out => (Some out, mkBatcher [] (interval b) (flushThreshold b) (done_ b) (flush b)
                        (signalling b) (looping b))
  end.

(** One round of [loop], for each channel its [select] may take. *)
Definition loop_done (b : Batcher) : Batcher :=
  mkBatcher (buf b) (interval b) (flushThreshold b) (done_ b) (flush b) (signalling b) false.

Definition loop_flush (b : Batcher) : option bytes * Batcher :=
  doFlush (mkBatcher (buf b) (interval b) (flushThreshold b) (done_ b) false (signalling b) (looping b)).

Definition loop_tick (b : Batcher) : option bytes * Batcher := doFlush b.

(** What happens: calls from outside, and rounds of the loop. *)
Inductive action := AAdd (data : bytes) | ASignal | AFlushNow | AStop | ADone | AFlush | ATick.

(** [step b a out b']: [a] is possible in [b] and calls back with [out]. *)
Inductive step (b : Batcher) : action → option bytes → Batcher → Prop :=
  | step_add data : signalling b = false → step b (AAdd data) None (Add b data)
  | step_signal : signalling b = true → step b ASignal None (Add_signal b)
  | step_flush_now : step b AFlushNow None (FlushNow b)
  | step_stop : step b AStop None (Stop b)
  | step_done : looping b = true → done_ b = true → step b ADone None (loop_done b)
  | step_flush : looping b = true → flush b = true →
      step b AFlush (fst (loop_flush b)) (snd (loop_flush b))
  | step_tick : looping b = true → step b ATick (fst (loop_tick b)) (snd (loop_tick b)).

(** A run from a new batcher: the chunks added and the batches handed out. *)
Inductive run (ival : Z) : list bytes → list bytes → Batcher → Prop :=
  | run_new : run ival [] [] (newBatcher ival)
  | run_step added outs b a out b' :
      run ival added outs b → step b a out b' →
      run ival (added ++ match a with AAdd d => [d] | _ => [] end)
        (outs ++ option_list out) b'.

(** ** Lemmas *)

Lemma doFlush_spec b :
  default [] (fst (doFlush b)) ++ buf (snd (doFlush b)) = buf b ∧
  buf (snd (doFlush b)) = [] ∧ fst (doFlush b) ≠ Some [] ∧
  interval (snd (doFlush b)) = interval b ∧
  flushThreshold (snd (doFlush b)) = flushThreshold b.
Proof. unfold doFlush. destruct (buf b) eqn:E; cbn; rewrite ?app_nil_r; by split_and!. Qed.

Definition inv (added outs : list bytes) (b : Batcher) : Prop :=
  concat outs ++ buf b = concat added ∧ Forall (λ o, o ≠ []) outs ∧
  minBatchInterval <= interval b ∧ flushThreshold b = defaultFlushThreshold ∧
  (flushThreshold b <= Z.of_nat (length (buf b)) → flush b = true ∨ signalling b = true).

Lemma step_inv added outs b a out b' :
  inv added outs b → step b a out b' →
  inv (added ++ match a with AAdd d => [d] | _ => [] end) (outs ++ option_list out) b'.
Proof.
  intros (Hc & Hne & Hi & Ht & Hs) Hst.
  assert (Hflush : ∀ b0, buf b0 = buf b → interval b0 = interval b →
    flushThreshold b0 = flushThreshold b →
    inv (added ++ []) (outs ++ option_list (fst (doFlush b0))) (snd (doFlush b0))).
  { intros b0 Eb Ei Et. destruct (doFlush_spec b0) as (H1 & H2 & H3 & H4 & H5).
    rewrite Eb in H1. rewrite app_nil_r. split_and!.
    - rewrite concat_app, <- app_assoc, <- Hc. f_equal. rewrite <- H1.
      destruct (fst (doFlush b0)); cbn; by rewrite ?app_nil_r.
    - apply Forall_app. split; [done|]. destruct (fst (doFlush b0)); [|constructor].
      constructor; [congruence|constructor].
    - congruence.
    - congruence.
    - rewrite H2. cbn. rewrite H5, Et, Ht. unfold defaultFlushThreshold. lia. }
  destruct Hst; cbn [option_list]; rewrite ?app_nil_r.
  - unfold inv, Add. cbn [buf interval flushThreshold flush signalling].
    split_and!; try done.
    + rewrite concat_app. cbn. by rewrite app_nil_r, app_assoc, Hc.
    + intros Hlen. right. rewrite Ht in *. by rewrite !bool_decide_true by (unfold defaultFlushThreshold in *; lia).
  - split_and!; try done. cbn. intros Hl. left. by rewrite (orb_true_iff _ _), H; right.
  - split_and!; try done. by left.
  - by split_and!.
  - by split_and!.
  - rewrite <- (app_nil_r added). by apply Hflush.
  - rewrite <- (app_nil_r added). by apply Hflush.
Qed.

Lemma run_inv ival added outs b : run ival added outs b → inv added outs b.
Proof.
  induction 1 as [|added outs b a out b' Hr IH Hs].
  - split_and!; try done. cbn. case_bool_decide; lia.
  - by eapply step_inv.
Qed.

(** ** Theorems *)

(** However the adding and the flushing goroutine interleave, the batches
    handed to the callback, followed by what is still pending, are the chunks
    added, in order and without loss or repetition; no batch is empty; a
    pending batch that has reached the threshold always has a flush signal
    sent or about to be sent; and while the loop runs a flush is possible
    that hands out everything pending. *)
Theorem batches_are_what_was_added ival added outs b :
  run ival added outs b →
  concat outs ++ buf b = concat added ∧ Forall (λ o, o ≠ []) outs ∧
  (defaultFlushThreshold <= Z.of_nat (length (buf b)) → flush b = true ∨ signalling b = true) ∧
  (looping b = true → ∃ out b', step b ATick out b' ∧ buf b' = [] ∧ default [] out = buf b).
Proof.
  intros Hr. destruct (run_inv _ _ _ _ Hr) as (Hc & Hne & Hi & Ht & Hs). rewrite Ht in Hs.
  split_and!; try done. intros Hl. do 2 eexists. split; [by apply step_tick|].
  destruct (doFlush_spec b) as (H1 & H2 & _). split; [done|].
  by rewrite H2, app_nil_r in H1.
Qed.

Lemma batches_are_what_was_added_witness :
  let b := Add (snd (loop_tick (Add (newBatcher millisecond) #"ab"))) #"c" in
  run millisecond [ #"ab"; #"c"] [ #"ab"] b ∧ concat [ #"ab"] ++ buf b = concat [ #"ab"; #"c"].
Proof.
  intros b. assert (H : run millisecond [ #"ab"; #"c"] [ #"ab"] b).
  { eapply (run_step _ [ #"ab"] [ #"ab"] _ (AAdd #"c") None); [|by apply step_add].
    eapply (run_step _ [ #"ab"] [] (Add (newBatcher millisecond) #"ab") ATick (Some #"ab"));
      [|by apply step_tick].
    eapply (run_step _ [] [] _ (AAdd #"ab") None); [constructor|by apply step_add]. }
  split; [exact H|]. exact (proj1 (batches_are_what_was_added _ _ _ _ H)).
Defined.
