(* ===== verification/Pipeline.v ===== *)
(** * The output path of one session: [internal/session/service.go]

    The goroutines that carry the output of a terminal: [readLoop] reads
    chunks while the buffer is not paused and gives each one to the batcher,
    the emulator's channel and the history writer; the batcher's loop flushes
    into the buffer; [emulatorLoop] feeds the emulator; [ReadOutput] drains
    the buffer.  Each round of a goroutine is a step, and the steps interleave
    freely.  The tracer's events about chunks are left out here. *)

From S2P Require Import Prelude Buffer Batcher.

(** ** Screen emulators ([entity.go], [emulator.go]) *)

(** The interface of an emulator: a state and its operations.  A panic of
    [Process] is recovered, so [Process] is total; [SetScrollbackSize] is
    [None] for a state whose emulator is not [ScrollbackConfigurable], and
    [Emulator_Closer] tells whether it is an [io.Closer]. *)
Class ScreenEmulator (E : Type) := {
  Process : E → bytes → E;
  Emulator_Snapshot : E → bytes;
  Emulator_Resize : E → Z → Z → E;
  SetScrollbackSize : E → option (Z → E);
  Emulator_Closer : E → bool;
}.

Inductive NoneEmulator := MkNone.

#[export] Instance none_emulator : ScreenEmulator NoneEmulator := {|
  Process _ _ := MkNone;
  Emulator_Snapshot _ := [];
  Emulator_Resize _ _ _ := MkNone;
  SetScrollbackSize _ := None;
  Emulator_Closer _ := false;
|}.

(** An emulator of the factory's type, or none. *)
#[export] Instance sum_emulator `{ScreenEmulator A, ScreenEmulator B} : ScreenEmulator (A + B) := {|
  Process e p := match e with inl a => inl (Process a p) | inr b => inr (Process b p) end;
  Emulator_Snapshot e :=
    match e with inl a => Emulator_Snapshot a | inr b => Emulator_Snapshot b end;
  Emulator_Resize e c r :=
    match e with inl a => inl (Emulator_Resize a c r) | inr b => inr (Emulator_Resize b c r) end;
  SetScrollbackSize e :=
    match e with
    | inl a => (λ f n, inl (f n)) <$> SetScrollbackSize a
    | inr b => (λ f n, inr (f n)) <$> SetScrollbackSize b
    end;
  Emulator_Closer e := match e with inl a => Emulator_Closer a | inr b => Emulator_Closer b end;
|}.

Definition readChunkSize : Z := 32 * 1024.

Definition emulatorChanSize : nat := 64.

(** Where [readLoop] is: at its pause check, in [process.Read], or returned. *)
Inductive phase := AtCheck | AtRead | Returned.

#[export] Instance phase_eq_decision : EqDecision phase.
Proof. solve_decision. Defined.

Section Pipeline.
Context {E : Type} `{ScreenEmulator E}.
Variable slack : nat → nat → nat.

Record pipeline := mkPipeline {
  p_batcher : Batcher;
  p_heap : heap;
  p_buffer : Buffer;
  p_phase : phase;
  p_emulatorCh : list bytes;
  p_emulator : E;
  p_lastActivity : time;
}.

Definition new_pipeline (high low : nat) (ival : Z) (tracing : bool) (e : E) (now : time) : pipeline :=
  mkPipeline (newBatcher ival) empty_heap (newBuffer high low tracing) AtCheck [] e now.

(** What the steps do outside: the history writer and [onDataReady]. *)
Inductive effect := EHistory (chunk : bytes) | EDataReady.

(** [readLoop]: a sleep when the buffer is paused, else on to the read. *)
Definition read_check (p : pipeline) : pipeline :=
  if Paused (p_buffer p) then p
  else mkPipeline (p_batcher p) (p_heap p) (p_buffer p) AtRead (p_emulatorCh p) (p_emulator p)
         (p_lastActivity p).

(** [process.Read] returned [chunk] and an error or none.  A full channel
    drops the chunk for the emulator. *)
Definition read_chunk (hasHistory : bool) (p : pipeline) (chunk : bytes) (err : bool) (now : time) :
    list effect * pipeline :=
  let next := if err then Returned else AtCheck in
  match chunk with
  | [] =>
      ([], mkPipeline (p_batcher p) (p_heap p) (p_buffer p) next (p_emulatorCh p) (p_emulator p)
             (p_lastActivity p))
  | _ =>
      let ch :=
        if bool_decide (length (p_emulatorCh p) < emulatorChanSize)
        then p_emulatorCh p ++ [chunk] else p_emulatorCh p in
      (if hasHistory then [EHistory chunk] else [],
       mkPipeline (Add_signal (Add (p_batcher p) chunk)) (p_heap p) (p_buffer p) next ch
         (p_emulator p) now)
  end.

(** The batcher's callback: the buffer, then [onDataReady]. *)
Definition onFlush (hasReady : bool) (p : pipeline) (b : Batcher) (out : option bytes) :
    list effect * pipeline :=
  match out with
  | None =>
      ([], mkPipeline b (p_heap p) (p_buffer p) (p_phase p) (p_emulatorCh p) (p_emulator p)
             (p_lastActivity p))
  | Some data =>
      let '(_, _, h, buf) := Write slack (p_heap p) (p_buffer p) data in
      (if hasReady then [EDataReady] else [],
       mkPipeline b h buf (p_phase p) (p_emulatorCh p) (p_emulator p) (p_lastActivity p))
  end.

Definition batch_tick (hasReady : bool) (p : pipeline) : list effect * pipeline :=
  let '(out, b) := loop_tick (p_batcher p) in onFlush hasReady p b out.

Definition batch_flush (hasReady : bool) (p : pipeline) : list effect * pipeline :=
  let '(out, b) := loop_flush (p_batcher p) in onFlush hasReady p b out.

Definition batch_stop (p : pipeline) : pipeline :=
  mkPipeline (Batcher.Stop (p_batcher p)) (p_heap p) (p_buffer p) (p_phase p) (p_emulatorCh p)
    (p_emulator p) (p_lastActivity p).

Definition batch_done (p : pipeline) : pipeline :=
  mkPipeline (loop_done (p_batcher p)) (p_heap p) (p_buffer p) (p_phase p) (p_emulatorCh p)
    (p_emulator p) (p_lastActivity p).

(** One round of [emulatorLoop]. *)
Definition emulatorLoop (p : pipeline) : pipeline :=
  match p_emulatorCh p with
  | [] => p
  | c :: ch =>
      mkPipeline (p_batcher p) (p_heap p) (p_buffer p) (p_phase p) ch (Process (p_emulator p) c)
        (p_lastActivity p)
  end.

(** [ms.buffer.Read()], with the bytes of the slice as it is returned. *)
Definition drain (p : pipeline) : bytes * pipeline :=
  let '(out, _, h, buf) := Read (p_heap p) (p_buffer p) in
  (contents h out,
   mkPipeline (p_batcher p) h buf (p_phase p) (p_emulatorCh p) (p_emulator p) (p_lastActivity p)).

Definition with_emulator (p : pipeline) (e : E) : pipeline :=
  mkPipeline (p_batcher p) (p_heap p) (p_buffer p) (p_phase p) (p_emulatorCh p) e (p_lastActivity p).

(** ** Runs *)

(** The ghost history of a session: the chunks its terminal produced, those
    the emulator was given, what the history writer got, what was drained. *)
Record ghost := mkGhost {
  g_chunks : list bytes;
  g_processed : list bytes;
  g_history : list bytes;
  g_drained : list bytes;
}.

Definition history_of (es : list effect) : list bytes :=
  es ≫= (λ e, match e with EHistory c => [c] | EDataReady => [] end).

(** One step of any of the goroutines, on a session with a history writer. *)
Inductive pstep : pipeline * ghost → pipeline * ghost → Prop :=
  | ps_check p g : p_phase p = AtCheck → pstep (p, g) (read_check p, g)
  | ps_chunk p g chunk err now :
      p_phase p = AtRead → (Z.of_nat (length chunk) <= readChunkSize)%Z →
      pstep (p, g)
        (snd (read_chunk true p chunk err now),
         mkGhost (g_chunks g ++ match chunk with [] => [] | _ => [chunk] end) (g_processed g)
           (g_history g ++ history_of (fst (read_chunk true p chunk err now))) (g_drained g))
  | ps_tick p g ready : looping (p_batcher p) = true → pstep (p, g) (snd (batch_tick ready p), g)
  | ps_flush p g ready :
      looping (p_batcher p) = true → flush (p_batcher p) = true →
      pstep (p, g) (snd (batch_flush ready p), g)
  | ps_stop p g : pstep (p, g) (batch_stop p, g)
  | ps_done p g : done_ (p_batcher p) = true → pstep (p, g) (batch_done p, g)
  | ps_emulate p g c ch :
      p_emulatorCh p = c :: ch →
      pstep (p, g)
        (emulatorLoop p, mkGhost (g_chunks g) (g_processed g ++ [c]) (g_history g) (g_drained g))
  | ps_drain p g :
      pstep (p, g)
        (snd (drain p),
         mkGhost (g_chunks g) (g_processed g) (g_history g) (g_drained g ++ [fst (drain p)])).

(** The state of a session from its creation on. *)
Inductive reachable (high low : nat) (ival : Z) (tracing : bool) (e : E) (now : time) :
    pipeline * ghost → Prop :=
  | reach_new :
      reachable high low ival tracing e now
        (new_pipeline high low ival tracing e now, mkGhost [] [] [] [])
  | reach_step s s' :
      reachable high low ival tracing e now s → pstep s s' → reachable high low ival tracing e now s'.

(** ** Invariant *)

(** A raised flag means that there is something to drain. *)
Definition flag_justified (high low : nat) (f : fifo) : Prop :=
  stopped f = true → low <= length (queue f) ∨ high <= length (queue f).

Definition pinv (high low : nat) (tracing : bool) (e : E) (s : pipeline * ghost) : Prop :=
  let '(p, g) := s in
  (∃ f, refines (p_heap p) (p_buffer p) high low tracing f ∧ flag_justified high low f ∧
    concat (g_drained g) ++ queue f ++ buf (p_batcher p) = concat (g_chunks g)) ∧
  g_history g = g_chunks g ∧
  (g_processed g ++ p_emulatorCh p) `sublist_of` g_chunks g ∧
  length (p_emulatorCh p) <= emulatorChanSize ∧
  p_emulator p = foldl Process e (g_processed g).

(** ** Lemmas *)

Lemma fifo_step_justified high low tr f o :
  flag_justified high low f → flag_justified high low (snd (fifo_step high low tr f o)).
Proof.
  unfold flag_justified. intros Hf. destruct o as [p| |n]; cbn [fifo_step].
  - cbn [snd queue stopped]. rewrite length_app. intros [H1|H1]%orb_true_iff.
    + destruct (Hf H1); lia.
    + apply bool_decide_eq_true in H1. by right.
  - case_decide; [done|]. cbn [snd queue stopped]. intros [_ H1]%andb_true_iff.
    apply bool_decide_eq_true in H1. by left.
  - case_decide; [done|]. cbn [snd queue stopped]. intros [_ H1]%andb_true_iff.
    apply bool_decide_eq_true in H1. by left.
Qed.

Lemma onFlush_inv high low tr e p g ready b out :
  default [] out ++ buf b = buf (p_batcher p) → buf b = [] →
  pinv high low tr e (p, g) → pinv high low tr e (snd (onFlush ready p b out), g).
Proof.
  intros Hb Hb0 ((f & HR & Hj & Hc) & Hh & Hs & Hl & He). rewrite Hb0, app_nil_r in Hb.
  unfold onFlush. destruct out as [data|]; cbn in Hb; subst.
  - pose proof (bstep_refines slack _ _ _ _ _ _ (BWrite (buf (p_batcher p))) HR) as Hw.
    cbn [bstep] in Hw. destruct (Write slack _ _ _) as [[[n t] h] bf]. cbn [snd].
    pose proof (fifo_step_justified high low tr f (BWrite (buf (p_batcher p))) Hj) as Hj'.
    cbn [fifo_step snd] in Hw, Hj'. destruct Hw as [_ HR'].
    split_and!; try done. eexists. split; [exact HR'|]. split; [exact Hj'|]. cbn [queue p_batcher].
    by rewrite Hb0, app_nil_r.
  - split_and!; try done. exists f. cbn [snd p_heap p_buffer p_batcher].
    split_and!; [done|done|]. rewrite Hb0. by rewrite <- Hb in Hc.
Qed.

Lemma pstep_inv high low tr e s s' :
  pinv high low tr e s → pstep s s' → pinv high low tr e s'.
Proof.
  intros Hinv Hst. pose proof Hinv as Hi0.
  destruct Hst as [p g Hph|p g chunk err now Hph Hlen|p g ready _|p g ready _ _|p g|p g _|p g c ch Hch|p g].
  - unfold read_check. by destruct (Paused (p_buffer p)).
  - destruct Hinv as ((f & HR & Hj & Hc) & Hh & Hs & Hl & He). destruct chunk as [|x chunk].
    + cbn. rewrite !app_nil_r. split_and!; [by exists f|done..].
    + cbn [read_chunk fst snd]. set (c := x :: chunk) in *.
      split_and!; cbn [p_batcher p_heap p_buffer p_emulatorCh p_emulator g_chunks g_processed g_history
        g_drained history_of mbind list_bind app Add_signal Add buf].
      * exists f. split_and!; [done|done|]. rewrite concat_app. cbn [concat].
        by rewrite app_nil_r, <- Hc, <- !app_assoc.
      * by rewrite Hh.
      * case_bool_decide.
        -- rewrite app_assoc. by apply sublist_app.
        -- by apply sublist_inserts_r.
      * case_bool_decide; [rewrite length_app; simpl; lia|done].
      * done.
  - unfold batch_tick, loop_tick. destruct (doFlush_spec (p_batcher p)) as (H1 & H2 & _).
    destruct (doFlush (p_batcher p)) as [out b]. by apply onFlush_inv.
  - unfold batch_flush, loop_flush.
    match goal with |- context [doFlush ?b] => destruct (doFlush_spec b) as (H1 & H2 & _);
      destruct (doFlush b) as [out b'] end. by apply onFlush_inv.
  - done.
  - done.
  - destruct Hinv as ((f & HR & Hj & Hc) & Hh & Hs & Hl & He). unfold emulatorLoop. rewrite Hch in *.
    split_and!; [by exists f|done| | |].
    + cbn [p_emulatorCh g_processed]. by rewrite <- app_assoc.
    + cbn in *. lia.
    + cbn [p_emulator g_processed]. by rewrite foldl_app, <- He.
  - destruct Hinv as ((f & HR & Hj & Hc) & Hh & Hs & Hl & He). unfold drain.
    pose proof (bstep_refines slack _ _ _ _ _ _ BRead HR) as Hr. cbn [bstep] in Hr.
    destruct (Read _ _) as [[[out t] h] bf].
    pose proof (fifo_step_justified high low tr f BRead Hj) as Hj'.
    split_and!; try done. cbn [fifo_step] in Hr, Hj'. case_decide as Hq; cbn [fst snd] in *.
    + destruct Hr as [[= Ho _] HR']. exists f. split_and!; [done|done|]. cbn [g_drained p_batcher g_chunks].
      rewrite Ho, concat_app. cbn. by rewrite app_nil_r.
    + destruct Hr as [[= Ho _] HR']. eexists. split; [exact HR'|]. split; [exact Hj'|]. cbn [g_drained p_batcher g_chunks queue].
      rewrite Ho, concat_app. cbn. by rewrite app_nil_r, <- app_assoc.
Qed.

Lemma reachable_inv high low ival tr e now s :
  reachable high low ival tr e now s → pinv high low tr e s.
Proof.
  induction 1 as [|s s' _ IH Hs]; [|by eapply pstep_inv].
  split_and!; try done; [|cbn; unfold emulatorChanSize; lia].
  exists (mkFifo [] false). split_and!; [apply newBuffer_refines|done|done].
Qed.

(** ** Theorems *)

(** C17: whatever the interleaving of the goroutines, the output drained from
    a session, followed by what waits in its buffer and in its batcher, is
    what its terminal produced, every byte once and in order; the history
    writer was given the same chunks; and the emulator has processed, or has
    in its channel of at most 64, a subsequence of them in order, so a full
    channel costs it whole chunks and nothing else. *)
Theorem output_is_delivered_once high low ival tr e now p g :
  reachable high low ival tr e now (p, g) →
  concat (g_drained g) ++ contents (p_heap p) (data (p_buffer p)) ++ buf (p_batcher p) =
    concat (g_chunks g) ∧
  g_history g = g_chunks g ∧
  (g_processed g ++ p_emulatorCh p) `sublist_of` g_chunks g ∧
  length (p_emulatorCh p) <= emulatorChanSize ∧
  p_emulator p = foldl Process e (g_processed g).
Proof.
  intros Hr. apply reachable_inv in Hr as ((f & (_ & Hq & _) & _ & Hc) & Hrest).
  rewrite Hq. done.
Qed.

(** Backpressure is released: in every reachable state in which the
    reading goroutine is held at its check because the buffer is paused, one
    call of [ReadOutput] hands out everything in the buffer and lets the next
    check pass, provided the low watermark is positive. *)
Theorem draining_resumes_reading high low ival tr e now p g :
  0 < low → 0 < high → reachable high low ival tr e now (p, g) → p_phase p = AtCheck →
  let '(out, p') := drain p in
  out = contents (p_heap p) (data (p_buffer p)) ∧
  contents (p_heap p') (data (p_buffer p')) = [] ∧
  p_phase (read_check p') = AtRead.
Proof.
  intros Hlow Hhigh Hr Hph. apply reachable_inv in Hr as ((f & HR & Hj & _) & _).
  pose proof HR as (Hi & Hq & Hp & Hhi & Hlo & _).
  unfold drain, Read, read_check, Paused.
  case_bool_decide as Hl.
  - assert (Hn : contents (p_heap p) (data (p_buffer p)) = [])
      by (apply length_zero_iff_nil; rewrite contents_len by apply Hi; done).
    cbn [p_heap p_buffer contents]. rewrite Hn. split_and!; [done|done|].
    destruct (paused (p_buffer p)) eqn:Ep; [|done]. symmetry in Hp. apply Hj in Hp.
    rewrite Hn in Hq. rewrite <- Hq in Hp. cbn in Hp. lia.
  - cbn [p_heap p_buffer drained data contents paused slice_len].
    rewrite checkResume_spec, Hlo, (bool_decide_false (low <= 0)), andb_false_r by lia. done.
Qed.
End Pipeline.

Section Witnesses.
#[local] Abbreviation slack := (λ _ _ : nat, 0) (only parsing).
#[local] Abbreviation start :=
  (new_pipeline 4 2 millisecond false MkNone 0, mkGhost [] [] [] []) (only parsing).

Lemma example_reachable :
  ∃ p g, reachable (slack) 4 2 millisecond false MkNone 0 (p, g) ∧ p_phase p = AtCheck ∧
    paused (p_buffer p) = true ∧ g_chunks g = [ #"hello"].
Proof.
  set (p0 := new_pipeline 4 2 millisecond false MkNone 0).
  set (p1 := read_check p0).
  set (p2 := snd (read_chunk true p1 #"hello" false 5)).
  set (p3 := snd (batch_tick slack true p2)).
  exists p3, (mkGhost [ #"hello"] [] [ #"hello"] []).
  split; [|split_and!; reflexivity].
  eapply reach_step; [|by apply (ps_tick slack p2 _ true)].
  eapply (reach_step _ _ _ _ _ _ _ (p1, mkGhost [] [] [] []));
    [|apply (ps_chunk slack p1 (mkGhost [] [] [] []) #"hello" false 5%Z); by vm_compute].
  eapply reach_step; [apply reach_new|by apply ps_check].
Qed.

Lemma output_is_delivered_once_witness :
  ∃ p g, reachable (slack) 4 2 millisecond false MkNone 0 (p, g) ∧
    concat (g_drained g) ++ contents (p_heap p) (data (p_buffer p)) ++ buf (p_batcher p) = #"hello".
Proof.
  destruct example_reachable as (p & g & Hr & _ & _ & Hg). exists p, g. split; [exact Hr|].
  rewrite (proj1 (output_is_delivered_once _ _ _ _ _ _ _ _ _ Hr)), Hg. reflexivity.
Defined.

Lemma draining_resumes_reading_witness :
  ∃ p g, reachable (slack) 4 2 millisecond false MkNone 0 (p, g) ∧
    paused (p_buffer p) = true ∧ p_phase (read_check (snd (drain p))) = AtRead.
Proof.
  destruct example_reachable as (p & g & Hr & Hph & Hp & _). exists p, g.
  split; [exact Hr|]. split; [exact Hp|].
  pose proof (draining_resumes_reading _ 4 2 _ _ _ _ p g ltac:(lia) ltac:(lia) Hr Hph) as H.
  destruct (drain p) as [out p']. apply H.
Defined.
End Witnesses.

