(* ===== verification/Session.v ===== *)
(** * The session service: [internal/session/service.go], [reaper.go],
    [watchdog.go]

    [Service] keeps a map from identifiers to pointers of managed sessions;
    the pointers are modelled, since the goroutine that waits for a process
    holds one and may outlive the map's entry.  Every operation that runs
    under the mutex is one step.  The spawner's result, the clock and the
    answers of the terminal device are arguments; what an operation does to
    the outside is a list of effects. *)

From S2P Require Import Prelude GoStrings SessionValues Buffer Batcher Pipeline.

#[local] Open Scope Z_scope.

(** ** Data ([entity.go]) *)

Inductive State := StateAlive | StateDetached | StateExited | StateRemoved.

#[export] Instance State_eq_decision : EqDecision State.
Proof. solve_decision. Defined.

Definition State_String (s : State) : bytes :=
  match s with
  | StateAlive => #"alive"
  | StateDetached => #"detached"
  | StateExited => #"exited"
  | StateRemoved => #"removed"
  end.

Definition IsTerminal (s : State) : bool :=
  bool_decide (s = StateExited) || bool_decide (s = StateRemoved).

Record Session := mkSession {
  ID : bytes;
  Prefix : bytes;
  sess_State : State;
  Pid : Z;
  Cols : Z;
  Rows : Z;
  Shell : bytes;
  Cwd : bytes;
  sess_ExitCode : Z;
  sess_StartedAt : time;
  sess_EndedAt : time;
  Metadata : gmap bytes bytes;
}.

#[export] Instance Session_eq_decision : EqDecision Session.
Proof. solve_decision. Defined.

Definition ErrSessionNotFound : error := ENew #"session not found".

Definition ErrSessionExists : error := ENew #"session already exists".

Definition ErrMaxSessions : error := ENew #"maximum number of sessions reached".

Definition ErrScrollbackNotConfigurable : error :=
  ENew #"emulator does not support scrollback configuration".

(** Updates of one field or two. *)
Definition set_state (s : Session) (st : State) : Session :=
  mkSession (ID s) (Prefix s) st (Pid s) (Cols s) (Rows s) (Shell s) (Cwd s) (sess_ExitCode s)
    (sess_StartedAt s) (sess_EndedAt s) (Metadata s).

Definition set_size (s : Session) (cols rows : Z) : Session :=
  mkSession (ID s) (Prefix s) (sess_State s) (Pid s) cols rows (Shell s) (Cwd s) (sess_ExitCode s)
    (sess_StartedAt s) (sess_EndedAt s) (Metadata s).

Definition set_meta (s : Session) (m : gmap bytes bytes) : Session :=
  mkSession (ID s) (Prefix s) (sess_State s) (Pid s) (Cols s) (Rows s) (Shell s) (Cwd s)
    (sess_ExitCode s) (sess_StartedAt s) (sess_EndedAt s) m.

Definition set_exited (s : Session) (code : Z) (now : time) : Session :=
  mkSession (ID s) (Prefix s) StateExited (Pid s) (Cols s) (Rows s) (Shell s) (Cwd s) code
    (sess_StartedAt s) now (Metadata s).

Definition defaultHighWatermark : Z := 4 * 1024 * 1024.

Definition defaultLowWatermark : Z := 2 * 1024 * 1024.

Definition defaultBatchInterval : Z := 16 * millisecond.

Record CreateOptions := mkCreate {
  o_Shell : bytes;
  o_Args : list bytes;
  o_Cols : Z;
  o_Rows : Z;
  o_Cwd : bytes;
  o_Env : list bytes;
  o_HighWatermark : Z;
  o_LowWatermark : Z;
  o_BatchInterval : Z;
  o_History : bool;  (** whether there is a history writer *)
}.

Section Service.
Context {E : Type} `{ScreenEmulator E}.
Variable slack : nat → nat → nat.

Record managedSession := mkManaged {
  session : Session;
  pipe : pipeline (E := E + NoneEmulator);
  hasHistory : bool;
  closed : bool;  (** [closeOnce] has run *)
}.

Record Service := mkService {
  sessions : gmap bytes nat;
  store : gmap nat managedSession;
  next : nat;
  maxSessions : Z;
  hasOnExit : bool;
  hasOnDataReady : bool;
  emulatorFactory : option (bytes → Z → Z → E);
}.

(** What an operation does outside the service. *)
Inductive effect :=
  | Spawn (command : bytes) (args : list bytes) (cols rows : Z) (cwd : bytes) (env : list bytes)
  | Hangup (pid : Z)
  | ClosePty (pid : Z)
  | ResizePty (pid cols rows : Z)
  | WritePty (pid : Z) (data : bytes)
  | CloseHistory (id : bytes)
  | CloseEmulator (id : bytes)
  | OnExit (id : bytes) (code : Z).

Definition NewService (max : Z) (onExit onReady : bool) (f : option (bytes → Z → Z → E)) : Service :=
  mkService ∅ ∅ 0 max onExit onReady f.

Definition lookup (s : Service) (id : bytes) : option (nat * managedSession) :=
  ptr ← sessions s !! id; ms ← store s !! ptr; Some (ptr, ms).

Definition with_store (s : Service) (ptr : nat) (ms : managedSession) : Service :=
  mkService (sessions s) (<[ptr := ms]> (store s)) (next s) (maxSessions s) (hasOnExit s)
    (hasOnDataReady s) (emulatorFactory s).

Definition with_sessions (s : Service) (m : gmap bytes nat) : Service :=
  mkService m (store s) (next s) (maxSessions s) (hasOnExit s) (hasOnDataReady s) (emulatorFactory s).

(** The default a non-positive option stands for. *)
Definition or_default (z d : Z) : Z := if bool_decide (z <= 0) then d else z.

(** [Create]; [spawned] is the spawner's result, a process identifier. *)
Definition Create (s : Service) (id : bytes) (opts : CreateOptions) (spawned : result Z) (now : time) :
    result Session * list effect * Service :=
  match ValidateSessionID id with
  | Some e => (Err e, [], s)
  | None =>
      match sessions s !! id with
      | Some _ => (Err ErrSessionExists, [], s)
      | None =>
          if bool_decide (0 < maxSessions s) && bool_decide (maxSessions s <= Z.of_nat (size (sessions s)))
          then (Err ErrMaxSessions, [], s)
          else
            let cols := or_default (o_Cols opts) 80 in
            let rows := or_default (o_Rows opts) 24 in
            let highWM := or_default (o_HighWatermark opts) defaultHighWatermark in
            let lowWM := or_default (o_LowWatermark opts) defaultLowWatermark in
            let ival := or_default (o_BatchInterval opts) defaultBatchInterval in
            let eff := Spawn (o_Shell opts) (o_Args opts) cols rows (o_Cwd opts) (o_Env opts) in
            match spawned with
            | Err e => (Err (EWrap #"spawn pty" e), [eff], s)
            | Ok pid =>
                let prefix := fst (ExtractPrefix id) in
                let sess := mkSession id prefix StateAlive pid cols rows (o_Shell opts) (o_Cwd opts)
                              0 now zero_time ∅ in
                let emulator :=
                  match emulatorFactory s with
                  | Some f => inl (f id cols rows)
                  | None => inr MkNone
                  end in
                let ms := mkManaged sess
                  (new_pipeline (Z.to_nat highWM) (Z.to_nat lowWM) ival false emulator now)
                  (o_History opts) false in
                (Ok sess, [eff],
                 mkService (<[id := next s]> (sessions s)) (<[next s := ms]> (store s)) (S (next s))
                   (maxSessions s) (hasOnExit s) (hasOnDataReady s) (emulatorFactory s))
            end
      end
  end.

Definition Get (s : Service) (id : bytes) : result Session :=
  match lookup s id with
  | None => Err ErrSessionNotFound
  | Some (_, ms) => Ok (session ms)
  end.

(** [List]: Go ranges over the map in any order; here in the map's. *)
Definition List (s : Service) : list Session :=
  map_to_list (sessions s) ≫= (λ '(_, ptr),
    match store s !! ptr with Some ms => [session ms] | None => [] end).

(** [closeOnce.Do(process.Close)]. *)
Definition close_pty (ms : managedSession) : list effect * managedSession :=
  if closed ms then ([], ms)
  else ([ClosePty (Pid (session ms))], mkManaged (session ms) (pipe ms) (hasHistory ms) true).

Definition stop_batcher (ms : managedSession) : managedSession :=
  mkManaged (session ms) (batch_stop (pipe ms)) (hasHistory ms) (closed ms).

(** [Kill]; [pgid] says whether the process group of the shell still exists. *)
Definition Kill (s : Service) (id : bytes) (pgid : bool) : option error * list effect * Service :=
  match lookup s id with
  | None => (Some ErrSessionNotFound, [], s)
  | Some (ptr, ms) =>
      let s := with_sessions s (delete id (sessions s)) in
      let ms := stop_batcher ms in
      let hup := if pgid then [Hangup (Pid (session ms))] else [] in
      let '(eff, ms) := close_pty ms in
      (None, hup ++ eff, with_store s ptr ms)
  end.

Definition with_session (ms : managedSession) (sess : Session) : managedSession :=
  mkManaged sess (pipe ms) (hasHistory ms) (closed ms).

Definition with_pipe (ms : managedSession) (p : pipeline) : managedSession :=
  mkManaged (session ms) p (hasHistory ms) (closed ms).

Definition Attach (s : Service) (id : bytes) : option error * Service :=
  match lookup s id with
  | None => (Some ErrSessionNotFound, s)
  | Some (ptr, ms) =>
      if decide (sess_State (session ms) = StateDetached)
      then (None, with_store s ptr (with_session ms (set_state (session ms) StateAlive)))
      else (None, s)
  end.

Definition Detach (s : Service) (id : bytes) : option error * Service :=
  match lookup s id with
  | None => (Some ErrSessionNotFound, s)
  | Some (ptr, ms) =>
      if decide (sess_State (session ms) = StateAlive)
      then (None, with_store s ptr (with_session ms (set_state (session ms) StateDetached)))
      else (None, s)
  end.

Definition LastActivity (s : Service) (id : bytes) : result time :=
  match lookup s id with
  | None => Err ErrSessionNotFound
  | Some (_, ms) =>
      let nanos := p_lastActivity (pipe ms) in
      if decide (nanos = 0) then Ok (sess_StartedAt (session ms)) else Ok nanos
  end.

(** [Resize]; [resized] is the device's answer.  The entry is looked up under
    one lock and written under another, through the same pointer. *)
Definition Resize (s : Service) (id : bytes) (cols rows : Z) (resized : option error) :
    option error * list effect * Service :=
  match lookup s id with
  | None => (Some ErrSessionNotFound, [], s)
  | Some (ptr, ms) =>
      let eff := ResizePty (Pid (session ms)) (wrap_u16 cols) (wrap_u16 rows) in
      match resized with
      | Some e => (Some (EWrap #"resize pty" (EWrap #"pty resize" e)), [eff], s)
      | None =>
          let p := with_emulator (pipe ms) (Emulator_Resize (p_emulator (pipe ms)) cols rows) in
          (None, [eff],
           with_store s ptr (with_session (with_pipe ms p) (set_size (session ms) cols rows)))
      end
  end.

Definition UpdateEmulatorScrollback (s : Service) (id : bytes) (lines : Z) : option error * Service :=
  match lookup s id with
  | None => (Some ErrSessionNotFound, s)
  | Some (ptr, ms) =>
      match SetScrollbackSize (p_emulator (pipe ms)) with
      | None => (Some ErrScrollbackNotConfigurable, s)
      | Some f => (None, with_store s ptr (with_pipe ms (with_emulator (pipe ms) (f lines))))
      end
  end.

Definition WriteInput (s : Service) (id : bytes) (data : bytes) (written : option error) :
    option error * list effect :=
  match lookup s id with
  | None => (Some ErrSessionNotFound, [])
  | Some (_, ms) =>
      (match written with
       | Some e => Some (EWrap #"write pty input" (EWrap #"pty write" e))
       | None => None
       end, [WritePty (Pid (session ms)) data])
  end.

Definition Snapshot (s : Service) (id : bytes) : result bytes :=
  match lookup s id with
  | None => Err ErrSessionNotFound
  | Some (_, ms) => Ok (Emulator_Snapshot (p_emulator (pipe ms)))
  end.

Definition MetaSet (s : Service) (id key value : bytes) : option error * Service :=
  match lookup s id with
  | None => (Some ErrSessionNotFound, s)
  | Some (ptr, ms) =>
      (None, with_store s ptr
         (with_session ms (set_meta (session ms) (<[key := value]> (Metadata (session ms))))))
  end.

Definition MetaGet (s : Service) (id key : bytes) : result bytes :=
  match lookup s id with
  | None => Err ErrSessionNotFound
  | Some (_, ms) => Ok (default [] (Metadata (session ms) !! key))
  end.

Definition MetaGetAll (s : Service) (id : bytes) : result (gmap bytes bytes) :=
  match lookup s id with
  | None => Err ErrSessionNotFound
  | Some (_, ms) => Ok (Metadata (session ms))
  end.

Definition ReadOutput (s : Service) (id : bytes) : result bytes * Service :=
  match lookup s id with
  | None => (Err ErrSessionNotFound, s)
  | Some (ptr, ms) =>
      let '(out, p) := drain (pipe ms) in (Ok out, with_store s ptr (with_pipe ms p))
  end.

(** [waitLoop] once [process.Wait] has returned: the goroutine holds the
    pointer, and deletes whatever the map has under the identifier.  The
    emulator is closed if it is an [io.Closer]. *)
Definition waitLoop (s : Service) (ptr : nat) (exitCode : Z) (now : time) : list effect * Service :=
  match store s !! ptr with
  | None => ([], s)
  | Some ms =>
      let id := ID (session ms) in
      let ms := with_session ms (set_exited (session ms) exitCode now) in
      let s := with_sessions s (delete id (sessions s)) in
      let '(eff, ms) := close_pty (stop_batcher ms) in
      (eff ++ (if hasHistory ms then [CloseHistory id] else []) ++
         (if Emulator_Closer (p_emulator (pipe ms)) then [CloseEmulator id] else []) ++
         (if hasOnExit s then [OnExit id exitCode] else []),
       with_store s ptr ms)
  end.

(** ** The reaper and the watchdog *)

(** [Reaper.tick]: the sessions listed, one after the other, and the ones killed.
    [pgid] answers for the process groups. *)
Definition reap_one (idleTTL : Z) (now : time) (pgid : Z → bool) (acc : list bytes * list effect * Service)
    (sess : Session) : list bytes * list effect * Service :=
  let '(reaped, effs, s) := acc in
  if decide (sess_State sess = StateDetached) then
    match LastActivity s (ID sess) with
    | Err _ => acc
    | Ok lastAct =>
        if bool_decide (time_sub now lastAct < idleTTL) then acc
        else
          let '(_, eff, s) := Kill s (ID sess) (pgid (Pid sess)) in
          (reaped ++ [ID sess], effs ++ eff, s)
    end
  else acc.

Definition reaper_tick (s : Service) (idleTTL : Z) (now : time) (pgid : Z → bool) :
    list bytes * list effect * Service :=
  foldl (reap_one idleTTL now pgid) ([], [], s) (List s).

(** [Watchdog.tick]; [alive] is [processAlive]. *)
Definition watch_one (alive pgid : Z → bool) (acc : list bytes * list effect * Service)
    (sess : Session) : list bytes * list effect * Service :=
  let '(killed, effs, s) := acc in
  if IsTerminal (sess_State sess) then acc
  else if alive (Pid sess) then acc
  else
    let '(_, eff, s) := Kill s (ID sess) (pgid (Pid sess)) in
    (killed ++ [ID sess], effs ++ eff, s).

Definition watchdog_tick (s : Service) (alive pgid : Z → bool) : list bytes * list effect * Service :=
  foldl (watch_one alive pgid) ([], [], s) (List s).

(** ** Runs

    The steps of the callers and of the goroutines of every session, in any
    order; the goroutine that waits for a process finishes once. *)
Inductive sstep (s : Service) : Service → Prop :=
  | st_create id opts spawned now : sstep s (snd (Create s id opts spawned now))
  | st_kill id pgid : sstep s (snd (Kill s id pgid))
  | st_attach id : sstep s (snd (Attach s id))
  | st_detach id : sstep s (snd (Detach s id))
  | st_resize id cols rows r : sstep s (snd (Resize s id cols rows r))
  | st_scrollback id n : sstep s (snd (UpdateEmulatorScrollback s id n))
  | st_meta id k v : sstep s (snd (MetaSet s id k v))
  | st_read id : sstep s (snd (ReadOutput s id))
  | st_pipe ptr ms p g g' :
      store s !! ptr = Some ms → pstep slack (pipe ms, g) (p, g') →
      sstep s (with_store s ptr (with_pipe ms p))
  | st_exit ptr ms code now :
      store s !! ptr = Some ms → sess_State (session ms) ≠ StateExited →
      sstep s (snd (waitLoop s ptr code now)).

(** What holds of the sessions in the map. *)
Definition live (id : bytes) (ms : managedSession) : Prop :=
  ID (session ms) = id ∧ ValidateSessionID id = None ∧
  Prefix (session ms) = fst (ExtractPrefix id) ∧
  IsTerminal (sess_State (session ms)) = false ∧ closed ms = false.

Definition svc_inv (s : Service) : Prop :=
  (∀ id ptr, sessions s !! id = Some ptr → ∃ ms, store s !! ptr = Some ms ∧ live id ms) ∧
  (∀ ptr ms, store s !! ptr = Some ms → (ptr < next s)%nat) ∧
  (0 < maxSessions s → Z.of_nat (size (sessions s)) <= maxSessions s).

(** ** Lemmas *)

Lemma lookup_Some s id ptr ms :
  lookup s id = Some (ptr, ms) ↔ sessions s !! id = Some ptr ∧ store s !! ptr = Some ms.
Proof. clear slack.
  unfold lookup. destruct (sessions s !! id) as [q|]; cbn; [|naive_solver].
  destruct (store s !! q) as [m|] eqn:Heq; cbn; naive_solver.
Qed.

Lemma lookup_None s id : svc_inv s → lookup s id = None → sessions s !! id = None.
Proof.
  intros (H1 & _) Hl. destruct (sessions s !! id) as [ptr|] eqn:Heq; [|done].
  destruct (H1 _ _ Heq) as (ms & Hms & _).
  assert (lookup s id = Some (ptr, ms)) by (by apply lookup_Some). congruence.
Qed.

(** Rewriting a session through its pointer keeps the invariant when what the
    map relies on is kept. *)
Lemma with_store_inv s ptr ms ms' :
  svc_inv s → store s !! ptr = Some ms → (∀ id, live id ms → live id ms') →
  svc_inv (with_store s ptr ms').
Proof.
  intros (H1 & H2 & H3) Hms Hl. split_and!; [| |done].
  - cbn. intros id q Hq. destruct (H1 id q Hq) as (m & Hm & Hlive).
    destruct (decide (q = ptr)) as [->|]; simplify_eq.
    + exists ms'. split; [by rewrite lookup_insert_eq|by apply Hl].
    + exists m. by rewrite lookup_insert_ne.
  - cbn. intros q m Hm. destruct (decide (q = ptr)) as [->|]; [by eapply H2|].
    rewrite lookup_insert_ne in Hm by done. by eapply H2.
Qed.

(** Removing an entry and then rewriting its session. *)
Lemma delete_inv s id : svc_inv s → svc_inv (with_sessions s (delete id (sessions s))).
Proof.
  intros (H1 & H2 & H3). split_and!; [|done|].
  - cbn. intros j q [_ Hq]%lookup_delete_Some. by apply H1.
  - cbn. intros Hm. specialize (H3 Hm).
    destruct (sessions s !! id) as [ptr|] eqn:Heq.
    + rewrite map_size_delete, Heq. cbn. lia.
    + by rewrite delete_id.
Qed.

Lemma dead_store_inv s ptr ms' :
  svc_inv s → (∃ ms, store s !! ptr = Some ms) → (∀ id, sessions s !! id ≠ Some ptr) →
  svc_inv (with_store s ptr ms').
Proof.
  intros (H1 & H2 & H3) [ms Hms] Hdead. split_and!; [| |done].
  - cbn. intros id q Hq. destruct (H1 id q Hq) as (m & Hm & Hlive). exists m.
    rewrite lookup_insert_ne; [done|]. intros ->. by eapply Hdead.
  - cbn. intros q m Hm. destruct (decide (q = ptr)) as [->|]; [by eapply H2|].
    rewrite lookup_insert_ne in Hm by done. by eapply H2.
Qed.

Lemma live_ptr_inj s ptr id id' ms :
  svc_inv s → store s !! ptr = Some ms → ID (session ms) = id →
  sessions s !! id' = Some ptr → id' = id.
Proof.
  intros (H1 & _) Hms <- Hs. destruct (H1 _ _ Hs) as (m & Hm & Hl & _). congruence.
Qed.

Lemma Create_cases s id opts spawned now :
  (∃ e eff, Create s id opts spawned now = (Err e, eff, s)) ∨
  (∃ sess eff ms,
    Create s id opts spawned now =
      (Ok sess, eff,
       mkService (<[id := next s]> (sessions s)) (<[next s := ms]> (store s)) (S (next s))
         (maxSessions s) (hasOnExit s) (hasOnDataReady s) (emulatorFactory s)) ∧
    ValidateSessionID id = None ∧ sessions s !! id = None ∧
    (0 < maxSessions s → Z.of_nat (size (sessions s)) < maxSessions s) ∧
    session ms = sess ∧ ID sess = id ∧ Prefix sess = fst (ExtractPrefix id) ∧
    sess_State sess = StateAlive ∧ closed ms = false).
Proof.
  unfold Create. destruct (ValidateSessionID id) eqn:Ev; [left; eauto|].
  destruct (sessions s !! id) eqn:Es; [left; eauto|].
  destruct (_ && _) eqn:Em; [left; eauto|].
  destruct spawned as [pid|e]; [right|left; eauto].
  do 3 eexists. split; [reflexivity|]. split_and!; try done.
  intros Hm. rewrite bool_decide_true in Em by done. cbn [andb] in Em.
  apply bool_decide_eq_false in Em. lia.
Qed.

Lemma Create_inv s id opts spawned now : svc_inv s → svc_inv (snd (Create s id opts spawned now)).
Proof.
  intros Hinv. destruct (Create_cases s id opts spawned now) as
    [(e & eff & ->)|(sess & eff & ms & -> & Hv & Hn & Hm & Hs & Hid & Hpre & Hst & Hcl)]; [done|].
  destruct Hinv as (H1 & H2 & H3). cbn [snd]. split_and!; cbn [sessions store next maxSessions].
  - intros j q [[<- <-]|[Hne Hq]]%lookup_insert_Some.
    + exists ms. rewrite lookup_insert_eq. split; [done|]. unfold live. rewrite Hs, Hst. done.
    + destruct (H1 j q Hq) as (m & Hmm & Hl). exists m. split; [|done].
      rewrite lookup_insert_ne; [done|]. specialize (H2 _ _ Hmm). lia.
  - intros q m [[<- _]|[_ Hq]]%lookup_insert_Some; [lia|]. specialize (H2 _ _ Hq). lia.
  - intros Hmax. rewrite map_size_insert_None by done. specialize (Hm Hmax). lia.
Qed.

Lemma Kill_cases s id pgid :
  Kill s id pgid = (Some ErrSessionNotFound, [], s) ∧ lookup s id = None ∨
  (∃ ptr ms ms' eff, lookup s id = Some (ptr, ms) ∧
    Kill s id pgid =
      (None, eff, with_store (with_sessions s (delete id (sessions s))) ptr ms') ∧
    session ms' = session ms).
Proof.
  unfold Kill. destruct (lookup s id) as [[ptr ms]|] eqn:El; [right|by left].
  unfold close_pty, stop_batcher. cbn [closed]. destruct (closed ms);
    (do 4 eexists; split; [done|]; split; [reflexivity|done]).
Qed.

Lemma Kill_inv s id pgid : svc_inv s → svc_inv (snd (Kill s id pgid)).
Proof.
  intros Hinv.
  destruct (Kill_cases s id pgid) as [[-> _]|(ptr & ms & ms' & eff & Hl & -> & _)]; [done|].
  apply lookup_Some in Hl as [Hs Hms]. cbn [snd]. apply dead_store_inv; [by apply delete_inv|by exists ms|].
  cbn. intros j [Hne Hj]%lookup_delete_Some. apply Hne. symmetry.
  destruct Hinv as (H1 & _). destruct (H1 _ _ Hs) as (m & Hm & Hid & _).
  destruct (H1 _ _ Hj) as (m' & Hm' & Hid' & _). congruence.
Qed.

Lemma waitLoop_inv s ptr code now : svc_inv s → svc_inv (snd (waitLoop s ptr code now)).
Proof.
  intros Hinv. unfold waitLoop. destruct (store s !! ptr) as [ms|] eqn:Hms; [|done].
  unfold close_pty. case_match; cbn [snd]; (apply dead_store_inv; [by apply delete_inv|by exists ms|];
    cbn; intros j [Hne Hj]%lookup_delete_Some; apply Hne; symmetry; by eapply live_ptr_inj).
Qed.

Lemma sstep_inv s s' : svc_inv s → sstep s s' → svc_inv s'.
Proof.
  intros Hinv Hst. destruct Hst as [id opts sp now|id pgid|id|id|id cols rows r|id n|id k v|id
    |ptr ms p g g' Hms _|ptr ms code now Hms _].
  - by apply Create_inv.
  - by apply Kill_inv.
  - unfold Attach. destruct (lookup s id) as [[ptr ms]|] eqn:El; [|done].
    apply lookup_Some in El as [_ Hms]. case_decide; [|done].
    apply (with_store_inv _ _ ms); [done..|]. by intros j (? & ? & ? & _ & ?).
  - unfold Detach. destruct (lookup s id) as [[ptr ms]|] eqn:El; [|done].
    apply lookup_Some in El as [_ Hms]. case_decide; [|done].
    apply (with_store_inv _ _ ms); [done..|]. by intros j (? & ? & ? & _ & ?).
  - unfold Resize. destruct (lookup s id) as [[ptr ms]|] eqn:El; [|done].
    apply lookup_Some in El as [_ Hms]. destruct r; [done|]. by apply (with_store_inv _ _ ms).
  - unfold UpdateEmulatorScrollback. destruct (lookup s id) as [[ptr ms]|] eqn:El; [|done].
    apply lookup_Some in El as [_ Hms]. destruct (SetScrollbackSize _); [|done].
    by apply (with_store_inv _ _ ms).
  - unfold MetaSet. destruct (lookup s id) as [[ptr ms]|] eqn:El; [|done].
    apply lookup_Some in El as [_ Hms]. by apply (with_store_inv _ _ ms).
  - unfold ReadOutput. destruct (lookup s id) as [[ptr ms]|] eqn:El; [|done].
    apply lookup_Some in El as [_ Hms]. destruct (drain _). by apply (with_store_inv _ _ ms).
  - by apply (with_store_inv _ _ ms).
  - by apply waitLoop_inv.
Qed.

Lemma sstep_max s s' : sstep s s' → maxSessions s' = maxSessions s.
Proof.
  intros Hst. destruct Hst as [id opts sp now|id pgid|id|id|id cols rows r|id n|id k v|id
    |ptr ms p g g' Hms _|ptr ms code now Hms _].
  - destruct (Create_cases s id opts sp now) as
      [(e & eff & ->)|(sess & eff & ms & -> & _)]; done.
  - destruct (Kill_cases s id pgid) as [[-> _]|(ptr & ms & ms' & eff & _ & -> & _)]; done.
  - unfold Attach. repeat case_match; done.
  - unfold Detach. repeat case_match; done.
  - unfold Resize. repeat case_match; done.
  - unfold UpdateEmulatorScrollback. repeat case_match; done.
  - unfold MetaSet. repeat case_match; done.
  - unfold ReadOutput. repeat case_match; simplify_eq; done.
  - done.
  - unfold waitLoop, close_pty. repeat case_match; simplify_eq; done.
Qed.

Lemma reachable_svc_inv max a b f s :
  rtc sstep (NewService max a b f) s → svc_inv s ∧ maxSessions s = max.
Proof.
  intros Hr. remember (NewService max a b f) as s0 eqn:E0.
  assert (svc_inv s0 ∧ maxSessions s0 = max) as Hi.
  { subst. split; [|done]. split_and!; [done|done|]. cbn. rewrite map_size_empty. lia. }
  clear E0. induction Hr as [s|s1 s2 s3 Hst Hr IH]; [done|]. apply IH.
  destruct Hi as [Hi <-]. split; [by eapply sstep_inv|by apply sstep_max].
Qed.

Lemma Get_lookup s id sess : Get s id = Ok sess ↔ ∃ ptr ms, lookup s id = Some (ptr, ms) ∧ session ms = sess.
Proof. clear slack.
  unfold Get. destruct (lookup s id) as [[ptr ms]|]; [|naive_solver].
  split; [intros [= <-]; eauto|]. intros (? & ? & [= -> ->] & <-). done.
Qed.

(** The listed sessions are those of the map's entries, in its order. *)
Lemma List_spec s :
  svc_inv s →
  ID <$> List s = (map_to_list (sessions s)).*1 ∧
  Forall (λ sess, Get s (ID sess) = Ok sess) (List s).
Proof.
  intros (H1 & _). unfold List.
  assert (Hall : ∀ id ptr, (id, ptr) ∈ map_to_list (sessions s) → sessions s !! id = Some ptr)
    by (intros id ptr; apply elem_of_map_to_list).
  induction (map_to_list (sessions s)) as [|[id ptr] l IH]; [done|].
  destruct IH as [IH1 IH2]; [intros; apply Hall; by right|].
  specialize (Hall id ptr ltac:(by left)). destruct (H1 _ _ Hall) as (ms & Hms & Hid & Hl).
  cbn [mbind list_bind fmap list_fmap fst]. rewrite Hms. cbn [app fmap list_fmap]. split.
  - by rewrite Hid, IH1.
  - constructor; [|done]. apply Get_lookup. exists ptr, ms. split; [|done].
    by rewrite Hid, lookup_Some.
Qed.

Lemma List_NoDup s : svc_inv s → NoDup (ID <$> List s).
Proof. intros Hi. rewrite (proj1 (List_spec s Hi)). apply NoDup_fst_map_to_list. Qed.

Lemma Kill_lookup s id pgid j :
  svc_inv s → lookup (snd (Kill s id pgid)) j = if decide (j = id) then None else lookup s j.
Proof.
  intros Hi. destruct (Kill_cases s id pgid) as [[-> Hn]|(ptr & ms & ms' & eff & Hl & -> & _)].
  { cbn [snd]. case_decide; by subst. }
  apply lookup_Some in Hl as [Hs Hms]. unfold lookup. cbn [snd sessions store with_store with_sessions].
  case_decide as Hj; [by rewrite Hj, lookup_delete_eq|]. rewrite lookup_delete_ne by done.
  destruct (sessions s !! j) as [q|] eqn:Hq; [|done]. cbn.
  destruct (decide (q = ptr)) as [->|]; [|by rewrite lookup_insert_ne].
  exfalso. apply Hj. pose proof Hi as (H1 & _). destruct (H1 _ _ Hs) as (m & Hm & Hid & _).
  eapply live_ptr_inj; [exact Hi|exact Hms| |exact Hq]. congruence.
Qed.

Lemma Get_new m st n k mx a b f id ms :
  Get (mkService (<[id := n]> m) (<[n := ms]> st) k mx a b f) id = Ok (session ms).
Proof.
  unfold Get, lookup. cbn. rewrite lookup_insert_eq. cbn. by rewrite lookup_insert_eq.
Qed.

Lemma Get_of_lookup s s' id id' : lookup s id = lookup s' id' → Get s id = Get s' id'.
Proof. unfold Get. by intros ->. Qed.

(** A sweep over listed sessions that kills those that satisfy [c]. *)
Section Sweep.
Variable c : Service → Session → bool.
Variable pgid : Z → bool.
Hypothesis c_local : ∀ s s' sess, lookup s (ID sess) = lookup s' (ID sess) → c s sess = c s' sess.

Definition sweep_one (acc : list bytes * list effect * Service) (sess : Session) :
    list bytes * list effect * Service :=
  let '(killed, effs, s) := acc in
  if c s sess then
    let '(_, eff, s) := Kill s (ID sess) (pgid (Pid sess)) in (killed ++ [ID sess], effs ++ eff, s)
  else acc.

Lemma sweep_spec l killed effs s :
  svc_inv s → NoDup (ID <$> l) →
  let '(killed', _, s') := foldl sweep_one (killed, effs, s) l in
  killed' = killed ++ (ID <$> filter (λ sess, c s sess = true) l) ∧
  svc_inv s' ∧
  ∀ j, lookup s' j = if decide (j ∈ ID <$> filter (λ sess, c s sess = true) l) then None else lookup s j.
Proof.
  revert killed effs s. induction l as [|sess l IH]; intros killed effs s Hi Hnd.
  { cbn. split_and!; [by rewrite app_nil_r|done|done]. }
  cbn [fmap list_fmap] in Hnd. apply NoDup_cons in Hnd as [Hni Hnd]. cbn [foldl sweep_one].
  destruct (c s sess) eqn:Hc.
  - pose proof (Kill_inv s (ID sess) (pgid (Pid sess)) Hi) as Hi'.
    pose proof (Kill_lookup s (ID sess) (pgid (Pid sess))) as Hlk.
    destruct (Kill s (ID sess) (pgid (Pid sess))) as [[e eff] s1]. cbn [snd] in *.
    specialize (IH (killed ++ [ID sess]) (effs ++ eff) s1 Hi' Hnd).
    destruct (foldl sweep_one _ l) as [[k' e'] s']. destruct IH as (-> & Hi2 & Hl).
    assert (Hf : filter (λ x, c s1 x = true) l = filter (λ x, c s x = true) l).
    { apply filter_ext_in. intros x Hx. rewrite (c_local s1 s x); [done|].
      rewrite Hlk by done. rewrite decide_False; [done|]. intros Hid. apply Hni.
      apply list_elem_of_fmap. by exists x. }
    rewrite Hf in *. rewrite filter_cons_True by done. cbn [fmap list_fmap].
    split_and!; [by rewrite <- app_assoc|done|]. intros j. rewrite Hl, Hlk by done.
    repeat case_decide; set_solver.
  - specialize (IH killed effs s Hi Hnd). rewrite filter_cons_False by congruence. done.
Qed.
End Sweep.

Definition due (idleTTL : Z) (now : time) (s : Service) (sess : Session) : bool :=
  bool_decide (sess_State sess = StateDetached) &&
  match LastActivity s (ID sess) with
  | Ok lastAct => bool_decide (idleTTL <= time_sub now lastAct)
  | Err _ => false
  end.

Lemma reaper_sweep idleTTL now pgid l acc :
  foldl (reap_one idleTTL now pgid) acc l = foldl (sweep_one (due idleTTL now) pgid) acc l.
Proof.
  revert acc. induction l as [|sess l IH]; intros acc; [done|]. cbn [foldl]. rewrite IH. f_equal.
  destruct acc as [[k e] s]. unfold reap_one, sweep_one, due. case_decide as Hst.
  - rewrite (bool_decide_true (_ = _)) by done. cbn [andb].
    destruct (LastActivity s (ID sess)) as [la|]; [|done].
    repeat case_bool_decide; try done; lia.
  - by rewrite (bool_decide_false (_ = _)).
Qed.

Lemma due_local idleTTL now s s' sess :
  lookup s (ID sess) = lookup s' (ID sess) → due idleTTL now s sess = due idleTTL now s' sess.
Proof. unfold due, LastActivity. by intros ->. Qed.

Lemma Get_None s id : lookup s id = None → Get s id = Err ErrSessionNotFound.
Proof. unfold Get. by intros ->. Qed.

Lemma in_listed s (P : Session → bool) id :
  svc_inv s →
  id ∈ ID <$> filter (λ sess, P sess = true) (List s) ↔
    ∃ sess, Get s id = Ok sess ∧ P sess = true.
Proof.
  intros Hi. destruct (List_spec s Hi) as [Hids Hget]. rewrite Forall_forall in Hget.
  rewrite list_elem_of_fmap. split.
  - intros (sess & -> & [HP Hin]%list_elem_of_filter). exists sess. split; [by apply Hget|done].
  - intros (sess & Hg & HP). exists sess.
    apply Get_lookup in Hg as Hl. destruct Hl as (ptr & ms & Hl & Hms).
    apply lookup_Some in Hl as [Hs Hst]. destruct (proj1 Hi _ _ Hs) as (m & Hm & Hid & _).
    assert (ID sess = id) as Hid' by congruence. split; [done|]. apply list_elem_of_filter.
    split; [done|].
    assert (id ∈ ID <$> List s) as Hin.
    { rewrite Hids. apply list_elem_of_fmap. exists (id, ptr). split; [done|].
      by apply elem_of_map_to_list. }
    apply list_elem_of_fmap in Hin as (sess2 & Hid2 & Hin).
    specialize (Hget _ Hin). rewrite <- Hid2 in Hget. congruence.
Qed.

(** ** Theorems *)

(** C15: in every state that the operations and the goroutines of the sessions
    can reach, whatever their interleaving, each session in the map is filed
    under its own valid identifier with the prefix of that identifier, is
    alive or detached (never exited), and its terminal is open; the sessions
    listed are distinct and are the ones that [Get] finds; and a positive cap
    on their number is never exceeded. *)
Theorem service_invariant max a b f s :
  rtc sstep (NewService max a b f) s →
  (∀ id sess, Get s id = Ok sess →
    ID sess = id ∧ ValidateSessionID id = None ∧ Prefix sess = fst (ExtractPrefix id) ∧
    (sess_State sess = StateAlive ∨ sess_State sess = StateDetached) ∧
    ∃ ptr ms, lookup s id = Some (ptr, ms) ∧ session ms = sess ∧ closed ms = false) ∧
  NoDup (ID <$> List s) ∧ (∀ sess, sess ∈ List s ↔ Get s (ID sess) = Ok sess) ∧
  (0 < max → Z.of_nat (length (List s)) <= max).
Proof.
  intros Hr. destruct (reachable_svc_inv _ _ _ _ _ Hr) as [Hi <-].
  destruct (List_spec s Hi) as [Hids Hget]. split_and!.
  - intros id sess (ptr & ms & Hl & Hms)%Get_lookup.
    pose proof Hl as [Hs Hst]%lookup_Some. destruct (proj1 Hi _ _ Hs) as (m & Hm & Hlive).
    destruct Hlive as (H1 & H2 & H3 & H4 & H5). simplify_eq. split_and!; try done; [|by eauto].
    unfold IsTerminal in H4. destruct (sess_State (session ms)); auto; discriminate.
  - by apply List_NoDup.
  - intros sess. rewrite Forall_forall in Hget. split; [apply Hget|]. intros Hg.
    pose proof (in_listed s (λ x, bool_decide (x = sess)) (ID sess) Hi) as Hin.
    assert (Hx := proj2 Hin (ex_intro _ sess (conj Hg (proj2 (bool_decide_eq_true _) eq_refl)))).
    apply list_elem_of_fmap in Hx as (x & _ & Hx). apply list_elem_of_filter in Hx as [Hx Hl].
    apply bool_decide_eq_true in Hx. by subst.
  - intros Hm. rewrite <- (length_fmap ID), Hids, length_fmap, length_map_to_list. by apply Hi.
Qed.

(** C34: [Create] validates, refuses a duplicate, and enforces the cap, in this
    order, without touching the spawner; else it spawns exactly once, with the
    default size for dimensions that are not positive.  When the spawn fails
    nothing changes; when it succeeds the new session is found under its
    identifier, alive, with the spawned process and the size it was spawned
    with, and every other session is as before. *)
Theorem Create_correct max a b f s id opts spawned now :
  rtc sstep (NewService max a b f) s →
  let cols := or_default (o_Cols opts) 80 in
  let rows := or_default (o_Rows opts) 24 in
  let spawn := Spawn (o_Shell opts) (o_Args opts) cols rows (o_Cwd opts) (o_Env opts) in
  let '(r, eff, s') := Create s id opts spawned now in
  match ValidateSessionID id, Get s id with
  | Some e, _ => r = Err e ∧ eff = [] ∧ s' = s
  | None, Ok _ => r = Err ErrSessionExists ∧ eff = [] ∧ s' = s
  | None, Err _ =>
      if decide (0 < max ∧ max <= Z.of_nat (length (List s)))
      then r = Err ErrMaxSessions ∧ eff = [] ∧ s' = s
      else eff = [spawn] ∧
        match spawned with
        | Err e => r = Err (EWrap #"spawn pty" e) ∧ s' = s
        | Ok pid => ∃ sess, r = Ok sess ∧ Get s' id = Ok sess ∧ ID sess = id ∧ Pid sess = pid ∧
            Cols sess = cols ∧ Rows sess = rows ∧ sess_State sess = StateAlive ∧
            ∀ j, j ≠ id → Get s' j = Get s j
        end
  end.
Proof.
  intros Hr cols rows spawn. destruct (reachable_svc_inv _ _ _ _ _ Hr) as [Hi <-].
  assert (Hlen : length (List s) = size (sessions s))
    by (rewrite <- (length_fmap ID), (proj1 (List_spec s Hi)), length_fmap; apply length_map_to_list).
  rewrite Hlen. unfold Create. destruct (ValidateSessionID id); [done|].
  destruct (sessions s !! id) as [ptr|] eqn:Hs.
  { destruct (proj1 Hi _ _ Hs) as (ms & Hms & _).
    assert (lookup s id = Some (ptr, ms)) as Hl by (by apply lookup_Some).
    unfold Get. by rewrite Hl. }
  rewrite Get_None by (unfold lookup; by rewrite Hs).
  destruct (bool_decide _ && bool_decide _) eqn:Hc.
  { apply andb_true_iff in Hc as [H1%bool_decide_eq_true H2%bool_decide_eq_true].
    by rewrite decide_True. }
  assert (Hd : ¬ (0 < maxSessions s ∧ maxSessions s <= Z.of_nat (size (sessions s))))
    by (intros [H1 H2]; by rewrite !bool_decide_true in Hc).
  destruct spawned as [pid|e]; rewrite decide_False by done; [|done]. split; [done|].
  eexists. split; [reflexivity|]. cbn [ID Pid Cols Rows sess_State].
  split_and!; try done.
  - by rewrite Get_new.
  - intros j Hj. apply Get_of_lookup. unfold lookup. cbn. rewrite lookup_insert_ne by done.
    destruct (sessions s !! j) as [q|] eqn:Hq; [|done]. cbn.
    rewrite lookup_insert_ne; [done|]. destruct (proj1 Hi _ _ Hq) as (m & Hm & _).
    pose proof (proj1 (proj2 Hi) _ _ Hm). lia.
Qed.

(** One tick of the reaper kills exactly the sessions that are detached
    and have been idle for at least the time to live, each once, and leaves
    every other session as it is. *)
Theorem reaper_kills_exactly_the_idle max a b f s idleTTL now pgid :
  rtc sstep (NewService max a b f) s →
  let '(reaped, _, s') := reaper_tick s idleTTL now pgid in
  NoDup reaped ∧
  (∀ id, id ∈ reaped ↔ ∃ sess lastAct, Get s id = Ok sess ∧ sess_State sess = StateDetached ∧
    LastActivity s id = Ok lastAct ∧ idleTTL <= time_sub now lastAct) ∧
  (∀ id, Get s' id = if decide (id ∈ reaped) then Err ErrSessionNotFound else Get s id).
Proof.
  intros Hr. destruct (reachable_svc_inv _ _ _ _ _ Hr) as [Hi _].
  unfold reaper_tick. rewrite reaper_sweep.
  pose proof (sweep_spec (due idleTTL now) pgid (due_local idleTTL now) (List s) [] [] s Hi
    (List_NoDup s Hi)) as Hs.
  destruct (foldl _ _ (List s)) as [[reaped effs] s']. destruct Hs as (-> & _ & Hl). cbn [app].
  split_and!.
  - by apply NoDup_fmap_filter, List_NoDup.
  - intros id. rewrite in_listed by done. split.
    + intros (sess & Hg & [Hst%bool_decide_eq_true Hd]%andb_true_iff).
      assert (ID sess = id) as Hid.
      { apply Get_lookup in Hg as (ptr & ms & [Hs Hms]%lookup_Some & <-).
        destruct (proj1 Hi _ _ Hs) as (m & Hm & Hid & _). congruence. }
      rewrite Hid in Hd. destruct (LastActivity s id) as [la|]; [|done].
      apply bool_decide_eq_true in Hd. eauto 6.
    + intros (sess & la & Hg & Hst & Hla & Ht). exists sess. split; [done|].
      assert (ID sess = id) as Hid.
      { apply Get_lookup in Hg as (ptr & ms & [Hs Hms]%lookup_Some & <-).
        destruct (proj1 Hi _ _ Hs) as (m & Hm & Hid & _). congruence. }
      unfold due. by rewrite Hid, Hla, !bool_decide_true.
  - intros id. specialize (Hl id). case_decide; [by apply Get_None|by apply Get_of_lookup].
Qed.

(** The goroutine that waits for a killed session's process deletes
    whatever session has that identifier by then: when the identifier is
    created again before the old process has exited, the new session is
    removed from the service while its process runs on, so that it can no
    longer be listed, attached or killed, and its clients are told it exited. *)
Theorem stale_wait_removes_new_session max a b f s id ptr ms pgid opts pid t1 code t2 :
  rtc sstep (NewService max a b f) s →
  lookup s id = Some (ptr, ms) →
  let '(e1, _, s1) := Kill s id pgid in
  let '(r2, _, s2) := Create s1 id opts (Ok pid) t1 in
  let '(eff3, s3) := waitLoop s2 ptr code t2 in
  e1 = None ∧ (∃ sess, r2 = Ok sess ∧ Get s2 id = Ok sess) ∧
  Get s3 id = Err ErrSessionNotFound ∧ fst (fst (Kill s3 id true)) = Some ErrSessionNotFound ∧
  (∃ ms', store s3 !! next s1 = Some ms' ∧ sess_State (session ms') = StateAlive ∧
    Pid (session ms') = pid ∧ closed ms' = false) ∧
  (hasOnExit s = true → OnExit id code ∈ eff3).
Proof.
  intros Hr Hl. destruct (reachable_svc_inv _ _ _ _ _ Hr) as [Hi Hmax].
  pose proof Hl as [Hs Hms]%lookup_Some. destruct (proj1 Hi _ _ Hs) as (m & Hm & Hlive).
  simplify_eq. destruct Hlive as (Hid & Hv & _ & _ & Hcl).
  pose proof (Kill_inv s id pgid Hi) as Hi1.
  destruct (Kill_cases s id pgid) as [[_ Hn]|(q & ms0 & ms1 & eff & Hl2 & HK & Hsess)]; [congruence|].
  rewrite HK in *. rewrite Hl in Hl2. injection Hl2 as <- <-. clear HK.
  set (s1 := with_store (with_sessions s (delete id (sessions s))) ptr ms1) in *.
  assert (Hcap : bool_decide (0 < maxSessions s1) &&
    bool_decide (maxSessions s1 <= Z.of_nat (size (sessions s1))) = false).
  { apply andb_false_iff. destruct (decide (0 < maxSessions s1)) as [Hpos|]; [right|left].
    - apply bool_decide_eq_false. cbn. rewrite map_size_delete, Hs. cbn.
      destruct Hi as (_ & _ & H3). specialize (H3 Hpos).
      assert (size (sessions s) ≠ 0%nat) by (apply (map_size_ne_0_lookup_2 _ id); by rewrite Hs).
      lia.
    - by apply bool_decide_eq_false. }
  unfold Create. rewrite Hv, Hcap.
  assert (Hn1 : sessions s1 !! id = None) by (cbn; apply lookup_delete_eq). rewrite Hn1.
  assert (Hlt : (ptr < next s)%nat) by (by eapply (proj1 (proj2 Hi))).
  set (s2 := mkService (<[id := next s1]> _) _ _ _ _ _ _).
  assert (Hptr : store s2 !! ptr = Some ms1).
  { cbn. rewrite lookup_insert_ne by lia. apply lookup_insert_eq. }
  unfold waitLoop. rewrite Hptr, Hsess, Hid.
  set (ms3 := with_session ms1 _).
  destruct (close_pty (stop_batcher ms3)) as [eff3 ms4] eqn:Hc.
  assert (Hgone : lookup (with_store (with_sessions s2 (delete id (sessions s2))) ptr ms4) id = None)
    by (unfold lookup; cbn; by rewrite lookup_delete_eq).
  split_and!.
  - done.
  - eexists. split; [reflexivity|]. unfold s2. by rewrite Get_new.
  - by apply Get_None.
  - unfold Kill. by rewrite Hgone.
  - eexists. split; [cbn; rewrite lookup_insert_ne by lia; apply lookup_insert_eq|done].
  - intros Hex. rewrite !elem_of_app. cbn. rewrite Hex. right. right. right. by left.
Qed.
End Service.

(** ** Witnesses *)

Section Witnesses.
#[local] Abbreviation slack := (λ _ _ : nat, 0%nat) (only parsing).
#[local] Abbreviation empty := (NewService (E := NoneEmulator) 1 true true None) (only parsing).

Definition example_opts : CreateOptions := mkCreate #"/bin/sh" [] 0 0 #"/" [] 8 4 0 true.

Definition example_service : Service (E := NoneEmulator) :=
  snd (Detach (snd (Create empty #"a" example_opts (Ok 42) 5)) #"a").

Lemma example_steps : rtc (sstep slack) empty example_service.
Proof.
  eapply rtc_l; [apply (st_create _ _ #"a" example_opts (Ok 42) 5)|].
  eapply rtc_l; [apply (st_detach _ _ #"a")|]. apply rtc_refl.
Qed.

Lemma service_invariant_witness :
  rtc (sstep slack) empty example_service ∧ Z.of_nat (length (List example_service)) <= 1.
Proof.
  split; [exact example_steps|].
  apply (service_invariant _ _ _ _ _ _ example_steps). reflexivity.
Defined.

Lemma Create_correct_witness :
  rtc (sstep slack) empty example_service ∧
  fst (fst (Create example_service #"b" example_opts (Ok 43) 6)) = Err ErrMaxSessions.
Proof.
  split; [exact example_steps|].
  pose proof (Create_correct _ _ _ _ _ example_service #"b" example_opts (Ok 43) 6 example_steps) as H.
  destruct (Create example_service #"b" example_opts (Ok 43) 6) as [[r eff] s'].
  assert (Hv : ValidateSessionID #"b" = None) by reflexivity.
  assert (Hg : Get example_service #"b" = Err ErrSessionNotFound) by reflexivity.
  rewrite Hv, Hg, decide_True in H by (vm_compute; split; [reflexivity|discriminate]). exact (proj1 H).
Defined.

Lemma reaper_kills_exactly_the_idle_witness :
  rtc (sstep slack) empty example_service ∧
  NoDup (fst (fst (reaper_tick example_service 10 20 (λ _, true)))) ∧
  fst (fst (reaper_tick example_service 10 20 (λ _, true))) = [ #"a"].
Proof.
  split; [exact example_steps|].
  pose proof (reaper_kills_exactly_the_idle _ _ _ _ _ example_service 10 20 (λ _, true)
    example_steps) as H.
  destruct (reaper_tick example_service 10 20 (λ _, true)) as [[reaped effs] s'] eqn:Er.
  split; [apply H|]. vm_compute in Er. by injection Er as <- _ _.
Defined.

Lemma stale_wait_removes_new_session_witness :
  rtc (sstep slack) empty example_service ∧
  let s1 := snd (Kill example_service #"a" true) in
  let s2 := snd (Create s1 #"a" example_opts (Ok 43) 6) in
  is_ok (Get s2 #"a") = true ∧
  Get (snd (waitLoop s2 0%nat (-1) 7)) #"a" = Err ErrSessionNotFound.
Proof.
  split; [exact example_steps|]. cbv zeta.
  destruct (lookup example_service #"a") as [[ptr ms]|] eqn:Hl; [|vm_compute in Hl; discriminate].
  assert (ptr = 0%nat) as -> by (vm_compute in Hl; by injection Hl).
  pose proof (stale_wait_removes_new_session _ _ _ _ _ example_service #"a" 0%nat ms true
    example_opts 43 6 (-1) 7 example_steps Hl) as H.
  destruct (Kill example_service #"a" true) as [[e1 f1] s1]. cbn [snd].
  destruct (Create s1 #"a" example_opts (Ok 43) 6) as [[r2 f2] s2]. cbn [snd].
  destruct (waitLoop s2 0%nat (-1) 7) as [f3 s3].
  destruct H as (_ & (sess & _ & Hg) & Hn & _). cbn [snd]. by rewrite Hg, Hn.
Defined.
End Witnesses.
