(* ===== verification/Spawning.v ===== *)
(** * Concurrent creations: [Create] of [internal/session/service.go] step by step

    Several goroutines call [Create] at once.  Each validates its identifier,
    waits for a slot of the semaphore of [WithSpawnSemaphore]
    ([internal/session/options.go]), then for the mutex; it checks the map, spawns
    the process and files the session with the mutex held, and gives back the
    mutex and then the slot.  Meanwhile the other operations of [Session] run
    while the mutex is free, and the goroutines of the sessions at any time. *)

From S2P Require Import Prelude SessionValues Pipeline Session.

#[local] Open Scope Z_scope.

(** [WithSpawnSemaphore]: the slots of the semaphore, none without a limit. *)
Definition WithSpawnSemaphore (n : Z) : option nat := if bool_decide (0 < n) then Some (Z.to_nat n) else None.

Section Spawning.
Context {E : Type} `{ScreenEmulator E}.
Variable slack : nat → nat → nat.

#[local] Abbreviation Service := (Service (E := E)).

(** ** [Create] in two parts *)

(** The checks under the mutex. *)
Definition create_check (s : Service) (id : bytes) : option error :=
  match sessions s !! id with
  | Some _ => Some ErrSessionExists
  | None =>
      if bool_decide (0 < maxSessions s) && bool_decide (maxSessions s <= Z.of_nat (size (sessions s)))
      then Some ErrMaxSessions else None
  end.

(** The rest, once the spawner has answered. *)
Definition create_spawned (s : Service) (id : bytes) (opts : CreateOptions) (spawned : result Z) (now : time) :
    result Session * Service :=
  match spawned with
  | Err e => (Err (EWrap #"spawn pty" e), s)
  | Ok pid =>
      let cols := or_default (o_Cols opts) 80 in
      let rows := or_default (o_Rows opts) 24 in
      let sess := mkSession id (fst (ExtractPrefix id)) StateAlive pid cols rows (o_Shell opts) (o_Cwd opts)
                    0 now zero_time ∅ in
      let emulator :=
        match emulatorFactory s with
        | Some f => inl (f id cols rows)
        | None => inr MkNone
        end in
      let ms := mkManaged sess
        (new_pipeline (Z.to_nat (or_default (o_HighWatermark opts) defaultHighWatermark))
           (Z.to_nat (or_default (o_LowWatermark opts) defaultLowWatermark))
           (or_default (o_BatchInterval opts) defaultBatchInterval) false emulator now)
        (o_History opts) false in
      (Ok sess, mkService (<[id := next s]> (sessions s)) (<[next s := ms]> (store s)) (S (next s))
         (maxSessions s) (hasOnExit s) (hasOnDataReady s) (emulatorFactory s))
  end.

(** ** The goroutines *)

(** A call and where its goroutine is: before the semaphore, with a slot, with
    the mutex while the process is spawned, with a result and still a slot, and
    returned. *)
Inductive phase := Entered | Waiting | Spawning | Releasing (r : result Session) | Returned (r : result Session).

Record call := mkCall { c_id : bytes; c_opts : CreateOptions; c_phase : phase }.

Definition with_phase (c : call) (p : phase) : call := mkCall (c_id c) (c_opts c) p.

(** The service, the slots taken, the goroutine that holds the mutex to create a
    session, and the calls. *)
Record creating := mkCreating { svc : Service; used : nat; holder : option nat; calls : list call }.

Definition room (sem : option nat) (used : nat) : bool :=
  match sem with
  | Some n => bool_decide (used < n)%nat
  | None => true
  end.

Inductive label := Caller (i : nat) | Others.

Inductive cstep (sem : option nat) (st : creating) : label → creating → Prop :=
  | cs_invalid i c e :
      calls st !! i = Some c → c_phase c = Entered → ValidateSessionID (c_id c) = Some e →
      cstep sem st (Caller i)
        (mkCreating (svc st) (used st) (holder st) (<[i := with_phase c (Returned (Err e))]> (calls st)))
  | cs_slot i c :
      calls st !! i = Some c → c_phase c = Entered → ValidateSessionID (c_id c) = None → room sem (used st) = true →
      cstep sem st (Caller i)
        (mkCreating (svc st) (S (used st)) (holder st) (<[i := with_phase c Waiting]> (calls st)))
  | cs_refused i c e :
      calls st !! i = Some c → c_phase c = Waiting → holder st = None → create_check (svc st) (c_id c) = Some e →
      cstep sem st (Caller i)
        (mkCreating (svc st) (used st) None (<[i := with_phase c (Releasing (Err e))]> (calls st)))
  | cs_lock i c :
      calls st !! i = Some c → c_phase c = Waiting → holder st = None → create_check (svc st) (c_id c) = None →
      cstep sem st (Caller i)
        (mkCreating (svc st) (used st) (Some i) (<[i := with_phase c Spawning]> (calls st)))
  | cs_spawned i c spawned now r s :
      calls st !! i = Some c → c_phase c = Spawning → create_spawned (svc st) (c_id c) (c_opts c) spawned now = (r, s) →
      cstep sem st (Caller i)
        (mkCreating s (used st) None (<[i := with_phase c (Releasing r)]> (calls st)))
  | cs_release i c r :
      calls st !! i = Some c → c_phase c = Releasing r →
      cstep sem st (Caller i)
        (mkCreating (svc st) (used st - 1) (holder st) (<[i := with_phase c (Returned r)]> (calls st)))
  | cs_others s :
      sstep slack (svc st) s → holder st = None ∨ sessions s = sessions (svc st) →
      cstep sem st Others (mkCreating s (used st) (holder st) (calls st)).

Definition start (s : Service) (cs : list (bytes * CreateOptions)) : creating :=
  mkCreating s 0 None ((λ c, mkCall c.1 c.2 Entered) <$> cs).

Definition reachable (sem : option nat) (s : Service) (cs : list (bytes * CreateOptions)) (st : creating) : Prop :=
  rtc (λ a b, ∃ l, cstep sem a l b) (start s cs) st.

(** ** The specification: whole calls of [Create], one after another *)

Inductive in_turn (cs : list (bytes * CreateOptions)) (s : Service) : list (nat * result Session) → Service → Prop :=
  | it_start : in_turn cs s [] s
  | it_others l s1 s2 : in_turn cs s l s1 → sstep slack s1 s2 → in_turn cs s l s2
  | it_create l s1 i id opts spawned now :
      in_turn cs s l s1 → cs !! i = Some (id, opts) → (i ∉ l.*1) →
      in_turn cs s (l ++ [(i, fst (fst (Create s1 id opts spawned now)))]) (snd (Create s1 id opts spawned now)).

(** ** Lemmas *)

(** The parts make up [Create]. *)
Lemma Create_parts (s : Service) id opts spawned now :
  let '(r, _, s') := Create s id opts spawned now in
  (r, s') = match ValidateSessionID id with
            | Some e => (Err e, s)
            | None => match create_check s id with Some e => (Err e, s) | None => create_spawned s id opts spawned now end
            end.
Proof using Type.
  unfold Create, create_check, create_spawned. destruct (ValidateSessionID id); [done|].
  destruct (sessions s !! id); [done|]. destruct (bool_decide _ && bool_decide _); [done|]. by destruct spawned.
Qed.

Lemma Create_by_parts (s : Service) id opts spawned now r s' :
  ValidateSessionID id = None → create_check s id = None → create_spawned s id opts spawned now = (r, s') →
  fst (fst (Create s id opts spawned now)) = r ∧ snd (Create s id opts spawned now) = s'.
Proof using Type.
  intros Hv Hc Hs. pose proof (Create_parts s id opts spawned now) as Hp. rewrite Hv, Hc, Hs in Hp.
  destruct (Create s id opts spawned now) as [[r' eff] s2]. by simplify_eq.
Qed.

Lemma Create_refused (s : Service) id opts spawned now e :
  (match ValidateSessionID id with Some e => Some e | None => create_check s id end) = Some e →
  fst (fst (Create s id opts spawned now)) = Err e ∧ snd (Create s id opts spawned now) = s.
Proof using Type.
  intros He. pose proof (Create_parts s id opts spawned now) as Hp.
  destruct (Create s id opts spawned now) as [[r' eff] s2].
  destruct (ValidateSessionID id); [by simplify_eq|]. rewrite He in Hp. by simplify_eq.
Qed.

(** A sum over the calls when one of them changes. *)
Lemma sum_insert {A} (f : A → nat) l i x y :
  l !! i = Some x → (sum_list_with f (<[i := y]> l) + f x = sum_list_with f l + f y)%nat.
Proof using Type.
  revert i. induction l as [|a l IH]; intros [|i] Hi; try done; simpl in *.
  - simplify_eq. lia.
  - specialize (IH _ Hi). lia.
Qed.

Definition has_slot (c : call) : nat :=
  match c_phase c with Waiting | Spawning | Releasing _ => 1 | Entered | Returned _ => 0 end.

(** What is left of a call, in steps. *)
Definition left (c : call) : nat :=
  match c_phase c with Entered => 4 | Waiting => 3 | Spawning => 2 | Releasing _ => 1 | Returned _ => 0 end.

Definition result_of (c : call) : option (result Session) :=
  match c_phase c with Releasing r | Returned r => Some r | _ => None end.

Lemma insert_at {A} (l : list A) i j (x y z : A) :
  l !! i = Some x → <[i := y]> l !! j = Some z → j = i ∧ z = y ∨ j ≠ i ∧ l !! j = Some z.
Proof using Type.
  intros Hi Hj. destruct (decide (j = i)) as [->|Hne].
  - rewrite list_lookup_insert_eq in Hj by (by eapply lookup_lt_Some). left. by simplify_eq.
  - rewrite list_lookup_insert_ne in Hj by done. by right.
Qed.

(** The bookkeeping of the slots and of the mutex. *)
Record kept (sem : option nat) (st : creating) : Prop := {
  k_used : used st = sum_list_with has_slot (calls st);
  k_room n : sem = Some n → (used st <= n)%nat;
  k_mutex i c : calls st !! i = Some c → c_phase c = Spawning →
    holder st = Some i ∧ create_check (svc st) (c_id c) = None;
  k_holder i : holder st = Some i → ∃ c, calls st !! i = Some c ∧ c_phase c = Spawning;
  k_valid i c : calls st !! i = Some c → c_phase c = Waiting ∨ c_phase c = Spawning → ValidateSessionID (c_id c) = None;
}.

Lemma kept_start sem s cs : kept sem (start s cs).
Proof using Type.
  assert (Hc : ∀ i c, calls (start s cs) !! i = Some c → c_phase c = Entered).
  { intros i c Hi. apply list_lookup_fmap_Some in Hi as (? & -> & _). done. }
  split; cbn -[list_lookup]; [|lia| |done|].
  - clear. induction cs as [|x cs IH]; [done|]. rewrite fmap_cons. cbn. exact IH.
  - intros i c Hi Hp. by rewrite (Hc i c Hi) in Hp.
  - intros i c Hi Hp. rewrite (Hc i c Hi) in Hp. by destruct Hp.
Qed.

Lemma create_check_same (s s' : Service) id :
  sessions s' = sessions s → maxSessions s' = maxSessions s → create_check s' id = create_check s id.
Proof using Type. unfold create_check. by intros -> ->. Qed.

(** The fields after the step of one call. *)
#[local] Ltac slots Hi Hp :=
  match goal with
  | |- context [sum_list_with has_slot (<[?i := with_phase ?c ?p]> ?l)] =>
      let n := eval cbn in (has_slot (with_phase c p)) in
      pose proof (sum_insert has_slot l i c (with_phase c p) Hi) as Hsum;
      change (has_slot (with_phase c p)) with n in Hsum; unfold has_slot at 2 in Hsum; rewrite Hp in Hsum; lia
  end.

#[local] Ltac at_call Hi :=
  let j := fresh "j" in let c' := fresh "c'" in let Hj := fresh "Hj" in
  intros j c' Hj; apply (insert_at _ _ _ _ _ _ Hi) in Hj as [[-> ->]|[? Hj]]; [cbn [c_phase c_id with_phase]|].

Lemma kept_holder st i c p s used' holder' :
  calls st !! i = Some c → (∀ j, holder' = Some j → j = i ∧ p = Spawning ∨ j ≠ i ∧ ∃ c, calls st !! j = Some c ∧ c_phase c = Spawning) →
  ∀ j, holder (mkCreating s used' holder' (<[i := with_phase c p]> (calls st))) = Some j →
  ∃ c', <[i := with_phase c p]> (calls st) !! j = Some c' ∧ c_phase c' = Spawning.
Proof using Type.
  intros Hi Hh j Hj. destruct (Hh j Hj) as [[-> ->]|(Hne & c' & Hc & Hp)].
  - exists (with_phase c Spawning). rewrite list_lookup_insert_eq by (by eapply lookup_lt_Some). done.
  - exists c'. by rewrite list_lookup_insert_ne.
Qed.

(** A call that does not spawn, before and after. *)
Lemma kept_quiet sem st i c p used' :
  kept sem st → calls st !! i = Some c → c_phase c ≠ Spawning → p ≠ Spawning →
  (used' + has_slot c = used st + has_slot (with_phase c p))%nat → (∀ n, sem = Some n → (used' <= n)%nat) →
  (p = Waiting → ValidateSessionID (c_id c) = None) →
  kept sem (mkCreating (svc st) used' (holder st) (<[i := with_phase c p]> (calls st))).
Proof using Type.
  intros [Hu Hr Hm Hh Hv] Hi Hc Hp Hslot Hroom Hval. split; cbn [calls svc used].
  - pose proof (sum_insert has_slot _ _ _ (with_phase c p) Hi). lia.
  - done.
  - at_call Hi; [done|]. by apply Hm.
  - eapply (kept_holder _ _ _ _ _ _ _ Hi). intros j Hj. right. split; [|by apply Hh].
    intros ->. destruct (Hh _ Hj) as (c' & Hc' & ?). congruence.
  - at_call Hi; [by intros [?|?]; [apply Hval|]|]. by eapply Hv.
Qed.

Lemma kept_step sem st l st' : kept sem st → cstep sem st l st' → kept sem st'.
Proof.
  intros Hk Hs. pose proof Hk as [Hu Hr Hm Hh Hv].
  destruct Hs as [i c e Hi Hp He|i c Hi Hp He Hroom|i c e Hi Hp Hn He|i c Hi Hp Hn He|i c spawned now r s Hi Hp Hs|i c r Hi Hp|s Hs Ho].
  - apply (kept_quiet _ _ _ _ _ _ Hk Hi); try done; [congruence|]. unfold has_slot. rewrite Hp. cbn. lia.
  - apply (kept_quiet _ _ _ _ _ _ Hk Hi); try done; [congruence| |].
    + unfold has_slot. rewrite Hp. cbn. lia.
    + intros n ->. cbn in Hroom. apply bool_decide_eq_true in Hroom. lia.
  - rewrite <- Hn. apply (kept_quiet _ _ _ _ _ _ Hk Hi); try done; [congruence|]. unfold has_slot. rewrite Hp. cbn. lia.
  - split; cbn [calls svc used]; [slots Hi Hp|done| | |].
    + at_call Hi; [done|]. intros Hp'. destruct (Hm _ _ Hj Hp') as [Hx _]. congruence.
    + eapply (kept_holder _ _ _ _ _ _ _ Hi). intros j [= <-]. by left.
    + at_call Hi; [intros _; apply (Hv i c Hi); by left|]. by eapply Hv.
  - destruct (Hm _ _ Hi Hp) as [Hx _]. split; cbn [calls svc used]; [slots Hi Hp|done| |done|].
    + at_call Hi; [done|]. intros Hp'. destruct (Hm _ _ Hj Hp') as [Hx' _]. congruence.
    + at_call Hi; [by intros [?|?]|]. by eapply Hv.
  - apply (kept_quiet _ _ _ _ _ _ Hk Hi); try done; [congruence| |].
    + pose proof (sum_insert has_slot _ _ _ (with_phase c Entered) Hi) as Hsum. unfold has_slot at 2 4 in Hsum.
      unfold has_slot. rewrite Hp in *. cbn in *. lia.
    + intros n Hn. specialize (Hr n Hn). lia.
  - split; cbn [calls svc used]; [done|done| |done|done]. intros i c Hi Hp. destruct (Hm i c Hi Hp) as [Hx Hc].
    split; [done|]. destruct Ho as [?|Ho]; [congruence|]. by rewrite (create_check_same (svc st) s) by (done || by eapply sstep_max).
Qed.
(** *** One after another *)

Definition linear (s : Service) (cs : list (bytes * CreateOptions)) (st : creating) : Prop :=
  (∀ i c, calls st !! i = Some c → cs !! i = Some (c_id c, c_opts c)) ∧
  ∃ l, in_turn cs s l (svc st) ∧ ∀ i r, (i, r) ∈ l ↔ ∃ c, calls st !! i = Some c ∧ result_of c = Some r.

Lemma linear_start s cs : linear s cs (start s cs).
Proof using Type.
  split.
  - intros i c (x & -> & Hx)%list_lookup_fmap_Some. rewrite Hx. by destruct x.
  - exists []. split; [constructor|]. intros i r. split; [by intros ?%elem_of_nil|].
    by intros (c & (x & -> & _)%list_lookup_fmap_Some & ?).
Qed.

(** A call that stays without a result, or keeps the one it has. *)
Lemma linear_quiet s cs st i c p used' holder' :
  linear s cs st → calls st !! i = Some c → result_of (with_phase c p) = result_of c →
  linear s cs (mkCreating (svc st) used' holder' (<[i := with_phase c p]> (calls st))).
Proof using Type.
  intros (Hcs & l & Hl & Hr) Hi Hp. split; cbn [calls svc].
  - at_call Hi; [exact (Hcs _ _ Hi)|by apply Hcs].
  - exists l. split; [done|]. intros j r. rewrite Hr. destruct (decide (j = i)) as [->|Hne].
    + rewrite list_lookup_insert_eq by (by eapply lookup_lt_Some). split; intros (c' & Hc & Hr'); simplify_eq; eexists; split; eauto; congruence.
    + by rewrite list_lookup_insert_ne.
Qed.

(** A call that gets its result, that of the whole [Create] at this moment. *)
Lemma linear_result s cs st i c p spawned now r s' used' holder' :
  linear s cs st → calls st !! i = Some c → result_of c = None → result_of (with_phase c p) = Some r →
  fst (fst (Create (svc st) (c_id c) (c_opts c) spawned now)) = r ∧
    snd (Create (svc st) (c_id c) (c_opts c) spawned now) = s' →
  linear s cs (mkCreating s' used' holder' (<[i := with_phase c p]> (calls st))).
Proof using Type.
  intros (Hcs & l & Hl & Hr) Hi Hn Hp [<- <-]. split; cbn [calls svc].
  - at_call Hi; [exact (Hcs _ _ Hi)|by apply Hcs].
  - eexists. split.
    + apply (it_create _ _ _ _ i (c_id c) (c_opts c) spawned now Hl); [by apply Hcs|].
      intros ([j r'] & -> & (c' & Hc & Hr')%Hr)%list_elem_of_fmap. cbn [fst] in Hi. congruence.
    + intros j r'. rewrite elem_of_app, list_elem_of_singleton, Hr. destruct (decide (j = i)) as [->|Hne].
      * rewrite list_lookup_insert_eq by (by eapply lookup_lt_Some). split.
        -- intros [(c' & Hc & Hr')|[= ->]]; [congruence|]. by eexists.
        -- intros (c' & [= <-] & Hr'). right. congruence.
      * rewrite list_lookup_insert_ne by done. split; [intros [?|[= ? ?]]; done|by left].
Qed.

Lemma linear_step sem s cs st l st' : kept sem st → linear s cs st → cstep sem st l st' → linear s cs st'.
Proof.
  intros Hk Hl Hs.
  destruct Hs as [i c e Hi Hp He|i c Hi Hp He Hroom|i c e Hi Hp Hn He|i c Hi Hp Hn He|i c spawned now r s1 Hi Hp Hs|i c r Hi Hp|s1 Hs Ho];
    try (by apply linear_quiet; [..|unfold result_of; rewrite Hp]);
    try (assert (Hres : result_of c = None) by (unfold result_of; by rewrite Hp)).
  - eapply (linear_result _ _ _ _ _ _ (Ok 0) 0); [exact Hl|exact Hi|exact Hres|reflexivity|]. apply Create_refused. by rewrite He.
  - eapply (linear_result _ _ _ _ _ _ (Ok 0) 0); [exact Hl|exact Hi|exact Hres|reflexivity|]. apply Create_refused.
    rewrite (k_valid _ _ Hk _ _ Hi) by by left. done.
  - eapply (linear_result _ _ _ _ _ _ spawned now); [exact Hl|exact Hi|exact Hres|reflexivity|]. apply Create_by_parts; [|by eapply k_mutex|done].
    apply (k_valid _ _ Hk _ _ Hi). by right.
  - destruct Hl as (Hcs & l & Hl & Hr). split; [done|]. exists l. split; [by eapply it_others|done].
Qed.

Lemma creating_inv sem s cs st : reachable sem s cs st → kept sem st ∧ linear s cs st.
Proof.
  intros Hr. refine (rtc_ind_r (λ st, kept sem st ∧ linear s cs st) _ _ _ _ Hr); [by split; [apply kept_start|apply linear_start]|].
  intros st1 st2 _ [l Hs] [Hk Hl]. split; [by eapply kept_step|by eapply linear_step].
Qed.

(** *** Progress *)

Lemma sum_pos {A} (f : A → nat) l : (0 < sum_list_with f l)%nat → ∃ i x, l !! i = Some x ∧ (0 < f x)%nat.
Proof using Type.
  induction l as [|x l IH]; simpl; [lia|]. intros Hp. destruct (decide (0 < f x)%nat) as [Hx|Hx]; [by exists 0%nat, x|].
  destruct IH as (i & y & Hi & Hy); [lia|]. by exists (S i), y.
Qed.

Definition moves (sem : option nat) (st : creating) : Prop := ∃ i st', cstep sem st (Caller i) st'.

(** Whoever has a slot is on its way, or waits for somebody that is. *)
Lemma slot_moves sem st i c : kept sem st → calls st !! i = Some c → (0 < has_slot c)%nat → moves sem st.
Proof.
  intros Hk Hi Hs. unfold has_slot in Hs.
  assert (Hspawn : ∀ j c, calls st !! j = Some c → c_phase c = Spawning → moves sem st).
  { intros j c' Hj Hp. destruct (create_spawned (svc st) (c_id c') (c_opts c') (Ok 0) 0) as [r s] eqn:He.
    eexists j, _. by eapply cs_spawned. }
  destruct (c_phase c) eqn:Hp; try (cbn in Hs; lia); [|by eapply Hspawn|eexists i, _; by eapply cs_release].
  destruct (holder st) as [j|] eqn:Hh; [destruct (k_holder _ _ Hk _ Hh) as (c' & Hj & Hp'); by eapply Hspawn|].
  destruct (create_check (svc st) (c_id c)) eqn:He; eexists i, _; [by eapply cs_refused|by eapply cs_lock].
Qed.

Lemma unreturned_moves n st i c :
  kept (WithSpawnSemaphore n) st → calls st !! i = Some c → (0 < left c)%nat → moves (WithSpawnSemaphore n) st.
Proof.
  intros Hk Hi Hl. destruct (c_phase c) eqn:Hp; try (eapply (slot_moves _ _ i c); [done..|unfold has_slot; rewrite Hp; lia]).
  - destruct (ValidateSessionID (c_id c)) eqn:He; [eexists i, _; by eapply cs_invalid|].
    destruct (room (WithSpawnSemaphore n) (used st)) eqn:Hroom; [eexists i, _; by eapply cs_slot|].
    assert (Hu : (0 < used st)%nat).
    { unfold WithSpawnSemaphore, room in Hroom. case_bool_decide; [|done]. apply bool_decide_eq_false in Hroom. lia. }
    rewrite (k_used _ _ Hk) in Hu. apply sum_pos in Hu as (j & c' & Hj & Hs). by eapply slot_moves.
  - unfold left in Hl. rewrite Hp in Hl. lia.
Qed.

Lemma caller_progress sem st i st' :
  cstep sem st (Caller i) st' → (sum_list_with left (calls st') < sum_list_with left (calls st))%nat.
Proof.
  intros Hs. inversion Hs as [i' c e Hi Hp He|i' c Hi Hp He Hroom|i' c e Hi Hp Hn He|i' c Hi Hp Hn He|i' c spawned now r s1 Hi Hp Hs1|i' c r Hi Hp|]; subst; cbn [calls];
  match goal with
  | |- context [<[?i := with_phase ?c ?p]> ?l] =>
      pose proof (sum_insert left l i c (with_phase c p) Hi) as Hsum; unfold left at 2 4 in Hsum; rewrite Hp in Hsum; cbn in Hsum
  end; lia.
Qed.
(** ** Theorem *)

(** C16: calls of [Create] that run at once, each through the semaphore and the
    mutex, do what the same calls do one after another, each somewhere between
    its start and its end and whole, with the operations of other goroutines in
    between: the service is what such a sequence leaves, and the results are the
    ones it gives, to exactly the calls that are in it.  At most one process is
    being spawned at a time, whatever the limit, and no more slots are taken
    than there are.  No call waits for ever: while one has not returned, some
    call can go on once the spawner has answered, and every such step brings
    them nearer to the end. *)
Theorem creations_take_turns n s cs st :
  reachable (WithSpawnSemaphore n) s cs st →
  (∃ l, in_turn cs s l (svc st) ∧
    ∀ i r, (i, r) ∈ l ↔ ∃ c, calls st !! i = Some c ∧ (c_phase c = Releasing r ∨ c_phase c = Returned r)) ∧
  (∀ i j c c', calls st !! i = Some c → calls st !! j = Some c' → c_phase c = Spawning → c_phase c' = Spawning → i = j) ∧
  (0 < n → Z.of_nat (used st) <= n) ∧
  ((∃ i c, calls st !! i = Some c ∧ ∀ r, c_phase c ≠ Returned r) →
    ∃ i st', cstep (WithSpawnSemaphore n) st (Caller i) st') ∧
  (∀ i st', cstep (WithSpawnSemaphore n) st (Caller i) st' →
    (sum_list_with left (calls st') < sum_list_with left (calls st))%nat) ∧
  (∀ st', cstep (WithSpawnSemaphore n) st Others st' → calls st' = calls st).
Proof.
  intros [Hk (_ & l & Hl & Hr)]%creating_inv. split_and!.
  - exists l. split; [done|]. intros i r. rewrite Hr. do 2 f_equiv. f_equiv.
    unfold result_of. destruct (c_phase _); naive_solver.
  - intros i j c c' Hi Hj Hp Hp'. destruct (k_mutex _ _ Hk _ _ Hi Hp), (k_mutex _ _ Hk _ _ Hj Hp'). congruence.
  - intros Hn. pose proof (k_room _ _ Hk (Z.to_nat n)) as Hu. unfold WithSpawnSemaphore in Hu.
    rewrite bool_decide_true in Hu by done. specialize (Hu eq_refl). lia.
  - intros (i & c & Hi & Hp). eapply (unreturned_moves n st i c Hk Hi). unfold left.
    destruct (c_phase c); try lia. by destruct (Hp r).
  - intros i st'. apply caller_progress.
  - intros st' Hs. by inversion Hs.
Qed.
End Spawning.

(** ** Witness *)

Section Witness.
#[local] Abbreviation slack := (λ _ _ : nat, 0%nat) (only parsing).
#[local] Abbreviation empty := (NewService (E := NoneEmulator) 0 true true None) (only parsing).

Definition example_calls : list (bytes * CreateOptions) := [(#"a", example_opts); (#"a", example_opts); ([], example_opts)].

#[local] Abbreviation example_created := (create_spawned empty #"a" example_opts (Ok 42) 5) (only parsing).

(** The second call is first at the mutex, and the first finds its session there. *)
Definition example_end : creating (E := NoneEmulator) :=
  mkCreating (snd example_created) 0 None
    [mkCall #"a" example_opts (Returned (Err ErrSessionExists)); mkCall #"a" example_opts (Returned (fst example_created));
     mkCall [] example_opts (Returned (Err ErrInvalidSessionID))].

Lemma example_end_reachable : reachable slack (WithSpawnSemaphore 1) empty example_calls example_end.
Proof.
  unfold reachable, start, example_end. set (r := fst example_created). set (s := snd example_created).
  eapply rtc_l; [eexists; eapply (cs_slot _ _ _ 1); by vm_compute|].
  eapply rtc_l; [eexists; eapply (cs_lock _ _ _ 1); by vm_compute|].
  eapply rtc_l; [eexists; eapply (cs_invalid _ _ _ 2); by vm_compute|].
  eapply rtc_l; [eexists; eapply (cs_spawned _ _ _ 1 _ (Ok 42) 5 r s); [by vm_compute..|apply surjective_pairing]|].
  eapply rtc_l; [eexists; eapply (cs_release _ _ _ 1); reflexivity|].
  eapply rtc_l; [eexists; eapply (cs_slot _ _ _ 0); try reflexivity; by vm_compute|].
  eapply rtc_l; [eexists; eapply (cs_refused _ _ _ 0); try reflexivity; by vm_compute|].
  eapply rtc_l; [eexists; eapply (cs_release _ _ _ 0); reflexivity|]. apply rtc_refl.
Qed.

Lemma creations_take_turns_witness :
  ∃ l, in_turn slack example_calls empty l (svc example_end) ∧
    (0%nat, Err ErrSessionExists) ∈ l ∧ (1%nat, fst example_created) ∈ l ∧ (2%nat, Err ErrInvalidSessionID) ∈ l.
Proof.
  destruct (creations_take_turns slack 1 empty example_calls example_end example_end_reachable) as [(l & Hl & Hr) _].
  exists l. split; [exact Hl|]. split_and!; apply Hr; eexists; (split; [reflexivity|right; reflexivity]).
Defined.
End Witness.
