(* ===== verification/Transport.v ===== *)
(** * Client connections: [internal/transport], [internal/platform/auth]

    The server's registry of clients and its handshake ([service.go]), the
    automation modes ([entity.go], [values.go], [ppid_linux.go]), the heartbeat
    manager ([heartbeat.go]) and the tokens ([auth/token.go]).

    A connection is a number; what happens to it is an effect, and whether a
    write to it succeeds is told by an oracle.  The server and the heartbeat
    manager share [Client] structures, so clients are kept in a store and
    referred to by pointers. *)

From S2P Require Import Prelude GoStrings Protocol.

#[local] Open Scope Z_scope.

(** ** Tokens ([auth/token.go]) *)

Definition TokenSize : nat := 32.

Definition ErrInvalidToken : error := ENew #"auth: invalid token".

Definition ErrNotExist : error := ENew #"file does not exist".

(** [subtle.ConstantTimeCompare] is 1 exactly for equal slices. *)
Definition Verify (stored candidate : bytes) : bool :=
  if bool_decide (length candidate ≠ TokenSize) then false else bool_decide (stored = candidate).

(** [os.ReadFile] of the token file. *)
Definition LoadFromFile (file : result bytes) : result bytes :=
  match file with
  | Err e => Err (EWrap #"auth: load token" e)
  | Ok data => if bool_decide (length data ≠ TokenSize) then Err ErrInvalidToken else Ok data
  end.

(** [Ensure]: the token, and the token written to the file, if one is.
    [random] is what [Generate] reads, [saved] the result of the write. *)
Definition Ensure (file random : result bytes) (saved : option error) : result bytes * option bytes :=
  match LoadFromFile file with
  | Ok token => (Ok token, None)
  | Err e =>
      if negb (err_is e ErrNotExist) && negb (err_is e ErrInvalidToken) then (Err e, None)
      else
        match random with
        | Err e => (Err (EWrap #"auth: generate token" e), None)
        | Ok token =>
            match saved with
            | Some e => (Err (EWrap #"auth: save token" e), None)
            | None => (Ok token, Some token)
            end
        end
  end.

(** ** Channels and modes *)

Definition ChannelControl : byte := x01.

Definition ChannelStream : byte := x02.

Definition ChannelType_String (c : byte) : bytes :=
  if decide (c = ChannelControl) then #"control"
  else if decide (c = ChannelStream) then #"stream" else #"unknown".

(** A mode outside the constants can be set by [WithAutomationMode]. *)
Inductive AutomationMode := ModeOpen | ModeSameUser | ModeChildren | ModeOther (n : Z).

#[export] Instance AutomationMode_eq_decision : EqDecision AutomationMode.
Proof. solve_decision. Defined.

Definition AutomationMode_String (m : AutomationMode) : bytes :=
  match m with
  | ModeOpen => #"open"
  | ModeSameUser => #"same-user"
  | ModeChildren => #"children"
  | ModeOther _ => #"unknown"
  end.

Definition ErrInvalidAutomationMode : error := ENew #"transport: invalid automation mode".

Definition ParseAutomationMode (s : bytes) : result AutomationMode :=
  if decide (s = #"open") then Ok ModeOpen
  else if decide (s = #"same-user") then Ok ModeSameUser
  else if decide (s = #"children") then Ok ModeChildren
  else Err ErrInvalidAutomationMode.

Definition ErrAuthFailed : error := ENew #"transport: authentication failed".

Definition ErrClientNotFound : error := ENew #"transport: client not found".

Definition ErrInvalidChannel : error := ENew #"transport: invalid channel type".

Definition ErrDuplicateChannel : error := ENew #"transport: duplicate channel".

(** ** The process tree ([ppid_linux.go]) *)

(** The parent in the text of [/proc/<pid>/stat]: the second field after the
    last closing parenthesis, as a 32-bit integer. *)
Definition parse_stat (content : bytes) : option Z :=
  match last_index_byte content ")"%byte with
  | None => None
  | Some closeParen =>
      if bool_decide (length content <= closeParen + 2)%nat then None
      else
        match fields (drop (closeParen + 2) content) with
        | _ :: f1 :: _ =>
            match parse_int f1 with
            | (v, None) => if bool_decide (- 2 ^ 31 <= v < 2 ^ 31) then Some v else None
            | (_, Some _) => None
            end
        | _ => None
        end
  end.

Lemma Verify_spec stored candidate :
  Verify stored candidate = true ↔ stored = candidate ∧ length candidate = TokenSize.
Proof. unfold Verify. repeat case_bool_decide; naive_solver. Qed.

Section Server.
(** [os.ReadFile] of the [stat] file of a process. *)
Variable stat_file : Z → option bytes.

Definition parentPID (pid : Z) : option Z := stat_file pid ≫= parse_stat.

Definition maxDepth : nat := 64.

Fixpoint isDescendant_loop (n : nat) (current ancestor : Z) : bool :=
  match n with
  | O => false
  | S n =>
      match parentPID current with
      | None => false
      | Some ppid =>
          if bool_decide (ppid <= 0) then false
          else if bool_decide (ppid = ancestor) then true
          else isDescendant_loop n ppid ancestor
      end
  end.

Definition isDescendant (child ancestor : Z) : bool := isDescendant_loop maxDepth child ancestor.

(** ** The server ([service.go]) *)

Record PeerCredentials := mkCreds { UID : Z; PID : Z }.

Record Client := mkClient {
  ID : bytes;
  Control : option nat;
  Stream : option nat;
  Creds : PeerCredentials;
  ConnectedAt : time;
  LastHeartbeatAck : time;
  MissedHeartbeats : Z;
}.

Record Server := mkServer {
  token : bytes;
  clients : gmap bytes nat;
  store : gmap nat Client;
  next : nat;
  mode : AutomationMode;
  closed : bool;
}.

(** A server without clients, in a mode that [WithAutomationMode] chooses or the
    default [ModeOpen]. *)
Definition NewServer (tok : bytes) (m : AutomationMode) : Server := mkServer tok ∅ ∅ 0 m false.

(** What is done to connections and called back. *)
Inductive effect :=
  | WriteTo (conn : nat) (f : Frame)
  | CloseConn (conn : nat)
  | OnClient (ptr : nat)
  | CloseListener.

(** The error of writing a frame to a connection, if it fails. *)
Variable write_err : nat → Frame → option error.

Definition write_ok (conn : nat) (f : Frame) : bool := bool_decide (write_err conn f = None).

Definition sendError (conn : nat) (msg : bytes) : list effect :=
  [WriteTo conn (mkFrame ProtocolVersion MsgError msg)].

(** An error frame, and the connection closed. *)
Definition refuse (conn : nat) (e : error) : list effect :=
  sendError conn (err_text e) ++ [CloseConn conn].

(** This process. *)
Variables self_uid self_pid : Z.

Definition checkAutomationMode (m : AutomationMode) (creds : PeerCredentials) : option error :=
  match m with
  | ModeOpen => None
  | ModeSameUser =>
      if bool_decide (UID creds ≠ self_uid)
      then Some (EWrap (err_text ErrAuthFailed) (ENew #"UID mismatch")) else None
  | ModeChildren =>
      if isDescendant (PID creds) self_pid then None
      else Some (EWrap (err_text ErrAuthFailed) (ENew #"not a descendant process"))
  | ModeOther _ => Some (EWrap (err_text ErrAuthFailed) (ENew #"unknown automation mode"))
  end.

Definition with_clients (s : Server) (m : gmap bytes nat) : Server :=
  mkServer (token s) m (store s) (next s) (mode s) (closed s).

Definition with_client (s : Server) (ptr : nat) (c : Client) : Server :=
  mkServer (token s) (clients s) (<[ptr := c]> (store s)) (next s) (mode s) (closed s).

Definition set_stream (c : Client) (st : option nat) : Client :=
  mkClient (ID c) (Control c) st (Creds c) (ConnectedAt c) (LastHeartbeatAck c) (MissedHeartbeats c).

(** [registerControl]; [newid] is what [generateClientID] returns. *)
Definition registerControl (s : Server) (conn : nat) (creds : PeerCredentials)
    (newid : result bytes) (now : time) : list effect * Server :=
  match newid with
  | Err _ => (sendError conn #"internal error generating client ID" ++ [CloseConn conn], s)
  | Ok id =>
      let c := mkClient id (Some conn) None creds now zero_time 0 in
      let s := mkServer (token s) (<[id := next s]> (clients s)) (<[next s := c]> (store s))
                 (S (next s)) (mode s) (closed s) in
      let ok := mkFrame ProtocolVersion MsgOK id in
      if write_ok conn ok then ([WriteTo conn ok; OnClient (next s - 1)], s)
      else ([WriteTo conn ok; CloseConn conn], with_clients s (delete id (clients s)))
  end.

Definition registerStream (s : Server) (conn : nat) (payload : bytes) : list effect * Server :=
  let header := (1 + TokenSize)%nat in
  if bool_decide (length payload < header + 2)%nat then (refuse conn ErrAuthFailed, s)
  else
    let idLen := Z.to_nat (byte_val (payload !!! header)) in
    if bool_decide (length payload < header + 1 + idLen)%nat then (refuse conn ErrAuthFailed, s)
    else
      let clientID := take idLen (drop (header + 1) payload) in
      match ptr ← clients s !! clientID; c ← store s !! ptr; Some (ptr, c) with
      | None => (refuse conn ErrClientNotFound, s)
      | Some (ptr, c) =>
          match Stream c with
          | Some _ => (refuse conn ErrDuplicateChannel, s)
          | None =>
              let s := with_client s ptr (set_stream c (Some conn)) in
              let ok := mkFrame ProtocolVersion MsgOK [] in
              if write_ok conn ok then ([WriteTo conn ok], s)
              else ([WriteTo conn ok; CloseConn conn], with_client s ptr (set_stream c None))
          end
      end.

(** What the environment answers to a handshake. *)
Record handshake := mkHandshake {
  hs_deadline : bool;                    (** the deadline could be set *)
  hs_creds : result PeerCredentials;
  hs_frame : result Frame;               (** what [conn.ReadFrame] returned *)
  hs_cleared : bool;                     (** the deadline could be cleared *)
  hs_newid : result bytes;
  hs_now : time;
}.

Definition handleConn (s : Server) (conn : nat) (h : handshake) : list effect * Server :=
  if negb (hs_deadline h) then ([CloseConn conn], s)
  else
    match hs_creds h with
    | Err _ => (refuse conn ErrAuthFailed, s)
    | Ok creds =>
        match hs_frame h with
        | Err _ => (refuse conn ErrAuthFailed, s)
        | Ok frame =>
            if bool_decide (Type_ frame ≠ MsgAuth) then (refuse conn ErrAuthFailed, s)
            else if bool_decide (length (Payload frame) < 1 + TokenSize)%nat
            then (refuse conn ErrAuthFailed, s)
            else
              let channelByte := Payload frame !!! 0%nat in
              let tokenBytes := take TokenSize (drop 1 (Payload frame)) in
              if negb (Verify (token s) tokenBytes) then (refuse conn ErrAuthFailed, s)
              else
                match checkAutomationMode (mode s) creds with
                | Some _ => (refuse conn ErrAuthFailed, s)
                | None =>
                    if negb (hs_cleared h) then ([CloseConn conn], s)
                    else if decide (channelByte = ChannelControl) then
                      registerControl s conn creds (hs_newid h) (hs_now h)
                    else if decide (channelByte = ChannelStream) then
                      registerStream s conn (Payload frame)
                    else (refuse conn ErrInvalidChannel, s)
                end
        end
    end.

Definition lookup_client (s : Server) (id : bytes) : option (nat * Client) :=
  ptr ← clients s !! id; c ← store s !! ptr; Some (ptr, c).

(** [Clients], in the order of the map. *)
Definition Clients (s : Server) : list Client :=
  map_to_list (clients s) ≫= (λ '(_, ptr), option_list (store s !! ptr)).

Definition Client_ (s : Server) (id : bytes) : result nat :=
  match lookup_client s id with
  | None => Err ErrClientNotFound
  | Some (ptr, _) => Ok ptr
  end.

Definition close_conns (c : Client) : list effect :=
  (CloseConn <$> option_list (Control c)) ++ (CloseConn <$> option_list (Stream c)).

Definition Kick (s : Server) (id : bytes) : option error * list effect * Server :=
  match lookup_client s id with
  | None => (Some ErrClientNotFound, [], s)
  | Some (_, c) => (None, close_conns c, with_clients s (delete id (clients s)))
  end.

(** [Broadcast]: every stream is written to; the first failure is returned. *)
Definition Broadcast (s : Server) (f : Frame) : option error * list effect :=
  let streams := Clients s ≫= (λ c, option_list (Stream c)) in
  (EWrap #"transport: broadcast write" <$> head (omap (λ c, write_err c f) streams),
   (λ c, WriteTo c f) <$> streams).

Definition BroadcastTo (s : Server) (id : bytes) (f : Frame) : option error * list effect :=
  match lookup_client s id with
  | None => (Some ErrClientNotFound, [])
  | Some (_, c) =>
      match Stream c with
      | None => (None, [])
      | Some st =>
          (EWrap #"transport: broadcast-to write" <$> write_err st f, [WriteTo st f])
      end
  end.

Definition RemoveClient (s : Server) (id : bytes) : Server :=
  with_clients s (delete id (clients s)).

Definition Close (s : Server) : list effect * Server :=
  ((Clients s ≫= close_conns) ++ [CloseListener],
   mkServer (token s) ∅ (store s) (next s) (mode s) true).

(** ** Heartbeats ([heartbeat.go]) *)

Record HeartbeatManager := mkHeartbeat { hb_clients : gmap bytes nat; hb_maxMissed : Z }.

Definition Track (h : HeartbeatManager) (id : bytes) (ptr : nat) : HeartbeatManager :=
  mkHeartbeat (<[id := ptr]> (hb_clients h)) (hb_maxMissed h).

Definition Untrack (h : HeartbeatManager) (id : bytes) : HeartbeatManager :=
  mkHeartbeat (delete id (hb_clients h)) (hb_maxMissed h).

Definition set_missed (c : Client) (n : Z) (ack : time) : Client :=
  mkClient (ID c) (Control c) (Stream c) (Creds c) (ConnectedAt c) ack n.

Definition Ack (h : HeartbeatManager) (s : Server) (id : bytes) (now : time) : Server :=
  match ptr ← hb_clients h !! id; c ← store s !! ptr; Some (ptr, c) with
  | None => s
  | Some (ptr, c) => with_client s ptr (set_missed c 0 now)
  end.

Definition hbFrame : Frame := mkFrame ProtocolVersion MsgHeartbeat [].

(** The body of the loop of [tick] over one tracked client. *)
Definition tick_one (max : Z) (acc : list bytes * list effect * Server) (kv : bytes * nat) :
    list bytes * list effect * Server :=
  let '(dead, effs, s) := acc in
  let '(id, ptr) := kv in
  match store s !! ptr with
  | None => acc
  | Some c =>
      match Stream c with
      | None => acc
      | Some st =>
          let missed := MissedHeartbeats c + 1 in
          if bool_decide (max < missed) then
            (dead ++ [id], effs, with_client s ptr (set_missed c missed (LastHeartbeatAck c)))
          else if write_ok st hbFrame then
            (dead, effs ++ [WriteTo st hbFrame],
             with_client s ptr (set_missed c missed (LastHeartbeatAck c)))
          else
            (dead ++ [id], effs ++ [WriteTo st hbFrame],
             with_client s ptr (set_missed c (max + 1) (LastHeartbeatAck c)))
      end
  end.

(** [tick]: the clients reported dead, and no longer tracked. *)
Definition tick (h : HeartbeatManager) (s : Server) :
    list bytes * list effect * HeartbeatManager * Server :=
  let '(dead, effs, s) := foldl (tick_one (hb_maxMissed h)) ([], [], s) (map_to_list (hb_clients h)) in
  (dead, effs, foldl Untrack h dead, s).

(** ** Specifications *)

(** The [n]-th parent of a process, when every process on the way up to it
    has a positive identifier. *)
Fixpoint nth_parent (n : nat) (pid : Z) : option Z :=
  match n with
  | O => Some pid
  | S n =>
      match parentPID pid with
      | Some ppid => if bool_decide (ppid <= 0) then None else nth_parent n ppid
      | None => None
      end
  end.

(** The clients of the registry, each filed under its own identifier. *)
Definition server_inv (s : Server) : Prop :=
  ∀ id ptr, clients s !! id = Some ptr →
    (ptr < next s)%nat ∧ ∃ c, store s !! ptr = Some c ∧ ID c = id.

(** A handshake that presents the token over an authentication frame, from a
    process that the mode admits. *)
Definition authorized (s : Server) (h : handshake) (creds : PeerCredentials) (payload : bytes) : Prop :=
  hs_creds h = Ok creds ∧
  (∃ f, hs_frame h = Ok f ∧ Type_ f = MsgAuth ∧ Payload f = payload) ∧
  (∃ channel rest, payload = channel :: token s ++ rest ∧ length (token s) = TokenSize) ∧
  match mode s with
  | ModeOpen => True
  | ModeSameUser => UID creds = self_uid
  | ModeChildren => isDescendant (PID creds) self_pid = true
  | ModeOther _ => False
  end.

(** ** Lemmas *)

Lemma isDescendant_loop_spec n current ancestor :
  isDescendant_loop n current ancestor = true ↔
    ∃ k, (1 <= k <= n)%nat ∧ nth_parent k current = Some ancestor.
Proof.
  revert current. induction n as [|n IH]; intros current.
  { split; [done|]. intros (k & Hk & _). lia. }
  cbn [isDescendant_loop]. destruct (parentPID current) as [ppid|] eqn:Ep.
  - case_bool_decide as Hneg.
    { split; [done|]. intros ([|k] & Hk & Hp); [lia|]. cbn [nth_parent] in Hp.
      by rewrite Ep, bool_decide_true in Hp. }
    case_bool_decide as Ha.
    { split; [intros _|done]. exists 1%nat. split; [lia|]. cbn [nth_parent].
      by rewrite Ep, bool_decide_false, Ha by done. }
    rewrite IH. split.
    + intros (k & Hk & Hp). exists (S k). split; [lia|]. cbn [nth_parent].
      by rewrite Ep, bool_decide_false by done.
    + intros ([|k] & Hk & Hp); [lia|]. cbn [nth_parent] in Hp.
      rewrite Ep, bool_decide_false in Hp by done. exists k. split; [|done].
      destruct k; [cbn in Hp; congruence|lia].
  - split; [done|]. intros ([|k] & Hk & Hp); [lia|]. cbn [nth_parent] in Hp. by rewrite Ep in Hp.
Qed.

Lemma checkAutomationMode_None m creds :
  checkAutomationMode m creds = None ↔
  match m with
  | ModeOpen => True
  | ModeSameUser => UID creds = self_uid
  | ModeChildren => isDescendant (PID creds) self_pid = true
  | ModeOther _ => False
  end.
Proof.
  unfold checkAutomationMode. destruct m; [done| |..].
  - case_bool_decide; naive_solver.
  - destruct (isDescendant _ _); naive_solver.
  - done.
Qed.

Lemma lookup_client_Some s id ptr c :
  lookup_client s id = Some (ptr, c) ↔ clients s !! id = Some ptr ∧ store s !! ptr = Some c.
Proof using Type.
  clear stat_file write_err self_uid self_pid.
  unfold lookup_client. destruct (clients s !! id) as [q|]; cbn; [|naive_solver].
  destruct (store s !! q) eqn:Hq; cbn; naive_solver.
Qed.

Lemma lookup_client_store s s' id :
  clients s' !! id = clients s !! id →
  (∀ ptr, clients s !! id = Some ptr → store s' !! ptr = store s !! ptr) →
  lookup_client s' id = lookup_client s id.
Proof using Type.
  unfold lookup_client. intros -> Hs. destruct (clients s !! id) as [q|]; [|done]. cbn.
  by rewrite Hs.
Qed.

(** What becomes of a connection that is handed to the server: it is closed
    and the registry is as before, or it is kept as a channel of a client. *)
Definition refused (s s' : Server) (conn : nat) (eff : list effect) : Prop :=
  (∃ msg, eff = [WriteTo conn msg; CloseConn conn]) ∧
  ∀ id, lookup_client s' id = lookup_client s id.

Definition new_control (s s' : Server) (conn : nat) (creds : PeerCredentials) (newid : result bytes)
    (now : time) (eff : list effect) : Prop :=
  ∃ id ptr, newid = Ok id ∧
    lookup_client s' id = Some (ptr, mkClient id (Some conn) None creds now zero_time 0) ∧
    eff = [WriteTo conn (mkFrame ProtocolVersion MsgOK id); OnClient ptr] ∧
    ∀ j, j ≠ id → lookup_client s' j = lookup_client s j.

Definition new_stream (s s' : Server) (conn : nat) (payload : bytes) (eff : list effect) : Prop :=
  ∃ id ptr c rest,
    drop (1 + TokenSize) payload = byte_of (Z.of_nat (length id)) :: id ++ rest ∧
    lookup_client s id = Some (ptr, c) ∧ Stream c = None ∧
    lookup_client s' id = Some (ptr, set_stream c (Some conn)) ∧
    eff = [WriteTo conn (mkFrame ProtocolVersion MsgOK [])] ∧
    ∀ j, j ≠ id → lookup_client s' j = lookup_client s j.

Lemma registerControl_spec s conn creds newid now :
  server_inv s → (∀ id, newid = Ok id → clients s !! id = None) →
  let '(eff, s') := registerControl s conn creds newid now in
  server_inv s' ∧ (refused s s' conn eff ∨ new_control s s' conn creds newid now eff).
Proof.
  intros Hi Hfresh. unfold registerControl. destruct newid as [id|e].
  2: { split; [done|]. left. split; [by eexists|done]. }
  specialize (Hfresh id eq_refl). unfold write_ok.
  set (c := mkClient id (Some conn) None creds now zero_time 0).
  assert (Hst : ∀ j q, clients s !! j = Some q → <[next s := c]> (store s) !! q = store s !! q).
  { intros j q Hq. rewrite lookup_insert_ne; [done|]. destruct (Hi _ _ Hq). lia. }
  case_bool_decide.
  - split.
    + intros j q Hjq. cbn in Hjq. apply lookup_insert_Some in Hjq as [[<- <-]|[Hne Hq]]; cbn.
      * split; [lia|]. exists c. by rewrite lookup_insert_eq.
      * rewrite (Hst _ _ Hq). destruct (Hi _ _ Hq) as [Hlt ?]. split; [lia|done].
    + right. exists id, (next s). split_and!; [done| | |].
      * apply lookup_client_Some. cbn. by rewrite !lookup_insert_eq.
      * cbn. by rewrite Nat.sub_0_r.
      * intros j Hj. apply lookup_client_store; cbn; [by rewrite lookup_insert_ne|]. apply Hst.
  - cbn [with_clients clients]. split.
    + intros j q Hq. cbn in Hq. rewrite delete_insert_id in Hq by done. cbn.
      rewrite (Hst _ _ Hq). destruct (Hi _ _ Hq) as [Hlt ?]. split; [lia|done].
    + left. split; [by eexists|]. intros j. apply lookup_client_store; cbn; [|apply Hst].
      by rewrite delete_insert_id.
Qed.

Lemma registerStream_spec s conn payload :
  server_inv s →
  let '(eff, s') := registerStream s conn payload in
  server_inv s' ∧ (refused s s' conn eff ∨ new_stream s s' conn payload eff).
Proof.
  intros Hi. unfold registerStream. cbv zeta.
  assert (Href : ∀ e, server_inv s ∧ (refused s s conn (refuse conn e) ∨
    new_stream s s conn payload (refuse conn e)))
    by (intros e; split; [done|]; left; split; [by eexists|done]).
  case_bool_decide as H1; [apply Href|]. case_bool_decide as H2; [apply Href|].
  set (idLen := Z.to_nat (byte_val (payload !!! (1 + TokenSize)%nat))) in *.
  set (cid := take idLen (drop (1 + TokenSize + 1) payload)).
  destruct (ptr ← clients s !! cid; c ← store s !! ptr; Some (ptr, c)) as [[ptr c]|] eqn:El;
    [|apply Href].
  assert (Hl : lookup_client s cid = Some (ptr, c)) by exact El. clear El.
  destruct (Stream c) eqn:Est; [apply Href|].
  pose proof Hl as [Hcl Hst]%lookup_client_Some.
  destruct (Hi _ _ Hcl) as (Hlt & c0 & Hc0 & Hid). assert (c0 = c) as -> by congruence.
  assert (Hother : ∀ x j, j ≠ cid → lookup_client (with_client s ptr x) j = lookup_client s j).
  { intros x j Hj. apply lookup_client_store; [done|]. cbn. intros q Hq.
    rewrite lookup_insert_ne; [done|]. intros <-. apply Hj.
    destruct (Hi _ _ Hq) as (_ & c1 & Hc1 & Hid1). congruence. }
  assert (Hinv : ∀ x, ID x = ID c → server_inv (with_client s ptr x)).
  { intros x Hx j q Hq. cbn in *. destruct (Hi _ _ Hq) as (Hq1 & c1 & Hc1 & Hid1). split; [done|].
    destruct (decide (q = ptr)) as [->|].
    - exists x. rewrite lookup_insert_eq. split; [done|]. congruence.
    - exists c1. by rewrite lookup_insert_ne. }
  destruct (write_ok conn _).
  - split; [by apply Hinv|]. right. exists cid, ptr, c, (drop idLen (drop (1 + TokenSize + 1) payload)).
    split_and!; try done.
    + unfold cid. rewrite take_drop. rewrite length_take, length_drop, Nat.min_l by lia.
      unfold idLen. rewrite Z2Nat.id by (pose proof (byte_val_range (payload !!! (1 + TokenSize)%nat)); lia).
      rewrite byte_of_val. replace (S TokenSize + 1)%nat with (S (S TokenSize)) by lia. apply drop_S.
      apply list_lookup_lookup_total_lt. lia.
    + apply lookup_client_Some. cbn. split; [done|]. apply lookup_insert_eq.
    + intros j Hj. by apply Hother.
  - unfold with_client. cbn [token clients store next mode closed].
    rewrite insert_insert_eq.
    split; [by apply (Hinv (set_stream c None))|]. left. split; [by eexists|].
    intros j. destruct (decide (j = cid)) as [->|Hj]; [|by apply (Hother (set_stream c None))].
    rewrite Hl. apply lookup_client_Some. cbn. split; [done|]. rewrite lookup_insert_eq.
    f_equal. destruct c. cbn in *. by subst.
Qed.

(** A payload that is long enough is a channel, the token and a rest. *)
Lemma auth_payload payload tok :
  (1 + TokenSize <= length payload)%nat →
  Verify tok (take TokenSize (drop 1 payload)) = true ↔
    (∃ channel rest, payload = channel :: tok ++ rest ∧ length tok = TokenSize).
Proof.
  intros Hl. rewrite Verify_spec. split.
  - intros [-> Ht]. destruct payload as [|c p]; [cbn in Hl; lia|].
    change (drop 1 (c :: p)) with p in *. exists c, (drop TokenSize p). by rewrite take_drop.
  - intros (c & rest & -> & Ht). change (drop 1 (c :: tok ++ rest)) with (tok ++ rest).
    rewrite <- Ht. by rewrite take_app_length.
Qed.

(** The ways in which a handshake can end. *)
Lemma handleConn_spec s conn h :
  server_inv s → (∀ id, hs_newid h = Ok id → clients s !! id = None) →
  let '(eff, s') := handleConn s conn h in
  server_inv s' ∧
  ((eff = [CloseConn conn] ∧ s' = s) ∨ refused s s' conn eff ∨
   ∃ creds payload, authorized s h creds payload ∧
     (head payload = Some ChannelControl ∧
        new_control s s' conn creds (hs_newid h) (hs_now h) eff ∨
      head payload = Some ChannelStream ∧ new_stream s s' conn payload eff)).
Proof.
  intros Hi Hfresh. unfold handleConn.
  assert (Href : ∀ e, server_inv s ∧ ((refuse conn e = [CloseConn conn] ∧ s = s) ∨
    refused s s conn (refuse conn e) ∨
    ∃ creds payload, authorized s h creds payload ∧
     (head payload = Some ChannelControl ∧
        new_control s s conn creds (hs_newid h) (hs_now h) (refuse conn e) ∨
      head payload = Some ChannelStream ∧ new_stream s s conn payload (refuse conn e))))
    by (intros e; split; [done|]; right; left; split; [by eexists|done]).
  destruct (hs_deadline h); [|split; [done|by left]]. cbn [negb].
  destruct (hs_creds h) as [creds|] eqn:Hc; [|apply Href].
  destruct (hs_frame h) as [frame|] eqn:Hf; [|apply Href].
  case_bool_decide as Ht; [apply Href|]. case_bool_decide as Hl; [apply Href|].
  destruct (Verify _ _) eqn:Hv; [|apply Href]. cbn [negb].
  destruct (checkAutomationMode (mode s) creds) eqn:Hm; [apply Href|].
  destruct (hs_cleared h); [|split; [done|by left]]. cbn [negb].
  assert (Ha : authorized s h creds (Payload frame)).
  { split_and!; [done| | |by apply checkAutomationMode_None].
    - by exists frame.
    - apply auth_payload; [lia|done]. }
  assert (Hh : ∀ c, Payload frame !!! 0%nat = c → head (Payload frame) = Some c).
  { intros c Hc0. destruct (Payload frame); [cbn in Hl; lia|]. cbn in *. by subst. }
  case_decide as Hcc.
  - pose proof (registerControl_spec s conn creds (hs_newid h) (hs_now h) Hi Hfresh) as Hr.
    destruct (registerControl _ _ _ _ _) as [eff s']. destruct Hr as [Hi' [Hr|Hr]].
    + split; [done|]. right. by left.
    + split; [done|]. right. right. exists creds, (Payload frame). auto.
  - case_decide as Hcs; [|apply Href].
    pose proof (registerStream_spec s conn (Payload frame) Hi) as Hr.
    destruct (registerStream _ _ _) as [eff s']. destruct Hr as [Hi' [Hr|Hr]].
    + split; [done|]. right. by left.
    + split; [done|]. right. right. exists creds, (Payload frame). auto.
Qed.

(** ** Theorems *)

(** C33: every connection handed to the server ends in one of two ways. Either
    it is closed, after at most one error frame, and the registry of clients
    is as before. Or the handshake presented the server's token in an
    authentication frame from a process that the automation mode admits, and
    the connection is from then on the control channel of a new client, which
    is told its identifier, or the stream of the registered client it names,
    which had none; and every other client is as before.  (A fresh identifier
    is one that no client has.) *)
Theorem handshake_registers_only_authorized s conn h :
  server_inv s → (∀ id, hs_newid h = Ok id → clients s !! id = None) →
  let '(eff, s') := handleConn s conn h in
  server_inv s' ∧
  ((eff = [CloseConn conn] ∧ s' = s) ∨ refused s s' conn eff ∨
   ∃ creds payload, authorized s h creds payload ∧
     (head payload = Some ChannelControl ∧
        new_control s s' conn creds (hs_newid h) (hs_now h) eff ∨
      head payload = Some ChannelStream ∧ new_stream s s' conn payload eff)).
Proof. apply handleConn_spec. Qed.

(** In the mode that admits children only, a process is admitted exactly
    when this process is one of its first 64 ancestors, every process on the
    way having a positive identifier. *)
Theorem children_mode_admits_descendants creds :
  checkAutomationMode ModeChildren creds = None ↔
    ∃ k, (1 <= k <= 64)%nat ∧ nth_parent k (PID creds) = Some self_pid.
Proof. rewrite checkAutomationMode_None. apply isDescendant_loop_spec. Qed.
End Server.

Section Witnesses.
Definition example_server : Server := mkServer (replicate 32 "k"%byte) ∅ ∅ 0 ModeOpen false.

Definition example_handshake : handshake :=
  mkHandshake true (Ok (mkCreds 0 7))
    (Ok (mkFrame ProtocolVersion MsgAuth (ChannelControl :: replicate 32 "k"%byte)))
    true (Ok #"c1") 5.

Lemma handshake_registers_only_authorized_witness :
  server_inv example_server ∧
  let '(eff, s') := handleConn (λ _, None) (λ _ _, None) 0 1 example_server 3 example_handshake in
  server_inv s' ∧ eff = [WriteTo 3 (mkFrame ProtocolVersion MsgOK #"c1"); OnClient 0].
Proof.
  assert (Hi : server_inv example_server) by (intros id ptr H; cbn in H; by apply lookup_empty_Some in H).
  split; [exact Hi|].
  pose proof (handshake_registers_only_authorized (λ _, None) (λ _ _, None) 0 1
    example_server 3 example_handshake Hi (λ _ _, lookup_empty _)) as H.
  destruct (handleConn _ _ _ _ _ _ _) as [eff s'] eqn:E. split; [apply H|].
  vm_compute in E. by injection E as <- _.
Defined.
End Witnesses.

(** The parent of a process whose name holds spaces and parentheses. *)
Example parse_stat_example : parse_stat #"42 (my) (sh ell) S 7 42 42" = Some 7.
Proof. vm_compute. reflexivity. Qed.
