(* ===== verification/TransportServe.v ===== *)
(** * Serving: [Serve], [generateClientID], [OnClient] of [internal/transport]

    The accept loop, which starts a goroutine for every connection; their
    handshakes end in any order.  Nothing but the handshakes changes the
    registry: no code of the repository calls [RemoveClient], [Kick] or [Close]
    of the server. *)

From S2P Require Import Prelude GoStrings Protocol Transport.

#[local] Open Scope Z_scope.

Definition ErrServerClosed : error := ENew #"transport: server closed".

(** [net.ErrClosed]. *)
Definition net_ErrClosed : error := ENew #"use of closed network connection".

Definition clientIDSize : nat := 16.

(** [random] is what reading that many bytes gives. *)
Definition generateClientID (random : result bytes) : result bytes :=
  match random with
  | Err e => Err (EWrap #"transport: generate client ID" e)
  | Ok buf => Ok (hex_encode buf)
  end.

(** What [Serve] returns when [Accept] fails. *)
Definition accept_error (closed : bool) (e : error) : error :=
  if closed || err_is e net_ErrClosed then ErrServerClosed else EWrap #"transport: accept" e.

Section Serve.

Context (stat_file : Z → option bytes) (write_err : nat → Frame → option error) (self_uid self_pid : Z).

#[local] Abbreviation handleConn := (handleConn stat_file write_err self_uid self_pid) (only parsing).
#[local] Abbreviation authorized := (authorized stat_file self_uid self_pid) (only parsing).

(** [pending] are the connections whose handshake has not ended, [handled]
    those whose handshake has, [drawn] the random bytes of the identifiers, and
    [returned] what [Serve] has returned. *)
Record serving := mkServing {
  server : Server;
  pending : list nat;
  handled : list nat;
  drawn : list bytes;
  returned : option error;
}.

Definition Serve (s : Server) : serving := mkServing s [] [] [] None.

Definition set_closed (s : Server) : Server := mkServer (token s) (clients s) (store s) (next s) (mode s) true.

(** A connection is accepted; a handshake ends, with random bytes that were not
    drawn before; the context is cancelled; [Accept] fails. *)
Inductive serve_step : serving → list effect → serving → Prop :=
  | sv_accept s p h r conn :
      conn ∉ p ++ h → serve_step (mkServing s p h r None) [] (mkServing s (p ++ [conn]) h r None)
  | sv_handshake s p q h r e conn hs buf :
      hs_newid hs = generateClientID buf → (∀ b, buf = Ok b → length b = clientIDSize ∧ b ∉ r) →
      serve_step (mkServing s (p ++ conn :: q) h r e) (fst (handleConn s conn hs))
        (mkServing (snd (handleConn s conn hs)) (p ++ q) (h ++ [conn])
           (match buf with Ok b => b :: r | Err _ => r end) e)
  | sv_cancel s p h r e : serve_step (mkServing s p h r e) [CloseListener] (mkServing (set_closed s) p h r e)
  | sv_fails s p h r err :
      serve_step (mkServing s p h r None) [] (mkServing s p h r (Some (accept_error (closed s) err))).

Inductive serve_run : serving → serving → Prop :=
  | run_refl v : serve_run v v
  | run_step v1 e v2 v3 : serve_run v1 v2 → serve_step v2 e v3 → serve_run v1 v3.
(** ** Lemmas *)

(** The connections of a client. *)
Definition channels (c : Client) : list nat := option_list (Control c) ++ option_list (Stream c).

Lemma handleConn_config s conn hs :
  token (snd (handleConn s conn hs)) = token s ∧ mode (snd (handleConn s conn hs)) = mode s.
Proof.
  unfold Transport.handleConn, registerControl, registerStream. cbv zeta. repeat case_match; by split.
Qed.

(** What becomes of the registry. *)
Inductive registered (s : Server) (conn : nat) (hs : handshake) (s' : Server) : Prop :=
  | rg_same : (∀ id, lookup_client s' id = lookup_client s id) → registered s conn hs s'
  | rg_control id ptr creds payload :
      hs_newid hs = Ok id → authorized s hs creds payload → head payload = Some ChannelControl →
      lookup_client s' id = Some (ptr, mkClient id (Some conn) None creds (hs_now hs) zero_time 0) →
      (∀ j, j ≠ id → lookup_client s' j = lookup_client s j) → registered s conn hs s'
  | rg_stream id ptr c :
      lookup_client s id = Some (ptr, c) → Stream c = None →
      lookup_client s' id = Some (ptr, set_stream c (Some conn)) →
      (∀ j, j ≠ id → lookup_client s' j = lookup_client s j) → registered s conn hs s'.

Lemma handleConn_registered s conn hs :
  server_inv s → (∀ id, hs_newid hs = Ok id → clients s !! id = None) →
  server_inv (snd (handleConn s conn hs)) ∧ registered s conn hs (snd (handleConn s conn hs)).
Proof.
  intros Hi Hf. pose proof (handleConn_spec stat_file write_err self_uid self_pid s conn hs Hi Hf) as Hs.
  destruct (handleConn s conn hs) as [eff s']. cbn [snd]. destruct Hs as [Hi' Hs]. split; [done|].
  destruct Hs as [[_ ->]|[[_ Hr]|(creds & payload & Ha & [[Hh (id & ptr & Hid & Hl & _ & Ho)]|[Hh Hst]])]].
  - by apply rg_same.
  - by apply rg_same.
  - by eapply rg_control.
  - destruct Hst as (id & ptr & c & rest & _ & Hl & Hc & Hl' & _ & Ho). by eapply rg_stream.
Qed.

Record serve_inv (tok : bytes) (m : AutomationMode) (v : serving) : Prop := mkServeInv {
  si_registry : server_inv (server v);
  si_config : token (server v) = tok ∧ mode (server v) = m;
  si_conns : NoDup (pending v ++ handled v);
  si_client : ∀ id ptr c, lookup_client (server v) id = Some (ptr, c) →
    (∃ b, b ∈ drawn v ∧ length b = clientIDSize ∧ id = hex_encode b) ∧
    (∃ conn hs payload, Control c = Some conn ∧ authorized (NewServer tok m) hs (Creds c) payload ∧
       head payload = Some ChannelControl) ∧
    NoDup (channels c) ∧ ∀ conn, conn ∈ channels c → conn ∈ handled v;
  si_own : ∀ id ptr c id' ptr' c' conn,
    lookup_client (server v) id = Some (ptr, c) → lookup_client (server v) id' = Some (ptr', c') →
    conn ∈ channels c → conn ∈ channels c' → id' = id;
}.

Lemma serve_start tok m : serve_inv tok m (Serve (NewServer tok m)).
Proof.
  assert (Hn : ∀ id, lookup_client (NewServer tok m) id = None) by (intros id; unfold lookup_client; cbn; by rewrite lookup_empty).
  split; cbn; try done; try (intros id ptr c Hl; by rewrite Hn in Hl); try (intros ? ? ? ? ? ? ? Hl; by rewrite Hn in Hl).
  - constructor.
Qed.

(** A new identifier is one that no client has. *)
Lemma fresh_id tok m v hs buf id :
  serve_inv tok m v → hs_newid hs = generateClientID buf → (∀ b, buf = Ok b → length b = clientIDSize ∧ b ∉ drawn v) →
  hs_newid hs = Ok id → clients (server v) !! id = None.
Proof.
  intros Hi Hn Hf Hid. rewrite Hid in Hn. destruct buf as [b|]; [|done]. injection Hn as ->.
  destruct (clients (server v) !! hex_encode b) as [ptr|] eqn:Hc; [|done]. exfalso.
  destruct (si_registry _ _ _ Hi _ _ Hc) as (_ & c & Hst & _).
  destruct (si_client _ _ _ Hi (hex_encode b) ptr c) as [(b' & Hb' & _ & Heq) _]; [by apply lookup_client_Some|].
  apply (inj hex_encode) in Heq as ->. by destruct (Hf b' eq_refl).
Qed.
Lemma authorized_config s tok m hs creds payload :
  token s = tok → mode s = m → authorized s hs creds payload → authorized (NewServer tok m) hs creds payload.
Proof. intros <- <-. done. Qed.

Lemma channels_stream c conn : Stream c = None → channels (set_stream c (Some conn)) = channels c ++ [conn].
Proof. intros Hs. unfold channels. rewrite Hs. cbn. by rewrite app_nil_r. Qed.

(** The clients after a handshake: the connection is nobody else's. *)
Lemma handshake_clients tok m s p h r e conn hs buf s' :
  serve_inv tok m (mkServing s p h r e) →
  hs_newid hs = generateClientID buf → (∀ b, buf = Ok b → length b = clientIDSize ∧ b ∉ r) →
  registered s conn hs s' → ∀ id ptr c, lookup_client s' id = Some (ptr, c) →
  (lookup_client s id = Some (ptr, c)) ∨
  (channels c = [conn] ∧ lookup_client s id = None ∧
     (∃ b, buf = Ok b ∧ length b = clientIDSize ∧ id = hex_encode b) ∧
     ∃ payload, Control c = Some conn ∧ authorized s hs (Creds c) payload ∧ head payload = Some ChannelControl) ∨
  (∃ c0, lookup_client s id = Some (ptr, c0) ∧ channels c = channels c0 ++ [conn] ∧ Control c = Control c0 ∧ Creds c = Creds c0).
Proof.
  intros Hi Hn Hf Hr id ptr c Hl.
  destruct Hr as [Hs|id0 ptr0 creds payload Hid Ha Hh Hl0 Ho|id0 ptr0 c0 Hl0 Hst Hl1 Ho].
  - left. by rewrite <- Hs.
  - destruct (decide (id = id0)) as [->|Hne]; [|left; by rewrite <- Ho]. right. left.
    assert (Hnone : clients s !! id0 = None) by (by eapply (fresh_id _ _ _ hs buf id0 Hi)).
    rewrite Hl0 in Hl. injection Hl as <- <-. split_and!; [done| | |by exists payload].
    + unfold lookup_client. by rewrite Hnone.
    + rewrite Hid in Hn. destruct buf as [b|]; [|done]. injection Hn as ->. exists b. destruct (Hf b eq_refl). done.
  - destruct (decide (id = id0)) as [->|Hne]; [|left; by rewrite <- Ho]. right. right.
    rewrite Hl1 in Hl. injection Hl as <- <-. exists c0. split_and!; [done|by apply channels_stream|done|done].
Qed.
(** Only one client is touched. *)
Lemma registered_one s conn hs s' :
  registered s conn hs s' → ∃ id0, ∀ id, id ≠ id0 → lookup_client s' id = lookup_client s id.
Proof. intros [Hs|id ? ? ? _ _ _ _ Ho|id ? ? _ _ _ Ho]; [by exists []|by exists id..]. Qed.

(** The clients after a handshake, when no client has its connection before:
    what a connection is a channel of, it was before, but for the new one. *)
Lemma handshake_own tok m s p h r e conn hs buf s' :
  serve_inv tok m (mkServing s p h r e) →
  hs_newid hs = generateClientID buf → (∀ b, buf = Ok b → length b = clientIDSize ∧ b ∉ r) →
  registered s conn hs s' → (∀ id ptr c, lookup_client s id = Some (ptr, c) → conn ∉ channels c) →
  ∀ id ptr c id' ptr' c' x, lookup_client s' id = Some (ptr, c) → lookup_client s' id' = Some (ptr', c') →
    x ∈ channels c → x ∈ channels c' → id' = id.
Proof.
  intros Hi Hn Hf Hr Hnew. destruct (registered_one _ _ _ _ Hr) as [id0 Hone].
  pose proof (handshake_clients tok m s _ h r e conn hs buf s' Hi Hn Hf Hr) as Hc.
  assert (Hx : ∀ id ptr c x, lookup_client s' id = Some (ptr, c) → x ∈ channels c →
    (x = conn ∧ id = id0) ∨ ∃ c0, lookup_client s id = Some (ptr, c0) ∧ x ∈ channels c0 ∧ x ≠ conn).
  { intros id ptr c x Hl Hin. destruct (decide (x = conn)) as [->|Hne].
    - left. split; [done|]. destruct (decide (id = id0)) as [|Hid]; [done|]. rewrite Hone in Hl by done. by destruct (Hnew _ _ _ Hl).
    - right. destruct (Hc id ptr c Hl) as [Hs|[(Hch & _)|(c0 & Hs & Hch & _)]].
      + by exists c.
      + rewrite Hch in Hin. by apply list_elem_of_singleton in Hin.
      + exists c0. rewrite Hch in Hin. apply elem_of_app in Hin as [?|?%list_elem_of_singleton]; done. }
  intros id ptr c id' ptr' c' x Hl Hl' Hin Hin'.
  destruct (Hx _ _ _ _ Hl Hin) as [[-> ->]|(c0 & Hs & Hi0 & Hne)], (Hx _ _ _ _ Hl' Hin') as [[? ->]|(c0' & Hs' & Hi0' & Hne')];
    try done. by eapply (si_own _ _ _ Hi).
Qed.

Lemma handshake_inv tok m s p q h r e conn hs buf :
  serve_inv tok m (mkServing s (p ++ conn :: q) h r e) →
  hs_newid hs = generateClientID buf → (∀ b, buf = Ok b → length b = clientIDSize ∧ b ∉ r) →
  serve_inv tok m (mkServing (snd (handleConn s conn hs)) (p ++ q) (h ++ [conn])
    (match buf with Ok b => b :: r | Err _ => r end) e).
Proof.
  intros Hi Hn Hf. destruct (handleConn_registered s conn hs) as [Hreg Hr];
    [apply Hi|intros id; by eapply (fresh_id _ _ _ hs buf id Hi)|].
  destruct (handleConn_config s conn hs) as [Htok Hmode]. destruct (si_config _ _ _ Hi) as [Ht Hm]. cbn [server] in *.
  set (s' := snd (handleConn s conn hs)) in *. clearbody s'.
  pose proof (handshake_clients tok m s _ h r e conn hs buf s' Hi Hn Hf Hr) as Hc.
  pose proof (si_client _ _ _ Hi) as Hold. pose proof (si_conns _ _ _ Hi) as Hnd. cbn [server pending handled drawn] in *.
  assert (Hperm : (p ++ q) ++ h ++ [conn] ≡ₚ (p ++ conn :: q) ++ h) by solve_Permutation.
  assert (Hnh : conn ∉ h).
  { rewrite <- Hperm, app_assoc in Hnd. apply NoDup_app in Hnd as (_ & Hd & _). intros Hin.
    apply (Hd conn); [apply elem_of_app; by right|by apply list_elem_of_singleton]. }
  assert (Hnew : ∀ id ptr c, lookup_client s id = Some (ptr, c) → conn ∉ channels c)
    by (intros id ptr c Hl Hin; by apply Hnh, (Hold id ptr c Hl)).
  split; cbn [server pending handled drawn]; [done|split; congruence|by rewrite Hperm| |].
  - intros id ptr c Hl. destruct (Hc id ptr c Hl) as [Hs|[(Hch & _ & (b & -> & Hb & Hid) & payload & Hctl & Ha & Hh)|
      (c0 & Hs & Hch & Hctl & Hcr)]].
    + destruct (Hold id ptr c Hs) as ((b & Hb & Hlen & Hid) & Hctl & Hdup & Hin). split_and!; [|done|done|].
      * exists b. split; [by destruct buf; [right|]|done].
      * intros x Hx. apply elem_of_app. left. by apply Hin.
    + split_and!.
      * exists b. by split_and!; [left|..].
      * exists conn, hs, payload. split_and!; [done| |done]. by eapply authorized_config.
      * rewrite Hch. apply NoDup_singleton.
      * rewrite Hch. intros x Hx. apply elem_of_app. by right.
    + destruct (Hold id ptr c0 Hs) as ((b & Hb & Hlen & Hid) & (conn0 & hs0 & payload & Hc0 & Ha & Hh) & Hdup & Hin). split_and!.
      * exists b. split; [by destruct buf; [right|]|done].
      * exists conn0, hs0, payload. by rewrite Hctl, Hcr.
      * rewrite Hch. apply NoDup_app. split_and!; [done| |apply NoDup_singleton].
        intros x Hx ->%list_elem_of_singleton. by eapply Hnew.
      * rewrite Hch. intros x [Hx|Hx]%elem_of_app; apply elem_of_app; [left; by apply Hin|by right].
  - by eapply (handshake_own tok m s).
Qed.
Lemma serve_step_inv tok m v e v' : serve_inv tok m v → serve_step v e v' → serve_inv tok m v'.
Proof.
  intros Hi Hs. destruct Hs as [s p h r conn Hc|s p q h r e conn hs buf Hn Hf|s p h r e|s p h r err].
  - split; try apply Hi. cbn. rewrite <- app_assoc. pose proof (si_conns _ _ _ Hi) as Hnd. cbn in Hnd.
    rewrite (Permutation_app_comm [conn] h), app_assoc. apply NoDup_app. split_and!; [done| |apply NoDup_singleton].
    intros x Hx ->%list_elem_of_singleton. done.
  - by apply handshake_inv.
  - split; apply Hi.
  - split; apply Hi.
Qed.

Lemma serve_run_inv tok m v v' : serve_inv tok m v → serve_run v v' → serve_inv tok m v'.
Proof. intros Hi Hr. induction Hr as [|v1 e v2 v3 _ IH Hs]; [done|]. eapply serve_step_inv; [by apply IH|exact Hs]. Qed.

(** A client that is registered stays so, with its connections. *)
Definition keeps (v v' : serving) : Prop :=
  ∀ id ptr c, lookup_client (server v) id = Some (ptr, c) →
    ∃ c', lookup_client (server v') id = Some (ptr, c') ∧ channels c `prefix_of` channels c'.

Lemma serve_step_keeps tok m v e v' : serve_inv tok m v → serve_step v e v' → keeps v v'.
Proof.
  intros Hi Hs id ptr c Hl. destruct Hs as [s p h r conn Hc|s p q h r e conn hs buf Hn Hf|s p h r e|s p h r err];
    try by exists c.
  destruct (handleConn_registered s conn hs) as [_ Hr]; [apply Hi|intros id'; by eapply (fresh_id _ _ _ hs buf id' Hi)|].
  cbn [server] in *. destruct Hr as [Hs|id0 ptr0 creds payload Hid Ha Hh Hl0 Ho|id0 ptr0 c0 Hl0 Hst Hl1 Ho].
  - exists c. by rewrite Hs.
  - assert (id ≠ id0) as Hne.
    { intros ->. apply lookup_client_Some in Hl as [Hl _].
      pose proof (fresh_id _ _ _ hs buf id0 Hi Hn Hf Hid) as Hnone. cbn in Hnone. congruence. }
    exists c. by rewrite Ho.
  - destruct (decide (id = id0)) as [->|Hne]; [|exists c; by rewrite Ho].
    rewrite Hl0 in Hl. injection Hl as -> ->. eexists. split; [exact Hl1|]. rewrite channels_stream by done. by eexists.
Qed.

(** ** Theorems *)

End Serve.

(** ** Witness *)

Section Witness.

Definition example_bytes : bytes := replicate 16 "a"%byte.

Definition serve_handshake : handshake :=
  mkHandshake true (Ok (mkCreds 0 7))
    (Ok (mkFrame ProtocolVersion MsgAuth (ChannelControl :: replicate 32 "k"%byte)))
    true (generateClientID (Ok example_bytes)) 5.

#[local] Abbreviation step := (serve_step (λ _, None) (λ _ _, None) 0 1) (only parsing).
#[local] Abbreviation run := (serve_run (λ _, None) (λ _ _, None) 0 1) (only parsing).

Definition example_served : serving :=
  mkServing (snd (handleConn (λ _, None) (λ _ _, None) 0 1 (NewServer (replicate 32 "k"%byte) ModeOpen) 3 serve_handshake))
    [] [3%nat] [example_bytes] None.

End Witness.
