(* ===== verification/System.v ===== *)
(** * The edge of the operating system

    Who is at the other end of a socket ([internal/platform/ipc/peercred*.go]),
    the parent of a process on macOS ([internal/transport/ppid_darwin.go]), the
    signals that end a daemon ([internal/daemon/shutdown.go]) and the levels of
    the log ([internal/platform/logger]).  The answers of the system calls are
    parameters. *)

From S2P Require Import Prelude GoStrings Transport.

#[local] Open Scope Z_scope.

(** ** Peer credentials *)

Section Peer.

(** A connection, with the descriptor of a Unix socket. *)
Inductive net_conn := UnixConn (fd : Z) | OtherConn.

Definition ErrNotUnixConn : error := ENew #"ipc: connection is not a Unix domain socket".

Definition toUnixConn (c : net_conn) : result Z :=
  match c with
  | UnixConn fd => Ok fd
  | OtherConn => Err ErrNotUnixConn
  end.

(** The errors of [SyscallConn] and of [Control], which then calls nothing. *)
Context (syscall_conn control : Z → option error).

(** A [Control] that runs a function on the descriptor: its own error first,
    then the function's. *)
Definition controlled {A} (c : net_conn) (f : Z → result A) : result A :=
  match toUnixConn c with
  | Err e => Err e
  | Ok fd =>
      match syscall_conn fd with
      | Some e => Err (EWrap #"ipc: syscall conn" e)
      | None =>
          match control fd with
          | Some e => Err (EWrap #"ipc: control" e)
          | None => f fd
          end
      end
  end.

(** On Linux: [SO_PEERCRED] gives the pid and the uid. *)
Definition ExtractPeerCredentials_linux (ucred : Z → result (Z * Z)) (c : net_conn) : result PeerCredentials :=
  controlled c (λ fd,
    match ucred fd with
    | Err e => Err (EWrap #"ipc: getsockopt SO_PEERCRED" e)
    | Ok (pid, uid) => Ok (mkCreds uid pid)
    end).

(** [int32(x)]. *)
Definition wrap_i32 (x : Z) : Z := (x + 2 ^ 31) mod 2 ^ 32 - 2 ^ 31.

(** On macOS: two options, the second of which is an [int]. *)
Definition ExtractPeerCredentials_darwin (peercred peerpid : Z → result Z) (c : net_conn) : result PeerCredentials :=
  controlled c (λ fd,
    match peercred fd with
    | Err e => Err (EWrap #"ipc: getsockopt LOCAL_PEERCRED" e)
    | Ok uid =>
        match peerpid fd with
        | Err e => Err (EWrap #"ipc: getsockopt LOCAL_PEERPID" e)
        | Ok pid => Ok (mkCreds uid (wrap_i32 pid))
        end
    end).

Lemma wrap_i32_id x : - 2 ^ 31 <= x < 2 ^ 31 → wrap_i32 x = x.
Proof using Type. intros H. unfold wrap_i32. rewrite Z.mod_small by lia. lia. Qed.

Lemma controlled_Ok {A} c (f : Z → result A) a :
  controlled c f = Ok a ↔ ∃ fd, c = UnixConn fd ∧ syscall_conn fd = None ∧ control fd = None ∧ f fd = Ok a.
Proof using Type.
  unfold controlled. destruct c as [fd|]; cbn; [|naive_solver].
  destruct (syscall_conn fd) eqn:H1; [naive_solver|]. destruct (control fd) eqn:H2; naive_solver.
Qed.

(** Both give exactly what the kernel says about a Unix socket, and nothing
    when any of the calls fails. *)
Theorem ExtractPeerCredentials_correct ucred peercred peerpid c creds :
  (ExtractPeerCredentials_linux ucred c = Ok creds ↔
    ∃ fd, c = UnixConn fd ∧ syscall_conn fd = None ∧ control fd = None ∧ ucred fd = Ok (PID creds, UID creds)) ∧
  ((∀ fd pid, peerpid fd = Ok pid → - 2 ^ 31 <= pid < 2 ^ 31) →
   ExtractPeerCredentials_darwin peercred peerpid c = Ok creds ↔
    ∃ fd, c = UnixConn fd ∧ syscall_conn fd = None ∧ control fd = None ∧
      peercred fd = Ok (UID creds) ∧ peerpid fd = Ok (PID creds)).
Proof using Type.
  split.
  - unfold ExtractPeerCredentials_linux. rewrite controlled_Ok. f_equiv. intros fd. do 3 f_equiv.
    destruct (ucred fd) as [[pid uid]|]; destruct creds; naive_solver.
  - intros Hpid. unfold ExtractPeerCredentials_darwin. rewrite controlled_Ok. f_equiv. intros fd. do 3 f_equiv.
    destruct (peercred fd) as [uid|]; [|naive_solver]. destruct (peerpid fd) as [pid|] eqn:Hp; [|naive_solver].
    rewrite wrap_i32_id by (by eapply Hpid). destruct creds; naive_solver.
Qed.
End Peer.

(** ** The parent of a process on macOS *)

Definition kinfoStructSize : Z := 648.

(** [binary.LittleEndian.Uint32]. *)
Definition Uint32_le (b : bytes) : Z :=
  match b with
  | [b0; b1; b2; b3] =>
      Z.lor (byte_val b0) (Z.lor (Z.shiftl (byte_val b1) 8)
        (Z.lor (Z.shiftl (byte_val b2) 16) (Z.shiftl (byte_val b3) 24)))
  | _ => 0
  end.

(** [sysctl] fills the buffer and tells the size; the parent is at its place in
    the structure. *)
Definition platformParentPID_darwin (sysctl : Z → result (bytes * Z)) (pid : Z) : result Z :=
  match sysctl pid with
  | Err e => Err (EWrap #"sysctl KERN_PROC_PID" e)
  | Ok (buf, size) =>
      if bool_decide (size < kinfoStructSize) then Err (ENew #"sysctl KERN_PROC_PID: short read")
      else Ok (wrap_i32 (Uint32_le (take 4 (drop 560 buf))))
  end.

Lemma Uint32_le_reverse v : 0 <= v < 2 ^ 32 → Uint32_le (rev (Protocol.PutUint32 v)) = v.
Proof. intros Hv. transitivity (Protocol.Uint32 (Protocol.PutUint32 v)); [done|by apply Protocol.Uint32_PutUint32]. Qed.

(** A structure with the number of the parent at its place is read as it was
    written, negative numbers included; an answer that is too short is refused. *)
Theorem platformParentPID_reads sysctl pid v before after size :
  - 2 ^ 31 <= v < 2 ^ 31 → length before = 560%nat →
  sysctl pid = Ok (before ++ rev (Protocol.PutUint32 (v mod 2 ^ 32)) ++ after, size) →
  platformParentPID_darwin sysctl pid =
    if bool_decide (size < kinfoStructSize) then Err (ENew #"sysctl KERN_PROC_PID: short read") else Ok v.
Proof.
  intros Hv Hl Hs. unfold platformParentPID_darwin. rewrite Hs. case_bool_decide; [done|].
  rewrite <- Hl, drop_app_length. change 4%nat with (length (rev (Protocol.PutUint32 (v mod 2 ^ 32)))).
  rewrite take_app_length, Uint32_le_reverse by (apply Z.mod_pos_bound; lia). f_equal. unfold wrap_i32.
  rewrite Zplus_mod_idemp_l. rewrite Z.mod_small by lia. lia.
Qed.

(** ** Signals *)

(** The contexts, the channel of one signal, and whether the goroutine of
    [HandleSignals] has ended. *)
Record signals := mkSignals { parent_done : bool; derived_done : bool; sigCh : nat; handler_ended : bool }.

Definition sigCh_cap : nat := 1.

(** [HandleSignals] of a context. *)
Definition HandleSignals (parent : bool) : signals := mkSignals parent parent 0 false.

(** A signal, which is dropped when the channel is full or nobody is notified;
    the end of the parent, which ends the derived context too; the goroutine. *)
Inductive sevent := Signal | ParentDone | Handle.

Definition signal_step (s : signals) (e : sevent) : option signals :=
  match e with
  | Signal =>
      Some (if handler_ended s then s
            else if decide (sigCh s < sigCh_cap)%nat then mkSignals (parent_done s) (derived_done s) (S (sigCh s)) false
            else s)
  | ParentDone => Some (mkSignals true true (sigCh s) (handler_ended s))
  | Handle =>
      if handler_ended s then None
      else if decide (0 < sigCh s)%nat then Some (mkSignals (parent_done s) true (sigCh s - 1) true)
      else if parent_done s then Some (mkSignals true true (sigCh s) true)
      else None
  end.

Fixpoint signal_run (s : signals) (es : list sevent) : option signals :=
  match es with
  | [] => Some s
  | e :: es => s ← signal_step s e; signal_run s es
  end.

(** What the goroutine has been told by. *)
Definition told (parent : bool) (es : list sevent) : Prop := parent = true ∨ Signal ∈ es ∨ ParentDone ∈ es.

Definition signals_inv (parent : bool) (es : list sevent) (s : signals) : Prop :=
  (derived_done s = true → told parent es) ∧ (parent_done s = true → derived_done s = true) ∧
  (handler_ended s = true → derived_done s = true) ∧ (0 < sigCh s → Signal ∈ es)%nat ∧
  (told parent es → handler_ended s = true ∨ (0 < sigCh s)%nat ∨ parent_done s = true).

Lemma told_snoc parent es e : told parent (es ++ [e]) ↔ told parent es ∨ e = Signal ∨ e = ParentDone.
Proof. unfold told. set_solver. Qed.

Lemma signal_step_inv parent es s e s' :
  signals_inv parent es s → signal_step s e = Some s' → signals_inv parent (es ++ [e]) s'.
Proof.
  destruct s as [p d n h]. unfold signals_inv. rewrite told_snoc, elem_of_app, list_elem_of_singleton.
  cbn. intros (H1 & H2 & H3 & H4 & H5) Hs. assert (HT : Signal ∈ es → told parent es) by (unfold told; tauto).
  generalize dependent (told parent es). intros T H1 H5 HT.
  destruct e; cbn in Hs; unfold sigCh_cap in Hs; repeat case_decide;
    (destruct h; [try done|]); (destruct p; try done); simplify_eq; cbn; intuition (done || lia).
Qed.

Lemma signal_run_inv parent es2 : ∀ es1 s s',
  signals_inv parent es1 s → signal_run s es2 = Some s' → signals_inv parent (es1 ++ es2) s'.
Proof.
  induction es2 as [|e es IH]; intros es1 s s' Hi Hr; [rewrite app_nil_r; by injection Hr as <-|].
  cbn in Hr. apply bind_Some in Hr as (s1 & Hs & Hr). change (e :: es) with ([e] ++ es). rewrite app_assoc.
  eapply IH; [|exact Hr]. by eapply signal_step_inv.
Qed.

(** The context that a daemon serves under is never done before a signal came or
    its parent was done; and once one of them happened it is done, or the
    goroutine can run, and when it has run it is. *)
Theorem signals_end_the_context parent es s :
  signal_run (HandleSignals parent) es = Some s →
  (derived_done s = true → told parent es) ∧
  (told parent es → derived_done s = true ∨ ∃ s', signal_step s Handle = Some s' ∧ derived_done s' = true).
Proof.
  intros Hr. eapply (signal_run_inv parent es []) in Hr as (H1 & H2 & H3 & _ & H5).
  - split; [done|]. intros [Hh|Hh]%H5; [left; by apply H3|]. destruct (handler_ended s) eqn:He; [left; by apply H3|].
    destruct Hh as [Hh|Hh]; [right|left; by apply H2]. cbn. rewrite He, decide_True by done. by eexists.
  - unfold signals_inv, told. cbn. split_and!; try done; [by left|lia|]. intros [->|[?|?]]; set_solver.
Qed.

(** ** Log levels *)

Module Logger.

Inductive Level := LevelDebug | LevelInfo | LevelWarn | LevelError.

(** The numbers of [log/slog]. *)
Definition level_number (l : Level) : Z :=
  match l with LevelDebug => -4 | LevelInfo => 0 | LevelWarn => 4 | LevelError => 8 end.

Definition lower (b : byte) : byte :=
  if decide (65 <= Z.of_N (Byte.to_N b) <= 90) then default b (Byte.of_N (Byte.to_N b + 32)) else b.

(** The first letter of [strings.ToLower s] when it is an ASCII one, and the rest
    of [s]: besides the ASCII capitals there are two other letters that are
    lowered to ASCII ones, the dotted I and the Kelvin sign. *)
Definition next_lower (s : bytes) : option (byte * bytes) :=
  match s with
  | [] => None
  | b :: s' =>
      if has_prefix s [xc4; xb0] then Some ("i"%byte, drop 2 s)
      else if has_prefix s [xe2; x84; xaa] then Some ("k"%byte, drop 3 s)
      else Some (lower b, s')
  end.

(** [strings.ToLower s == w] for a word of lower-case ASCII letters. *)
Fixpoint lowers_to (s w : bytes) : bool :=
  match w with
  | [] => bool_decide (s = [])
  | c :: w' =>
      match next_lower s with
      | Some (b, s') => bool_decide (b = c) && lowers_to s' w'
      | None => false
      end
  end.

Definition ParseLevel (s : bytes) : Level :=
  if lowers_to s #"debug" then LevelDebug
  else if lowers_to s #"info" then LevelInfo
  else if lowers_to s #"warn" || lowers_to s #"warning" then LevelWarn
  else if lowers_to s #"error" then LevelError
  else LevelInfo.

(** What a logger adds to its records, and those that it drops. *)
Record logger := mkLogger { minimum : Z; fields : list (bytes * bytes) }.

Definition New (level : Z) : logger := mkLogger level [].

Definition WithSessionID (l : logger) (sessionID : bytes) : logger :=
  mkLogger (minimum l) (fields l ++ [(#"session_id", sessionID)]).

(** [Logger.Enabled]. *)
Definition enabled (l : logger) (level : Z) : bool := bool_decide (minimum l <= level).

Example dotted_capital : ParseLevel #"WARN" = LevelWarn ∧ ParseLevel (#"WARN" ++ [xc4; xb0] ++ #"NG") = LevelWarn.
Proof. split; reflexivity. Qed.

Lemma lower_high b c : (128 <= Byte.to_N c)%N → lower b = c ↔ b = c.
Proof. intros Hc. split; [|intros ->; by destruct c]. intros <-. by destruct b. Qed.

Lemma lower_idem b : lower (lower b) = lower b.
Proof. by destruct b. Qed.

Lemma lower_prefix p : Forall (λ c, (128 <= Byte.to_N c)%N) p → ∀ s, has_prefix (map lower s) p = has_prefix s p.
Proof.
  induction 1 as [|c p Hc Hp IH]; intros [|b s]; try done. cbn. rewrite IH. f_equal.
  apply bool_decide_ext. by apply lower_high.
Qed.

Lemma next_lower_lower s :
  next_lower (map lower s) = match next_lower s with Some (b, s') => Some (b, map lower s') | None => None end.
Proof.
  destruct s as [|b s]; [done|]. unfold next_lower. change (map lower (b :: s)) with (lower b :: map lower s) at 1.
  rewrite !lower_prefix by (by repeat constructor). repeat case_match; simplify_eq; try done; rewrite ?skipn_map, ?lower_idem; done.
Qed.

Lemma lowers_to_lower w : ∀ s, lowers_to (map lower s) w = lowers_to s w.
Proof.
  induction w as [|c w IH]; intros s; cbn [lowers_to]; [by destruct s|].
  rewrite next_lower_lower. destruct (next_lower s) as [[b s']|]; [|done]. by rewrite IH.
Qed.

(** The level of a name does not depend on its case. *)
Theorem ParseLevel_ignores_case s : ParseLevel (map lower s) = ParseLevel s.
Proof. unfold ParseLevel. by rewrite !lowers_to_lower. Qed.

End Logger.
