(* ===== verification/Tickers.v ===== *)
(** * Goroutines with a ticker: the reaper, the watchdog and the heartbeats

    [Start], [loop] and the function that stops them, of
    [internal/session/reaper.go], [watchdog.go] and [internal/transport/heartbeat.go].
    What they do at a tick is in [Session] and [Transport].  No code of the
    repository starts one. *)

From S2P Require Import Prelude GoStrings Protocol Pipeline.
From S2P Require Session Transport.

(** [halting] callers of the stop function are between looking at [done] and
    closing it; [panicked] is whether [done] was closed twice. *)
Record ticking (A : Type) := mkTicking {
  state : A;
  done_closed : bool;
  returned : bool;
  halting : nat;
  panicked : bool;
}.
Arguments mkTicking {A}.
Arguments state {A}.
Arguments done_closed {A}.
Arguments returned {A}.
Arguments halting {A}.
Arguments panicked {A}.

Inductive tevent :=
  | Tick          (** [loop] takes the ticker's case *)
  | LoopEnds      (** [loop] takes [done]'s case *)
  | StopLooks     (** the [select] of the stop function *)
  | StopCloses    (** [close(done)] of the default case *)
  | StopOnce.     (** the stop function with [sync.Once] *)

#[export] Instance tevent_eq_decision : EqDecision tevent.
Proof. solve_decision. Defined.

Section Ticking.

Context {A : Type} (tick : A → A).

(** [Start] of the three. *)
Definition ticker_Start (a : A) : ticking A := mkTicking a false false 0 false.

(** [None]: the event cannot happen now. *)
Definition ticking_step (t : ticking A) (e : tevent) : option (ticking A) :=
  let '(mkTicking a d r h p) := t in
  match e with
  | Tick => if r then None else Some (mkTicking (tick a) d r h p)
  | LoopEnds => if d && negb r then Some (mkTicking a d true h p) else None
  | StopLooks => Some (mkTicking a d r (if d then h else S h) p)
  | StopCloses =>
      match h with
      | O => None
      | S h => Some (mkTicking a true r h (p || d))
      end
  | StopOnce => Some (mkTicking a true r h p)
  end.

Fixpoint ticking_run (t : ticking A) (es : list tevent) : option (ticking A) :=
  match es with
  | [] => Some t
  | e :: es => t ← ticking_step t e; ticking_run t es
  end.

(** The stop function, run to its end: of the reaper and the watchdog, and of
    the heartbeats. *)
Definition ticker_stop (t : ticking A) : option (ticking A) :=
  t ← ticking_step t StopLooks;
  if decide (halting t = 0) then Some t else ticking_step t StopCloses.

Definition ticker_stop_once (t : ticking A) : option (ticking A) := ticking_step t StopOnce.

(** ** Theorems *)

(** What a run has done is to tick once for every tick among its events. *)
Theorem ticking_state t es t' :
  ticking_run t es = Some t' → state t' = Nat.iter (length (filter (λ e, e = Tick) es)) tick (state t).
Proof.
  revert t. induction es as [|e es IH]; intros t Hr; [by injection Hr as <-|].
  cbn in Hr. apply bind_Some in Hr as (t1 & Hs & Hr). apply IH in Hr. rewrite Hr.
  destruct t as [a d r h p]. rewrite filter_cons.
  destruct e; cbn in Hs; repeat case_match; simplify_eq; try done; cbn [length state Nat.iter nat_rect].
  apply Nat.iter_swap.
Qed.

(** A loop ends only after a stop, and then it has ended: no tick comes later. *)
Theorem ended_loop_does_not_tick t es t' :
  returned t = true → ticking_run t es = Some t' → (Tick ∉ es) ∧ returned t' = true ∧ state t' = state t.
Proof.
  revert t. induction es as [|e es IH]; intros t Hret Hr; [injection Hr as <-; by split; [apply not_elem_of_nil|]|].
  cbn in Hr. apply bind_Some in Hr as (t1 & Hs & Hr). destruct t as [a d r h p]. cbn in Hret. subst r.
  assert (Ht1 : returned t1 = true ∧ state t1 = a ∧ e ≠ Tick)
    by (destruct e; cbn in Hs; repeat case_match; simplify_eq; by rewrite ?andb_false_r in *).
  destruct Ht1 as (Hret1 & Hst & Hne). apply IH in Hr as (Hni & Hret' & Hst'); [|done].
  split; [by apply not_elem_of_cons|]. split; [done|]. cbn. congruence.
Qed.

(** One stop after the other does not panic, however many there are. *)
Theorem stops_in_turn_do_not_panic n a t :
  Nat.iter n (λ t, t ≫= ticker_stop) (Some (ticker_Start a)) = Some t →
  panicked t = false ∧ halting t = 0 ∧ state t = a ∧ done_closed t = bool_decide (0 < n).
Proof.
  revert t. induction n as [|n IH]; intros t Ht; cbn in Ht; [by injection Ht as <-|].
  apply bind_Some in Ht as (t1 & Ht1 & Ht). destruct (IH t1 Ht1) as (Hp & Hh & Hs & Hd).
  destruct t1 as [a1 d r h p]. cbn in Hp, Hh, Hs, Hd. subst p h a1.
  assert (Hn : bool_decide (0 < S n) = true) by (apply bool_decide_eq_true; lia). rewrite Hn.
  unfold ticker_stop in Ht. destruct d; cbn in Ht; by injection Ht as <-.
Qed.

(** Two at once can: both have looked before one closes.  With [sync.Once] that
    cannot happen. *)
Theorem concurrent_stops_panic a :
  (∃ t, ticking_run (ticker_Start a) [StopLooks; StopLooks; StopCloses; StopCloses] = Some t ∧ panicked t = true) ∧
  ∀ es t, StopLooks ∉ es → ticking_run (ticker_Start a) es = Some t → panicked t = false.
Proof.
  split; [by eexists|]. intros es.
  assert (Hg : ∀ t0 t, panicked t0 = false → halting t0 = 0 → StopLooks ∉ es → ticking_run t0 es = Some t → panicked t = false);
    [|intros t; by apply (Hg (ticker_Start a) t)].
  induction es as [|e es IH]; intros t0 t Hp Hh Hni Hr; [by injection Hr as <-|].
  apply not_elem_of_cons in Hni as [Hne Hni]. cbn in Hr. apply bind_Some in Hr as (t1 & Hs & Hr).
  destruct t0 as [a0 d r h p]. cbn in Hp, Hh. subst p h.
  apply (IH t1 t); [..|done|done]; destruct e; cbn in Hs; repeat case_match; by simplify_eq.
Qed.
End Ticking.

(** ** The three goroutines *)

Section Instances.

Context {E : Type} `{ScreenEmulator E}.

(** The clock, and the processes that exist, at each tick. *)
Definition reaper_loop (idleTTL : Z) (pgid : Z → bool) (s : Session.Service (E := E) * time) : Session.Service * time :=
  (snd (Session.reaper_tick (fst s) idleTTL (snd s) pgid), snd s).

Definition watchdog_loop (alive pgid : Z → bool) (s : Session.Service (E := E)) : Session.Service :=
  snd (Session.watchdog_tick s alive pgid).

Context (write_err : nat → Frame → option error).

Definition newHeartbeatManager (maxMissed : Z) : Transport.HeartbeatManager := Transport.mkHeartbeat ∅ maxMissed.

Definition heartbeat_loop (s : Transport.HeartbeatManager * Transport.Server) : Transport.HeartbeatManager * Transport.Server :=
  let '(_, _, h, s) := Transport.tick write_err (fst s) (snd s) in (h, s).

Lemma killing_fold {B} (f : list bytes * list Session.effect * Session.Service (E := E) → B → list bytes * list Session.effect * Session.Service) l :
  (∀ acc x, Session.svc_inv (snd acc) → Session.svc_inv (snd (f acc x))) →
  ∀ acc, Session.svc_inv (snd acc) → Session.svc_inv (snd (foldl f acc l)).
Proof. intros Hf. induction l as [|x l IH]; intros acc Ha; [done|]. by apply IH, Hf. Qed.

(** However long the reaper runs, whatever it finds, the service it leaves is a
    valid one. *)
Theorem reaper_keeps_the_service idleTTL pgid s es t :
  Session.svc_inv (fst s) → ticking_run (reaper_loop idleTTL pgid) (ticker_Start s) es = Some t →
  Session.svc_inv (fst (state t)).
Proof.
  intros Hi Hr. apply ticking_state in Hr. rewrite Hr. clear Hr. cbn [state ticker_Start].
  induction (length _) as [|n IH]; [done|]. change (Nat.iter (S n) ?f s) with (f (Nat.iter n f s)).
  revert IH. generalize (Nat.iter n (reaper_loop idleTTL pgid) s). intros [s1 now] IH.
  unfold reaper_loop. cbn [fst snd] in *. unfold Session.reaper_tick. apply killing_fold; [|done]. intros [[l eff] s0] x Hs. unfold Session.reap_one. repeat case_match; try done.
  cbn [snd] in Hs. apply (Session.Kill_inv _ (Session.ID x) (pgid (Session.Pid x))) in Hs.
  match goal with Hk : Session.Kill _ _ _ = _ |- _ => by rewrite Hk in Hs end.
Qed.
End Instances.
