(* ===== verification/Pty.v ===== *)
(** * Pseudo terminals: [internal/platform/pty]

    What the package makes of the answers of the operating system and of the
    pty library, which are parameters. *)

From S2P Require Import Prelude GoStrings Pipeline.
From S2P Require Session.

#[local] Open Scope Z_scope.

Record SpawnOptions := mkSpawnOptions {
  sp_Command : bytes;
  sp_Args : list bytes;
  sp_Cols : Z;
  sp_Rows : Z;
  sp_Cwd : bytes;
  sp_Env : list bytes;
}.

(** The command and the size that are given to the library; without a directory
    or an environment those of this process are inherited. *)
Record command := mkCommand {
  cm_Path : bytes;
  cm_Args : list bytes;
  cm_Dir : option bytes;
  cm_Env : option (list bytes);
  cm_Setsid : bool;
  cm_Cols : Z;
  cm_Rows : Z;
}.

Definition spawn_command (opts : SpawnOptions) : command :=
  mkCommand (sp_Command opts) (sp_Args opts)
    (if decide (sp_Cwd opts = []) then None else Some (sp_Cwd opts))
    (if decide (sp_Env opts = []) then None else Some (sp_Env opts))
    true
    (wrap_u16 (if bool_decide (sp_Cols opts <= 0) then 80 else sp_Cols opts))
    (wrap_u16 (if bool_decide (sp_Rows opts <= 0) then 24 else sp_Rows opts)).

(** [UnixSpawner.Spawn]; a process is its identifier. *)
Definition UnixSpawner_Spawn (start : command → result Z) (opts : SpawnOptions) : result Z :=
  wrap_err #"pty start" (start (spawn_command opts)).

(** [Read] and [Write]: the count stays with an error. *)
Definition Process_Read (r : Z * option error) : Z * option error := (fst r, EWrap #"pty read" <$> snd r).

Definition Process_Write (r : Z * option error) : Z * option error := (fst r, EWrap #"pty write" <$> snd r).

Definition Process_Resize (setsize : Z → Z → option error) (cols rows : Z) : option error :=
  EWrap #"pty resize" <$> setsize (wrap_u16 cols) (wrap_u16 rows).

Definition Process_Close (e : option error) : option error := EWrap #"pty close" <$> e.

(** ** Ending a process *)

Inductive signal := SIGHUP | SIGKILL.

Definition ESRCH : error := ENew #"no such process".

(** [exits] is whether the process ends within half a second; the signals go to
    its group. *)
Definition Process_Kill (getpgid : result Z) (hangup : option error) (exits : bool) : option error * list (signal * Z) :=
  match getpgid with
  | Err e => (Some (EWrap #"getpgid" e), [])
  | Ok pgid =>
      match hangup with
      | Some e =>
          if err_is e ESRCH then (None, (SIGHUP, pgid) :: if exits then [] else [(SIGKILL, pgid)])
          else (Some (EWrap #"kill SIGHUP" e), [(SIGHUP, pgid)])
      | None => (None, (SIGHUP, pgid) :: if exits then [] else [(SIGKILL, pgid)])
      end
  end.

(** What [cmd.Wait] returns. *)
Inductive waited := WaitedOk | WaitedExit (code : Z) | WaitedErr (e : error).

Definition Process_Wait (w : waited) : Z * option error :=
  match w with
  | WaitedOk => (0, None)
  | WaitedExit code => (code, None)
  | WaitedErr e => (-1, Some (EWrap #"process wait" e))
  end.

(** ** Theorems *)

(** The size of a new terminal is the one that was asked for when it is positive
    and fits sixteen bits, and 80 by 24 stand for what is not positive; a
    greater one is cut to its lowest sixteen bits, possibly to nothing. *)
Theorem spawned_size opts :
  0 <= cm_Cols (spawn_command opts) < 65536 ∧ 0 <= cm_Rows (spawn_command opts) < 65536 ∧
  (0 < sp_Cols opts < 65536 → cm_Cols (spawn_command opts) = sp_Cols opts) ∧
  (0 < sp_Rows opts < 65536 → cm_Rows (spawn_command opts) = sp_Rows opts) ∧
  (sp_Cols opts <= 0 → cm_Cols (spawn_command opts) = 80) ∧ (sp_Rows opts <= 0 → cm_Rows (spawn_command opts) = 24) ∧
  (65536 <= sp_Cols opts → cm_Cols (spawn_command opts) ≠ sp_Cols opts).
Proof.
  unfold spawn_command, wrap_u16. cbn [cm_Cols cm_Rows]. change (2 ^ 16) with 65536.
  pose proof (Z.mod_pos_bound (if bool_decide (sp_Cols opts <= 0) then 80 else sp_Cols opts) 65536 ltac:(lia)).
  pose proof (Z.mod_pos_bound (if bool_decide (sp_Rows opts <= 0) then 24 else sp_Rows opts) 65536 ltac:(lia)).
  split_and!; try lia; intros; repeat case_bool_decide; try lia; try (by rewrite Z.mod_small by lia); done.
Qed.

(** A terminal that is resized to a side that does not fit sixteen bits gets
    another size than the session and its emulator, which keep the one that was
    asked for, and nobody is told. *)
Theorem resized_terminal_disagrees {E} `{ScreenEmulator E} (s : Session.Service (E := E)) id ptr ms cols rows setsize :
  Session.lookup s id = Some (ptr, ms) → 65536 <= cols → (∀ c r, setsize c r = None) →
  ∃ eff s' sess, Session.Resize s id cols rows (Process_Resize setsize cols rows) = (None, eff, s') ∧
    eff = [Session.ResizePty (Session.Pid (Session.session ms)) (wrap_u16 cols) (wrap_u16 rows)] ∧
    Session.Get s' id = Ok sess ∧ Session.Cols sess = cols ∧ wrap_u16 cols ≠ Session.Cols sess.
Proof.
  intros Hl Hc Hs. unfold Session.Resize, Process_Resize. rewrite Hl, Hs. cbn [fmap option_fmap option_map].
  eexists _, _, _. split; [reflexivity|]. split; [reflexivity|].
  apply Session.lookup_Some in Hl as [Hp Hm]. unfold Session.Get, Session.lookup. cbn [Session.with_store Session.sessions Session.store].
  rewrite Hp. cbn [mbind option_bind]. rewrite lookup_insert_eq. cbn [mbind option_bind].
  split; [reflexivity|]. split; [reflexivity|]. cbn. unfold wrap_u16. change (2 ^ 16) with 65536.
  pose proof (Z.mod_pos_bound cols 65536 ltac:(lia)). lia.
Qed.

(** A process that has a group is told to hang up, and killed exactly when it
    outlives the grace; an error is returned exactly when there is no group or
    the signal fails for another reason than that the process has gone. *)
Theorem kill_escalates getpgid hangup exits :
  let '(e, signals) := Process_Kill getpgid hangup exits in
  (∀ pgid, getpgid = Ok pgid → head signals = Some (SIGHUP, pgid)) ∧
  (e = None ↔ is_Some (match getpgid with Ok p => Some p | Err _ => None end) ∧
     ∀ x, hangup = Some x → err_is x ESRCH = true) ∧
  (e = None → exits = false ↔ ∃ pgid, (SIGKILL, pgid) ∈ signals).
Proof.
  unfold Process_Kill. destruct getpgid as [pgid|err].
  2: { split_and!; [done| |done]. split; [done|]. by intros [[x ?] _]. }
  destruct hangup as [x|]; [destruct (err_is x ESRCH) eqn:Hx|].
  - split_and!; [by intros ? [= <-]| |].
    + split; [|done]. intros _. split; [by eexists|]. by intros ? [= <-].
    + intros _. destruct exits; split; try done; [|intros _; exists pgid; by right; left].
      intros [q Hq]. by apply list_elem_of_singleton in Hq.
  - split_and!; [by intros ? [= <-]| |done]. split; [done|]. intros [_ Hh]. specialize (Hh x eq_refl). congruence.
  - split_and!; [by intros ? [= <-]| |].
    + split; [|done]. intros _. split; [by eexists|done].
    + intros _. destruct exits; split; try done; [|intros _; exists pgid; by right; left].
      intros [q Hq]. by apply list_elem_of_singleton in Hq.
Qed.
