(* ===== verification/Event.v ===== *)
(** * Lifecycle events: [internal/platform/event]

    The event types and their text form ([entity.go]), and the bus that fans
    events out to subscribers ([service.go]).  A subscription is a buffered
    channel; the bus keeps pointers to subscriptions, which live in a store.
    Operations that panic in Go return [None]. *)

From S2P Require Import Prelude GoStrings.

#[local] Open Scope Z_scope.

(** ** Types ([entity.go]) *)

Inductive Type_ :=
  | SessionCreated | SessionAttached | SessionDetached | SessionExited | SessionIdle
  | SessionKilled | Resize | CwdChanged | Notification | OutputFlood | RecordingLimitReached
  | ShellReady | CommandPromptShown | CommandStarted | CommandFinished
  | OtherType (n : Z).

#[export] Instance Type_eq_decision : EqDecision Type_.
Proof. solve_decision. Defined.

Definition Type_String (t : Type_) : bytes :=
  match t with
  | SessionCreated => #"session.created"
  | SessionAttached => #"session.attached"
  | SessionDetached => #"session.detached"
  | SessionExited => #"session.exited"
  | SessionIdle => #"session.idle"
  | SessionKilled => #"session.killed"
  | Resize => #"resize"
  | CwdChanged => #"cwd.changed"
  | Notification => #"notification"
  | OutputFlood => #"output.flood"
  | RecordingLimitReached => #"recording.limit_reached"
  | ShellReady => #"shell.ready"
  | CommandPromptShown => #"command.prompt_shown"
  | CommandStarted => #"command.started"
  | CommandFinished => #"command.finished"
  | OtherType _ => #"unknown"
  end.

Definition typeFromString (s : bytes) : option Type_ :=
  if decide (s = #"session.created") then Some SessionCreated
  else if decide (s = #"session.attached") then Some SessionAttached
  else if decide (s = #"session.detached") then Some SessionDetached
  else if decide (s = #"session.exited") then Some SessionExited
  else if decide (s = #"session.idle") then Some SessionIdle
  else if decide (s = #"session.killed") then Some SessionKilled
  else if decide (s = #"resize") then Some Resize
  else if decide (s = #"cwd.changed") then Some CwdChanged
  else if decide (s = #"notification") then Some Notification
  else if decide (s = #"output.flood") then Some OutputFlood
  else if decide (s = #"recording.limit_reached") then Some RecordingLimitReached
  else if decide (s = #"shell.ready") then Some ShellReady
  else if decide (s = #"command.prompt_shown") then Some CommandPromptShown
  else if decide (s = #"command.started") then Some CommandStarted
  else if decide (s = #"command.finished") then Some CommandFinished
  else None.

Definition MarshalJSON (t : Type_) : bytes := [x22] ++ Type_String t ++ [x22].

(** The message also quotes an unknown name. *)
Definition UnmarshalJSON (data : bytes) : result Type_ :=
  if bool_decide (length data < 2)%nat || negb (bool_decide (head data = Some x22)) ||
     negb (bool_decide (last data = Some x22))
  then Err (ENew #"event: type must be a JSON string")
  else
    match typeFromString (take (length data - 2) (drop 1 data)) with
    | Some t => Ok t
    | None => Err (ENew #"event: unknown type")
    end.

(** The values that the daemon puts into payloads. *)
Inductive any := AInt (z : Z) | AStr (s : bytes) | ATime (t : time) | ABool (b : bool).

#[export] Instance any_eq_decision : EqDecision any.
Proof. solve_decision. Defined.

(** A payload lists its keys in the order the code writes them. *)
Record Event := mkEvent { Type__ : Type_; SessionID : bytes; Payload : list (bytes * any) }.

#[export] Instance Event_eq_decision : EqDecision Event.
Proof. solve_decision. Defined.

(** ** The bus ([service.go]) *)

Definition subscriberBufferSize : nat := 256.

Record Subscription := mkSub {
  ch : list Event;            (** what the channel holds *)
  ch_closed : bool;
  filter_ : option (list Type_);  (** [None]: every event *)
  once : bool;                (** [once.Do] has run *)
}.

Record Bus := mkBus {
  subs : list nat;
  store : gmap nat Subscription;
  next : nat;
  closed : bool;
}.

Definition NewBus : Bus := mkBus [] ∅ 0 false.

Definition with_sub (b : Bus) (p : nat) (s : Subscription) : Bus :=
  mkBus (subs b) (<[p := s]> (store b)) (next b) (closed b).

(** On a closed bus the new channel is closed at once, not through [once]. *)
Definition subscribe (b : Bus) (f : option (list Type_)) : nat * Bus :=
  let p := next b in
  if closed b then
    (p, mkBus (subs b) (<[p := mkSub [] true f false]> (store b)) (S p) true)
  else
    (p, mkBus (subs b ++ [p]) (<[p := mkSub [] false f false]> (store b)) (S p) false).

Definition Subscribe (b : Bus) : nat * Bus := subscribe b None.

Definition SubscribeTypes (b : Bus) (types : list Type_) : nat * Bus := subscribe b (Some types).

(** [close(s.ch)]: closing a closed channel panics. *)
Definition close_ch (s : Subscription) : option Subscription :=
  if ch_closed s then None else Some (mkSub (ch s) true (filter_ s) (once s)).

(** The first occurrence of the pointer is removed. *)
Definition removeSub (b : Bus) (p : nat) : Bus :=
  match list_find (λ q, q = p) (subs b) with
  | Some (i, _) => mkBus (take i (subs b) ++ drop (S i) (subs b)) (store b) (next b) (closed b)
  | None => b
  end.

Definition Unsubscribe (b : Bus) (p : nat) : option Bus :=
  match store b !! p with
  | None => Some b
  | Some s =>
      if once s then Some b
      else
        let b := removeSub b p in
        s ← close_ch (mkSub (ch s) (ch_closed s) (filter_ s) true);
        Some (with_sub b p s)
  end.

Definition matches (s : Subscription) (e : Event) : bool :=
  match filter_ s with
  | None => true
  | Some ts => bool_decide (Type__ e ∈ ts)
  end.

(** One round of [Publish]: a send to a closed channel panics, a send to a full
    one is dropped. *)
Definition publish_one (e : Event) (b : Bus) (p : nat) : option Bus :=
  match store b !! p with
  | None => Some b
  | Some s =>
      if negb (matches s e) then Some b
      else if ch_closed s then None
      else if bool_decide (length (ch s) < subscriberBufferSize)%nat
      then Some (with_sub b p (mkSub (ch s ++ [e]) false (filter_ s) (once s)))
      else Some b
  end.

Fixpoint publish_all (e : Event) (b : Bus) (ps : list nat) : option Bus :=
  match ps with
  | [] => Some b
  | p :: ps => b ← publish_one e b p; publish_all e b ps
  end.

Definition Publish (b : Bus) (e : Event) : option Bus :=
  if closed b then Some b else publish_all e b (subs b).

(** The subscriber takes the next event from its channel. *)
Definition receive (b : Bus) (p : nat) : option Event * Bus :=
  match store b !! p with
  | Some s =>
      match ch s with
      | e :: es => (Some e, with_sub b p (mkSub es (ch_closed s) (filter_ s) (once s)))
      | [] => (None, b)
      end
  | None => (None, b)
  end.

Fixpoint close_all (b : Bus) (ps : list nat) : option Bus :=
  match ps with
  | [] => Some b
  | p :: ps =>
      match store b !! p with
      | None => close_all b ps
      | Some s =>
          if once s then close_all b ps
          else
            s ← close_ch (mkSub (ch s) (ch_closed s) (filter_ s) true);
            close_all (with_sub b p s) ps
      end
  end.

Definition Close (b : Bus) : option Bus :=
  if closed b then Some b
  else close_all (mkBus [] (store b) (next b) true) (subs b).

(** ** Runs, as one subscriber sees them *)

Inductive action :=
  | APublish (e : Event) | AReceive (p : nat) | AUnsubscribe (p : nat)
  | ASubscribe (f : option (list Type_)) | AClose.

Definition act (b : Bus) (a : action) : option Bus :=
  match a with
  | APublish e => Publish b e
  | AReceive p => Some (snd (receive b p))
  | AUnsubscribe p => Unsubscribe b p
  | ASubscribe f => Some (snd (subscribe b f))
  | AClose => Close b
  end.

(** What was received from the channel of [p], and the events published while
    [p] was subscribed that its filter matches, with the number dropped. *)
Record ghost := mkGhost { received : list Event; sent : list Event; dropped : nat }.

Definition observe (p : nat) (b : Bus) (a : action) (g : ghost) : ghost :=
  match a with
  | APublish e =>
      match store b !! p with
      | Some s =>
          if bool_decide (p ∈ subs b) && negb (closed b) && matches s e then
            mkGhost (received g) (sent g ++ [e])
              (dropped g + if bool_decide (length (ch s) < subscriberBufferSize)%nat then 0 else 1)
          else g
      | None => g
      end
  | AReceive q =>
      if decide (q = p)
      then mkGhost (received g ++ option_list (fst (receive b p))) (sent g) (dropped g)
      else g
  | _ => g
  end.

Fixpoint run (p : nat) (b : Bus) (g : ghost) (l : list action) : option (Bus * ghost) :=
  match l with
  | [] => Some (b, g)
  | a :: l => b' ← act b a; run p b' (observe p b a g) l
  end.

(** No subscription is made once the bus is closed. *)
Fixpoint no_late_subscribe (is_closed : bool) (l : list action) : bool :=
  match l with
  | [] => true
  | ASubscribe _ :: l => negb is_closed && no_late_subscribe is_closed l
  | AClose :: l => no_late_subscribe true l
  | _ :: l => no_late_subscribe is_closed l
  end.

Definition bus_inv (b : Bus) : Prop :=
  NoDup (subs b) ∧
  (∀ p, p ∈ subs b → ∃ s, store b !! p = Some s ∧ ch_closed s = false) ∧
  (∀ p s, store b !! p = Some s → (p < next b)%nat ∧ once s = ch_closed s) ∧
  (closed b = true → subs b = []).

(** The channel of [p] holds what was sent and neither received nor dropped. *)
Definition delivery (p : nat) (b : Bus) (g : ghost) : Prop :=
  ∃ s, store b !! p = Some s ∧ (received g ++ ch s) `sublist_of` sent g ∧
    length (sent g) = (length (received g ++ ch s) + dropped g)%nat.

(** ** Lemmas *)

Lemma with_sub_inv b p s s' :
  bus_inv b → store b !! p = Some s → once s' = ch_closed s' → (p ∈ subs b → ch_closed s' = false) →
  bus_inv (with_sub b p s').
Proof.
  intros (H1 & H2 & H3 & H4) Hs Ho Hc. split_and!; cbn; [done| | |done].
  - intros q Hq. destruct (decide (q = p)) as [->|].
    + exists s'. rewrite lookup_insert_eq. split; [done|by apply Hc].
    + rewrite lookup_insert_ne by done. by apply H2.
  - intros q t [[<- <-]|[Hne Hq]]%lookup_insert_Some; [|by apply H3].
    split; [by eapply H3|done].
Qed.

Lemma with_sub_delivery p q b s s' g :
  delivery p b g → q ≠ p → store b !! q = Some s → delivery p (with_sub b q s') g.
Proof.
  intros (t & Ht & Hd) Hne Hq. exists t. split; [|done]. cbn. by rewrite lookup_insert_ne.
Qed.

Lemma publish_one_spec e b q :
  bus_inv b → q ∈ subs b →
  ∃ b' s, publish_one e b q = Some b' ∧ store b !! q = Some s ∧ bus_inv b' ∧
    subs b' = subs b ∧ closed b' = closed b ∧
    (∀ p, p ≠ q → store b' !! p = store b !! p) ∧
    store b' !! q =
      Some (if matches s e && bool_decide (length (ch s) < subscriberBufferSize)%nat
            then mkSub (ch s ++ [e]) (ch_closed s) (filter_ s) (once s) else s).
Proof.
  intros Hi Hq. pose proof Hi as (_ & H2 & H3 & _). destruct (H2 q Hq) as (s & Hs & Hc).
  unfold publish_one. rewrite Hs. destruct (matches s e) eqn:Hm; cbn [negb].
  2: { exists b, s. by rewrite Hm. }
  rewrite Hc. case_bool_decide as Hfull.
  - eexists _, s. split; [done|]. rewrite Hm, Hc, bool_decide_eq_true_2 by done.
    split_and!; try done.
    + eapply with_sub_inv; [done|done|cbn|done]. by rewrite (proj2 (H3 _ _ Hs)).
    + intros p Hp. cbn. by rewrite lookup_insert_ne.
    + cbn. by rewrite lookup_insert_eq.
  - exists b, s. by rewrite Hm, bool_decide_eq_false_2.
Qed.

Lemma publish_all_spec e l b :
  bus_inv b → NoDup l → (∀ q, q ∈ l → q ∈ subs b) →
  ∃ b', publish_all e b l = Some b' ∧ bus_inv b' ∧ subs b' = subs b ∧ closed b' = closed b ∧
    (∀ p, p ∉ l → store b' !! p = store b !! p) ∧
    (∀ p s, p ∈ l → store b !! p = Some s →
      store b' !! p =
        Some (if matches s e && bool_decide (length (ch s) < subscriberBufferSize)%nat
              then mkSub (ch s ++ [e]) (ch_closed s) (filter_ s) (once s) else s)).
Proof.
  revert b. induction l as [|q l IH]; intros b Hi Hnd Hl.
  { exists b. split_and!; try done. intros p s Hp. by apply elem_of_nil in Hp. }
  apply NoDup_cons in Hnd as [Hq Hnd].
  destruct (publish_one_spec e b q Hi (Hl q ltac:(by left)))
    as (b1 & s & H1 & Hs & Hi1 & Hsub & Hcl & Hoth & Hst).
  destruct (IH b1 Hi1 Hnd) as (b' & H2 & Hi' & Hsub' & Hcl' & Hoth' & Hst').
  { intros p Hp. rewrite Hsub. apply Hl. by right. }
  exists b'. cbn [publish_all]. rewrite H1. cbn. split_and!; try done; try congruence.
  - intros p Hp. rewrite Hoth', Hoth by set_solver. done.
  - intros p t [->|Hp]%elem_of_cons Ht.
    + rewrite Hoth' by done. rewrite Hst. by simplify_eq.
    + apply Hst'; [done|]. rewrite Hoth; [done|]. by intros ->.
Qed.

Lemma removeSub_spec b p :
  bus_inv b →
  bus_inv (removeSub b p) ∧ store (removeSub b p) = store b ∧
  closed (removeSub b p) = closed b ∧ p ∉ subs (removeSub b p).
Proof.
  intros Hi. pose proof Hi as (H1 & H2 & H3 & H4). unfold removeSub.
  destruct (list_find (λ q, q = p) (subs b)) as [[i q]|] eqn:Hf.
  - apply list_find_Some in Hf as (Hl & -> & _). cbn.
    assert (Hsub : ∀ q, q ∈ take i (subs b) ++ drop (S i) (subs b) → q ∈ subs b).
    { intros q. rewrite elem_of_app. intros [Hq|Hq].
      - rewrite <- (take_drop i). apply elem_of_app. by left.
      - rewrite <- (take_drop (S i)). apply elem_of_app. by right. }
    rewrite <- (take_drop_middle _ _ _ Hl) in H1. apply NoDup_app in H1 as (Ht & Hd & Hr).
    apply NoDup_cons in Hr as [Hr1 Hr2].
    split_and!; try done.
    + split_and!; cbn.
      * apply NoDup_app. split_and!; [done| |done]. intros x Hx Hx2. apply (Hd x Hx). by right.
      * intros q Hq. by apply H2, Hsub.
      * done.
      * intros Hc. specialize (H4 Hc). by rewrite H4 in Hl.
    + rewrite elem_of_app. intros [Hx|Hx]; [|done]. apply (Hd p Hx). by left.
  - split_and!; try done. intros Hp. apply list_find_None in Hf.
    rewrite Forall_forall in Hf. by apply (Hf p).
Qed.

Lemma close_all_spec l b :
  bus_inv b → subs b = [] →
  ∃ b', close_all b l = Some b' ∧ bus_inv b' ∧ closed b' = closed b ∧ subs b' = [] ∧
    ∀ p s, store b !! p = Some s → ∃ s', store b' !! p = Some s' ∧ ch s' = ch s.
Proof.
  revert b. induction l as [|q l IH]; intros b Hi Hs; [by eauto 8|].
  cbn [close_all]. destruct (store b !! q) as [s|] eqn:Hq; [|by apply IH].
  destruct (once s) eqn:Ho; [by apply IH|].
  unfold close_ch. cbn [ch_closed ch filter_ once].
  pose proof Hi as (_ & _ & H3 & _). rewrite <- (proj2 (H3 _ _ Hq)), Ho. cbn.
  destruct (IH (with_sub b q (mkSub (ch s) true (filter_ s) true))) as (b' & H1 & H2 & H4 & H5 & H6).
  - eapply with_sub_inv; [done|done|done|]. rewrite Hs. by intros ?%elem_of_nil.
  - done.
  - exists b'. split_and!; try done. intros p t Ht.
    destruct (decide (p = q)) as [->|].
    + destruct (H6 q (mkSub (ch s) true (filter_ s) true)) as (s' & Hs' & Hc);
        [cbn; apply lookup_insert_eq|]. exists s'. by simplify_eq.
    + apply H6. cbn. by rewrite lookup_insert_ne.
Qed.

Lemma subscribe_spec b f :
  bus_inv b → closed b = false →
  bus_inv (snd (subscribe b f)) ∧ closed (snd (subscribe b f)) = false ∧
  store (snd (subscribe b f)) !! next b = Some (mkSub [] false f false) ∧
  ∀ p, p ≠ next b → store (snd (subscribe b f)) !! p = store b !! p.
Proof.
  intros (H1 & H2 & H3 & H4) Hc. unfold subscribe. rewrite Hc. cbn [snd closed store].
  rewrite lookup_insert_eq. split; [|by split_and!; [..|intros; apply lookup_insert_ne]].
  assert (Hlt : ∀ q t, store b !! q = Some t → next b ≠ q)
    by (intros q t Hq; pose proof (proj1 (H3 _ _ Hq)); lia).
  split_and!; cbn; [| | |done].
  - apply NoDup_app. split_and!; [done| |apply NoDup_singleton].
    intros q Hq ->%list_elem_of_singleton. destruct (H2 _ Hq) as (t & Ht & _). by apply Hlt in Ht.
  - intros q [Hq| ->%list_elem_of_singleton]%elem_of_app.
    + destruct (H2 _ Hq) as (t & Ht & Hct). exists t. by rewrite lookup_insert_ne by (by eapply Hlt).
    + eexists. by rewrite lookup_insert_eq.
  - intros q t [[<- <-]|[_ Hq]]%lookup_insert_Some; [split; [lia|done]|].
    destruct (H3 _ _ Hq). split; [lia|done].
Qed.

(** One delivery, seen by the subscriber [p]: the event is queued, dropped or filtered. *)
Lemma Publish_spec p b e g :
  bus_inv b → delivery p b g →
  ∃ b', Publish b e = Some b' ∧ bus_inv b' ∧ delivery p b' (observe p b (APublish e) g) ∧ closed b' = closed b.
Proof.
  intros Hi Hdel. pose proof Hi as (H1 & _). pose proof Hdel as (s & Hs & Hsl & Hlen).
  unfold Publish. cbn [observe]. rewrite Hs. destruct (closed b) eqn:Hc.
  { exists b. rewrite Hc, andb_false_r. done. }
  cbn [negb]. destruct (publish_all_spec e (subs b) b Hi H1 ltac:(done)) as (b' & -> & Hi' & Hsub & Hcl & Ho & Hst).
  exists b'. rewrite Hcl, andb_true_r. split_and!; try done.
  case_bool_decide as Hp; cbn [andb]; [|exists s; by rewrite Ho].
  specialize (Hst p s Hp Hs). destruct (matches s e); cbn [andb] in Hst; [|eexists; by split; [exact Hst|]].
  case_bool_decide as Hfull; (eexists; split; [exact Hst|]); cbn [ch received sent dropped].
  - rewrite app_assoc, !length_app. cbn [length].
    split; [by apply sublist_app|]. rewrite length_app in Hlen. lia.
  - split; [by apply sublist_inserts_r|]. rewrite !length_app in *. cbn [length]. lia.
Qed.

(** A receive takes the first event of its channel. *)
Lemma receive_spec p b q g :
  bus_inv b → delivery p b g →
  bus_inv (snd (receive b q)) ∧ delivery p (snd (receive b q)) (observe p b (AReceive q) g) ∧
  closed (snd (receive b q)) = closed b.
Proof.
  intros Hi Hdel. pose proof Hi as (_ & H2 & H3 & _). pose proof Hdel as (s & Hs & Hsl & Hlen).
  assert (Hopen : ∀ t es, store b !! q = Some t →
    bus_inv (with_sub b q (mkSub es (ch_closed t) (filter_ t) (once t)))).
  { intros t es Hq. eapply with_sub_inv; [done|done|cbn; by eapply H3|]. intros Hp. cbn.
    destruct (H2 q Hp) as (s' & Hs' & Hc'). congruence. }
  unfold receive. cbn [observe]. destruct (decide (q = p)) as [->|Hne].
  - rewrite Hs. unfold receive. rewrite Hs. destruct (ch s) as [|e es] eqn:Hch; cbn [fst snd option_list].
    + split_and!; try done. rewrite app_nil_r. exists s. by rewrite Hch.
    + split_and!; [by apply Hopen|eexists; split; [cbn; apply lookup_insert_eq|]|done].
      cbn [received sent dropped ch]. by rewrite <- !app_assoc.
  - destruct (store b !! q) as [t|] eqn:Hq; [|done]. destruct (ch t) as [|e es]; [done|].
    split_and!; [by apply Hopen|by eapply with_sub_delivery|done].
Qed.

Lemma act_spec p b a g :
  bus_inv b → delivery p b g → (∀ f, a = ASubscribe f → closed b = false) →
  ∃ b', act b a = Some b' ∧ bus_inv b' ∧ delivery p b' (observe p b a g) ∧
    closed b' = (closed b || match a with AClose => true | _ => false end).
Proof.
  intros Hi Hdel Hok. pose proof Hi as (H1 & H2 & H3 & H4).
  pose proof Hdel as (s & Hs & Hsl & Hlen).
  destruct a as [e|q|q|f|]; cbn [act observe].
  - rewrite orb_false_r. by apply Publish_spec.
  - rewrite orb_false_r. destruct (receive_spec p b q g Hi Hdel) as (? & ? & ?). by eexists.
  - unfold Unsubscribe. rewrite orb_false_r. destruct (store b !! q) as [t|] eqn:Hq; [|by exists b].
    destruct (once t) eqn:Ho; [by exists b|]. unfold close_ch. cbn [ch_closed ch filter_ once].
    rewrite <- (proj2 (H3 _ _ Hq)), Ho. cbn.
    destruct (removeSub_spec b q Hi) as (Hi' & Hst & Hcl & Hni).
    eexists. split; [done|]. split_and!.
    + eapply with_sub_inv; [done|by rewrite Hst|done|]. by intros ?.
    + destruct (decide (q = p)) as [->|Hne].
      * simplify_eq. eexists. split; [cbn; apply lookup_insert_eq|]. done.
      * exists s. split; [|done]. cbn. by rewrite lookup_insert_ne, Hst.
    + done.
  - destruct (subscribe_spec b f Hi (Hok f eq_refl)) as (Hi' & Hc & _ & Ho).
    eexists. split; [done|]. rewrite (Hok f eq_refl), Hc. split_and!; try done.
    exists s. split; [|done]. rewrite Ho; [done|]. intros ->. pose proof (proj1 (H3 _ _ Hs)). lia.
  - unfold Close. destruct (closed b) eqn:Hc; [by exists b|].
    destruct (close_all_spec (subs b) (mkBus [] (store b) (next b) true)) as (b' & -> & Hi' & Hcl & _ & Hst);
      [split_and!; cbn; [constructor|by intros ? ?%elem_of_nil|done|done]|done|].
    exists b'. split_and!; try done. destruct (Hst p s Hs) as (s' & Hs' & Hch').
    exists s'. by rewrite Hch'.
Qed.

Lemma bus_run_spec p l b g :
  bus_inv b → delivery p b g → no_late_subscribe (closed b) l = true →
  ∃ b' g', run p b g l = Some (b', g') ∧ bus_inv b' ∧ delivery p b' g'.
Proof.
  revert b g. induction l as [|a l IH]; intros b g Hi Hd Hl; [by eauto 6|].
  destruct (act_spec p b a g Hi Hd) as (b' & Ha & Hi' & Hd' & Hc).
  { intros f ->. cbn in Hl. by destruct (closed b). }
  cbn [run]. rewrite Ha. apply IH; [done|done|]. rewrite Hc.
  destruct a; cbn in Hl; rewrite ?orb_false_r, ?orb_true_r; try done.
  by apply andb_true_iff in Hl as [_ ?].
Qed.

(** ** Properties *)

(** C35: as long as nobody subscribes after the bus was closed, no sequence of publishing, receiving,
    subscribing, unsubscribing (also twice) and closing panics, and what a subscriber has received
    and still finds in its channel is a subsequence, in order, of the events published while it was
    subscribed that pass its filter: exactly those, when no send found the channel full. *)
Theorem subscriber_sees_published_events (b : Bus) (f : option (list Type_)) (l : list action) :
  bus_inv b → closed b = false → no_late_subscribe false l = true →
  let (p, b1) := subscribe b f in
  ∃ b' g s, run p b1 (mkGhost [] [] 0) l = Some (b', g) ∧ bus_inv b' ∧
    store b' !! p = Some s ∧ (received g ++ ch s) `sublist_of` sent g ∧
    length (sent g) = (length (received g ++ ch s) + dropped g)%nat ∧
    (dropped g = 0%nat → received g ++ ch s = sent g).
Proof.
  intros Hi Hc Hl. destruct (subscribe_spec b f Hi Hc) as (Hi1 & Hc1 & Hs1 & _).
  assert (Hp : fst (subscribe b f) = next b) by (unfold subscribe; by rewrite Hc).
  destruct (subscribe b f) as [p b1]. cbn [fst snd] in *. subst p.
  destruct (bus_run_spec (next b) l b1 (mkGhost [] [] 0)) as (b' & g & Hr & Hi' & s & Hs & Hsub & Hlen);
    [done|by eexists|by rewrite Hc1|].
  exists b', g, s. split_and!; try done. intros Hd. apply sublist_eq_length; [done|lia].
Qed.

(** The text form of an event type reads back as that type, the fifteen types have different
    names, and the out-of-range type, which prints as [unknown], is refused. *)
Theorem event_type_roundtrip (t : Type_) :
  UnmarshalJSON (MarshalJSON t) =
    match t with
    | OtherType _ => Err (ENew #"event: unknown type")
    | _ => Ok t
    end.
Proof. by destruct t. Qed.

(** A subscription made on a closed bus gets a closed channel, and to unsubscribe it panics,
    because [once] has not run: the channel would be closed twice. *)
Theorem unsubscribe_after_late_subscribe_panics (b : Bus) (f : option (list Type_)) :
  closed b = true → let (p, b') := subscribe b f in Unsubscribe b' p = None.
Proof.
  intros Hc. unfold subscribe. rewrite Hc. unfold Unsubscribe, removeSub. cbn [store subs next].
  rewrite lookup_insert_eq. cbn. by destruct (list_find (λ q, q = next b) (subs b)) as [[]|].
Qed.

Lemma unsubscribe_after_late_subscribe_panics_witness :
  ∃ b, Close (snd (Subscribe NewBus)) = Some b ∧ closed b = true ∧
    Unsubscribe (snd (Subscribe b)) 1 = None.
Proof.
  eexists. split; [reflexivity|]. split; [reflexivity|].
  exact (unsubscribe_after_late_subscribe_panics
    (default NewBus (Close (snd (Subscribe NewBus)))) None eq_refl).
Defined.

Definition demo_events : list action :=
  let e t := APublish (mkEvent t #"s" []) in
  [e SessionCreated; e Resize; AReceive 0; ASubscribe None; e SessionKilled; AUnsubscribe 0;
   AUnsubscribe 0; e SessionExited; AClose; AClose].

Lemma subscriber_sees_published_events_witness :
  bus_inv NewBus ∧
  (let f := Some [SessionCreated; SessionKilled] in
   let (p, b1) := subscribe NewBus f in
   ∃ b' g s, run p b1 (mkGhost [] [] 0) demo_events = Some (b', g) ∧
     bus_inv b' ∧ store b' !! p = Some s ∧ (received g ++ ch s) `sublist_of` sent g ∧
     length (sent g) = (length (received g ++ ch s) + dropped g)%nat ∧
     (dropped g = 0%nat → received g ++ ch s = sent g)) ∧
  option_map (λ r, map Type__ (sent (snd r)))
    (run 0 (snd (SubscribeTypes NewBus [SessionCreated; SessionKilled])) (mkGhost [] [] 0) demo_events) =
    Some [SessionCreated; SessionKilled].
Proof.
  assert (Hi : bus_inv NewBus).
  { split_and!; cbn; [constructor|by intros ? ?%elem_of_nil|done|done]. }
  split; [exact Hi|]. split; [|vm_compute; reflexivity].
  exact (subscriber_sees_published_events NewBus (Some [SessionCreated; SessionKilled]) demo_events
    Hi eq_refl eq_refl).
Defined.
