(* ===== verification/Files.v ===== *)
(** * The file system, as the persistence code uses it

    A file system is a map from cleaned absolute paths (lists of segments, see
    [SessionValues.join_path]) to directories and files, with the set of paths
    on which the operating system refuses every operation.  The operations are
    the ones of package [os] that the code calls; each either happens as a
    whole or fails with an error and changes nothing.  The only errors the code
    tells apart are [os.ErrNotExist] and the others. *)

From S2P Require Import Prelude.

#[local] Open Scope Z_scope.

Abbreviation path := (list bytes).

Inductive entry := EDir | EFile (data : bytes).

#[export] Instance entry_eq_decision : EqDecision entry.
Proof. solve_decision. Defined.

Record FS := mkFS { entries : gmap path entry; locked : gset path }.

Definition ErrNotExist : error := ENew #"file does not exist".

Definition ErrPermission : error := ENew #"permission denied".

Definition ErrNotDir : error := ENew #"not a directory".

Definition ErrIsDir : error := ENew #"is a directory".

Definition ErrNotEmpty : error := ENew #"directory not empty".

Definition set_entries (fs : FS) (m : gmap path entry) : FS := mkFS m (locked fs).

Definition ReadFile (fs : FS) (p : path) : result bytes :=
  if decide (p ∈ locked fs) then Err ErrPermission
  else
    match entries fs !! p with
    | None => Err ErrNotExist
    | Some EDir => Err ErrIsDir
    | Some (EFile data) => Ok data
    end.

(** The directory of a path. *)
Definition dir_of (p : path) : path := take (length p - 1) p.

(** [os.WriteFile], and [os.OpenFile] with create and truncate, whose data is
    then empty. *)
Definition WriteFile (fs : FS) (p : path) (data : bytes) : result unit * FS :=
  if decide (p ∈ locked fs) then (Err ErrPermission, fs)
  else
    match entries fs !! p with
    | Some EDir => (Err ErrIsDir, fs)
    | Some (EFile _) => (Ok tt, set_entries fs (<[p := EFile data]> (entries fs)))
    | None =>
        if decide (entries fs !! dir_of p = Some EDir)
        then (Ok tt, set_entries fs (<[p := EFile data]> (entries fs)))
        else (Err ErrNotExist, fs)
    end.

(** The prefixes of a path, the path itself last. *)
Definition ancestors (p : path) : list path := (λ n, take n p) <$> seq 1 (length p).

(** [os.MkdirAll]: no ancestor may be a file; the missing ones are created. *)
Definition MkdirAll (fs : FS) (p : path) : result unit * FS :=
  if decide (Exists (λ q, q ∈ locked fs) (ancestors p)) then (Err ErrPermission, fs)
  else if decide (Forall (λ q, default EDir (entries fs !! q) = EDir) (ancestors p))
  then (Ok tt, set_entries fs (foldr (λ q, <[q := EDir]>) (entries fs) (ancestors p)))
  else (Err ErrNotDir, fs).

(** The name of [q] in the directory [p]. *)
Fixpoint child_name (p q : path) : option bytes :=
  match p, q with
  | [], [n] => Some n
  | x :: p, y :: q => if decide (x = y) then child_name p q else None
  | _, _ => None
  end.

Definition child_entry (p : path) (kv : path * entry) : option (bytes * entry) :=
  (λ n, (n, snd kv)) <$> child_name p (fst kv).

(** The order of names: byte by byte. *)
Fixpoint bytes_leb (s t : bytes) : bool :=
  match s, t with
  | [], _ => true
  | _, [] => false
  | a :: s, b :: t =>
      if decide (a = b) then bytes_leb s t else bool_decide (byte_val a <= byte_val b)
  end.

Definition bytes_le (s t : bytes) : Prop := bytes_leb s t = true.

#[export] Instance bytes_le_dec : RelDecision bytes_le.
Proof. intros s t. unfold bytes_le. apply _. Defined.

Definition name_le (x y : bytes * entry) : Prop := bytes_leb (fst x) (fst y) = true.

#[export] Instance name_le_dec : RelDecision name_le.
Proof. intros x y. unfold name_le. apply _. Defined.

(** The members of a directory, sorted by name. *)
Definition children (m : gmap path entry) (p : path) : list (bytes * entry) :=
  merge_sort name_le (omap (child_entry p) (map_to_list m)).

Definition ReadDir (fs : FS) (p : path) : result (list (bytes * entry)) :=
  if decide (p ∈ locked fs) then Err ErrPermission
  else
    match entries fs !! p with
    | None => Err ErrNotExist
    | Some (EFile _) => Err ErrNotDir
    | Some EDir => Ok (children (entries fs) p)
    end.

(** [os.RemoveAll]: a missing path is no error. *)
Definition RemoveAll (fs : FS) (p : path) : result unit * FS :=
  if decide (p ∈ locked fs) then (Err ErrPermission, fs)
  else (Ok tt, set_entries fs (filter (λ kv, ¬ p `prefix_of` kv.1) (entries fs))).

(** [os.Remove] of a file, or of a directory that is empty. *)
Definition Remove (fs : FS) (p : path) : result unit * FS :=
  if decide (p ∈ locked fs) then (Err ErrPermission, fs)
  else
    match entries fs !! p with
    | None => (Err ErrNotExist, fs)
    | Some EDir =>
        if decide (children (entries fs) p = []) then (Ok tt, set_entries fs (delete p (entries fs)))
        else (Err ErrNotEmpty, fs)
    | Some (EFile _) => (Ok tt, set_entries fs (delete p (entries fs)))
    end.

(** [os.Rename] of a file onto a path that is no directory. *)
Definition Rename (fs : FS) (p q : path) : result unit * FS :=
  if decide (p ∈ locked fs ∨ q ∈ locked fs) then (Err ErrPermission, fs)
  else
    match entries fs !! p, entries fs !! q with
    | Some (EFile data), Some EDir => (Err ErrIsDir, fs)
    | Some (EFile data), _ =>
        (Ok tt, set_entries fs (<[q := EFile data]> (delete p (entries fs))))
    | _, _ => (Err ErrNotExist, fs)
    end.

(** ** Lemmas *)

Lemma bytes_leb_refl s : bytes_leb s s = true.
Proof. induction s as [|a s IH]; cbn; [done|]. by rewrite decide_True. Qed.

Lemma bytes_leb_trans s t u : bytes_leb s t = true → bytes_leb t u = true → bytes_leb s u = true.
Proof.
  revert t u. induction s as [|a s IH]; intros [|b t] [|c u]; cbn; try done.
  destruct (decide (a = b)) as [->|Hab]; destruct (decide (b = c)) as [->|Hbc]; try done.
  - apply IH.
  - by rewrite decide_False.
  - rewrite !bool_decide_eq_true. intros H1 H2. destruct (decide (a = c)) as [->|].
    + exfalso. apply Hab, byte_val_inj. lia.
    + rewrite bool_decide_eq_true. lia.
Qed.

Lemma bytes_leb_antisym s t : bytes_leb s t = true → bytes_leb t s = true → s = t.
Proof.
  revert t. induction s as [|a s IH]; intros [|b t]; cbn; try done.
  destruct (decide (a = b)) as [->|Hab].
  - rewrite decide_True by done. intros H1 H2. f_equal. by apply IH.
  - rewrite decide_False by done. rewrite !bool_decide_eq_true. intros H1 H2.
    exfalso. apply Hab, byte_val_inj. lia.
Qed.

Lemma bytes_leb_total s t : bytes_leb s t = true ∨ bytes_leb t s = true.
Proof.
  revert t. induction s as [|a s IH]; intros [|b t]; cbn; try by auto.
  destruct (decide (a = b)) as [->|Hab].
  - rewrite decide_True by done. apply IH.
  - rewrite decide_False by done. rewrite !bool_decide_eq_true. lia.
Qed.

#[export] Instance name_le_trans : Transitive name_le.
Proof. intros x y z. apply bytes_leb_trans. Qed.

#[export] Instance name_le_total : Total name_le.
Proof. intros x y. apply bytes_leb_total. Qed.

Lemma child_name_Some p q n : child_name p q = Some n ↔ q = p ++ [n].
Proof.
  revert q. induction p as [|x p IH]; intros [|y q]; cbn; [naive_solver| |naive_solver|].
  - destruct q; naive_solver.
  - case_decide as Hxy; [subst; rewrite IH; naive_solver|]. naive_solver.
Qed.

Lemma elem_of_children m p n e : (n, e) ∈ children m p ↔ m !! (p ++ [n]) = Some e.
Proof.
  unfold children. rewrite merge_sort_Permutation, list_elem_of_omap. unfold child_entry. split.
  - intros ([q e'] & Hq & Hn). apply fmap_Some in Hn as (n' & Hc & Heq).
    apply child_name_Some in Hc. cbn in *. simplify_eq. by apply elem_of_map_to_list.
  - intros Hm. exists (p ++ [n], e). split; [by apply elem_of_map_to_list|].
    apply fmap_Some. exists n. split; [by apply child_name_Some|done].
Qed.

Lemma children_NoDup m p : NoDup (fst <$> children m p).
Proof.
  unfold children. rewrite merge_sort_Permutation.
  pose proof (NoDup_fst_map_to_list m) as Hnd. revert Hnd.
  generalize (map_to_list m). induction l as [|[q e] l IH]; cbn; [constructor|].
  intros [Hq Hl]%NoDup_cons. unfold child_entry at 1. cbn [fst snd].
  destruct (child_name p q) as [n|] eqn:Hc; cbn; [|by apply IH].
  apply NoDup_cons. split; [|by apply IH].
  intros ((n', e') & -> & Hin)%list_elem_of_fmap. apply Hq.
  apply list_elem_of_omap in Hin as ([q' e''] & Hin & Hc').
  apply fmap_Some in Hc' as (n'' & Hc' & ?). cbn in *. simplify_eq.
  apply child_name_Some in Hc, Hc'. subst. apply list_elem_of_fmap. eexists (_, _). split; [|exact Hin]. done.
Qed.

Lemma children_sorted m p : StronglySorted name_le (children m p).
Proof. apply StronglySorted_merge_sort; apply _. Qed.

Lemma children_filter (P : path * entry → Prop) `{∀ x, Decision (P x)} m p :
  children (filter P m) p = filter (λ x, P (p ++ [fst x], snd x)) (children m p).
Proof.
  apply (StronglySorted_unique_strong name_le).
  - intros [n1 e1] [n2 e2] H1 H2 Hle Hge. apply list_elem_of_filter in H2 as [_ H2].
    apply elem_of_children, map_lookup_filter_Some in H1 as [H1 _]. apply elem_of_children in H2.
    unfold name_le in *. cbn in *. pose proof (bytes_leb_antisym _ _ Hle Hge) as ->. naive_solver.
  - apply children_sorted.
  - pose proof (children_sorted m p) as Hs. induction Hs as [|x l Hs IH Hx]; [constructor|].
    rewrite filter_cons. case_decide; [|done]. constructor; [done|].
    apply Forall_forall. intros y [_ Hy]%list_elem_of_filter. by eapply Forall_forall in Hx.
  - apply NoDup_Permutation.
    + by eapply NoDup_fmap_1, children_NoDup.
    + apply NoDup_filter. by eapply NoDup_fmap_1, children_NoDup.
    + intros [n e]. rewrite list_elem_of_filter, !elem_of_children, map_lookup_filter_Some.
      cbn. naive_solver.
Qed.

Lemma child_prefix (p q : path) (n n' : bytes) : p ++ [n] `prefix_of` p ++ n' :: q ↔ n = n'.
Proof.
  split.
  - intros [k Hk]. rewrite <- app_assoc in Hk. apply app_inv_head in Hk. cbn in Hk. by simplify_eq.
  - intros ->. exists q. by rewrite <- app_assoc.
Qed.

Lemma Remove_frame fs p q :
  q ≠ p → let fs' := snd (Remove fs p) in entries fs' !! q = entries fs !! q ∧ locked fs' = locked fs.
Proof.
  intros Hq. unfold Remove. case_decide; [done|]. destruct (entries fs !! p) as [[|data]|]; [case_decide; [|done]| |done];
    cbn; by rewrite lookup_delete_ne.
Qed.
