(* ===== verification/History.v ===== *)
(** * Session history on disk: [internal/platform/history]

    Size strings ([entity.go]), the size-capped scrollback writer
    ([writer.go]), the metadata file ([metadata.go]) and the directories of the
    sessions with their eviction ([dirops.go]), over the file system of
    [Files].  [encoding/json] and the order in which [sort.Slice] leaves equal
    elements are parameters. *)

From S2P Require Import Prelude Files GoStrings SessionValues.

#[local] Open Scope Z_scope.

Record Metadata := mkMetadata {
  SessionID : bytes;
  Shell : bytes;
  Cwd : bytes;
  Cols : Z;
  Rows : Z;
  StartedAt : time;
  EndedAt : option time;
  ExitCode : option Z;
}.

Definition ErrInvalidSize : error := ENew #"invalid size string".

Definition ErrWriterClosed : error := ENew #"scrollback writer closed".

(** ** Size strings *)

Definition kilobyte : Z := 1024.

Definition megabyte : Z := 1024 * 1024.

Definition gigabyte : Z := 1024 * 1024 * 1024.

(** The product wraps around like any [int64]. *)
Definition ParseSize (s : bytes) : result Z :=
  if decide (s = []) then Err ErrInvalidSize
  else
    let upper := to_upper (trim_space s) in
    let '(multiplier, numStr) :=
      if has_suffix upper #"GB" then (gigabyte, trim_suffix upper #"GB")
      else if has_suffix upper #"MB" then (megabyte, trim_suffix upper #"MB")
      else if has_suffix upper #"KB" then (kilobyte, trim_suffix upper #"KB")
      else (1, upper) in
    match parse_int numStr with
    | (_, Some _) => Err ErrInvalidSize
    | (n, None) => if bool_decide (n < 0) then Err ErrInvalidSize else Ok (wrap_i64 (n * multiplier))
    end.

(** ** The scrollback writer *)

(** [file] is what the open file holds. *)
Record Writer := mkWriter { file : bytes; written : Z; maxSize : Z; closed : bool }.

Definition NewWriter (fs : FS) (p : path) (max : Z) : result Writer * FS :=
  match WriteFile fs p [] with
  | (Err e, fs) => (Err (EWrap #"history: open scrollback" e), fs)
  | (Ok _, fs) => (Ok (mkWriter [] 0 max false), fs)
  end.

(** What the operating system does with one write: all of it, or the first
    bytes and an error. *)
Abbreviation fault := (option (nat * error)).

Definition os_write (f : fault) (data : bytes) : nat * option error :=
  match f with
  | None => (length data, None)
  | Some (k, e) => (min k (length data), Some e)
  end.

Definition Write (f : fault) (w : Writer) (p : bytes) : (Z * option error) * Writer :=
  if closed w then ((0, Some ErrWriterClosed), w)
  else
    let remaining := maxSize w - written w in
    if bool_decide (0 < maxSize w) && bool_decide (remaining <= 0) then ((0, None), w)
    else
      let data :=
        if bool_decide (0 < maxSize w) && bool_decide (remaining < Z.of_nat (length p))
        then take (Z.to_nat remaining) p
        else p in
      let (n, err) := os_write f data in
      ((Z.of_nat n, EWrap #"history: write scrollback" <$> err),
       mkWriter (file w ++ take n data) (written w + Z.of_nat n) (maxSize w) false).

(** A run of writes, with what each of them reports. *)
Fixpoint write_all (w : Writer) (l : list (fault * bytes)) : list (Z * option error) * Writer :=
  match l with
  | [] => ([], w)
  | (f, p) :: l =>
      let (r, w) := Write f w p in
      let (rs, w) := write_all w l in (r :: rs, w)
  end.

Definition Written (w : Writer) : Z := written w.

(** The error of the operating system's close is [e]. *)
Definition Close (e : option error) (w : Writer) : option error * Writer :=
  if closed w then (None, w)
  else (EWrap #"history: close scrollback" <$> e, mkWriter (file w) (written w) (maxSize w) true).

(** ** Metadata and directories *)

Definition metaFileName : bytes := #"meta.json".

Record SessionDirInfo := mkInfo {
  Path : path;
  info_SessionID : bytes;
  info_EndedAt : option time;
  Size : Z;
}.

#[export] Instance SessionDirInfo_eq_decision : EqDecision SessionDirInfo.
Proof. solve_decision. Defined.

Definition EnsureSessionDir (fs : FS) (baseDir : path) (sessionID : bytes) : result path * FS :=
  let dir := join_path baseDir sessionID in
  match MkdirAll fs dir with
  | (Err e, fs) => (Err (EWrap #"history: ensure session dir" e), fs)
  | (Ok _, fs) => (Ok dir, fs)
  end.

(** The size of a member that is a file and can be examined. *)
Definition member_size (fs : FS) (dir : path) (m : bytes * entry) : Z :=
  match snd m with
  | EDir => 0
  | EFile data =>
      if decide (dir ++ [fst m] ∈ locked fs) then 0 else Z.of_nat (length data)
  end.

Definition sum (l : list Z) : Z := foldr Z.add 0 l.

Definition DirSize (fs : FS) (dir : path) : result Z :=
  match ReadDir fs dir with
  | Err e => Err (EWrap #"history: read dir for size" e)
  | Ok l => Ok (sum (member_size fs dir <$> l))
  end.

(** [size, _ := DirSize(dir)]. *)
Definition size_of (fs : FS) (dir : path) : Z :=
  match DirSize fs dir with
  | Ok n => n
  | Err _ => 0
  end.

Definition TotalSize (fs : FS) (baseDir : path) : result Z :=
  match ReadDir fs baseDir with
  | Err e => Err (EWrap #"history: total size" e)
  | Ok l =>
      Ok (sum (omap (λ m, if decide (snd m = EDir) then Some (size_of fs (baseDir ++ [fst m])) else None) l))
  end.

Section Json.

Context (marshal : Metadata → result bytes) (unmarshal : bytes → result Metadata).

Definition WriteMetadata (fs : FS) (dir : path) (meta : Metadata) : option error * FS :=
  match marshal meta with
  | Err e => (Some (EWrap #"history: marshal metadata" e), fs)
  | Ok data =>
      match WriteFile fs (dir ++ [metaFileName]) data with
      | (Err e, fs) => (Some (EWrap #"history: write metadata" e), fs)
      | (Ok _, fs) => (None, fs)
      end
  end.

Definition ReadMetadata (fs : FS) (dir : path) : result Metadata :=
  match ReadFile fs (dir ++ [metaFileName]) with
  | Err e => Err (EWrap #"history: read metadata" e)
  | Ok data => wrap_err #"history: unmarshal metadata" (unmarshal data)
  end.

Definition UpdateMetadataExit (fs : FS) (dir : path) (endedAt : time) (exitCode : Z) : option error * FS :=
  match ReadMetadata fs dir with
  | Err e => (Some (EWrap #"history: update exit" e), fs)
  | Ok m =>
      WriteMetadata fs dir
        (mkMetadata (SessionID m) (Shell m) (Cwd m) (Cols m) (Rows m) (StartedAt m)
           (Some endedAt) (Some exitCode))
  end.

(** One round of [ListSessionDirs]. *)
Definition list_one (fs : FS) (baseDir : path) (m : bytes * entry) : option SessionDirInfo :=
  match snd m with
  | EFile _ => None
  | EDir =>
      let dirPath := baseDir ++ [fst m] in
      match ReadMetadata fs dirPath with
      | Err _ => None
      | Ok meta => Some (mkInfo dirPath (SessionID meta) (EndedAt meta) (size_of fs dirPath))
      end
  end.

Definition ListSessionDirs (fs : FS) (baseDir : path) : result (list SessionDirInfo) :=
  match ReadDir fs baseDir with
  | Err e => Err (EWrap #"history: list session dirs" e)
  | Ok l => Ok (omap (list_one fs baseDir) l)
  end.

(** The comparison that [EvictLRU] sorts by, on completed sessions. *)
Definition ended_before (x y : SessionDirInfo) : Prop :=
  default 0 (info_EndedAt x) < default 0 (info_EndedAt y).

Fixpoint evict_loop (fs : FS) (currentTotal maxTotal : Z) (completed : list SessionDirInfo) :
    option error * FS :=
  match completed with
  | [] => (None, fs)
  | d :: ds =>
      if bool_decide (currentTotal <= maxTotal) then (None, fs)
      else
        match RemoveAll fs (Path d) with
        | (Err e, fs) => (Some (EWrap (#"history: remove " ++ info_SessionID d) e), fs)
        | (Ok _, fs) => evict_loop fs (currentTotal - Size d) maxTotal ds
        end
  end.

Definition EvictLRU (sort_slice : list SessionDirInfo → list SessionDirInfo)
    (fs : FS) (baseDir : path) (maxTotal : Z) : option error * FS :=
  match ListSessionDirs fs baseDir with
  | Err e => (Some (EWrap #"history: evict lru" e), fs)
  | Ok dirs =>
      let currentTotal := sum (Size <$> dirs) in
      if bool_decide (currentTotal <= maxTotal) then (None, fs)
      else
        evict_loop fs currentTotal maxTotal
          (sort_slice (filter (λ d, info_EndedAt d ≠ None) dirs))
  end.

End Json.

(** ** Lemmas *)

#[export] Instance sum_Permutation : Proper ((≡ₚ) ==> eq) sum.
Proof. intros l k Hlk. unfold sum. induction Hlk; cbn in *; lia. Qed.

Lemma sum_app l k : sum (l ++ k) = sum l + sum k.
Proof. unfold sum. induction l; cbn in *; lia. Qed.

(** [fs'] is [fs] without the directories [ks]. *)
Definition removed (ks : list SessionDirInfo) (fs fs' : FS) : Prop :=
  locked fs' = locked fs ∧
  entries fs' = filter (λ kv, Forall (λ d, ¬ Path d `prefix_of` kv.1) ks) (entries fs).

Lemma evict_loop_spec l fs total max :
  ∃ k err fs', evict_loop fs total max l = (err, fs') ∧ (k ≤ length l)%nat ∧
    removed (take k l) fs fs' ∧
    (∀ j, (j < k)%nat → max < total - sum (Size <$> take j l)) ∧
    (err = None → k = length l ∨ total - sum (Size <$> take k l) <= max) ∧
    (∀ e, err = Some e → ∃ d, l !! k = Some d ∧ Path d ∈ locked fs).
Proof.
  revert fs total. induction l as [|d l IH]; intros fs total; cbn [evict_loop].
  - exists 0%nat, None, fs. split_and!; [done|cbn; lia| |lia|by left|done].
    split; [done|]. symmetry. apply map_filter_id. by constructor.
  - case_bool_decide as Ht.
    { exists 0%nat, None, fs. split_and!; [done|lia| |lia|right; cbn; lia|done].
      split; [done|]. symmetry. apply map_filter_id. by constructor. }
    unfold RemoveAll. case_decide as Hl.
    { exists 0%nat, (Some (EWrap (#"history: remove " ++ info_SessionID d) ErrPermission)), fs.
      split_and!; [done|lia| |lia|done|intros; by exists d].
      split; [done|]. symmetry. apply map_filter_id. by constructor. }
    destruct (IH (set_entries fs (filter (λ kv, ¬ Path d `prefix_of` kv.1) (entries fs)))
      (total - Size d)) as (k & err & fs' & He & Hk & [Hr1 Hr2] & Hj & Hn & Hs).
    exists (S k), err, fs'. split_and!; [done|cbn; lia| | | |].
    + split; [done|]. rewrite Hr2. cbn [take entries set_entries]. rewrite map_filter_filter.
      apply map_filter_ext. intros p e _. cbn. rewrite Forall_cons. tauto.
    + intros [|j] Hlt; cbn [take fmap list_fmap sum foldr]; [lia|].
      specialize (Hj j ltac:(lia)). unfold sum in Hj. lia.
    + intros H. destruct (Hn H) as [->|Hle]; [by left|right].
      cbn [take fmap list_fmap sum foldr]. unfold sum in Hle. lia.
    + intros e H. by apply (Hs e).
Qed.

Lemma removed_lookup ks fs fs' base n q :
  removed ks fs fs' → (∀ d, d ∈ ks → ∃ n', Path d = base ++ [n'] ∧ n' ≠ n) →
  entries fs' !! (base ++ n :: q) = entries fs !! (base ++ n :: q).
Proof.
  intros [_ ->] Hk. apply option_eq. intros e. rewrite map_lookup_filter_Some.
  split; [by intros []|]. intros H. split; [done|]. apply Forall_forall. intros d Hd. cbn.
  destruct (Hk d Hd) as (n' & -> & Hne). by rewrite child_prefix.
Qed.

Lemma removed_children ks fs fs' base n :
  removed ks fs fs' → (∀ d, d ∈ ks → ∃ n', Path d = base ++ [n'] ∧ n' ≠ n) →
  children (entries fs') (base ++ [n]) = children (entries fs) (base ++ [n]).
Proof.
  intros [_ ->] Hk. rewrite children_filter. apply filter_all. apply Forall_forall. intros x _.
  apply Forall_forall. intros d Hd. cbn. destruct (Hk d Hd) as (n' & -> & Hne).
  rewrite <- app_assoc. cbn. by rewrite child_prefix.
Qed.

Section ListLemmas.

Context (unmarshal : bytes → result Metadata).

Lemma list_one_Some fs base n e d :
  list_one unmarshal fs base (n, e) = Some d → e = EDir ∧ Path d = base ++ [n].
Proof.
  unfold list_one. cbn [fst snd]. destruct e; [|done]. case_match; [|done].
  intros [= <-]. done.
Qed.

Lemma list_one_removed ks fs fs' base x :
  removed ks fs fs' → (∀ d, d ∈ ks → ∃ n', Path d = base ++ [n'] ∧ n' ≠ fst x) →
  list_one unmarshal fs' base x = list_one unmarshal fs base x.
Proof.
  intros Hr Hk. pose proof Hr as [Hl _]. destruct x as [n e]. cbn [fst] in Hk.
  assert (Hm : ReadMetadata unmarshal fs' (base ++ [n]) = ReadMetadata unmarshal fs (base ++ [n])).
  { unfold ReadMetadata, ReadFile. rewrite Hl, <- app_assoc. cbn [app].
    by rewrite (removed_lookup ks fs fs' base n [metaFileName]). }
  assert (Hs : size_of fs' (base ++ [n]) = size_of fs (base ++ [n])).
  { unfold size_of, DirSize, ReadDir, member_size. rewrite Hl.
    rewrite (removed_lookup ks fs fs' base n []) by done.
    by rewrite (removed_children ks fs fs' base n). }
  unfold list_one. cbn [fst snd]. by rewrite Hm, Hs.
Qed.

(** The listed directories are members of the base directory, one for each name. *)
Lemma listed_member fs base dirs d :
  ListSessionDirs unmarshal fs base = Ok dirs → d ∈ dirs →
  ∃ n, Path d = base ++ [n] ∧ list_one unmarshal fs base (n, EDir) = Some d.
Proof.
  unfold ListSessionDirs. destruct (ReadDir fs base) as [l|]; [|done]. intros [= <-].
  intros ([n e] & _ & Hd)%list_elem_of_omap. exists n.
  destruct (list_one_Some _ _ _ _ _ Hd) as [-> Hp]. done.
Qed.

Lemma listed_inj fs base dirs d d' :
  ListSessionDirs unmarshal fs base = Ok dirs → d ∈ dirs → d' ∈ dirs →
  Path d = Path d' → d = d'.
Proof.
  intros Hl Hd Hd' Hp. destruct (listed_member _ _ _ _ Hl Hd) as (n & H1 & H2).
  destruct (listed_member _ _ _ _ Hl Hd') as (n' & H1' & H2').
  rewrite H1, H1' in Hp. apply app_inv_head in Hp. simplify_eq. congruence.
Qed.

Lemma listed_NoDup fs base dirs : ListSessionDirs unmarshal fs base = Ok dirs → NoDup dirs.
Proof.
  unfold ListSessionDirs. destruct (ReadDir fs base) as [l|] eqn:Hr; [|done]. intros [= <-].
  assert (Hnd : NoDup (fst <$> l)).
  { unfold ReadDir in Hr. repeat case_match; simplify_eq. apply children_NoDup. }
  clear Hr. induction l as [|[n e] l IH]; [constructor|]. cbn in Hnd.
  apply NoDup_cons in Hnd as [Hn Hnd]. cbn [omap list_omap].
  destruct (list_one unmarshal fs base (n, e)) as [d|] eqn:Hd; [|by apply IH].
  apply NoDup_cons. split; [|by apply IH].
  intros ([n' e'] & Hin & Hd')%list_elem_of_omap.
  apply list_one_Some in Hd as [_ Hp], Hd' as [_ Hp']. rewrite Hp in Hp'.
  apply app_inv_head in Hp'. simplify_eq. apply Hn, list_elem_of_fmap. by exists (n', e').
Qed.

Lemma list_removed ks fs fs' base dirs :
  ListSessionDirs unmarshal fs base = Ok dirs → removed ks fs fs' → ks ⊆ dirs →
  ListSessionDirs unmarshal fs' base = Ok (filter (λ d, d ∉ ks) dirs).
Proof.
  intros Hls Hr Hks. pose proof Hr as [Hl He].
  assert (Hpath : ∀ d, d ∈ ks → ∃ n, Path d = base ++ [n] ∧ list_one unmarshal fs base (n, EDir) = Some d)
    by (intros d Hd; by apply (listed_member _ _ _ _ Hls), Hks).
  unfold ListSessionDirs, ReadDir in *. rewrite Hl. case_decide; [done|].
  destruct (entries fs !! base) as [[|]|] eqn:Hb; try done. injection Hls as <-.
  replace (entries fs' !! base) with (Some EDir).
  2: { symmetry. rewrite He. apply map_lookup_filter_Some. split; [done|].
       apply Forall_forall. intros d Hd [k Hk]. destruct (Hpath d Hd) as (n & Hn & _). cbn in Hk.
       rewrite Hn, <- app_assoc in Hk. apply (f_equal length) in Hk. rewrite length_app in Hk.
       cbn in Hk. lia. }
  f_equal. rewrite He, children_filter. pose proof (λ n e, elem_of_children (entries fs) base n e) as Hc.
  revert Hc. generalize (children (entries fs) base). intros l Hc.
  assert (Hsub : ∀ x, x ∈ l → x ∈ l) by done. revert Hsub. generalize l at 1 3 4. intros l'.
  induction l' as [|[n e] l' IH]; intros Hsub; [done|].
  rewrite filter_cons. cbn [omap list_omap].
  specialize (IH ltac:(intros; apply Hsub; by right)).
  assert (He' : entries fs !! (base ++ [n]) = Some e) by (apply Hc, Hsub; by left).
  case_decide as HP.
  - cbn [omap list_omap]. rewrite (list_one_removed ks fs fs').
    2: { done. }
    2: { intros d Hd. destruct (Hpath d Hd) as (n' & Hn' & _). exists n'. split; [done|].
         cbn. intros ->. rewrite Forall_forall in HP. apply (HP d Hd). by rewrite Hn'. }
    rewrite IH. destruct (list_one unmarshal fs base (n, e)) as [d|] eqn:Hd; [|done].
    rewrite filter_cons_True; [done|]. intros Hin. rewrite Forall_forall in HP.
    apply (HP d Hin). destruct (list_one_Some _ _ _ _ _ Hd) as [_ ->]. done.
  - rewrite IH. destruct (list_one unmarshal fs base (n, e)) as [d|] eqn:Hd; [|done].
    rewrite filter_cons_False; [done|]. intros Hni. apply HP. apply Forall_forall.
    intros d' Hd' Hpre. destruct (Hpath d' Hd') as (n' & Hn' & Hone). cbn in Hpre.
    rewrite Hn' in Hpre. apply child_prefix in Hpre as ->.
    destruct (list_one_Some _ _ _ _ _ Hd) as [-> _]. congruence.
Qed.

End ListLemmas.

Lemma split_by_membership {A} `{EqDecision A} (l k : list A) :
  NoDup l → NoDup k → k ⊆ l → l ≡ₚ k ++ filter (λ x, x ∉ k) l.
Proof.
  intros Hl Hk Hs. apply NoDup_Permutation; [done| |].
  - apply NoDup_app. split_and!; [done| |by apply NoDup_filter].
    intros x Hx [Hx' _]%list_elem_of_filter. done.
  - intros x. rewrite elem_of_app, list_elem_of_filter. split; [|naive_solver].
    intros Hx. destruct (decide (x ∈ k)); naive_solver.
Qed.

(** What the cap leaves of the data. *)
Definition capped (max : Z) (data : bytes) : bytes :=
  if bool_decide (0 < max) then take (Z.to_nat max) data else data.

Definition writer_inv (w : Writer) : Prop :=
  closed w = false ∧ Z.of_nat (length (file w)) = written w ∧ (0 < maxSize w → written w <= maxSize w).

Lemma scroll_Write_spec f w p :
  writer_inv w →
  let '((n, err), w') := Write f w p in
  writer_inv w' ∧ maxSize w' = maxSize w ∧ written w' = written w + n ∧
  (f = None → err = None ∧ file w' = capped (maxSize w) (file w ++ p)).
Proof.
  intros (Hc & Hl & Hm). unfold Write. rewrite Hc. unfold capped.
  destruct (bool_decide_reflect (0 < maxSize w)) as [Hpos|Hpos]; cbn [andb].
  - specialize (Hm Hpos). case_bool_decide as Hrem.
    { split_and!; [by split_and!|done|lia|]. intros _. split; [done|].
      rewrite take_app_le, take_ge by lia. done. }
    set (data := if bool_decide _ then _ else p).
    assert (Hdata : (length data <= Z.to_nat (maxSize w - written w))%nat ∧
      file w ++ data = take (Z.to_nat (maxSize w)) (file w ++ p)).
    { subst data. case_bool_decide.
      - rewrite length_take. split; [lia|]. rewrite take_app_ge by lia. do 2 f_equal. lia.
      - split; [lia|]. by rewrite take_ge by (rewrite length_app; lia). }
    destruct Hdata as [Hlen Heq]. destruct f as [[k e]|]; cbn [os_write fmap option_fmap option_map].
    + split_and!; [|done|done|done]. unfold writer_inv. cbn. split_and!; [done| |lia].
      rewrite length_app, length_take. lia.
    + rewrite firstn_all. split_and!; [|done|done|done].
      unfold writer_inv. cbn. rewrite length_app. split_and!; [done|lia|lia].
  - destruct f as [[k e]|]; cbn [os_write fmap option_fmap option_map].
    + split_and!; [|done|done|done]. unfold writer_inv. cbn. split_and!; [done| |lia].
      rewrite length_app, length_take. lia.
    + rewrite firstn_all. split_and!; [|done|done|done].
      unfold writer_inv. cbn. rewrite length_app. split_and!; [done|lia|lia].
Qed.

Lemma write_all_spec l w :
  writer_inv w →
  let (rs, w') := write_all w l in
  writer_inv w' ∧ maxSize w' = maxSize w ∧ written w' = written w + sum (fst <$> rs) ∧
  (Forall (λ x, fst x = None) l → Forall (λ r, snd r = None) rs ∧
    capped (maxSize w) (file w') = capped (maxSize w) (file w ++ concat (snd <$> l))).
Proof.
  revert w. induction l as [|[f p] l IH]; intros w Hw; cbn [write_all].
  { split_and!; [done..|cbn; lia|]. intros _. cbn. by rewrite app_nil_r. }
  pose proof (scroll_Write_spec f w p Hw) as H. destruct (Write f w p) as [[n err] w1].
  destruct H as (Hw1 & Hm1 & Hn1 & Hf1). specialize (IH w1 Hw1).
  destruct (write_all w1 l) as [rs w2]. destruct IH as (Hw2 & Hm2 & Hn2 & Hf2).
  split_and!; [done|congruence|cbn; unfold sum in Hn2; lia|].
  intros [Hf Hl]%Forall_cons. cbn in Hf. destruct (Hf1 Hf) as [He Hfile].
  destruct (Hf2 Hl) as [Hrs Hfile2]. split; [by constructor|].
  rewrite <- Hm1, Hfile2, Hm1, Hfile. cbn [fmap list_fmap snd concat]. rewrite app_assoc.
  unfold capped. case_bool_decide; [|done].
  destruct (decide (length (file w ++ p) <= Z.to_nat (maxSize w))%nat).
  - by rewrite (take_ge (file w ++ p)) by done.
  - rewrite (take_app_le (take _ _)) by (rewrite length_take; lia).
    rewrite (take_app_le (file w ++ p)) by lia. by rewrite take_take, Nat.min_id.
Qed.

(** Digits and letters. *)
Definition plain (b : byte) : bool := is_digit b || isAllowedPrefixRune b.

Lemma trim_left_loop_plain fuel pats b s :
  Forall (λ p, from_option plain true (head p) = false) pats → plain b = true →
  trim_left_loop fuel pats (b :: s) = b :: s.
Proof.
  intros Hp Hb. destruct fuel as [|fuel]; [done|]. cbn [trim_left_loop].
  destruct (list_find _ pats) as [[i q]|] eqn:Hf; [|done]. exfalso.
  apply list_find_Some in Hf as (Hl & Hq & _). rewrite Forall_forall in Hp.
  specialize (Hp q ltac:(by eapply list_elem_of_lookup_2)).
  apply has_prefix_spec in Hq as [k Hk]. destruct q as [|c q]; [done|]. cbn in *. simplify_eq.
  by rewrite Hb in Hp.
Qed.

Lemma trim_space_plain s : Forall (λ b, plain b = true) s → trim_space s = s.
Proof.
  intros Hs. unfold trim_space.
  assert (H1 : trim_left_loop (length s) spaces s = s).
  { destruct s as [|b s]; [done|]. apply Forall_cons in Hs as [Hb _].
    apply trim_left_loop_plain; [|done]. by repeat constructor. }
  rewrite H1. destruct (reverse s) as [|b r] eqn:Hr.
  { apply (f_equal reverse) in Hr. rewrite reverse_involutive in Hr. subst. done. }
  rewrite trim_left_loop_plain.
  - by rewrite <- Hr, reverse_involutive.
  - by repeat constructor.
  - rewrite Forall_forall in Hs. apply Hs, elem_of_reverse. rewrite Hr. by left.
Qed.

Lemma to_upper_digits s : Forall (λ b, is_digit b = true) s → to_upper s = s.
Proof.
  intros Hs. unfold to_upper. induction Hs as [|b s Hb Hs IH]; [done|].
  cbn [fmap list_fmap]. rewrite IH. f_equal. unfold to_upper_byte.
  unfold is_digit in Hb. apply bool_decide_eq_true in Hb. rewrite bool_decide_eq_false_2; [done|lia].
Qed.

Lemma has_suffix_app s t : has_suffix (s ++ t) t = true.
Proof. unfold has_suffix. rewrite reverse_app. apply has_prefix_app. Qed.

Lemma trim_suffix_app s t : trim_suffix (s ++ t) t = s.
Proof.
  unfold trim_suffix. rewrite has_suffix_app, length_app.
  replace (length s + length t - length t)%nat with (length s) by lia. apply take_app_length.
Qed.

Lemma has_suffix_last s c d t : c ≠ d → has_suffix (s ++ [c]) (t ++ [d]) = false.
Proof.
  intros Hcd. unfold has_suffix. rewrite !reverse_snoc. cbn [has_prefix].
  repeat case_decide; naive_solver.
Qed.

Lemma itoa_digits n : 0 <= n → Forall (λ b, is_digit b = true) (itoa n).
Proof.
  intros Hn. pose proof (itoa_chars n) as H. apply Forall_forall. intros b Hb.
  rewrite Forall_forall in H. destruct (H b Hb) as [| ->]; [done|].
  unfold itoa in Hb. rewrite bool_decide_eq_false_2 in Hb by lia.
  pose proof (digits_spec n Hn) as Hs. cbv zeta in Hs. destruct Hs as (_ & Hd & _).
  rewrite Forall_forall in Hd. by apply Hd.
Qed.

Lemma split_two (p n : bytes) : ("/"%byte ∉ p) → ("/"%byte ∉ n) → GoStrings.split "/"%byte (p ++ #"/" ++ n) = [p; n].
Proof.
  intros Hp Hn. change (#"/" ++ n) with ("/"%byte :: n).
  assert (Hi : index_byte (p ++ "/"%byte :: n) "/"%byte = Some (length p)).
  { apply index_byte_Some. rewrite list_lookup_middle, take_app_length by done. done. }
  assert (Hn' : index_byte n "/"%byte = None) by by apply index_byte_None.
  unfold GoStrings.split. rewrite length_app. cbn [length]. rewrite Nat.add_succ_r.
  cbn [split_n]. rewrite Hi, take_app_length, drop_after.
  destruct (length p + length n)%nat; [done|]. by rewrite Hn'.
Qed.

(** ** Properties *)

Definition units : list (bytes * Z) :=
  [([], 1); (#"KB", kilobyte); (#"kb", kilobyte); (#"MB", megabyte); (#"mb", megabyte);
   (#"GB", gigabyte); (#"gb", gigabyte)].

(** The digits of a number end with none of the units. *)
Lemma itoa_no_unit n suffix :
  0 <= n → suffix ∈ [ #"GB"; #"MB"; #"KB"] → has_suffix (itoa n) suffix = false.
Proof.
  intros Hn Hs. pose proof (itoa_digits n Hn) as Hd. destruct (itoa n) as [|b s _] eqn:E using rev_ind.
  { by apply itoa_nonempty in E. }
  apply Forall_app in Hd as [_ [Hb _]%Forall_cons].
  assert (Hx : ∀ t, has_suffix (s ++ [b]) (t ++ #"B") = false)
    by (intros t; apply has_suffix_last; intros ->; by vm_compute in Hb).
  rewrite !elem_of_cons, elem_of_nil in Hs. destruct_or!; simplify_eq; [apply (Hx #"G")|apply (Hx #"M")|apply (Hx #"K")].
Qed.

(** A number with a unit is their product, cut to an [int64]. *)
Lemma ParseSize_wraps n u mult :
  0 <= n <= max_i64 → (u, mult) ∈ units → ParseSize (itoa n ++ u) = Ok (wrap_i64 (n * mult)).
Proof.
  intros Hn Hu.
  pose proof (itoa_digits n ltac:(lia)) as Hd. pose proof (itoa_nonempty n) as Hne.
  assert (Hint : parse_int (itoa n) = (n, None)).
  { apply parse_int_itoa. unfold in_i64, min_i64, max_i64 in *. lia. }
  unfold ParseSize. rewrite decide_False by (intros [? _]%app_eq_nil; done).
  rewrite trim_space_plain.
  2: { apply Forall_app. split.
       - eapply Forall_impl; [exact Hd|]. intros b Hb. unfold plain. by rewrite Hb.
       - unfold units in Hu. rewrite !elem_of_cons, elem_of_nil in Hu.
         destruct_or!; simplify_eq; repeat constructor. }
  assert (Hnum : ∀ suffix, suffix ∈ [ #"GB"; #"MB"; #"KB"] → has_suffix (itoa n) suffix = false)
    by (intros; apply itoa_no_unit; [lia|done]).
  assert (Hap : ∀ a b, a ∈ [ #"GB"; #"MB"; #"KB"] → b ∈ [ #"GB"; #"MB"; #"KB"] →
    has_suffix (itoa n ++ a) b = bool_decide (a = b)).
  { intros a b Ha Hb. unfold has_suffix. rewrite reverse_app.
    rewrite !elem_of_cons, elem_of_nil in Ha, Hb. destruct_or!; simplify_eq; reflexivity. }
  unfold to_upper. rewrite fmap_app. fold (to_upper (itoa n)). rewrite to_upper_digits by done.
  assert (Hup : (u = [] ∧ mult = 1) ∨ ∃ a, to_upper_byte <$> u = a ∧
    (a, mult) ∈ [(#"GB", gigabyte); (#"MB", megabyte); (#"KB", kilobyte)]).
  { unfold units in Hu. rewrite !elem_of_cons, elem_of_nil in Hu.
    destruct_or!; simplify_eq; [by left|..]; right; eexists; (split; [reflexivity|]);
      apply (bool_decide_unpack _); vm_compute; done. }
  destruct Hup as [[-> ->]|(a & -> & Ha)].
  - cbn [fmap list_fmap]. rewrite app_nil_r, !Hnum by (rewrite !elem_of_cons; tauto).
    by rewrite Hint, bool_decide_eq_false_2 by lia.
  - rewrite !elem_of_cons, elem_of_nil in Ha.
    rewrite !Hap by (rewrite !elem_of_cons; naive_solver).
    destruct_or!; simplify_eq;
      repeat match goal with
      | |- context [@bool_decide (@eq bytes ?a ?b) ?d] =>
          let r := eval vm_compute in (@bool_decide (@eq bytes a b) d) in
          change (@bool_decide (@eq bytes a b) d) with r; cbn match
      end;
      by rewrite trim_suffix_app, Hint, bool_decide_eq_false_2 by lia.
Qed.

(** A number with a unit in either case parses to their product when that fits an [int64];
    when it does not, no error is reported and the size wraps around: to a negative one, or to 0,
    which means no limit. *)
Theorem ParseSize_units n u mult :
  0 <= n <= max_i64 → (u, mult) ∈ units →
  ParseSize (itoa n ++ u) = Ok (wrap_i64 (n * mult)) ∧
  (n * mult <= max_i64 → ParseSize (itoa n ++ u) = Ok (n * mult)) ∧
  (max_i64 < n * mult → ∃ m, ParseSize (itoa n ++ u) = Ok m ∧ m ≠ n * mult) ∧
  ParseSize #"8589934592GB" = Ok min_i64 ∧ ParseSize #"17179869184GB" = Ok 0.
Proof.
  intros Hn Hu.
  pose proof (ParseSize_wraps n u mult Hn Hu) as H.
  split_and!; [done| | |vm_compute; reflexivity|vm_compute; reflexivity].
  - intros Hle. rewrite H, wrap_i64_id; [done|]. unfold in_i64, min_i64, two63.
    unfold units, kilobyte, megabyte, gigabyte in Hu. rewrite !elem_of_cons, elem_of_nil in Hu.
    destruct_or!; simplify_eq; lia.
  - intros Hgt. eexists. split; [exact H|]. pose proof (wrap_i64_range (n * mult)) as [_ Hr]. lia.
Qed.

Lemma ParseSize_units_witness :
  0 <= 512 <= max_i64 ∧ (#"KB", kilobyte) ∈ units ∧ ParseSize #"512KB" = Ok 524288.
Proof.
  assert (H1 : 0 <= 512 <= max_i64) by (vm_compute; split; discriminate).
  assert (H2 : (#"KB", kilobyte) ∈ units) by (right; left).
  split; [exact H1|]. split; [exact H2|].
  exact (proj1 (proj2 (ParseSize_units 512 #"KB" kilobyte H1 H2)) ltac:(vm_compute; discriminate)).
Defined.

(** C37: the file of a scrollback writer is the beginning of what was written, up to the cap and
    however the writes are cut, and no write fails for reaching it.  Whatever the operating system
    does, the counts reported add up to the length of the file, which stays within the cap. *)
Theorem scrollback_is_capped_prefix fs p max w0 fs' l :
  NewWriter fs p max = (Ok w0, fs') →
  let (rs, w) := write_all w0 l in
  Z.of_nat (length (file w)) = Written w ∧ Written w = sum (fst <$> rs) ∧
  (0 < max → Written w <= max) ∧
  (Forall (λ x, fst x = None) l →
    Forall (λ r, snd r = None) rs ∧ file w = capped max (concat (snd <$> l))).
Proof.
  unfold NewWriter. destruct (WriteFile fs p []) as [[[]|] ?]; [|done]. intros [= <- <-].
  assert (Hi : writer_inv (mkWriter [] 0 max false)) by (split_and!; cbn; [done|done|lia]).
  pose proof (write_all_spec l _ Hi) as H. destruct (write_all _ l) as [rs w].
  destruct H as ((Hc & Hlen & Hcap) & Hm & Hn & Hf). cbn in *. unfold Written.
  split_and!; [done|done|by rewrite <- Hm|]. intros Hl. destruct (Hf Hl) as [Hrs <-].
  split; [done|]. unfold capped. case_bool_decide; [|done]. rewrite take_ge; [done|].
  rewrite Hm in Hcap. specialize (Hcap H). lia.
Qed.

Definition demo_writer : result Writer * FS :=
  NewWriter (mkFS {[ [ #"h"] := EDir ]} ∅) [ #"h"; #"scrollback.bin"] 5.

Lemma scrollback_is_capped_prefix_witness :
  demo_writer = (Ok (mkWriter [] 0 5 false), snd demo_writer) ∧
  file (snd (write_all (mkWriter [] 0 5 false) [(None, #"abc"); (None, #"def"); (None, #"g")])) =
    #"abcde".
Proof.
  assert (Hd : demo_writer = (Ok (mkWriter [] 0 5 false), snd demo_writer)) by (vm_compute; reflexivity).
  split; [exact Hd|].
  pose proof (scrollback_is_capped_prefix _ _ _ _ _ [(None, #"abc"); (None, #"def"); (None, #"g")] Hd) as H.
  destruct (write_all _ _) as [rs w]. destruct H as (_ & _ & _ & H). cbn [snd].
  rewrite (proj2 (H ltac:(repeat constructor))). vm_compute. reflexivity.
Defined.

(** Nothing of the rest of a sorted list comes before a prefix. *)
Lemma prefix_is_first {A} (R : A → A → Prop) (l : list A) k x y :
  StronglySorted R l → x ∈ take k l → y ∈ drop k l → R x y.
Proof.
  intros Hs Hx Hy. rewrite <- (take_drop k l) in Hs. induction (take k l) as [|z t IH]; [by apply elem_of_nil in Hx|].
  cbn in Hs. apply StronglySorted_inv in Hs as [Ht Hz]. apply elem_of_cons in Hx as [->|Hx]; [|by apply IH].
  rewrite Forall_forall in Hz. apply Hz, elem_of_app. by right.
Qed.

(** C39: eviction removes the directories of completed sessions only, the ones that ended first,
    and no more than needed: before each removal the listed total was over the limit.  When it
    returns without an error the total is within the limit or no completed session is left; when
    it fails, a directory could not be removed.  Nothing outside the removed directories changes. *)
Theorem EvictLRU_correct unmarshal sort_slice fs base maxTotal dirs :
  ListSessionDirs unmarshal fs base = Ok dirs →
  (∀ l, sort_slice l ≡ₚ l ∧ StronglySorted (λ x y, ¬ ended_before y x) (sort_slice l)) →
  ∃ evicted err fs',
    EvictLRU unmarshal sort_slice fs base maxTotal = (err, fs') ∧
    NoDup evicted ∧ evicted ⊆ filter (λ d, info_EndedAt d ≠ None) dirs ∧
    removed evicted fs fs' ∧
    ListSessionDirs unmarshal fs' base = Ok (filter (λ d, d ∉ evicted) dirs) ∧
    (∀ d d', d ∈ evicted → d' ∈ dirs → (d' ∉ evicted) → info_EndedAt d' ≠ None → ¬ ended_before d' d) ∧
    (∀ j, (j < length evicted)%nat →
      maxTotal < sum (Size <$> filter (λ d, d ∉ take j evicted) dirs)) ∧
    (err = None → sum (Size <$> filter (λ d, d ∉ evicted) dirs) <= maxTotal ∨
      ∀ d, d ∈ dirs → (d ∉ evicted) → info_EndedAt d = None) ∧
    (∀ e, err = Some e → ∃ d, d ∈ dirs ∧ (d ∉ evicted) ∧ Path d ∈ locked fs).
Proof.
  intros Hls Hsort. unfold EvictLRU. rewrite Hls.
  pose proof (listed_NoDup _ _ _ _ Hls) as Hnd.
  case_bool_decide as Htot.
  { exists [], None, fs. assert (Hall : filter (λ d, d ∉ []) dirs = dirs).
    { apply filter_all, Forall_forall. intros d _. apply not_elem_of_nil. }
    rewrite Hall. split_and!; try done; [constructor|by intros ? ?%elem_of_nil| | |cbn; lia|by left].
    - split; [done|]. symmetry. apply map_filter_id. by constructor.
    - by intros ? ? ?%elem_of_nil. }
  destruct (Hsort (filter (λ d, info_EndedAt d ≠ None) dirs)) as [Hperm Hsorted].
  set (l := sort_slice _) in *.
  destruct (evict_loop_spec l fs (sum (Size <$> dirs)) maxTotal)
    as (k & err & fs' & He & Hk & Hr & Hj & Hn & Hs).
  assert (Hndl : NoDup l) by (rewrite Hperm; by apply NoDup_filter).
  assert (Hndk : ∀ j, NoDup (take j l)) by (intros j; eapply sublist_NoDup; [done|apply sublist_take]).
  assert (Hin : ∀ j d, d ∈ take j l → d ∈ filter (λ d, info_EndedAt d ≠ None) dirs).
  { intros j d Hd. rewrite <- Hperm. eapply elem_of_sublist; [done|apply sublist_take]. }
  assert (Hin' : ∀ j, take j l ⊆ dirs) by (intros j d Hd; by apply Hin, list_elem_of_filter in Hd as [_ ?]).
  assert (Htotal : ∀ j, sum (Size <$> dirs) - sum (Size <$> take j l) =
    sum (Size <$> filter (λ d, d ∉ take j l) dirs)).
  { intros j. pose proof (split_by_membership dirs (take j l) Hnd (Hndk j) (Hin' j)) as Hp.
    apply (fmap_Permutation Size) in Hp. rewrite Hp at 1. rewrite fmap_app, sum_app. lia. }
  exists (take k l), err, fs'. split_and!; try done.
  - intros d. apply Hin.
  - by apply (list_removed unmarshal _ fs).
  - intros d d' Hd Hd' Hne Hend. assert (Hd'l : d' ∈ drop k l).
    { assert (Hx : d' ∈ l) by (rewrite Hperm; by apply list_elem_of_filter).
      rewrite <- (take_drop k l), elem_of_app in Hx. by destruct Hx. }
    by apply (prefix_is_first _ l k d d' Hsorted).
  - rewrite length_take_le by done. intros j Hlt. rewrite take_take, Nat.min_l by lia.
    rewrite <- Htotal. by apply Hj.
  - intros Herr. destruct (Hn Herr) as [->|Hle]; [right|left; by rewrite <- Htotal].
    rewrite take_ge by done. intros d Hd Hni. destruct (decide (info_EndedAt d = None)) as [|Hne]; [done|].
    exfalso. apply Hni. rewrite Hperm. by apply list_elem_of_filter.
  - intros e Herr. destruct (Hs e Herr) as (d & Hd & Hlock). exists d. split_and!; [| |done].
    + assert (Hx : d ∈ l) by by eapply list_elem_of_lookup_2.
      rewrite Hperm in Hx. by apply list_elem_of_filter in Hx as [_ ?].
    + intros Hx. rewrite <- (take_drop_middle _ _ _ Hd) in Hndl.
      apply NoDup_app in Hndl as (_ & Hdis & _). apply (Hdis d Hx). by left.
Qed.

(** The directory of a session whose identifier has a prefix lies two levels below the base
    directory, where neither the listing nor the eviction looks: unless a session is named like
    the prefix, nothing listed contains it, its size is not counted and eviction never frees it,
    however much it holds and however long ago it ended. *)
Theorem prefixed_sessions_are_never_evicted unmarshal sort_slice fs base prefix name maxTotal dirs :
  ValidatePrefix prefix = None → ValidateSessionID name = None → ("/"%byte ∉ name) →
  clean base = base → entries fs !! (base ++ [prefix; metaFileName]) = None →
  (∀ l, sort_slice l ≡ₚ l) →
  ListSessionDirs unmarshal fs base = Ok dirs →
  let dir := join_path base (prefix ++ #"/" ++ name) in
  dir = base ++ [prefix; name] ∧
  (∀ d, d ∈ dirs → ¬ Path d `prefix_of` dir) ∧
  ∀ q, entries (snd (EvictLRU unmarshal sort_slice fs base maxTotal)) !! (dir ++ q) =
    entries fs !! (dir ++ q).
Proof.
  intros Hp [Hne Hn]%ValidateSessionID_iff Hs Hb Hm Hsort Hls.
  apply ValidatePrefix_iff in Hp as (Hpne & _ & Hpc).
  assert (Hps : "/"%byte ∉ prefix).
  { intros Hin. rewrite Forall_forall in Hpc. specialize (Hpc _ Hin). by vm_compute in Hpc. }
  assert (Hall : Forall (λ b, isAllowedIDRune b = true) (prefix ++ #"/" ++ name)).
  { rewrite !Forall_app. split_and!; [|by repeat constructor|done].
    eapply Forall_impl; [exact Hpc|]. apply allowed_prefix_ID. }
  assert (Hd : join_path base (prefix ++ #"/" ++ name) = base ++ [prefix; name]).
  { unfold join_path, clean. rewrite foldl_app. unfold clean in Hb. rewrite Hb.
    rewrite clean_no_dots by (by apply split_no_dot, allowed_no_dot).
    by rewrite split_two, !filter_cons_True. }
  assert (Hnp : ∀ d, d ∈ dirs → ∀ q, ¬ Path d `prefix_of` base ++ prefix :: q).
  { intros d Hin q. destruct (listed_member _ _ _ _ _ Hls Hin) as (n & -> & Hone).
    rewrite child_prefix. intros ->. unfold list_one, ReadMetadata, ReadFile in Hone.
    cbn [fst snd] in Hone. rewrite <- app_assoc in Hone. cbn [app] in Hone. rewrite Hm in Hone. by case_decide. }
  cbv zeta. rewrite Hd. split_and!; [done|intros d Hin; by apply Hnp|]. intros q.
  unfold EvictLRU. rewrite Hls. case_bool_decide; [done|].
  destruct (evict_loop_spec (sort_slice (filter (λ d, info_EndedAt d ≠ None) dirs)) fs
    (sum (Size <$> dirs)) maxTotal) as (k & err & fs' & -> & _ & [_ Hr] & _).
  cbn [snd]. rewrite Hr. apply option_eq. intros e. rewrite map_lookup_filter_Some.
  split; [by intros []|]. intros He. split; [done|]. apply Forall_forall. intros d Hin.
  cbn. rewrite <- app_assoc. apply Hnp.
  assert (Hx : d ∈ sort_slice (filter (λ d, info_EndedAt d ≠ None) dirs))
    by (eapply elem_of_sublist; [done|apply sublist_take]).
  rewrite Hsort in Hx. by apply list_elem_of_filter in Hx as [_ ?].
Qed.

(** A toy syntax of metadata for the examples: the identifier, and the end time
    as one byte. *)
Definition demo_unmarshal (data : bytes) : result Metadata :=
  match data with
  | [b] => Ok (mkMetadata [b] [] [] 0 0 0 None None)
  | [b; t] => Ok (mkMetadata [b] [] [] 0 0 0 (Some (byte_val t)) (Some 0))
  | _ => Err (ENew #"json")
  end.

Definition demo_marshal (m : Metadata) : result bytes :=
  Ok (take 1 (SessionID m) ++ from_option (λ t, [byte_of t]) [] (EndedAt m)).

#[export] Instance ended_le_dec : RelDecision (λ x y, ¬ ended_before y x).
Proof. intros x y. unfold ended_before. apply _. Defined.

#[export] Instance ended_le_total : Total (λ x y, ¬ ended_before y x).
Proof. intros x y. unfold ended_before. lia. Qed.

#[export] Instance ended_le_trans : Transitive (λ x y, ¬ ended_before y x).
Proof. intros x y z. unfold ended_before. lia. Qed.

Definition demo_sort : list SessionDirInfo → list SessionDirInfo :=
  merge_sort (λ x y, ¬ ended_before y x).

Lemma demo_sort_spec l :
  demo_sort l ≡ₚ l ∧ StronglySorted (λ x y, ¬ ended_before y x) (demo_sort l).
Proof. split; [apply merge_sort_Permutation|apply StronglySorted_merge_sort; apply _]. Qed.

(** Three sessions: [a] runs, [b] ended at 5 and [c] at 3. *)
Definition demo_fs : FS :=
  mkFS (list_to_map
    [([ #"h"], EDir);
     ([ #"h"; #"a"], EDir); ([ #"h"; #"a"; metaFileName], EFile #"a"); ([ #"h"; #"a"; #"s"], EFile #"aaaa");
     ([ #"h"; #"b"], EDir); ([ #"h"; #"b"; metaFileName], EFile [x62; x05]);
     ([ #"h"; #"c"], EDir); ([ #"h"; #"c"; metaFileName], EFile [x63; x03]);
     ([ #"h"; #"c"; #"s"], EFile #"cc")]) ∅.

Definition demo_dirs : list SessionDirInfo :=
  [mkInfo [ #"h"; #"a"] #"a" None 5; mkInfo [ #"h"; #"b"] #"b" (Some 5) 2;
   mkInfo [ #"h"; #"c"] #"c" (Some 3) 4].

Lemma EvictLRU_correct_witness :
  ListSessionDirs demo_unmarshal demo_fs [ #"h"] = Ok demo_dirs ∧
  ListSessionDirs demo_unmarshal (snd (EvictLRU demo_unmarshal demo_sort demo_fs [ #"h"] 8)) [ #"h"] =
    Ok (take 2 demo_dirs) ∧
  ∃ evicted err fs',
    EvictLRU demo_unmarshal demo_sort demo_fs [ #"h"] 8 = (err, fs') ∧ removed evicted demo_fs fs'.
Proof.
  assert (Hl : ListSessionDirs demo_unmarshal demo_fs [ #"h"] = Ok demo_dirs) by (vm_compute; reflexivity).
  split; [exact Hl|]. split; [vm_compute; reflexivity|].
  destruct (EvictLRU_correct demo_unmarshal demo_sort demo_fs [ #"h"] 8 demo_dirs Hl demo_sort_spec)
    as (evicted & err & fs' & He & _ & _ & Hr & _).
  exists evicted, err, fs'. split; [exact He|exact Hr].
Defined.

(** An old session [b] under the prefix [p], far over a limit of 1. *)
Definition demo_prefixed : FS :=
  mkFS (list_to_map
    [([ #"h"], EDir); ([ #"h"; #"p"], EDir); ([ #"h"; #"p"; #"b"], EDir);
     ([ #"h"; #"p"; #"b"; metaFileName], EFile [x62; x05]);
     ([ #"h"; #"p"; #"b"; #"s"], EFile #"cccccccc")]) ∅.

Lemma prefixed_sessions_are_never_evicted_witness :
  ListSessionDirs demo_unmarshal demo_prefixed [ #"h"] = Ok [] ∧
  ReadMetadata demo_unmarshal demo_prefixed [ #"h"; #"p"; #"b"] =
    Ok (mkMetadata #"b" [] [] 0 0 0 (Some 5) (Some 0)) ∧
  entries (snd (EvictLRU demo_unmarshal demo_sort demo_prefixed [ #"h"] 1))
    !! [ #"h"; #"p"; #"b"; #"s"] = Some (EFile #"cccccccc").
Proof.
  assert (Hl : ListSessionDirs demo_unmarshal demo_prefixed [ #"h"] = Ok []) by (vm_compute; reflexivity).
  split; [exact Hl|]. split; [vm_compute; reflexivity|].
  assert (Hs : "/"%byte ∉ #"b") by (apply (bool_decide_unpack _); exact I).
  destruct (prefixed_sessions_are_never_evicted demo_unmarshal demo_sort demo_prefixed [ #"h"]
    #"p" #"b" 1 [] eq_refl eq_refl Hs eq_refl ltac:(vm_compute; reflexivity)
    (λ l, proj1 (demo_sort_spec l)) Hl) as (Hd & _ & H).
  specialize (H [ #"s"]). rewrite Hd in H. exact H.
Defined.
