(* ===== verification/Recording.v ===== *)
(** * Session recordings: [internal/platform/recording]

    The asciinema writer: a header line, then one line per chunk of output,
    until the size limit.  A line is the JSON of [[elapsed, "o", data]]; how
    [encoding/json] prints a float and escapes a string is a parameter.  The
    header has integers and a fixed string only and is written out. *)

From S2P Require Import Prelude GoStrings Files History.

#[local] Open Scope Z_scope.

Definition ErrRecordingClosed : error := ENew #"recording: writer closed".

Definition ErrSizeLimitReached : error := ENew #"recording: size limit reached".

Definition quoted (s : bytes) : bytes := [x22] ++ s ++ [x22].

Definition field (key value : bytes) : bytes := quoted key ++ #":" ++ value.

(** [json.Marshal] of the header and the newline. *)
Definition header (cols rows timestamp : Z) : bytes :=
  #"{" ++ join #"," [field #"version" (itoa 2); field #"width" (itoa cols);
    field #"height" (itoa rows); field #"timestamp" (itoa timestamp);
    field #"env" (#"{" ++ field #"TERM" (quoted #"xterm-256color") ++ #"}")] ++ #"}" ++ [x0a].

(** [file] is what the file holds, [file_open] tells whether the descriptor is
    still open. *)
Record Writer := mkWriter {
  file : bytes;
  file_open : bool;
  path_ : path;
  startTime : time;
  written : Z;
  maxSize : Z;
  closed : bool;
}.

(** [Unix()] of a time. *)
Definition unix (t : time) : Z := t / 10 ^ 9.

Definition NewWriter (fs : FS) (p : path) (cols rows max : Z) (now : time) (f : fault) :
    result Writer * FS :=
  match WriteFile fs p [] with
  | (Err e, fs) => (Err (EWrap #"recording: open" e), fs)
  | (Ok _, fs) =>
      let headerBytes := header cols rows (unix now) in
      match os_write f headerBytes with
      | (_, Some e) => (Err (EWrap #"recording: write header" e), fs)
      | (n, None) => (Ok (mkWriter headerBytes true p now (Z.of_nat n) max false), fs)
      end
  end.

(** [w.closed = true; _ = w.file.Close()]. *)
Definition shut (w : Writer) : Writer :=
  mkWriter (file w) false (path_ w) (startTime w) (written w) (maxSize w) true.

Definition append_line (w : Writer) (line : bytes) (n : nat) : Writer :=
  mkWriter (file w ++ take n line) (file_open w) (path_ w) (startTime w)
    (written w + Z.of_nat n) (maxSize w) (closed w).

Definition Path (w : Writer) : path := path_ w.

(** [e] is what the operating system's close returns. *)
Definition Close (e : option error) (w : Writer) : option error * Writer :=
  if closed w then (None, w) else (EWrap #"recording: close" <$> e, shut w).

Section Lines.

(** [json.Marshal([3]any{elapsed, "o", data})], [elapsed] in nanoseconds. *)
Context (marshal : Z → bytes → result bytes).

Definition Write (f : fault) (now : time) (w : Writer) (p : bytes) : (Z * option error) * Writer :=
  if closed w then ((0, Some ErrRecordingClosed), w)
  else if bool_decide (0 < maxSize w) && bool_decide (maxSize w <= written w)
  then ((0, Some ErrSizeLimitReached), w)
  else
    match marshal (time_sub now (startTime w)) p with
    | Err e => ((0, Some (EWrap #"recording: marshal event" e)), w)
    | Ok event =>
        let line := event ++ [x0a] in
        if bool_decide (0 < maxSize w) && bool_decide (maxSize w < written w + Z.of_nat (length line))
        then ((0, Some ErrSizeLimitReached), shut w)
        else
          match os_write f line with
          | (n, Some e) => ((0, Some (EWrap #"recording: write event" e)), append_line w line n)
          | (n, None) => ((Z.of_nat (length p), None), append_line w line n)
          end
    end.

(** A run of writes, each at its time. *)
Fixpoint write_all (w : Writer) (l : list (fault * time * bytes)) :
    list (Z * option error) * Writer :=
  match l with
  | [] => ([], w)
  | (f, now, p) :: l =>
      let (r, w) := Write f now w p in
      let (rs, w) := write_all w l in (r :: rs, w)
  end.

(** The line of one chunk. *)
Definition line_of (start : time) (x : fault * time * bytes) : bytes :=
  match marshal (time_sub (snd (fst x)) start) (snd x) with
  | Ok event => event ++ [x0a]
  | Err _ => []
  end.

(** The chunk is written by the operating system in full, and it can be encoded. *)
Definition smooth (start : time) (x : fault * time * bytes) : Prop :=
  fst (fst x) = None ∧ is_ok (marshal (time_sub (snd (fst x)) start) (snd x)) = true.

End Lines.

(** ** Lemmas *)

Definition writer_inv (w : Writer) : Prop :=
  Z.of_nat (length (file w)) = written w ∧ (0 < maxSize w → closed w = true → file_open w = false).

(** What the writer reports for a chunk it has recorded. *)
Definition accepted (x : fault * time * bytes) : Z * option error := (Z.of_nat (length (snd x)), None).

(** The limit stops a writer: it has shut its file, or it is full to the byte. *)
Definition stopped (w : Writer) : Prop :=
  closed w = true ∨ (0 < maxSize w ∧ maxSize w <= written w).

Lemma Write_stopped marshal f now w p :
  stopped w → ∃ e, (e = ErrRecordingClosed ∨ e = ErrSizeLimitReached) ∧
    Write marshal f now w p = ((0, Some e), w).
Proof.
  intros Hs. unfold Write. destruct (closed w) eqn:Hc; [by eauto|].
  destruct Hs as [|[H1 H2]]; [congruence|].
  rewrite !bool_decide_eq_true_2 by done. cbn. eauto.
Qed.

Lemma write_all_stopped marshal w l :
  stopped w → ∃ rs, write_all marshal w l = (rs, w) ∧ length rs = length l ∧
    Forall (λ r, snd r = Some ErrRecordingClosed ∨ snd r = Some ErrSizeLimitReached) rs.
Proof.
  intros Hs. induction l as [|[[f now] p] l (rs & IH & Hl & HF)]; cbn [write_all]; [by exists []|].
  destruct (Write_stopped marshal f now w p Hs) as (e & He & ->). rewrite IH.
  exists ((0, Some e) :: rs). split_and!; [done|cbn; lia|]. constructor; [|done].
  cbn. destruct He; subst; auto.
Qed.

Lemma write_all_bound marshal w l :
  Z.of_nat (length (file w)) = written w →
  let w' := snd (write_all marshal w l) in
  Z.of_nat (length (file w')) = written w' ∧ maxSize w' = maxSize w ∧
  (0 < maxSize w → written w <= maxSize w → written w' <= maxSize w).
Proof.
  revert w. induction l as [|[[f now] p] l IH]; intros w Hw; [done|]. cbn [write_all].
  assert (Hstep : let w' := snd (Write marshal f now w p) in
    Z.of_nat (length (file w')) = written w' ∧ maxSize w' = maxSize w ∧
    (0 < maxSize w → written w <= maxSize w → written w' <= maxSize w)).
  { unfold Write. destruct (closed w); [done|].
    destruct (bool_decide (0 < maxSize w) && bool_decide (maxSize w <= written w)); [done|].
    destruct (marshal _ p) as [ev|e]; [|done].
    destruct (bool_decide_reflect (0 < maxSize w)); cbn [andb].
    - case_bool_decide; [done|]. destruct f as [[k e]|]; cbn [os_write snd]; unfold append_line; cbn;
        rewrite length_app, length_take; split_and!; intros; try done; lia.
    - destruct f as [[k e]|]; cbn [os_write snd]; unfold append_line; cbn;
        rewrite length_app, length_take; split_and!; intros; try done; lia. }
  destruct (Write marshal f now w p) as [r w1]. cbn in Hstep. destruct Hstep as (H1 & H2 & H3).
  specialize (IH w1 H1). destruct (write_all marshal w1 l) as [rs w2]. cbn in *.
  destruct IH as (H4 & H5 & H6). rewrite H2 in H5, H6. split_and!; [done|done|auto].
Qed.

Lemma write_all_lines marshal w l :
  closed w = false → Forall (smooth marshal (startTime w)) l →
  ∃ k rs, (k ≤ length l)%nat ∧ length rs = (length l - k)%nat ∧
    let w' := snd (write_all marshal w l) in
    fst (write_all marshal w l) = map accepted (take k l) ++ rs ∧
    file w' = file w ++ concat (map (line_of marshal (startTime w)) (take k l)) ∧
    Forall (λ r, snd r = Some ErrRecordingClosed ∨ snd r = Some ErrSizeLimitReached) rs ∧
    (∀ x, l !! k = Some x → 0 < maxSize w ∧
      maxSize w < written w + Z.of_nat (length (concat (map (line_of marshal (startTime w)) (take (S k) l))))).
Proof.
  revert w. induction l as [|[[f now] p] l IH]; intros w Hc Hl.
  { exists 0%nat, []. cbn. rewrite app_nil_r. split_and!; try done. }
  apply Forall_cons in Hl as [[Hf Hm] Hl]. cbn in Hf, Hm. subst f.
  cbn [write_all]. destruct (Write marshal None now w p) as [r w1] eqn:Hw.
  assert (Hcase : (stopped w1 ∧ file w1 = file w ∧
      (snd r = Some ErrRecordingClosed ∨ snd r = Some ErrSizeLimitReached) ∧
      0 < maxSize w ∧ maxSize w < written w + Z.of_nat (length (line_of marshal (startTime w) (None, now, p)))) ∨
    (w1 = append_line w (line_of marshal (startTime w) (None, now, p))
       (length (line_of marshal (startTime w) (None, now, p))) ∧ r = accepted (None, now, p))).
  { unfold Write in Hw. rewrite Hc in Hw. unfold line_of. cbn [fst snd].
    destruct (marshal _ p) as [ev|e]; [|done].
    destruct (bool_decide_reflect (0 < maxSize w)) as [Hp|Hp]; cbn [andb] in Hw.
    - destruct (bool_decide_reflect (maxSize w <= written w)).
      { simplify_eq. left. rewrite length_app. cbn [length snd].
        split_and!; [by right|done|by right|done|lia]. }
      case_bool_decide; cbn [os_write] in Hw; simplify_eq; [left|by right].
      split_and!; [by left|done|by right|done|done].
    - cbn [os_write] in Hw. simplify_eq. by right. }
  destruct Hcase as [(Hs & Hfile & Hr & Hpos & Hbig)|[-> ->]].
  - destruct (write_all_stopped marshal w1 l Hs) as (rs & -> & Hlen & HF).
    exists 0%nat, (r :: rs). cbn [take map concat app fst snd]. rewrite app_nil_r.
    split_and!; [lia|cbn; lia|done|done|by constructor|].
    intros x _. split; [done|]. by rewrite app_nil_r.
  - set (line := line_of _ _ _) in *.
    destruct (IH (append_line w line (length line)) Hc Hl) as (k & rs & Hk & Hlen & H1 & H2 & H3 & H4).
    destruct (write_all marshal (append_line w line (length line)) l) as [rs' w'].
    cbn [fst snd startTime append_line maxSize written file] in *.
    exists (S k), rs. cbn [length take map concat]. rewrite H1, H2, firstn_all. fold line.
    split_and!; [lia|lia|done|by rewrite <- app_assoc|done|].
    intros x Hx. destruct (H4 x Hx) as [Hp Hb]. split; [done|].
    cbn [take map concat] in Hb |- *. rewrite length_app. lia.
Qed.

(** ** Properties *)

(** When the operating system writes what it is given, a recording is the header followed by
    whole lines, one for each chunk of a beginning of the output, in order; these writes report the
    whole chunk.  Every later write reports the limit or the closed recording, and recording stops
    only at a chunk whose line does not fit any more.  Whatever the operating system does, a header
    within the limit means a file within the limit. *)
Theorem recording_is_whole_lines (marshal : Z → bytes → result bytes) fs p cols rows max now w fs'
    (l : list (fault * time * bytes)) :
  NewWriter fs p cols rows max now None = (Ok w, fs') →
  let h := header cols rows (unix now) in
  let (rs, w') := write_all marshal w l in
  Z.of_nat (length (file w')) = written w' ∧
  (0 < max → Z.of_nat (length h) <= max → Z.of_nat (length (file w')) <= max) ∧
  (Forall (smooth marshal now) l →
   ∃ k late, (k ≤ length l)%nat ∧ rs = map accepted (take k l) ++ late ∧
     length late = (length l - k)%nat ∧
     file w' = h ++ concat (map (line_of marshal now) (take k l)) ∧
     Forall (λ r, snd r = Some ErrRecordingClosed ∨ snd r = Some ErrSizeLimitReached) late ∧
     ((k < length l)%nat → 0 < max ∧
       max < Z.of_nat (length (h ++ concat (map (line_of marshal now) (take (S k) l)))))).
Proof.
  unfold NewWriter. destruct (WriteFile fs p []) as [[[]|] ?]; [|done].
  cbv zeta. generalize (header cols rows (unix now)). intros h [= <- <-].
  set (w := mkWriter _ _ _ _ _ _ _).
  pose proof (write_all_bound marshal w l eq_refl) as Hb.
  pose proof (write_all_lines marshal w l eq_refl) as Hl.
  destruct (write_all marshal w l) as [rs w']. cbn in Hb. destruct Hb as (H1 & H2 & H3).
  split_and!; [done|intros Hp Hh; specialize (H3 Hp Hh); lia|].
  intros Hs. destruct (Hl Hs) as (k & late & Hk & Hlen & Hrs & Hfile & HF & Hlim). cbn [fst snd] in *.
  exists k, late. split_and!; try done. intros Hlt.
  destruct (lookup_lt_is_Some_2 l k Hlt) as [x Hx]. specialize (Hlim x Hx). cbn in Hlim.
  rewrite length_app. lia.
Qed.

(** A recording that reaches its limit to the byte stays open: the next write reports the
    limit, as for a recording it shuts, but leaves the file open and the writer unclosed. *)
Theorem recording_full_to_the_byte_stays_open marshal f now w p :
  closed w = false → 0 < maxSize w → written w = maxSize w →
  Write marshal f now w p = ((0, Some ErrSizeLimitReached), w) ∧
  closed (snd (Write marshal f now w p)) = false ∧
  file_open (snd (Write marshal f now w p)) = file_open w.
Proof.
  intros Hc Hp Hw.
  assert (H : Write marshal f now w p = ((0, Some ErrSizeLimitReached), w)).
  { unfold Write. rewrite Hc, Hw, (bool_decide_eq_true_2 (0 < maxSize w)) by done.
    by rewrite (bool_decide_eq_true_2 (maxSize w <= maxSize w)) by lia. }
  by rewrite H.
Qed.

(** The example prints the elapsed time in whole seconds and escapes nothing. *)
Definition demo_marshal (elapsed : Z) (data : bytes) : result bytes :=
  Ok (#"[" ++ join #"," [itoa (unix elapsed); quoted #"o"; quoted data] ++ #"]").

Definition demo_root : FS := mkFS {[ [ #"r"] := EDir ]} ∅.

(** The header of the example has 83 bytes, a line of one character 12. *)
Definition demo_writer (max : Z) : Writer :=
  mkWriter (header 80 24 0) true [ #"r"; #"c"] 0 83 max false.

Definition demo_chunks : list (fault * time * bytes) :=
  [(None, 10 ^ 9, #"a"); (None, 10 ^ 9, #"b"); (None, 10 ^ 9, #"c")].

Lemma recording_is_whole_lines_witness :
  ∃ fs', NewWriter demo_root [ #"r"; #"c"] 80 24 101 0 None = (Ok (demo_writer 101), fs') ∧
  Forall (smooth demo_marshal 0) demo_chunks ∧
  Z.of_nat (length (file (snd (write_all demo_marshal (demo_writer 101) demo_chunks)))) <= 101 ∧
  file (snd (write_all demo_marshal (demo_writer 101) demo_chunks)) =
    header 80 24 0 ++ line_of demo_marshal 0 (None, 10 ^ 9, #"a").
Proof.
  exists (snd (NewWriter demo_root [ #"r"; #"c"] 80 24 101 0 None)).
  assert (Hn : NewWriter demo_root [ #"r"; #"c"] 80 24 101 0 None =
    (Ok (demo_writer 101), snd (NewWriter demo_root [ #"r"; #"c"] 80 24 101 0 None)))
    by (vm_compute; reflexivity).
  split; [exact Hn|]. split; [repeat constructor|]. split; [|vm_compute; reflexivity].
  pose proof (recording_is_whole_lines demo_marshal _ _ _ _ _ _ _ _ demo_chunks Hn) as H. cbv zeta in H.
  destruct (write_all demo_marshal (demo_writer 101) demo_chunks) as [rs w'].
  destruct H as (_ & H & _). apply H; vm_compute; congruence.
Defined.

Lemma recording_full_to_the_byte_stays_open_witness :
  let w := snd (write_all demo_marshal (demo_writer 95) (take 1 demo_chunks)) in
  closed w = false ∧ written w = maxSize w ∧
  Write demo_marshal None (10 ^ 9) w #"b" = ((0, Some ErrSizeLimitReached), w) ∧ file_open w = true.
Proof.
  cbv zeta. split; [vm_compute; reflexivity|]. split; [vm_compute; reflexivity|].
  split; [|vm_compute; reflexivity].
  apply (recording_full_to_the_byte_stays_open demo_marshal None (10 ^ 9)); vm_compute; reflexivity.
Defined.
