(* ===== verification/Commands.v ===== *)
(** * The command history on disk: [internal/platform/commands], [daemon/cmdrepository.go]

    The writer of a session's [commands.json] waits for a debounce interval
    after a change and then writes the latest state atomically, through a
    temporary file.  Its goroutine is a state machine whose select may take any
    case that is ready; the callers' steps interleave with it.  The repository
    keeps one writer per session.  [encoding/json] is a parameter. *)

From S2P Require Import Prelude Files CmdLifecycle.

#[local] Open Scope Z_scope.

Definition CurrentVersion : Z := 1.

Record File := mkFile {
  Version : Z;
  SessionID : bytes;
  SavedAt : time;
  History : list Command;
  InFlight : option Command;
}.

Definition ErrUnsupportedVersion : error := ENew #"commands: unsupported file version".

Definition ErrWriterClosed : error := ENew #"commands: writer closed".

Definition defaultDebounceInterval : Z := 200 * millisecond.

(** [pending_state] is [pending], when [hasState]; [notify] and [closing] tell
    whether [notifyCh] holds a signal and [closeCh] is closed; [timer] is the
    time the goroutine's timer fires at, while it is pending; [done_] tells
    whether the goroutine has returned. *)
Record Writer := mkWriter {
  path_ : path;
  sessID : bytes;
  debounce : Z;
  pending_state : option SessionState;
  closed : bool;
  notify : bool;
  closing : bool;
  timer : option time;
  done_ : bool;
}.

Definition WithDebounceInterval (d : Z) (w : Writer) : Writer :=
  if bool_decide (0 < d)
  then mkWriter (path_ w) (sessID w) d (pending_state w) (closed w) (notify w) (closing w) (timer w) (done_ w)
  else w.

(** The empty string is the path without segments. *)
Definition NewWriter (p : path) (id : bytes) (opts : list (Writer → Writer)) : result Writer :=
  if decide (p = []) then Err (ENew #"commands: path must be non-empty")
  else if decide (id = []) then Err (ENew #"commands: sessID must be non-empty")
  else Ok (foldl (λ w o, o w) (mkWriter p id defaultDebounceInterval None false false false None false) opts).

Definition Update (w : Writer) (st : SessionState) : Writer :=
  if closed w then w
  else mkWriter (path_ w) (sessID w) (debounce w) (Some st) false true (closing w) (timer w) (done_ w).

Definition set_timer (w : Writer) (t : option time) : Writer :=
  mkWriter (path_ w) (sessID w) (debounce w) (pending_state w) (closed w) (notify w) (closing w) t (done_ w).

Definition take_signal (w : Writer) : Writer :=
  mkWriter (path_ w) (sessID w) (debounce w) (pending_state w) (closed w) false (closing w) (timer w) (done_ w).

Definition begin_close (w : Writer) : Writer :=
  if closed w then w
  else mkWriter (path_ w) (sessID w) (debounce w) (pending_state w) true (notify w) true (timer w) (done_ w).

Definition finish (w : Writer) : Writer :=
  mkWriter (path_ w) (sessID w) (debounce w) (pending_state w) (closed w) (notify w) (closing w) None true.

Definition tmp_path (p : path) : path := dir_of p ++ [default [] (last p) ++ #".tmp"].

Definition file_of (id : bytes) (now : time) (st : SessionState) : File :=
  mkFile CurrentVersion id now (ss_History st) (ss_InFlight st).

Section Json.

Context (marshal : File → result bytes) (unmarshal : bytes → result File).

Definition flushOnce (fs : FS) (now : time) (w : Writer) : option error * FS :=
  match pending_state w with
  | None => (None, fs)
  | Some st =>
      match marshal (file_of (sessID w) now st) with
      | Err e => (Some (EWrap #"commands.flush: marshal" e), fs)
      | Ok data =>
          let tmp := tmp_path (path_ w) in
          match WriteFile fs tmp data with
          | (Err e, fs) => (Some (EWrap #"commands.flush: write tmp" e), fs)
          | (Ok _, fs) =>
              match Rename fs tmp (path_ w) with
              | (Err e, fs) => (Some (EWrap #"commands.flush: rename" e), snd (Remove fs tmp))
              | (Ok _, fs) => (None, fs)
              end
          end
      end
  end.

(** What a caller does ([EUpdate], [EClose]) and what the goroutine takes from
    its select. *)
Inductive event :=
  | EUpdate (st : SessionState) | EClose
  | ENotify (now : time) | ETimer (now : time) | EFlush (now : time) | EClosed (now : time).

(** [None]: the event cannot happen now. *)
Definition step (s : FS * Writer) (ev : event) : option (FS * Writer) :=
  let '(fs, w) := s in
  match ev with
  | EUpdate st => Some (fs, Update w st)
  | EClose => Some (fs, begin_close w)
  | ENotify now =>
      if notify w && negb (done_ w) then
        Some (fs, match timer w with
                  | None => set_timer (take_signal w) (Some (now + debounce w))
                  | Some _ => take_signal w
                  end)
      else None
  | ETimer now =>
      match timer w with
      | Some t =>
          if bool_decide (t <= now) && negb (done_ w)
          then Some (snd (flushOnce fs now w), set_timer w None) else None
      | None => None
      end
  | EFlush now =>
      if done_ w then None else Some (snd (flushOnce fs now w), set_timer w None)
  | EClosed now =>
      if closing w && negb (done_ w)
      then Some (snd (flushOnce fs now w), finish w) else None
  end.

Fixpoint run (s : FS * Writer) (evs : list event) : option (FS * Writer) :=
  match evs with
  | [] => Some s
  | ev :: evs => s ← step s ev; run s evs
  end.

(** [Flush] rendezvouses with the goroutine, or fails once it has returned. *)
Definition Flush (fs : FS) (now : time) (w : Writer) : option error * (FS * Writer) :=
  if done_ w then (Some ErrWriterClosed, (fs, w))
  else let (err, fs) := flushOnce fs now w in (err, (fs, set_timer w None)).

(** [Close] waits until the goroutine has taken the closed channel. *)
Definition Close (fs : FS) (now : time) (w : Writer) : FS * Writer :=
  if closed w then (fs, w)
  else let w := begin_close w in (snd (flushOnce fs now w), finish w).

(** The errors also quote the path. *)
Definition Load (fs : FS) (p : path) : File * option error :=
  let zero := mkFile 0 [] zero_time [] None in
  match ReadFile fs p with
  | Err e =>
      if err_is e ErrNotExist then (zero, None)
      else (zero, Some (EWrap #"commands.Load: read" e))
  | Ok data =>
      match unmarshal data with
      | Err e => (zero, Some (EWrap #"commands.Load: parse" e))
      | Ok f =>
          if bool_decide (CurrentVersion < Version f)
          then (mkFile (Version f) (SessionID f) zero_time [] None, Some ErrUnsupportedVersion)
          else (f, None)
      end
  end.

(** ** The repository ([cmdrepository.go]) *)

Record cmdRepository := mkRepo { writers : gmap bytes Writer; enabled : bool }.

Definition newCmdRepository (coldRestoreEnabled : bool) : cmdRepository := mkRepo ∅ coldRestoreEnabled.

Definition Open (r : cmdRepository) (id : bytes) (p : path) : option error * cmdRepository :=
  if negb (enabled r) then (None, r)
  else
    match writers r !! id with
    | Some _ => (None, r)
    | None =>
        match NewWriter p id [] with
        | Err e => (Some (EWrap #"cmdRepository.Open" e), r)
        | Ok w => (None, mkRepo (<[id := w]> (writers r)) (enabled r))
        end
    end.

Definition repo_Close (r : cmdRepository) (fs : FS) (now : time) (id : bytes) : cmdRepository * FS :=
  match writers r !! id with
  | None => (r, fs)
  | Some w => (mkRepo (delete id (writers r)) (enabled r), fst (Close fs now w))
  end.

Definition CloseAll (r : cmdRepository) (fs : FS) (now : time) : cmdRepository * FS :=
  (mkRepo ∅ (enabled r), foldl (λ fs w, fst (Close fs now w)) fs (snd <$> map_to_list (writers r))).

Definition repo_Save (r : cmdRepository) (id : bytes) (st : SessionState) : cmdRepository :=
  if negb (enabled r) then r
  else
    match writers r !! id with
    | None => r
    | Some w => mkRepo (<[id := Update w st]> (writers r)) (enabled r)
    end.

End Json.

(** ** Lemmas *)

(** The history file of the path can be written: its directory exists and
    nothing is in the way. *)
Definition flushable (fs : FS) (p : path) : Prop :=
  p ≠ [] ∧ (p ∉ locked fs) ∧ (tmp_path p ∉ locked fs) ∧ entries fs !! dir_of p = Some EDir ∧
  entries fs !! p ≠ Some EDir ∧ entries fs !! tmp_path p ≠ Some EDir.

Lemma dir_of_neq p : p ≠ [] → dir_of p ≠ p.
Proof.
  intros Hp He. apply (f_equal length) in He. unfold dir_of in He. rewrite length_take in He.
  destruct p; [done|]. cbn in He. lia.
Qed.

Lemma last_of p : p ≠ [] → p = dir_of p ++ [default [] (last p)].
Proof.
  intros Hp. destruct p as [|x q _] using rev_ind; [done|]. unfold dir_of.
  rewrite last_snoc, length_app. cbn [length].
  by rewrite Nat.add_sub, take_app_length.
Qed.

Lemma tmp_path_neq p : p ≠ [] → tmp_path p ≠ p.
Proof.
  intros Hp. rewrite (last_of p Hp) at 2. unfold tmp_path. intros He.
  apply app_inv_head in He. simplify_eq. apply (f_equal length) in H.
  rewrite length_app in H. cbn in H. lia.
Qed.

Lemma dir_of_tmp p : p ≠ [] → dir_of (tmp_path p) = dir_of p.
Proof.
  intros Hp. unfold tmp_path, dir_of at 1. rewrite length_app. cbn [length].
  by rewrite Nat.add_sub, take_app_length.
Qed.

Section Flush.

Context (marshal : File → result bytes).

Lemma flush_ok fs now w st data :
  flushable fs (path_ w) → pending_state w = Some st →
  marshal (file_of (sessID w) now st) = Ok data →
  ∃ fs', flushOnce marshal fs now w = (None, fs') ∧ flushable fs' (path_ w) ∧
    entries fs' !! path_ w = Some (EFile data).
Proof.
  intros (Hp & Hl & Hlt & Hd & He & Het) Hst Hm. unfold flushOnce. rewrite Hst, Hm. cbv zeta.
  pose proof (tmp_path_neq _ Hp) as Hne. pose proof (dir_of_neq _ Hp) as Hdp.
  assert (Hdt : dir_of (path_ w) ≠ tmp_path (path_ w)).
  { intros Heq. by rewrite Heq in Hd. }
  assert (Hw : WriteFile fs (tmp_path (path_ w)) data =
    (Ok tt, set_entries fs (<[tmp_path (path_ w) := EFile data]> (entries fs)))).
  { unfold WriteFile. rewrite decide_False by done. rewrite dir_of_tmp by done.
    destruct (entries fs !! tmp_path (path_ w)) as [[]|]; [done|done|]. by rewrite decide_True. }
  rewrite Hw. unfold Rename. cbn [locked set_entries entries].
  rewrite decide_False by tauto. rewrite lookup_insert_eq, lookup_insert_ne by done.
  destruct (entries fs !! path_ w) as [[]|] eqn:Hpw; [done| |];
    (eexists; split; [reflexivity|]; split; [|cbn; apply lookup_insert_eq];
     split_and!; cbn; [done|done|done| | |]);
    rewrite ?lookup_insert_eq; try done;
    rewrite lookup_insert_ne by done; rewrite ?lookup_delete_eq; try done;
    rewrite lookup_delete_ne, lookup_insert_ne by done; done.
Qed.

(** The file holds the state. *)
Definition on_disk (fs : FS) (w : Writer) (st : SessionState) : Prop :=
  ∃ now data, marshal (file_of (sessID w) now st) = Ok data ∧ entries fs !! path_ w = Some (EFile data).

(** The states that updates deliver before the writer is closed. *)
Fixpoint accepted (is_closed : bool) (evs : list event) : list SessionState :=
  match evs with
  | [] => []
  | EUpdate st :: evs => (if is_closed then [] else [st]) ++ accepted is_closed evs
  | EClose :: evs => accepted true evs
  | _ :: evs => accepted is_closed evs
  end.

Definition event_time (ev : event) : option time :=
  match ev with
  | ENotify now | ETimer now | EFlush now | EClosed now => Some now
  | _ => None
  end.

(** [marshal] can encode the state at the times of the run. *)
Definition encodable (id : bytes) (times : list time) (st : SessionState) : Prop :=
  ∀ now, now ∈ times → is_ok (marshal (file_of id now st)) = true.

Definition writer_inv (fs0 fs : FS) (w : Writer) (sts : list SessionState) : Prop :=
  flushable fs (path_ w) ∧ pending_state w = last sts ∧ closing w = closed w ∧
  (done_ w = true → closed w = true) ∧
  (∀ st, pending_state w = Some st → on_disk fs w st ∨
    (done_ w = false ∧ (notify w = true ∨ is_Some (timer w)))) ∧
  (entries fs !! path_ w = entries fs0 !! path_ w ∨ ∃ st, st ∈ sts ∧ on_disk fs w st).

(** A flush in a run: the state that is pending reaches the disk. *)
Lemma flush_inv fs0 fs w sts now times :
  writer_inv fs0 fs w sts → Forall (encodable (sessID w) times) sts → now ∈ times →
  let fs' := snd (flushOnce marshal fs now w) in
  flushable fs' (path_ w) ∧ (∀ st, pending_state w = Some st → on_disk fs' w st) ∧
  (entries fs' !! path_ w = entries fs0 !! path_ w ∨ ∃ st, st ∈ sts ∧ on_disk fs' w st).
Proof.
  intros (Hf & Hp & _ & _ & _ & Hd) He Hnow. cbv zeta.
  destruct (pending_state w) as [st|] eqn:Hst.
  - assert (Hin : st ∈ sts) by (symmetry in Hp; by apply last_Some_elem_of in Hp).
    rewrite Forall_forall in He. specialize (He st Hin now Hnow).
    destruct (marshal (file_of (sessID w) now st)) as [data|] eqn:Hm; [|done].
    destruct (flush_ok fs now w st data Hf Hst Hm) as (fs' & -> & Hf' & Hdata). cbn [snd].
    assert (Hon : on_disk fs' w st) by by exists now, data.
    split_and!; [done| |by right; exists st]. intros st' [= <-]. done.
  - unfold flushOnce. rewrite Hst. cbn [snd]. by split_and!.
Qed.

Lemma set_timer_None_on_disk fs w st : on_disk fs (set_timer w None) st ↔ on_disk fs w st.
Proof. done. Qed.

Lemma writer_step_inv fs0 fs w sts ev fs' w' times :
  writer_inv fs0 fs w sts → step marshal (fs, w) ev = Some (fs', w') →
  Forall (encodable (sessID w) times) sts → (∀ t, event_time ev = Some t → t ∈ times) →
  writer_inv fs0 fs' w' (sts ++ accepted (closed w) [ev]) ∧
  closed w' = (closed w || match ev with EClose => true | _ => false end) ∧
  path_ w' = path_ w ∧ sessID w' = sessID w.
Proof.
  intros Hi Hstep He Ht. pose proof Hi as (Hf & Hp & Hc & Hdn & Hon & Hd).
  destruct ev as [st| |now|now|now|now]; cbn [step accepted] in *; rewrite ?app_nil_r, ?orb_false_r.
  - injection Hstep as <- <-. unfold Update. destruct (closed w) eqn:Hcl.
    { cbn [app]. by rewrite app_nil_r, Hcl. }
    split; [|done]. split_and!; cbn; [done|by rewrite last_snoc|done|done| |].
    + intros st' [= <-]. right. split; [|by left]. destruct (done_ w); [by discriminate Hdn|done].
    + destruct Hd as [Hd|(st' & Hin & Hd)]; [by left|right]. exists st'. split; [|done].
      apply elem_of_app. by left.
  - injection Hstep as <- <-. unfold begin_close. destruct (closed w) eqn:Hcl; [by rewrite Hcl|].
    split; [|done]. by split_and!.
  - destruct (notify w && negb (done_ w)) eqn:Hn; [|done]. injection Hstep as <- <-.
    apply andb_true_iff in Hn as [Hn Hdone]. apply negb_true_iff in Hdone.
    destruct (timer w) as [t|] eqn:Htm; cbn; (split; [|done]); split_and!; cbn;
      try done; try congruence; intros st Hst; right; split; try done; right; eauto.
  - destruct (timer w) as [t|]; [|done].
    destruct (bool_decide (t <= now) && negb (done_ w)); [|done]. injection Hstep as <- <-.
    destruct (flush_inv fs0 fs w sts now times Hi He (Ht now eq_refl)) as (H1 & H2 & H3).
    split; [|done]. split_and!; cbn; [done|done|done|done| |done]. intros st Hst. left. by apply H2.
  - destruct (done_ w) eqn:Hdone; [done|]. injection Hstep as <- <-.
    destruct (flush_inv fs0 fs w sts now times Hi He (Ht now eq_refl)) as (H1 & H2 & H3).
    split; [|done]. split_and!; cbn; [done|done|done|congruence| |done]. intros st Hst. left. by apply H2.
  - destruct (closing w && negb (done_ w)) eqn:Hcd; [|done]. injection Hstep as <- <-.
    apply andb_true_iff in Hcd as [Hcg _].
    destruct (flush_inv fs0 fs w sts now times Hi He (Ht now eq_refl)) as (H1 & H2 & H3).
    split; [|done]. split_and!; cbn; [done|done|done|congruence| |done]. intros st Hst. left. by apply H2.
Qed.

Lemma writer_run_inv fs0 fs w sts evs fs' w' times :
  writer_inv fs0 fs w sts → run marshal (fs, w) evs = Some (fs', w') →
  Forall (encodable (sessID w) times) (sts ++ accepted (closed w) evs) →
  Forall (λ ev, ∀ t, event_time ev = Some t → t ∈ times) evs →
  writer_inv fs0 fs' w' (sts ++ accepted (closed w) evs) ∧
  path_ w' = path_ w ∧ sessID w' = sessID w.
Proof.
  revert fs w sts. induction evs as [|ev evs IH]; intros fs w sts Hi Hrun He Ht.
  { injection Hrun as <- <-. cbn. by rewrite app_nil_r. }
  cbn [run] in Hrun. destruct (step marshal (fs, w) ev) as [[fs1 w1]|] eqn:Hs; [|done]. cbn in Hrun.
  apply Forall_cons in Ht as [Ht1 Ht].
  assert (Hsplit : accepted (closed w) (ev :: evs) = accepted (closed w) [ev] ++
    accepted (closed w || match ev with EClose => true | _ => false end) evs).
  { destruct ev; cbn; rewrite ?orb_false_r, ?orb_true_r, ?app_nil_r; done. }
  rewrite Hsplit, app_assoc in He |- *. pose proof He as [He1 _]%Forall_app.
  pose proof He1 as [He0 _]%Forall_app.
  destruct (writer_step_inv fs0 fs w sts ev fs1 w1 times Hi Hs He0 Ht1) as (Hi1 & Hc1 & Hp1 & Hid1).
  rewrite <- Hc1 in He |- *. rewrite <- Hid1 in He.
  destruct (IH fs1 w1 _ Hi1 Hrun He Ht) as (Hi' & Hp' & Hid'). split_and!; [done|congruence..].
Qed.

Lemma new_writer_inv fs p id opts w :
  NewWriter p id opts = Ok w → (∀ o, o ∈ opts → ∃ d, o = WithDebounceInterval d) →
  flushable fs p → writer_inv fs fs w [] ∧ path_ w = p ∧ sessID w = id ∧ closed w = false.
Proof.
  unfold NewWriter. repeat case_decide; [done..|]. intros [= <-] Ho Hf.
  set (w0 := mkWriter p id _ _ _ _ _ _ _).
  assert (Hw0 : writer_inv fs fs w0 [] ∧ path_ w0 = p ∧ sessID w0 = id ∧ closed w0 = false).
  { split; [|done]. split_and!; [done..|]. by left. }
  clearbody w0. revert w0 Hw0. induction opts as [|o opts IH]; intros w0 Hw0; [done|].
  cbn [foldl]. apply IH; [intros o' Ho'; apply Ho; by right|].
  destruct (Ho o ltac:(by left)) as [d ->]. unfold WithDebounceInterval. case_bool_decide; [|done].
  destruct w0. exact Hw0.
Qed.

End Flush.

(** ** Properties *)


Lemma saves_update id sts r w :
  enabled r = true → writers r !! id = Some w →
  foldl (λ r st, repo_Save r id st) r sts =
    mkRepo (<[id := foldl Update w sts]> (writers r)) true.
Proof.
  revert r w. induction sts as [|st sts IH]; intros r w He Hw; cbn [foldl].
  { destruct r as [m e]. cbn in *. subst e. by rewrite insert_id. }
  unfold repo_Save at 2. rewrite He, Hw. cbn [negb].
  rewrite (IH _ (Update w st)); [|done|cbn; apply lookup_insert_eq].
  cbn. by rewrite insert_insert_eq.
Qed.

Lemma updates_pending w sts st :
  closed w = false →
  foldl Update w (sts ++ [st]) =
    mkWriter (path_ w) (sessID w) (debounce w) (Some st) false true (closing w) (timer w) (done_ w).
Proof.
  intros Hc. rewrite foldl_app. cbn [foldl].
  assert (H : ∃ ps n, foldl Update w sts =
    mkWriter (path_ w) (sessID w) (debounce w) ps false n (closing w) (timer w) (done_ w)).
  { clear st. induction sts as [|st sts (ps & n & IH)] using rev_ind.
    - destruct w. cbn in *. subst. by eexists _, _.
    - rewrite foldl_app. cbn [foldl]. rewrite IH. by eexists _, _. }
  by destruct H as (ps & n & ->).
Qed.

(** When cold restore is enabled, the last history saved for a session before it is closed is
    the one that the next daemon loads, and the writer is gone; when it is disabled the repository
    keeps no writer and drops what is saved. *)
Theorem closed_history_is_loaded marshal unmarshal r fs id p sts st now data :
  writers r !! id = None → id ≠ [] → flushable fs p →
  marshal (file_of id now st) = Ok data → unmarshal data = Ok (file_of id now st) →
  let (err, r1) := Open r id p in
  let r2 := foldl (λ r st, repo_Save r id st) r1 (sts ++ [st]) in
  let (r3, fs') := repo_Close marshal r2 fs now id in
  err = None ∧ writers r3 = writers r ∧
  if enabled r then Load unmarshal fs' p = (file_of id now st, None)
  else r1 = r ∧ r2 = r ∧ fs' = fs.
Proof.
  intros Hw Hid Hf Hm Hu. pose proof Hf as (Hp & _). unfold Open. destruct (enabled r) eqn:He; cbn [negb].
  - rewrite Hw. unfold NewWriter. rewrite !decide_False by done. cbn [foldl].
    erewrite saves_update; [|done|cbn; apply lookup_insert_eq].
    rewrite updates_pending by done. unfold repo_Close. cbn [writers].
    rewrite lookup_insert_eq. unfold Close. cbn [closed].
    match goal with |- context [flushOnce marshal fs now (begin_close ?w)] =>
      destruct (flush_ok marshal fs now (begin_close w) st data Hf eq_refl Hm) as (fs' & Hfl & Hf' & Hd) end.
    rewrite Hfl. cbn in Hd. cbn [fst snd writers].
    rewrite insert_insert_eq, delete_insert_eq, delete_id by done. split_and!; [done|done|].
    destruct Hf' as (_ & Hl' & _). cbn in Hl'.
    unfold Load, ReadFile. rewrite decide_False by done. rewrite Hd, Hu. by rewrite bool_decide_eq_false_2.
  - assert (Hs : ∀ l, foldl (λ r st, repo_Save r id st) r l = r).
    { induction l as [|x l IH]; [done|]. cbn [foldl]. unfold repo_Save at 2. by rewrite He. }
    rewrite Hs. unfold repo_Close. by rewrite Hw.
Qed.

(** The example writes the identifier and the number of commands. *)
Definition demo_marshal (f : File) : result bytes :=
  Ok (SessionID f ++ [byte_of (Z.of_nat (length (History f)))]).

Definition demo_command : Command := mkCommand 1 2 0 3 4 false [].

Definition demo_unmarshal (data : bytes) : result File :=
  Ok (mkFile 1 (take 1 data) 7 (replicate (Z.to_nat (byte_val (default x00 (last data)))) demo_command) None).

Definition demo_fs : FS := mkFS {[ [ #"d"] := EDir ]} ∅.

Definition demo_path : path := [ #"d"; #"commands.json"].

Lemma demo_flushable : flushable demo_fs demo_path.
Proof.
  split_and!; try done; try (vm_compute; reflexivity); try (vm_compute; discriminate);
    unfold demo_fs; cbn [locked]; set_solver.
Qed.

Definition demo_state (n : nat) : SessionState := mkSessionState (replicate n demo_command) None.

Lemma closed_history_is_loaded_witness :
  let r := newCmdRepository true in
  let r2 := foldl (λ r st, repo_Save r #"s" st) (snd (Open r #"s" demo_path)) [demo_state 1; demo_state 2] in
  flushable demo_fs demo_path ∧
  Load demo_unmarshal (snd (repo_Close demo_marshal r2 demo_fs 7 #"s")) demo_path =
    (file_of #"s" 7 (demo_state 2), None).
Proof.
  split; [exact demo_flushable|].
  pose proof (closed_history_is_loaded demo_marshal demo_unmarshal (newCmdRepository true) demo_fs #"s"
    demo_path [demo_state 1] (demo_state 2) 7 [x73; x02] eq_refl ltac:(discriminate) demo_flushable
    eq_refl eq_refl) as H.
  destruct (Open _ _ _) as [err r1]. cbn [snd]. cbv zeta in H. cbn [app] in H.
  destruct (repo_Close _ _ _ _ _) as [r3 fs']. cbn [enabled newCmdRepository] in H. apply H.
Defined.

Definition demo_w : Writer :=
  mkWriter demo_path #"s" defaultDebounceInterval None false false false None false.

Definition demo_events : list event :=
  [EUpdate (demo_state 1); ENotify 0; EUpdate (demo_state 2); ETimer defaultDebounceInterval;
   EUpdate (demo_state 3); EClose; EUpdate (demo_state 4); EClosed (10 ^ 9)].

Definition demo_end : FS * Writer := default (demo_fs, demo_w) (run demo_marshal (demo_fs, demo_w) demo_events).

