(* ===== verification/Debug.v ===== *)
(** * Debug tracing: [internal/platform/debug]

    The configuration from environment variables, and the tracer: what an event
    writes at each level, and the sequence numbers.  The rotating log file and
    the JSON handler are the libraries'; a line is the attributes handed to
    them. *)

From S2P Require Import Prelude GoStrings.

#[local] Open Scope Z_scope.

(** ** Paths as strings: [filepath.Clean] and [filepath.Join] on Unix *)

(** One more element of a path, in reverse order; [..] goes back, unless there
    is nothing to go back from. *)
Definition clean_step (rooted : bool) (acc : list bytes) (seg : bytes) : list bytes :=
  if decide (seg = [] ∨ seg = #".") then acc
  else if decide (seg = #"..") then
    match acc with
    | x :: acc' => if decide (x = #"..") then seg :: acc else acc'
    | [] => if rooted then [] else [seg]
    end
  else seg :: acc.

Definition filepath_clean (p : bytes) : bytes :=
  let rooted := has_prefix p #"/" in
  let segs := reverse (foldl (clean_step rooted) [] (split "/"%byte p)) in
  let out := (if rooted then #"/" else []) ++ join #"/" segs in
  if decide (out = []) then #"." else out.

Definition filepath_join (elems : list bytes) : bytes :=
  match filter (λ e, e ≠ []) elems with
  | [] => []
  | elems => filepath_clean (join #"/" elems)
  end.

(** ** Levels *)

Definition Level := Z.

Definition LevelOff : Level := 0.

Definition LevelLifecycle : Level := 1.

Definition LevelChunk : Level := 2.

Definition LevelFull : Level := 3.

Definition ClampLevel (n : Z) : Level :=
  if bool_decide (n < 0) then LevelOff else if bool_decide (n > LevelFull) then LevelFull else n.

(** ** The environment *)

Record EnvConfig := mkEnvConfig {
  Enabled : bool;
  Path : bytes;
  env_Level : Level;
  MaxSizeMB : Z;
  MaxFiles : Z;
}.

#[export] Instance EnvConfig_eq_decision : EqDecision EnvConfig.
Proof. solve_decision. Defined.

Section Env.

(** [os.Getenv], [os.UserHomeDir], whose error is ignored, and [runtime.GOOS]. *)
Context (getenv : bytes → bytes) (home : bytes) (darwin : bool).

Definition defaultLogPath : bytes :=
  if darwin then filepath_join [home; #"Library"; #"Logs"; #"wmux"; #"wmux-debug.log"]
  else
    let stateDir := getenv #"XDG_STATE_HOME" in
    let stateDir := if decide (stateDir = []) then filepath_join [home; #".local"; #"state"] else stateDir in
    filepath_join [stateDir; #"wmux"; #"wmux-debug.log"].

(** A variable that holds a number, if it does. *)
Definition env_number (name : bytes) : option Z :=
  let s := getenv name in
  if decide (s = []) then None
  else match atoi s with
       | (n, None) => Some n
       | (_, Some _) => None
       end.

Definition positive_or (o : option Z) (n : Z) : Z :=
  match o with
  | Some m => if bool_decide (m > 0) then m else n
  | None => n
  end.

Definition ReadEnv : EnvConfig :=
  let p := getenv #"WMUX_DEBUG_PATH" in
  let debug := getenv #"WMUX_DEBUG" in
  if bool_decide (p = []) && negb (bool_decide (debug = #"1")) then mkEnvConfig false [] 0 50 7
  else
    mkEnvConfig true (if decide (p = []) then defaultLogPath else p)
      (match env_number #"WMUX_DEBUG_LEVEL" with Some n => ClampLevel n | None => LevelChunk end)
      (positive_or (env_number #"WMUX_DEBUG_MAX_SIZE_MB") 50)
      (positive_or (env_number #"WMUX_DEBUG_MAX_FILES") 7).
End Env.

(** ** The tracer *)

Record TraceEvent := mkTrace {
  tr_Time : time;
  tr_SessionID : bytes;
  tr_Stage : bytes;
  tr_Seq : Z;
  tr_ByteLen : Z;
  tr_HeadHex : bytes;
  tr_TailHex : bytes;
  tr_FullHex : bytes;
  tr_Sha1 : bytes;
  tr_BufferSize : Z;
  tr_BufferHWM : Z;
  tr_BufferLWM : Z;
  tr_Paused : bool;
  tr_Cols : Z;
  tr_Rows : Z;
  tr_ExitCode : Z;
  tr_Error : bytes;
}.

Inductive attr := AString (s : bytes) | ANumber (n : Z) | ABoolean (b : bool).

#[export] Instance attr_eq_decision : EqDecision attr.
Proof. solve_decision. Defined.

(** The counters are shared by the callers; an addition is one atomic step. *)
Record Tracer := mkTracer { tracer_level : Level; seqs : gmap bytes Z }.

Definition tracer_Enabled (t : option Tracer) : bool :=
  match t with
  | Some t => bool_decide (tracer_level t > LevelOff)
  | None => false
  end.

Definition tracer_Level (t : option Tracer) : Level := from_option tracer_level LevelOff t.

Definition when (b : bool) (name : bytes) (v : attr) : list (bytes * attr) := if b then [(name, v)] else [].

(** The message and the attributes of a line, if one is written. *)
Definition Emit (t : option Tracer) (ev : TraceEvent) : option (bytes * list (bytes * attr)) :=
  if negb (tracer_Enabled t) then None
  else
    Some (tr_Stage ev,
      [(#"session_id", AString (tr_SessionID ev)); (#"seq", ANumber (tr_Seq ev))] ++
      (if bool_decide (tracer_Level t >= LevelChunk) && bool_decide (tr_ByteLen ev > 0)
       then [(#"byte_len", ANumber (tr_ByteLen ev)); (#"sha1", AString (tr_Sha1 ev));
             (#"head_hex", AString (tr_HeadHex ev)); (#"tail_hex", AString (tr_TailHex ev))]
       else []) ++
      when (bool_decide (tracer_Level t >= LevelFull) && negb (bool_decide (tr_FullHex ev = [])))
        #"full_hex" (AString (tr_FullHex ev)) ++
      when (bool_decide (tr_BufferSize ev > 0)) #"buffer_size" (ANumber (tr_BufferSize ev)) ++
      when (bool_decide (tr_BufferHWM ev > 0)) #"buffer_hwm" (ANumber (tr_BufferHWM ev)) ++
      when (bool_decide (tr_BufferLWM ev > 0)) #"buffer_lwm" (ANumber (tr_BufferLWM ev)) ++
      when (tr_Paused ev) #"paused" (ABoolean true) ++
      when (bool_decide (tr_Cols ev > 0)) #"cols" (ANumber (tr_Cols ev)) ++
      when (bool_decide (tr_Rows ev > 0)) #"rows" (ANumber (tr_Rows ev)) ++
      when (negb (bool_decide (tr_ExitCode ev = 0))) #"exit_code" (ANumber (tr_ExitCode ev)) ++
      when (negb (bool_decide (tr_Error ev = []))) #"error" (AString (tr_Error ev))).

(** [atomic.Int64.Add] wraps around. *)
Definition NextSeq (t : Tracer) (id : bytes) : Z * Tracer :=
  let n := wrap_i64 (default 0 (seqs t !! id) + 1) in
  (n, mkTracer (tracer_level t) (<[id := n]> (seqs t))).

Definition ResetSeq (t : Tracer) (id : bytes) : Tracer := mkTracer (tracer_level t) (delete id (seqs t)).

(** ** Lemmas *)

Lemma ClampLevel_bounds n : LevelOff <= ClampLevel n <= LevelFull.
Proof. unfold ClampLevel, LevelOff, LevelFull. repeat case_bool_decide; lia. Qed.

Lemma ReadEnv_bounds getenv home darwin :
  let e := ReadEnv getenv home darwin in
  LevelOff <= env_Level e <= LevelFull ∧ 0 < MaxSizeMB e ∧ 0 < MaxFiles e ∧
  (Enabled e = false ↔ getenv #"WMUX_DEBUG_PATH" = [] ∧ getenv #"WMUX_DEBUG" ≠ #"1").
Proof.
  cbv zeta. unfold ReadEnv. set (p := getenv #"WMUX_DEBUG_PATH"). set (g := getenv #"WMUX_DEBUG").
  assert (Hpos : ∀ o n, 0 < n → 0 < positive_or o n).
  { intros [m|] n Hn; [|done]. cbn. case_bool_decide; lia. }
  destruct (bool_decide (p = [])) eqn:Hp; [apply bool_decide_eq_true in Hp|apply bool_decide_eq_false in Hp];
    [destruct (bool_decide (g = #"1")) eqn:Hg; [apply bool_decide_eq_true in Hg|apply bool_decide_eq_false in Hg]|];
    cbn [andb negb env_Level MaxSizeMB MaxFiles Enabled]; split_and!;
    try (by apply Hpos); try (unfold LevelOff, LevelFull; lia); try naive_solver.
  all: destruct (env_number getenv #"WMUX_DEBUG_LEVEL"); [apply ClampLevel_bounds|by cbv].
Qed.

(** Successive numbers of a session, as long as they fit. *)
Fixpoint take_seqs (t : Tracer) (ids : list bytes) : list (bytes * Z) :=
  match ids with
  | [] => []
  | id :: ids => let (n, t) := NextSeq t id in (id, n) :: take_seqs t ids
  end.

(** The numbers that session [id] gets from a sequence of calls are 1, 2, 3, and
    so on, whatever the other sessions do. *)
Lemma take_seqs_count t ids id :
  let l := filter (λ p, p.1 = id) (take_seqs t ids) in
  0 <= default 0 (seqs t !! id) → default 0 (seqs t !! id) + Z.of_nat (length ids) <= max_i64 →
  (snd <$> l) = (λ k, default 0 (seqs t !! id) + 1 + Z.of_nat k) <$> seq 0 (length l).
Proof.
  cbv zeta. revert t. induction ids as [|x ids IH]; intros t H0 Hl; [done|].
  cbn [take_seqs]. set (n := wrap_i64 (default 0 (seqs t !! x) + 1)).
  change (NextSeq t x) with (n, mkTracer (tracer_level t) (<[x := n]> (seqs t))).
  cbv iota beta. cbn [length] in Hl. rewrite filter_cons. cbn [fst]. destruct (decide (x = id)) as [->|Hne].
  - assert (Hn : n = default 0 (seqs t !! id) + 1) by (subst n; apply wrap_i64_id; unfold in_i64, min_i64, max_i64, two63 in *; lia).
    rewrite fmap_cons. cbn [length snd seq fmap list_fmap]. f_equal; [rewrite Hn; lia|].
    rewrite IH; cbn [seqs]; rewrite lookup_insert_eq; change (default 0 (Some n)) with n; [|lia|lia].
    rewrite <- fmap_S_seq, <- list_fmap_compose. apply list_fmap_ext. intros i k _. rewrite Hn. unfold compose. lia.
  - rewrite IH; cbn [seqs]; rewrite lookup_insert_ne by done; [done|lia|lia].
Qed.

(** ** Events of the data path ([chunkEvent] of [session/service.go]) *)

(** What the tracer's level asks for: from [LevelChunk] on a hash and the ends
    of the piece, at [LevelFull] all of it. *)
Definition chunkEvent (sha1 : bytes → bytes) (t : Tracer) (sessionID stage data : bytes) : TraceEvent * Tracer :=
  let (seq, t) := NextSeq t sessionID in
  let chunk := bool_decide (tracer_level t >= LevelChunk) in
  let short := bool_decide (Z.of_nat (length data) <= 64) in
  (mkTrace zero_time sessionID stage seq (Z.of_nat (length data))
     (if chunk then hex_encode (if short then data else take 64 data) else [])
     (if chunk && negb short then hex_encode (drop (length data - 64) data) else [])
     (if bool_decide (tracer_level t >= LevelFull) then hex_encode data else [])
     (if chunk then take 8 (hex_encode (sha1 data)) else [])
     0 0 0 false 0 0 0 [], t).

(** The events of the pieces of one session, in turn. *)
Fixpoint chunkEvents (sha1 : bytes → bytes) (t : Tracer) (id stage : bytes) (pieces : list bytes) : list TraceEvent :=
  match pieces with
  | [] => []
  | data :: pieces => let (ev, t) := chunkEvent sha1 t id stage data in ev :: chunkEvents sha1 t id stage pieces
  end.

(** The text that a line gives an attribute. *)
Definition line_text (name : bytes) (line : option (bytes * list (bytes * attr))) : option bytes :=
  '(_, attrs) ← line;
  '(_, (_, a)) ← list_find (λ p, fst p = name) attrs;
  match a with
  | AString s => Some s
  | _ => None
  end.

Lemma chunkEvent_line sha1 t id stage data :
  tracer_level t = LevelFull → data ≠ [] →
  line_text #"full_hex" (Emit (Some t) (fst (chunkEvent sha1 t id stage data))) = Some (hex_encode data).
Proof.
  intros Hl Hd. unfold chunkEvent. cbn [NextSeq fst snd tracer_level]. rewrite Hl. unfold Emit.
  cbn [tracer_Enabled tracer_Level from_option tr_Stage tr_SessionID tr_Seq tr_ByteLen tr_Sha1 tr_HeadHex tr_TailHex
    tr_FullHex tr_BufferSize tr_BufferHWM tr_BufferLWM tr_Paused tr_Cols tr_Rows tr_ExitCode tr_Error].
  rewrite Hl, (bool_decide_eq_true_2 (LevelFull > LevelOff)) by done. cbn [negb].
  rewrite (bool_decide_eq_true_2 (Z.of_nat (length data) > 0)) by (destruct data; [done|cbn; lia]).
  rewrite (bool_decide_eq_false_2 (hex_encode data = [])); [done|].
  intros He. apply (f_equal length) in He. rewrite length_hex_encode in He. by destruct data.
Qed.

(** The lines that a tracer at the full level writes for the pieces of a
    session hold the whole output: their [full_hex], put together, is it. *)
Theorem full_trace_is_the_output sha1 t id stage pieces :
  tracer_level t = LevelFull → Forall (λ data, data ≠ []) pieces →
  mapM (λ ev, line_text #"full_hex" (Emit (Some t) ev) ≫= hex_decode) (chunkEvents sha1 t id stage pieces) = Some pieces.
Proof.
  revert t. enough (Hg : ∀ u t, tracer_level u = LevelFull → tracer_level t = LevelFull → Forall (λ data, data ≠ []) pieces →
    mapM (λ ev, line_text #"full_hex" (Emit (Some u) ev) ≫= hex_decode) (chunkEvents sha1 t id stage pieces) = Some pieces)
    by (intros t ??; by apply Hg).
  intros u. induction pieces as [|data pieces IH]; intros t Hu Hl Hp; [done|].
  apply Forall_cons in Hp as [Hd Hp]. cbn [chunkEvents].
  pose proof (chunkEvent_line sha1 t id stage data Hl Hd) as Hline.
  destruct (chunkEvent sha1 t id stage data) as [ev t'] eqn:Hev. cbn [fst] in Hline.
  assert (Ht' : tracer_level t' = LevelFull) by (unfold chunkEvent in Hev; cbn in Hev; by injection Hev as _ <-).
  assert (Hsame : Emit (Some u) ev = Emit (Some t) ev) by (unfold Emit; cbn; by rewrite Hu, Hl).
  cbn [mapM]. rewrite Hsame, Hline. cbn [mbind option_bind]. rewrite hex_decode_encode. cbn [mbind option_bind].
  by rewrite IH.
Qed.

(** ** Opening and closing the log ([NewTracer], [Close], [options.go]) *)

Record tracerConfig := mkTracerConfig { maxSizeMB : Z; maxFiles : Z }.

Definition WithMaxSize (mb : Z) (c : tracerConfig) : tracerConfig := mkTracerConfig mb (maxFiles c).

Definition WithMaxFiles (n : Z) (c : tracerConfig) : tracerConfig := mkTracerConfig (maxSizeMB c) n.

Definition newTracerConfig (opts : list (tracerConfig → tracerConfig)) : tracerConfig :=
  foldl (λ c o, o c) (mkTracerConfig 50 7) opts.

(** [mkdir] is the result of making the log's directory. *)
Definition NewTracer (mkdir : option error) (level : Level) (opts : list (tracerConfig → tracerConfig)) :
    result (Tracer * tracerConfig) :=
  match mkdir with
  | Some e => Err (EWrap #"debug: create log dir" e)
  | None => Ok (mkTracer level ∅, newTracerConfig opts)
  end.

(** [close] is the result of closing the log. *)
Definition tracer_Close (t : option Tracer) (close : option error) : option error :=
  match t with
  | Some _ => EWrap #"debug: close log file" <$> close
  | None => None
  end.
