(* ===== verification/Paths.v ===== *)
(** * Paths as strings

    Where the program joins path strings and then hands them to the operating
    system: the directory of a path, the segments that an absolute or relative
    string names, and what joining does to clean absolute paths. *)

From S2P Require Import Prelude GoStrings SessionValues Debug.

(** [filepath.Dir]. *)
Definition filepath_dir (p : bytes) : bytes :=
  filepath_clean (take (from_option S 0 (last_index_byte p "/"%byte)) p).

(** The path that a string names, for a working directory. *)
Definition abs (cwd : list bytes) (p : bytes) : list bytes :=
  if has_prefix p #"/" then clean (split "/"%byte p) else join_path cwd p.

(** A segment that stays as it is. *)
Definition plain_seg (s : bytes) : Prop := s ≠ [] ∧ s ≠ #"." ∧ s ≠ #".." ∧ "/"%byte ∉ s.

#[export] Instance plain_seg_dec s : Decision (plain_seg s).
Proof. unfold plain_seg. apply _. Defined.

(** The string of a path. *)
Definition root (segs : list bytes) : bytes := #"/" ++ join #"/" segs.

(** ** Splitting *)

Lemma slash_app l : #"/" ++ l = "/"%byte :: l.
Proof. done. Qed.

Lemma split_n_fuel n c s : count_byte c s < n → split_n n c s = split_n (S (count_byte c s)) c s.
Proof.
  revert s. induction n as [|n IH]; intros s Hn; [lia|].
  assert (Hu : ∀ k, split_n (S (S k)) c s =
    match index_byte s c with None => [s] | Some i => take i s :: split_n (S k) c (drop (S i) s) end) by done.
  destruct (index_byte s c) as [i|] eqn:Hi.
  - pose proof (index_byte_bound _ _ _ Hi) as Hb. assert (Hcount : count_byte c s = S (count_byte c (drop (S i) s))).
    { rewrite (index_byte_split _ _ _ Hi) at 1. unfold count_byte. rewrite filter_app, length_app.
      cbn [app]. rewrite filter_cons_True by done. cbn [length].
      apply index_byte_Some in Hi as [_ Hno]. rewrite filter_none; [done|]. apply Forall_forall. intros x Hx ->.
      by apply Hno. }
    rewrite Hcount in *. destruct n as [|n]; [lia|]. rewrite !Hu. f_equal. rewrite IH by lia. done.
  - assert (Hs : ∀ k, split_n (S k) c s = [s]) by (intros [|k]; [done|by rewrite Hu]). by rewrite !Hs.
Qed.

Lemma count_byte_le c s : count_byte c s <= length s.
Proof. unfold count_byte. apply length_filter. Qed.

Lemma split_unfold c s :
  split c s = match index_byte s c with None => [s] | Some i => take i s :: split c (drop (S i) s) end.
Proof.
  unfold split. destruct s as [|x s]; [done|]. cbn [length].
  change (split_n (S (S (length s))) c (x :: s)) with
    (match index_byte (x :: s) c with
     | None => [x :: s] | Some i => take i (x :: s) :: split_n (S (length s)) c (drop (S i) (x :: s)) end).
  destruct (index_byte (x :: s) c) as [i|]; [|done]. f_equal. pose proof (count_byte_le c (drop (S i) (x :: s))) as Hc.
  rewrite (split_n_fuel (S (length s))), (split_n_fuel (S (length (drop _ _)))); [done|lia|].
  cbn [drop] in *. rewrite length_drop in Hc. lia.
Qed.

Lemma split_none c s : c ∉ s → split c s = [s].
Proof. intros Hc. rewrite split_unfold. by rewrite (proj2 (index_byte_None s c) Hc). Qed.

Lemma split_cons c p s : c ∉ p → split c (p ++ c :: s) = p :: split c s.
Proof.
  intros Hp. rewrite split_unfold, (index_byte_app_l p s c Hp), take_app_length. f_equal.
  by rewrite drop_app_ge, Nat.sub_succ_l, Nat.sub_diag by lia.
Qed.

Lemma split_app c a b : split c (a ++ c :: b) = split c a ++ split c b.
Proof.
  induction a as [a IH] using (induction_ltof1 _ length). unfold ltof in IH.
  rewrite (split_unfold c a). destruct (index_byte a c) as [i|] eqn:Hi.
  - pose proof (index_byte_split _ _ _ Hi) as Ha. pose proof (index_byte_bound _ _ _ Hi) as Hb.
    apply index_byte_Some in Hi as [_ Hno]. rewrite Ha at 1. rewrite <- app_assoc. cbn [app].
    rewrite split_cons by done. rewrite IH by (rewrite length_drop; lia). done.
  - apply split_cons. by apply index_byte_None.
Qed.

Lemma split_join segs : segs ≠ [] → Forall plain_seg segs → split "/"%byte (join #"/" segs) = segs.
Proof.
  intros Hne Hs. induction Hs as [|x segs (_ & _ & _ & Hx) Hs IH]; [done|].
  destruct segs as [|y segs]; [by apply split_none|].
  rewrite join_cons, slash_app by done. by rewrite split_cons, IH.
Qed.

(** ** Cleaning *)

Lemma clean_step_plain acc x : plain_seg x → clean_step true acc x = x :: acc.
Proof. intros (H1 & H2 & H3 & _). unfold clean_step. rewrite decide_False by naive_solver. by rewrite decide_False. Qed.

Lemma clean_steps_plain acc segs : Forall plain_seg segs → foldl (clean_step true) acc segs = reverse segs ++ acc.
Proof.
  intros Hs. revert acc. induction Hs as [|x segs Hx Hs IH]; intros acc; [done|]. cbn [foldl].
  by rewrite clean_step_plain, IH, reverse_cons, <- app_assoc.
Qed.

Lemma split_root segs : segs ≠ [] → Forall plain_seg segs → split "/"%byte (root segs) = [] :: segs.
Proof.
  intros Hne Hs. unfold root. rewrite slash_app.
  etransitivity; [exact (split_cons "/"%byte [] _ (not_elem_of_nil _))|]. by rewrite split_join.
Qed.

(** What follows a clean path is cleaned after it. *)
Lemma clean_root segs p new :
  segs ≠ [] → Forall plain_seg segs → (∀ acc, foldl (clean_step true) acc (split "/"%byte p) = reverse new ++ acc) →
  filepath_clean (root segs ++ #"/" ++ p) = root (segs ++ new).
Proof.
  intros Hne Hs Hp. unfold filepath_clean. assert (Hroot : has_prefix (root segs ++ #"/" ++ p) #"/" = true).
  { apply has_prefix_spec. by exists (join #"/" segs ++ #"/" ++ p). }
  rewrite Hroot, (slash_app p), split_app, split_root by done. cbn [app foldl]. rewrite foldl_app.
  change (clean_step true [] []) with (@nil bytes). rewrite Hp, clean_steps_plain by done.
  rewrite reverse_app, reverse_app, !reverse_involutive. cbn [reverse rev_append app]. by rewrite decide_False.
Qed.

Lemma join_root segs p new :
  segs ≠ [] → Forall plain_seg segs → p ≠ [] →
  (∀ acc, foldl (clean_step true) acc (split "/"%byte p) = reverse new ++ acc) →
  filepath_join [root segs; p] = root (segs ++ new).
Proof.
  intros Hne Hs Hp Hnew. unfold filepath_join. rewrite filter_cons_True by done. rewrite filter_cons_True by done.
  cbn [filter list_filter]. cbn [join]. by apply clean_root.
Qed.

(** One segment after another. *)
Lemma join_root_seg segs x :
  segs ≠ [] → Forall plain_seg segs → plain_seg x → filepath_join [root segs; x] = root (segs ++ [x]).
Proof.
  intros Hne Hs Hx. apply join_root; [done..|by destruct Hx|]. intros acc.
  rewrite split_none by apply Hx. cbn [foldl]. by rewrite clean_step_plain.
Qed.

Lemma join_snoc sep segs x : segs ≠ [] → join sep (segs ++ [x]) = join sep segs ++ sep ++ x.
Proof.
  induction segs as [|y segs IH]; [done|]. intros _. destruct segs as [|z segs]; [done|].
  change ((y :: z :: segs) ++ [x]) with (y :: ((z :: segs) ++ [x])). rewrite !(join_cons sep y) by done.
  rewrite IH by done. by rewrite <- !app_assoc.
Qed.

Lemma root_snoc segs x : segs ≠ [] → root (segs ++ [x]) = root segs ++ #"/" ++ x.
Proof. intros Hne. unfold root. by rewrite join_snoc, <- app_assoc. Qed.

Lemma dir_root segs x : segs ≠ [] → Forall plain_seg segs → plain_seg x → filepath_dir (root (segs ++ [x])) = root segs.
Proof.
  intros Hne Hs Hx. unfold filepath_dir. rewrite root_snoc, slash_app by done.
  rewrite last_index_byte_app by apply Hx. cbn [from_option].
  replace (take (S (length (root segs))) (root segs ++ "/"%byte :: x)) with (root segs ++ #"/" ++ []).
  - rewrite (clean_root segs [] []) by done. by rewrite app_nil_r.
  - rewrite take_app_ge by lia. by rewrite Nat.sub_succ_l, Nat.sub_diag by lia.
Qed.

Lemma abs_root cwd segs : segs ≠ [] → Forall plain_seg segs → abs cwd (root segs) = segs.
Proof.
  intros Hne Hs. unfold abs. assert (Hroot : has_prefix (root segs) #"/" = true) by (apply has_prefix_spec; by eexists).
  rewrite Hroot, split_root by done. unfold clean. cbn [foldl]. rewrite decide_True by (by left).
  assert (Hf : ∀ acc, foldl (λ acc s, if decide (s = [] ∨ s = #".") then acc
      else if decide (s = #"..") then take (length acc - 1) acc else acc ++ [s]) acc segs = acc ++ segs); [|apply Hf].
  clear Hne Hroot. induction Hs as [|x segs (H1 & H2 & H3 & _) Hs IH]; intros acc; [by rewrite app_nil_r|].
  cbn [foldl]. rewrite decide_False by naive_solver. rewrite decide_False by done. by rewrite IH, <- app_assoc.
Qed.
