(* ===== verification/ClientConfig.v ===== *)
(** * The client's configuration: [pkg/client/options.go], [namespace.go], parts of [client.go] and [daemon.go]

    Options, the paths derived from the namespace, and the command line with
    which a client starts a daemon of its own program: what the daemon parses is
    what the client had.  Paths are strings here. *)

From S2P Require Import Prelude GoStrings Debug.

#[local] Open Scope Z_scope.

Section Config.

(** An emulator factory is a value of the program. *)
Context {F : Type}.

Record config := mkConfig {
  namespace : bytes;
  baseDir : bytes;
  socket : bytes;
  tokenPath : bytes;
  dataDir : bytes;
  coldRestore : bool;
  maxScrollbackSize : Z;
  autoStart : bool;
  rpcTimeout : Z;
  emulatorFactory : option F;
  debugLogPath : bytes;
  debugLevel : Z;
  debugMaxSize : Z;
  debugMaxFiles : Z;
}.

Definition Option_ : Type := config → config.

Definition WithNamespace (name : bytes) : Option_ := λ c,
  mkConfig name (baseDir c) (socket c) (tokenPath c) (dataDir c) (coldRestore c) (maxScrollbackSize c)
    (autoStart c) (rpcTimeout c) (emulatorFactory c) (debugLogPath c) (debugLevel c) (debugMaxSize c) (debugMaxFiles c).

Definition WithBaseDir (p : bytes) : Option_ := λ c,
  mkConfig (namespace c) p (socket c) (tokenPath c) (dataDir c) (coldRestore c) (maxScrollbackSize c)
    (autoStart c) (rpcTimeout c) (emulatorFactory c) (debugLogPath c) (debugLevel c) (debugMaxSize c) (debugMaxFiles c).

Definition WithSocket (p : bytes) : Option_ := λ c,
  mkConfig (namespace c) (baseDir c) p (tokenPath c) (dataDir c) (coldRestore c) (maxScrollbackSize c)
    (autoStart c) (rpcTimeout c) (emulatorFactory c) (debugLogPath c) (debugLevel c) (debugMaxSize c) (debugMaxFiles c).

Definition WithTokenPath (p : bytes) : Option_ := λ c,
  mkConfig (namespace c) (baseDir c) (socket c) p (dataDir c) (coldRestore c) (maxScrollbackSize c)
    (autoStart c) (rpcTimeout c) (emulatorFactory c) (debugLogPath c) (debugLevel c) (debugMaxSize c) (debugMaxFiles c).

Definition WithDataDir (p : bytes) : Option_ := λ c,
  mkConfig (namespace c) (baseDir c) (socket c) (tokenPath c) p (coldRestore c) (maxScrollbackSize c)
    (autoStart c) (rpcTimeout c) (emulatorFactory c) (debugLogPath c) (debugLevel c) (debugMaxSize c) (debugMaxFiles c).

Definition WithAutoStart (b : bool) : Option_ := λ c,
  mkConfig (namespace c) (baseDir c) (socket c) (tokenPath c) (dataDir c) (coldRestore c) (maxScrollbackSize c)
    b (rpcTimeout c) (emulatorFactory c) (debugLogPath c) (debugLevel c) (debugMaxSize c) (debugMaxFiles c).

Definition WithColdRestore (b : bool) : Option_ := λ c,
  mkConfig (namespace c) (baseDir c) (socket c) (tokenPath c) (dataDir c) b (maxScrollbackSize c)
    (autoStart c) (rpcTimeout c) (emulatorFactory c) (debugLogPath c) (debugLevel c) (debugMaxSize c) (debugMaxFiles c).

Definition WithMaxScrollbackSize (n : Z) : Option_ := λ c,
  mkConfig (namespace c) (baseDir c) (socket c) (tokenPath c) (dataDir c) (coldRestore c) n
    (autoStart c) (rpcTimeout c) (emulatorFactory c) (debugLogPath c) (debugLevel c) (debugMaxSize c) (debugMaxFiles c).

Definition WithEmulatorFactory (f : option F) : Option_ := λ c,
  mkConfig (namespace c) (baseDir c) (socket c) (tokenPath c) (dataDir c) (coldRestore c) (maxScrollbackSize c)
    (autoStart c) (rpcTimeout c) f (debugLogPath c) (debugLevel c) (debugMaxSize c) (debugMaxFiles c).

Definition WithRPCTimeout (d : Z) : Option_ := λ c,
  mkConfig (namespace c) (baseDir c) (socket c) (tokenPath c) (dataDir c) (coldRestore c) (maxScrollbackSize c)
    (autoStart c) d (emulatorFactory c) (debugLogPath c) (debugLevel c) (debugMaxSize c) (debugMaxFiles c).

Definition WithDebugLog (p : bytes) : Option_ := λ c,
  mkConfig (namespace c) (baseDir c) (socket c) (tokenPath c) (dataDir c) (coldRestore c) (maxScrollbackSize c)
    (autoStart c) (rpcTimeout c) (emulatorFactory c) p (debugLevel c) (debugMaxSize c) (debugMaxFiles c).

Definition WithDebugLevel (n : Z) : Option_ := λ c,
  mkConfig (namespace c) (baseDir c) (socket c) (tokenPath c) (dataDir c) (coldRestore c) (maxScrollbackSize c)
    (autoStart c) (rpcTimeout c) (emulatorFactory c) (debugLogPath c) n (debugMaxSize c) (debugMaxFiles c).

Definition WithDebugMaxSize (n : Z) : Option_ := λ c,
  mkConfig (namespace c) (baseDir c) (socket c) (tokenPath c) (dataDir c) (coldRestore c) (maxScrollbackSize c)
    (autoStart c) (rpcTimeout c) (emulatorFactory c) (debugLogPath c) (debugLevel c) n (debugMaxFiles c).

Definition WithDebugMaxFiles (n : Z) : Option_ := λ c,
  mkConfig (namespace c) (baseDir c) (socket c) (tokenPath c) (dataDir c) (coldRestore c) (maxScrollbackSize c)
    (autoStart c) (rpcTimeout c) (emulatorFactory c) (debugLogPath c) (debugLevel c) (debugMaxSize c) n.

Definition newConfig (opts : list Option_) : config :=
  foldl (λ c o, o c) (mkConfig #"default" [] [] [] [] false 0 true (10000 * millisecond) None [] 0 0 0) opts.

(** ** Paths *)

(** [os.UserHomeDir] and [os.TempDir]. *)
Context (home : result bytes) (tmp : bytes).

Definition defaultBaseDir : bytes :=
  match home with
  | Err _ => filepath_join [tmp; #"wmux"]
  | Ok h => filepath_join [h; #".wmux"]
  end.

Definition or_else (s d : bytes) : bytes := if decide (s = []) then d else s.

Definition resolveConfig (c : config) : config :=
  let c := WithBaseDir (or_else (baseDir c) defaultBaseDir) c in
  let nsDir := filepath_join [baseDir c; namespace c] in
  let c := WithSocket (or_else (socket c) (filepath_join [nsDir; #"daemon.sock"])) c in
  let c := WithTokenPath (or_else (tokenPath c) (filepath_join [nsDir; #"daemon.token"])) c in
  WithDataDir (or_else (dataDir c) (filepath_join [nsDir; #"sessions"])) c.

(** ** The command line of a daemon *)

Definition daemonSentinel : bytes := #"__wmux_daemon__".

Definition buildDaemonArgs (c : config) : list bytes :=
  [daemonSentinel] ++
  (if decide (baseDir c = []) then [] else [ #"--base-dir"; baseDir c]) ++
  (if decide (namespace c = #"default") then [] else [ #"--namespace"; namespace c]) ++
  [ #"--socket"; socket c] ++ [ #"--token-path"; tokenPath c] ++ [ #"--data-dir"; dataDir c] ++
  (if coldRestore c then [ #"--cold-restore"] else []) ++
  (if bool_decide (0 < maxScrollbackSize c) then [ #"--max-scrollback"; itoa (maxScrollbackSize c)] else []).

Definition isDaemonMode (args : list bytes) : bool := existsb (λ a, bool_decide (a = daemonSentinel)) args.

(** The option of a flag that takes a value. *)
Definition value_option (flag v : bytes) : option (list Option_) :=
  if decide (flag = #"--base-dir") then Some [WithBaseDir v]
  else if decide (flag = #"--namespace") then Some [WithNamespace v]
  else if decide (flag = #"--socket") then Some [WithSocket v]
  else if decide (flag = #"--token-path") then Some [WithTokenPath v]
  else if decide (flag = #"--data-dir") then Some [WithDataDir v]
  else if decide (flag = #"--max-scrollback") then
    Some (match parse_int v with (n, None) => [WithMaxScrollbackSize n] | (_, Some _) => [] end)
  else None.

(** A flag without its value is skipped; other arguments are, too. *)
Fixpoint parseDaemonArgs (args : list bytes) : list Option_ :=
  match args with
  | [] => []
  | a :: rest =>
      if decide (a = #"--cold-restore") then WithColdRestore true :: parseDaemonArgs rest
      else
        match rest with
        | v :: rest' =>
            match value_option a v with
            | Some opts => opts ++ parseDaemonArgs rest'
            | None => parseDaemonArgs rest
            end
        | [] => []
        end
  end.

(** The configuration of the daemon that [ServeDaemon] runs. *)
Definition daemon_config (args : list bytes) (extra : list Option_) : option config :=
  if isDaemonMode args then Some (resolveConfig (newConfig (parseDaemonArgs args ++ extra))) else None.

(** ** The debug configuration *)

Definition resolveDebugConfig (env : EnvConfig) (c : config) : EnvConfig :=
  let '(en, p, lvl) :=
    if decide (debugLogPath c = []) then
      if Enabled env then (true, Path env, env_Level env) else (false, [], 0)
    else (true, debugLogPath c, LevelChunk) in
  if negb en then mkEnvConfig false p lvl 50 7
  else
    mkEnvConfig true p
      (if bool_decide (debugLevel c > 0) then ClampLevel (debugLevel c)
       else if bool_decide (env_Level env > LevelOff) then env_Level env else lvl)
      (if bool_decide (debugMaxSize c > 0) then debugMaxSize c
       else if bool_decide (MaxSizeMB env > 0) then MaxSizeMB env else 50)
      (if bool_decide (debugMaxFiles c > 0) then debugMaxFiles c
       else if bool_decide (MaxFiles env > 0) then MaxFiles env else 7).

(** ** Lemmas *)

Lemma filepath_clean_nonempty p : filepath_clean p ≠ [].
Proof. unfold filepath_clean. by case_decide. Qed.

Lemma filepath_join_nonempty e l : e ≠ [] → filepath_join (l ++ [e]) ≠ [].
Proof.
  intros He. unfold filepath_join. rewrite filter_app, filter_cons_True by done. cbn [filter list_filter].
  destruct (filter _ l); apply filepath_clean_nonempty.
Qed.

Lemma defaultBaseDir_nonempty : defaultBaseDir ≠ [].
Proof. unfold defaultBaseDir. destruct home as [h|]; [by apply (filepath_join_nonempty _ [h])|by apply (filepath_join_nonempty _ [tmp])]. Qed.

Lemma or_else_nonempty s d : d ≠ [] → or_else s d ≠ [].
Proof. intros Hd. unfold or_else. by case_decide. Qed.

Lemma or_else_id s d : s ≠ [] → or_else s d = s.
Proof. intros Hs. unfold or_else. by rewrite decide_False. Qed.

(** All the paths of a resolved configuration are set. *)
Definition resolved (c : config) : Prop :=
  baseDir c ≠ [] ∧ socket c ≠ [] ∧ tokenPath c ≠ [] ∧ dataDir c ≠ [].

Lemma resolveConfig_resolved c : resolved (resolveConfig c).
Proof.
  unfold resolveConfig. set (b := or_else (baseDir c) defaultBaseDir).
  split_and!; cbn; apply or_else_nonempty.
  - apply defaultBaseDir_nonempty.
  - by apply (filepath_join_nonempty _ [_]).
  - by apply (filepath_join_nonempty _ [_]).
  - by apply (filepath_join_nonempty _ [_]).
Qed.

Lemma resolveConfig_id c : resolved c → resolveConfig c = c.
Proof.
  intros (H1 & H2 & H3 & H4). unfold resolveConfig. destruct c. cbn in *.
  by rewrite !or_else_id by done.
Qed.

(** An argument that is no flag. *)
Definition plain_arg (a : bytes) : Prop := a ≠ #"--cold-restore" ∧ ∀ v, value_option a v = None.

Lemma parse_plain a rest : plain_arg a → parseDaemonArgs (a :: rest) = parseDaemonArgs rest.
Proof. intros [Hc Hv]. cbn [parseDaemonArgs]. rewrite decide_False by done. destruct rest; [done|]. by rewrite Hv. Qed.

Lemma parse_value a v rest opts :
  a ≠ #"--cold-restore" → value_option a v = Some opts →
  parseDaemonArgs (a :: v :: rest) = opts ++ parseDaemonArgs rest.
Proof. intros Hc Hv. cbn [parseDaemonArgs]. by rewrite decide_False, Hv by done. Qed.

(** Parsing goes through the flags that are built, one after the other. *)
Lemma parse_if_value (b : bool) a v rest opts :
  a ≠ #"--cold-restore" → (b = true → value_option a v = Some opts) →
  parseDaemonArgs ((if b then [a; v] else []) ++ rest) = (if b then opts else []) ++ parseDaemonArgs rest.
Proof. intros Ha Hv. destruct b; [|done]. by apply parse_value, Hv. Qed.

Lemma parse_if (b : bool) v rest :
  b = true → parseDaemonArgs ((if b then [v] else []) ++ rest) = parseDaemonArgs (v :: rest).
Proof. by intros ->. Qed.

(** The options that the command line of a configuration stands for. *)
Lemma parse_build c :
  in_i64 (maxScrollbackSize c) →
  parseDaemonArgs (buildDaemonArgs c) =
    (if decide (baseDir c = []) then [] else [WithBaseDir (baseDir c)]) ++
    (if decide (namespace c = #"default") then [] else [WithNamespace (namespace c)]) ++
    [WithSocket (socket c); WithTokenPath (tokenPath c); WithDataDir (dataDir c)] ++
    (if coldRestore c then [WithColdRestore true] else []) ++
    (if bool_decide (0 < maxScrollbackSize c) then [WithMaxScrollbackSize (maxScrollbackSize c)] else []).
Proof.
  intros Hn. unfold buildDaemonArgs.
  assert (Hsent : plain_arg daemonSentinel) by by split. cbn [app]. rewrite parse_plain by done.
  assert (Hv : ∀ a v rest opts, a ≠ #"--cold-restore" → value_option a v = Some opts →
    parseDaemonArgs ([a; v] ++ rest) = opts ++ parseDaemonArgs rest) by apply parse_value.
  assert (Htail : parseDaemonArgs ((if coldRestore c then [ #"--cold-restore"] else []) ++
      (if bool_decide (0 < maxScrollbackSize c) then [ #"--max-scrollback"; itoa (maxScrollbackSize c)] else [])) =
    (if coldRestore c then [WithColdRestore true] else []) ++
    (if bool_decide (0 < maxScrollbackSize c) then [WithMaxScrollbackSize (maxScrollbackSize c)] else [])).
  { assert (Hmax : parseDaemonArgs (if bool_decide (0 < maxScrollbackSize c)
        then [ #"--max-scrollback"; itoa (maxScrollbackSize c)] else []) =
      if bool_decide (0 < maxScrollbackSize c) then [WithMaxScrollbackSize (maxScrollbackSize c)] else []).
    { case_bool_decide; [|done]. rewrite (parse_value _ _ _ [WithMaxScrollbackSize (maxScrollbackSize c)]); [done|done|].
      unfold value_option. rewrite !decide_False, decide_True by done. by rewrite parse_int_itoa. }
    destruct (coldRestore c); [|exact Hmax]. cbn [app]. by rewrite <- Hmax. }
  destruct (decide (baseDir c = [])), (decide (namespace c = #"default")); cbn [app];
    repeat (rewrite (parse_value _ _ _ [WithBaseDir (baseDir c)]) by done);
    repeat (rewrite (parse_value _ _ _ [WithNamespace (namespace c)]) by done);
    rewrite (parse_value _ _ _ [WithSocket (socket c)]), (parse_value _ _ _ [WithTokenPath (tokenPath c)]),
      (parse_value _ _ _ [WithDataDir (dataDir c)]), Htail by done; done.
Qed.

Lemma namespace_option ns c0 :
  namespace c0 = #"default" →
  foldl (λ c (o : Option_), o c) c0 (if decide (ns = #"default") then [] else [WithNamespace ns]) =
  WithNamespace ns c0.
Proof.
  intros Hc. destruct (decide (ns = #"default")) as [->|]; [|done]. cbn [foldl]. destruct c0. cbn in Hc. by subst.
Qed.

(** ** Theorems *)

(** What a daemon makes of the arguments of a resolved configuration. *)
Lemma daemon_config_args exe c extra :
  resolved c → in_i64 (maxScrollbackSize c) → plain_arg exe →
  daemon_config (exe :: buildDaemonArgs c) extra =
    Some (resolveConfig (foldl (λ c o, o c)
      (mkConfig (namespace c) (baseDir c) (socket c) (tokenPath c) (dataDir c) (coldRestore c)
         (Z.max 0 (maxScrollbackSize c)) true (10000 * millisecond) None [] 0 0 0) extra)).
Proof.
  intros (H1 & H2 & H3 & H4) Hn Hexe. unfold daemon_config.
  assert (Hmode : isDaemonMode (exe :: buildDaemonArgs c) = true).
  { unfold isDaemonMode, buildDaemonArgs. cbn [existsb app].
    by rewrite (bool_decide_eq_true_2 (daemonSentinel = daemonSentinel)), orb_true_r. }
  rewrite Hmode, parse_plain, parse_build by done. unfold newConfig. rewrite foldl_app. clear Hmode.
  rewrite decide_False by done. do 3 f_equal. rewrite foldl_app. cbn [foldl].
  rewrite foldl_app, namespace_option by done. cbn [app foldl].
  destruct c as [ns bd so tp dd cr ms au rp ef dp dl dm df]. cbn in H1, H2, H3, H4, Hn.
  cbn [coldRestore maxScrollbackSize]. case_bool_decide as Hms;
    [rewrite Z.max_r by lia|rewrite Z.max_l by lia]; by destruct cr.
Qed.

(** A client that starts its own program as a daemon passes on what the
    daemon must share with it: from the arguments that the client builds of its
    resolved configuration the daemon recognises its mode and arrives at the
    same namespace, directories, socket, token, cold-restore flag and scrollback
    limit (none for a negative one), with the program's extra options applied
    after them; the time-out and the debug options are not passed on. *)
Theorem daemon_args_roundtrip exe c extra :
  resolved c → in_i64 (maxScrollbackSize c) → plain_arg exe →
  daemon_config (exe :: buildDaemonArgs c) extra =
    Some (resolveConfig (foldl (λ c o, o c)
      (mkConfig (namespace c) (baseDir c) (socket c) (tokenPath c) (dataDir c) (coldRestore c)
         (Z.max 0 (maxScrollbackSize c)) true (10000 * millisecond) None [] 0 0 0) extra)).
Proof. intros Hr Hn He. by apply daemon_config_args. Qed.

(** The debug configuration of a daemon: tracing is on exactly when a path
    was given or the environment asks for it; the path given wins over the
    environment's; a positive level, size or number of files given wins over
    the environment's, which wins over the default; and what results is always
    a level between off and full and a positive size and number of files. *)
Theorem debug_config_precedence getenv h darwin c :
  let env := ReadEnv getenv h darwin in
  let r := resolveDebugConfig env c in
  (Enabled r = true ↔ debugLogPath c ≠ [] ∨ Enabled env = true) ∧
  (debugLogPath c ≠ [] → Path r = debugLogPath c) ∧
  (debugLogPath c = [] → Enabled env = true → Path r = Path env) ∧
  (Enabled r = true →
    (0 < debugLevel c → env_Level r = Z.min (debugLevel c) LevelFull) ∧
    (debugLevel c <= 0 → env_Level env ≠ LevelOff → env_Level r = env_Level env) ∧
    (0 < debugMaxSize c → MaxSizeMB r = debugMaxSize c) ∧
    (debugMaxSize c <= 0 → MaxSizeMB r = MaxSizeMB env) ∧
    (0 < debugMaxFiles c → MaxFiles r = debugMaxFiles c) ∧
    (debugMaxFiles c <= 0 → MaxFiles r = MaxFiles env)) ∧
  LevelOff <= env_Level r <= LevelFull ∧ 0 < MaxSizeMB r ∧ 0 < MaxFiles r.
Proof.
  cbv zeta. destruct (ReadEnv_bounds getenv h darwin) as (Hl & Hs & Hf & _).
  set (env := ReadEnv getenv h darwin) in *. unfold resolveDebugConfig.
  assert (Hclamp : ∀ n, 0 < n → ClampLevel n = Z.min n LevelFull)
    by (intros n Hn; unfold ClampLevel, LevelFull; repeat case_bool_decide; lia).
  assert (Hb : ∀ n, LevelOff <= ClampLevel n <= LevelFull) by apply ClampLevel_bounds.
  unfold LevelOff, LevelChunk, LevelFull in *.
  assert (Hpick : ∀ n m d, 0 < m →
    (if bool_decide (n > 0) then n else if bool_decide (m > 0) then m else d) = if bool_decide (0 < n) then n else m)
    by (intros; repeat case_bool_decide; lia).
  rewrite !Hpick by done.
  destruct (decide (debugLogPath c = [])) as [Hp|Hp]; [destruct (Enabled env) eqn:He|];
    cbn [negb Enabled Path env_Level MaxSizeMB MaxFiles].
  2: { split_and!; try done; try lia. split; [discriminate|]. by intros [?|[=]]. }
  all: split_and!; try done; try (repeat case_bool_decide; first [lia|apply Hb]); try (split; [intros _; auto|done]).
  all: try (intros _; split_and!; intros; repeat case_bool_decide; try lia; by apply Hclamp).
Qed.

End Config.
Arguments config : clear implicits.
Arguments Option_ : clear implicits.

(** ** Witnesses *)

Section Witnesses.

Definition example_client : config unit :=
  resolveConfig (Ok #"/home/u") #"/tmp" (newConfig [WithNamespace #"work"; WithColdRestore true; WithMaxScrollbackSize 4096]).

Lemma daemon_args_roundtrip_witness :
  resolved example_client ∧
  (socket <$> daemon_config (F := unit) (Ok #"/root") #"/tmp" (#"/bin/app" :: buildDaemonArgs example_client) []) =
    Some #"/home/u/.wmux/work/daemon.sock".
Proof.
  assert (Hr : resolved example_client) by apply resolveConfig_resolved.
  split; [exact Hr|]. rewrite (daemon_args_roundtrip (Ok #"/root") #"/tmp" #"/bin/app" example_client []).
  - vm_compute. reflexivity.
  - exact Hr.
  - split; vm_compute; discriminate.
  - by split.
Defined.
End Witnesses.
