(* ===== verification/ClientRpc.v ===== *)
(** * The client's requests: [sendRequest] and [readControl] of [pkg/client]

    Callers wait for the goroutines that drain late responses, take the lock,
    write their request and wait for the next frame on the response channel or
    for their time-out.  A caller and its request are a number, a response is
    the request that it answers.  The daemon answers the requests of a
    connection in order (a request to wait is answered when it can be, which
    from the other requests' side is in any order of [Answer]s that it
    precedes).  Responses on the socket, held by [readControl] and in the
    channel are one queue. *)

From S2P Require Import Prelude GoStrings.

(** [waiting] are the callers past the wait for the drains that do not hold the
    lock yet; [holder] holds it; [histories] are the callers of [History] that
    have written and let go of the lock. *)
Record rpc := mkRpc {
  drains : nat;
  waiting : list nat;
  holder : option nat;
  histories : list nat;
  asked : list nat;
  arrived : list nat;
  streamed : list nat;
  outcomes : list (nat * option nat);
}.

Definition connected : rpc := mkRpc 0 [] None [] [] [] [] [].

(** What a goroutine does next. *)
Inductive revent :=
  | Call (n : nat)          (** [sendRequest] finds no drain *)
  | Write (n : nat)         (** takes the lock and writes *)
  | Receive                 (** the holder takes the next response *)
  | Timeout                 (** the holder gives up and leaves a drain behind *)
  | Drain                   (** a drain takes the next response *)
  | History (n : nat)       (** [History] takes the lock, writes, and lets go *)
  | HistoryFrame (n : nat)  (** it takes the first frame of the history channel *)
  | HistoryError (n : nat)  (** it takes the next response *)
  | Answer                  (** the daemon answers, with a response *)
  | AnswerStream.           (** the daemon answers, with a history *)

#[export] Instance revent_eq_decision : EqDecision revent.
Proof. solve_decision. Defined.

Definition without (n : nat) (l : list nat) : list nat := filter (λ m, m ≠ n) l.

(** [None]: the event cannot happen now. *)
Definition rpc_step (s : rpc) (e : revent) : option rpc :=
  let '(mkRpc dr wa ho hi asq ar st out) := s in
  match e with
  | Call n =>
      if bool_decide (dr = 0) then Some (mkRpc dr (wa ++ [n]) ho hi asq ar st out) else None
  | Write n =>
      if bool_decide (n ∈ wa) && bool_decide (ho = None)
      then Some (mkRpc dr (without n wa) (Some n) hi (asq ++ [n]) ar st out) else None
  | Receive =>
      match ho, ar with
      | Some n, r :: ar => Some (mkRpc dr wa None hi asq ar st (out ++ [(n, Some r)]))
      | _, _ => None
      end
  | Timeout =>
      match ho with
      | Some n => Some (mkRpc (S dr) wa None hi asq ar st (out ++ [(n, None)]))
      | None => None
      end
  | Drain =>
      match dr, ar with
      | S dr, r :: ar => Some (mkRpc dr wa ho hi asq ar st out)
      | _, _ => None
      end
  | History n =>
      if bool_decide (ho = None) then Some (mkRpc dr wa ho (hi ++ [n]) (asq ++ [n]) ar st out) else None
  | HistoryFrame n =>
      match st with
      | r :: st =>
          if bool_decide (n ∈ hi)
          then Some (mkRpc dr wa ho (without n hi) asq ar st (out ++ [(n, Some r)])) else None
      | [] => None
      end
  | HistoryError n =>
      match ar with
      | r :: ar =>
          if bool_decide (n ∈ hi)
          then Some (mkRpc dr wa ho (without n hi) asq ar st (out ++ [(n, Some r)])) else None
      | [] => None
      end
  | Answer =>
      match asq with
      | r :: asq => Some (mkRpc dr wa ho hi asq (ar ++ [r]) st out)
      | [] => None
      end
  | AnswerStream =>
      match asq with
      | r :: asq => Some (mkRpc dr wa ho hi asq ar (st ++ [r]) out)
      | [] => None
      end
  end.

(** A run, with a condition on each step. *)
Fixpoint rpc_run (P : rpc → revent → Prop) `{∀ s e, Decision (P s e)} (s : rpc) (es : list revent) : option rpc :=
  match es with
  | [] => Some s
  | e :: es => if decide (P s e) then s ← rpc_step s e; rpc_run P s es else None
  end.

(** ** One caller at a time *)

(** Nobody is in the middle of a request. *)
Definition idle (s : rpc) : Prop := waiting s = [] ∧ holder s = None ∧ histories s = [].

(** A request starts when the one before it has ended; a history only when no
    response is outstanding, either; and the daemon streams only histories. *)
Definition alone (s : rpc) (e : revent) : Prop :=
  match e with
  | Call _ => idle s
  | History _ => idle s ∧ drains s = 0
  | AnswerStream => histories s ≠ []
  | _ => True
  end.

#[export] Instance alone_decision s e : Decision (alone s e).
Proof. unfold alone, idle. destruct e; apply _. Defined.

(** The responses that are still to come, oldest first. *)
Definition outstanding (s : rpc) : list nat := arrived s ++ asked s.

Definition rpc_inv (s : rpc) : Prop :=
  (∀ n r, (n, Some r) ∈ outcomes s → r = n) ∧
  ((idle s ∧ streamed s = [] ∧ length (outstanding s) = drains s) ∨
   (∃ n, waiting s = [n] ∧ holder s = None ∧ histories s = [] ∧ streamed s = [] ∧ drains s = 0 ∧ outstanding s = []) ∨
   (∃ n, waiting s = [] ∧ holder s = Some n ∧ histories s = [] ∧ streamed s = [] ∧ drains s = 0 ∧ outstanding s = [n]) ∨
   (∃ n, waiting s = [] ∧ holder s = None ∧ histories s = [n] ∧ drains s = 0 ∧ outstanding s ++ streamed s = [n])).

Lemma outcome_snoc out (n : nat) :
  (∀ m r, (m, Some r) ∈ out → r = m) → ∀ m r, (m, Some r) ∈ out ++ [(n, Some n)] → r = m.
Proof. intros Ho m r [Hin|Hin]%elem_of_app; [by eapply Ho|]. apply list_elem_of_singleton in Hin. by simplify_eq. Qed.

Lemma outcome_snoc_timeout out (n : nat) :
  (∀ m r, (m, Some r) ∈ out → r = m) → ∀ m r, (m, Some r) ∈ out ++ [(n, @None nat)] → r = m.
Proof. intros Ho m r [Hin|Hin]%elem_of_app; [by eapply Ho|]. by apply list_elem_of_singleton in Hin. Qed.

Lemma without_single n : without n [n] = [].
Proof. unfold without. by rewrite filter_cons_False by tauto. Qed.

Lemma app_cons_single (l st : list nat) r m : l ++ r :: st = [m] → l = [] ∧ r = m ∧ st = [].
Proof. destruct l as [|x [|y l]]; cbn; intros H; by simplify_eq. Qed.

(** The invariant's four cases, on the fields. *)
Ltac rpc_cases H :=
  destruct H as [Hout [((Hwa & Hho & Hhi) & Hst & Hlen)|[(m & Hwa & Hho & Hhi & Hst & Hdr & Hos)|
    [(m & Hwa & Hho & Hhi & Hst & Hdr & Hos)|(m & Hwa & Hho & Hhi & Hdr & Hos)]]]]; unfold outstanding in *; cbn in *; subst.

Lemma rpc_step_inv s e s' : rpc_inv s → alone s e → rpc_step s e = Some s' → rpc_inv s'.
Proof.
  destruct s as [dr wa ho hi asq ar st out]. intros Hi Ha Hs.
  destruct e as [n|n| | | |n|n|n| |]; cbn in Ha, Hs.
  - case_bool_decide; [|done]. injection Hs as <-. destruct Ha as (Hwa & Hho & Hhi). cbn in *. subst.
    rpc_cases Hi; try done. split; [done|]. right. left. exists n. split_and!; try done.
    by apply length_zero_iff_nil.
  - case_bool_decide as Hin; [|done]. case_bool_decide; [|done]. injection Hs as <-. subst.
    rpc_cases Hi; try by apply elem_of_nil in Hin.
    apply list_elem_of_singleton in Hin as ->. split; [done|]. right. right. left. exists m. rewrite without_single.
    apply app_eq_nil in Hos as [-> ->]. by split_and!.
  - destruct ho as [n|]; [|done]. destruct ar as [|r ar]; [done|]. injection Hs as <-.
    rpc_cases Hi; try done. injection Hho as ->. injection Hos as -> [-> ->]%app_eq_nil.
    split; [by apply outcome_snoc|]. left. by repeat split.
  - destruct ho as [n|]; [|done]. injection Hs as <-. rpc_cases Hi; try done. injection Hho as ->.
    split; [by apply outcome_snoc_timeout|]. left. repeat split. unfold outstanding. cbn. by rewrite Hos.
  - destruct dr as [|dr]; [done|]. destruct ar as [|r ar]; [done|]. injection Hs as <-.
    rpc_cases Hi; try done. split; [done|]. left. repeat split. unfold outstanding. cbn. lia.
  - case_bool_decide; [|done]. injection Hs as <-. destruct Ha as ((Hwa & Hho & Hhi) & Hdr). cbn in *. subst.
    rpc_cases Hi; try done. split; [done|]. right. right. right. exists n. apply length_zero_iff_nil in Hlen.
    apply app_eq_nil in Hlen as [-> ->]. by split_and!.
  - destruct st as [|r st]; [done|]. case_bool_decide as Hin; [|done]. injection Hs as <-.
    rpc_cases Hi; try done. apply list_elem_of_singleton in Hin as ->.
    apply app_cons_single in Hos as ([-> ->]%app_eq_nil & -> & ->).
    rewrite without_single. split; [by apply outcome_snoc|]. left. by repeat split.
  - destruct ar as [|r ar]; [done|]. case_bool_decide as Hin; [|done]. injection Hs as <-.
    rpc_cases Hi; try by apply elem_of_nil in Hin. apply list_elem_of_singleton in Hin as ->.
    injection Hos as -> [[-> ->]%app_eq_nil ->]%app_eq_nil. rewrite without_single.
    split; [by apply outcome_snoc|]. left. by repeat split.
  - destruct asq as [|r asq]; [done|]. injection Hs as <-. destruct Hi as [Hout Hc]. split; [done|].
    unfold outstanding, idle in *. cbn in *. rewrite <- app_assoc. exact Hc.
  - destruct asq as [|r asq]; [done|]. injection Hs as <-. rpc_cases Hi; try done.
    split; [done|]. right. right. right. exists m. split_and!; try done. unfold outstanding. cbn.
    rewrite <- app_assoc in Hos. apply app_cons_single in Hos as (-> & -> & [-> ->]%app_eq_nil). done.
Qed.

Lemma rpc_run_inv s es s' : rpc_inv s → rpc_run alone s es = Some s' → rpc_inv s'.
Proof.
  revert s. induction es as [|e es IH]; intros s Hi Hr; [by injection Hr as <-|]. cbn in Hr.
  case_decide as Ha; [|done]. destruct (rpc_step s e) as [s1|] eqn:Hs; [|done].
  eapply IH; [|exact Hr]. by eapply rpc_step_inv.
Qed.

(** ** Theorems *)

#[local] Instance any_decision (s : rpc) (e : revent) : Decision True := left I.

Abbreviation any := (λ (_ : rpc) (_ : revent), True) (only parsing).


(** Runs events whose conditions hold. *)
Ltac rpc_compute :=
  repeat (progress cbn -[bool_decide without] || rewrite bool_decide_eq_true_2 by (done || by left)).

(** Two callers at once can be given each other's responses: the second has
    passed the wait for the drains when the first times out, and then takes the
    late response before the drain does.  And a single caller that asks for a
    history after a time-out can be given the late response as the history's. *)
Theorem late_responses_are_taken_by_others a b :
  a ≠ b →
  (∃ s, rpc_run any connected
      [Call a; Call b; Write a; Timeout; Write b; Answer; Receive] = Some s ∧
    outcomes s = [(a, None); (b, Some a)]) ∧
  ∃ s, rpc_run any connected
      [Call a; Write a; Timeout; History b; Answer; HistoryError b] = Some s ∧
    outcomes s = [(a, None); (b, Some a)].
Proof.
  intros Hne. split; eexists; split.
  - assert (Hw : without a [a; b] = [b])
      by (unfold without; rewrite filter_cons_False by tauto; by rewrite filter_cons_True by congruence).
    rpc_compute. rewrite Hw. rpc_compute. reflexivity.
  - reflexivity.
  - rpc_compute. rewrite without_single. rpc_compute. reflexivity.
  - reflexivity.
Qed.

(** Once a request has timed out, no other is sent before its response has
    come: the next call waits for it outside its own time-out, so a request
    that the daemon never answers (to wait for a session that does not exit)
    blocks the client for good. *)
Theorem unanswered_request_blocks_calls s es s' :
  rpc_run any s es = Some s' → 0 < drains s → arrived s = [] → Answer ∉ es → ∀ n, Call n ∉ es.
Proof.
  revert s. induction es as [|e es IH]; intros s Hr Hd Har Hna n; [apply not_elem_of_nil|].
  cbn in Hr. destruct (rpc_step s e) as [s1|] eqn:Hs; [|done]. cbn in Hr.
  apply not_elem_of_cons in Hna as [Hne Hna].
  assert (Hkeep : 0 < drains s1 ∧ arrived s1 = [] ∧ ∀ m, e ≠ Call m).
  { destruct s as [dr wa ho hi asq ar st out]. cbn in *. subst ar.
    destruct e; cbn in Hs; try done; repeat case_match; simplify_eq; cbn; split_and!; try done; try lia.
    all: apply bool_decide_eq_true in H; lia. }
  destruct Hkeep as (Hd1 & Har1 & Hcall). apply not_elem_of_cons. split; [by intros Heq; eapply Hcall|].
  by apply (IH s1).
Qed.

(** ** Witnesses *)

Section Witnesses.


Lemma late_responses_are_taken_by_others_witness :
  1 ≠ 2 ∧ ∃ s, rpc_run any connected [Call 1; Call 2; Write 1; Timeout; Write 2; Answer; Receive] = Some s ∧
    outcomes s = [(1, None); (2, Some 1)].
Proof. split; [done|]. exact (proj1 (late_responses_are_taken_by_others 1 2 ltac:(done))). Defined.

Lemma unanswered_request_blocks_calls_witness :
  ∃ s s', rpc_run any connected [Call 1; Write 1; Timeout] = Some s ∧
    rpc_run any s [History 2; AnswerStream] = Some s' ∧ ∀ n, Call n ∉ [History 2; AnswerStream].
Proof.
  destruct (rpc_run any connected [Call 1; Write 1; Timeout]) as [s|] eqn:Hr; [|vm_compute in Hr; discriminate].
  exists s. destruct (rpc_run any s [History 2; AnswerStream]) as [s'|] eqn:Hr';
    [|vm_compute in Hr; injection Hr as <-; vm_compute in Hr'; discriminate].
  exists s'. split; [done|]. split; [done|].
  apply (unanswered_request_blocks_calls s _ s' Hr').
  - vm_compute in Hr. injection Hr as <-. cbn. lia.
  - vm_compute in Hr. by injection Hr as <-.
  - set_solver.
Defined.
End Witnesses.
