(* ===== verification/SessionManager.v ===== *)
(** * The session backend as the daemon sees it: [daemon.SessionManager], [pkg/client/adapter.go]

    The interface through which the daemon uses the session service, the laws
    that the daemon's theorems rely on, and the adapter that implements it on
    [Session.Service].  What the operating system answers to the operations (the
    process spawned, the outcome of a write, the time) is one answer per
    operation, taken from a stream. *)

From S2P Require Import Prelude GoStrings Pipeline SessionValues Session.

#[local] Open Scope Z_scope.

Record SessionCreateOptions := mkCreateOptions {
  co_Shell : bytes;
  co_Args : list bytes;
  co_Cols : Z;
  co_Rows : Z;
  co_Cwd : bytes;
  co_Env : list bytes;
}.

Record SessionInfo := mkInfo {
  si_ID : bytes;
  si_State : bytes;
  si_Pid : Z;
  si_Cols : Z;
  si_Rows : Z;
  si_Shell : bytes;
}.

#[export] Instance SessionInfo_eq_decision : EqDecision SessionInfo.
Proof. solve_decision. Defined.

(** Operations that change the backend return its next state. *)
Class SessionManager (S : Type) := {
  sm_Create : S → bytes → SessionCreateOptions → result SessionInfo * S;
  sm_Get : S → bytes → result SessionInfo;
  sm_List : S → list SessionInfo;
  sm_Kill : S → bytes → option error * S;
  sm_Resize : S → bytes → Z → Z → option error * S;
  sm_WriteInput : S → bytes → bytes → option error * S;
  sm_ReadOutput : S → bytes → result bytes * S;
  sm_Attach : S → bytes → option error * S;
  sm_Detach : S → bytes → option error * S;
  sm_Snapshot : S → bytes → result bytes;
  sm_MetaSet : S → bytes → bytes → bytes → option error * S;
  sm_MetaGet : S → bytes → bytes → result bytes;
  sm_MetaGetAll : S → bytes → result (gmap bytes bytes);
  sm_UpdateEmulatorScrollback : S → bytes → Z → option error * S;
}.

(** The backend has a session of that identifier. *)
Definition known {S} `{SessionManager S} (s : S) (id : bytes) : bool := is_ok (sm_Get s id).

(** An operation that neither adds nor removes a session. *)
Definition quiet {S} `{SessionManager S} (ok : S → Prop) (s s' : S) : Prop :=
  ok s' ∧ ∀ id, known s' id = known s id.

(** What the daemon may rely on, in the states that [sm_ok] describes. *)
Class SessionManagerLaws (S : Type) `{SM : SessionManager S} := {
  sm_ok : S → Prop;
  sm_Get_id s id i : sm_ok s → sm_Get s id = Ok i → si_ID i = id;
  sm_List_spec s : sm_ok s →
    NoDup (si_ID <$> sm_List s) ∧ ∀ i, i ∈ sm_List s ↔ sm_Get s (si_ID i) = Ok i;
  sm_Create_spec s id o : sm_ok s →
    let (r, s') := sm_Create s id o in
    sm_ok s' ∧
    match r with
    | Ok i => si_ID i = id ∧ known s id = false ∧
        ∀ id', known s' id' = bool_decide (id' = id) || known s id'
    | Err _ => ∀ id', known s' id' = known s id'
    end;
  sm_Kill_spec s id : sm_ok s →
    let (e, s') := sm_Kill s id in
    sm_ok s' ∧ (e = None ↔ known s id = true) ∧
    ∀ id', known s' id' = known s id' && negb (bool_decide (id' = id));
  sm_Attach_spec s id : sm_ok s →
    let (e, s') := sm_Attach s id in quiet sm_ok s s' ∧ (e = None ↔ known s id = true);
  sm_Detach_spec s id : sm_ok s →
    let (e, s') := sm_Detach s id in quiet sm_ok s s' ∧ (e = None ↔ known s id = true);
  sm_ReadOutput_spec s id : sm_ok s →
    let (r, s') := sm_ReadOutput s id in quiet sm_ok s s' ∧ is_ok r = known s id;
  sm_WriteInput_spec s id data : sm_ok s →
    let (e, s') := sm_WriteInput s id data in quiet sm_ok s s' ∧ (known s id = false → e ≠ None);
  sm_Resize_spec s id cols rows : sm_ok s →
    let (e, s') := sm_Resize s id cols rows in quiet sm_ok s s' ∧ (known s id = false → e ≠ None);
  sm_MetaSet_spec s id k v : sm_ok s →
    let (e, s') := sm_MetaSet s id k v in quiet sm_ok s s' ∧ (e = None ↔ known s id = true);
  sm_UpdateEmulatorScrollback_spec s id n : sm_ok s →
    let (e, s') := sm_UpdateEmulatorScrollback s id n in
    quiet sm_ok s s' ∧ (known s id = false → e ≠ None);
}.

(** ** The adapter *)

(** One answer of the operating system. *)
Record answer := mkAnswer {
  a_spawned : result Z;
  a_now : time;
  a_pgid : bool;
  a_resized : option error;
  a_written : option error;
}.

Section Adapter.

Context {E : Type} `{ScreenEmulator E} (answers : nat → answer).

Record manager := mkManager {
  svc : Service (E := E);
  asked : nat;              (** answers used so far *)
  done_effects : list effect;
}.

Definition toInfo (sess : Session) : SessionInfo :=
  mkInfo (ID sess) (State_String (sess_State sess)) (Pid sess) (Cols sess) (Rows sess) (Shell sess).

Definition advance (m : manager) (s : Service) (eff : list effect) : manager :=
  mkManager s (S (asked m)) (done_effects m ++ eff).

Definition adapter_Create (m : manager) (id : bytes) (o : SessionCreateOptions) : result SessionInfo * manager :=
  let a := answers (asked m) in
  let '(r, eff, s) :=
    Create (svc m) id
      (mkCreate (co_Shell o) (co_Args o) (co_Cols o) (co_Rows o) (co_Cwd o) (co_Env o) 0 0 0 false)
      (a_spawned a) (a_now a) in
  (wrap_err #"session adapter: create" (result_map toInfo r), advance m s eff).

Definition adapter_Get (m : manager) (id : bytes) : result SessionInfo :=
  wrap_err #"session adapter: get" (result_map toInfo (Get (svc m) id)).

Definition adapter_List (m : manager) : list SessionInfo := toInfo <$> Session.List (svc m).

Definition adapter_Kill (m : manager) (id : bytes) : option error * manager :=
  let '(e, eff, s) := Kill (svc m) id (a_pgid (answers (asked m))) in
  (EWrap #"session adapter: kill" <$> e, advance m s eff).

Definition adapter_Resize (m : manager) (id : bytes) (cols rows : Z) : option error * manager :=
  let '(e, eff, s) := Resize (svc m) id cols rows (a_resized (answers (asked m))) in
  (EWrap #"session adapter: resize" <$> e, advance m s eff).

Definition adapter_WriteInput (m : manager) (id data : bytes) : option error * manager :=
  let '(e, eff) := WriteInput (svc m) id data (a_written (answers (asked m))) in
  (EWrap #"session adapter: write input" <$> e, advance m (svc m) eff).

Definition adapter_ReadOutput (m : manager) (id : bytes) : result bytes * manager :=
  let (r, s) := ReadOutput (svc m) id in
  (wrap_err #"session adapter: read output" r, advance m s []).

Definition adapter_Attach (m : manager) (id : bytes) : option error * manager :=
  let (e, s) := Attach (svc m) id in (EWrap #"session adapter: attach" <$> e, advance m s []).

Definition adapter_Detach (m : manager) (id : bytes) : option error * manager :=
  let (e, s) := Detach (svc m) id in (EWrap #"session adapter: detach" <$> e, advance m s []).

Definition adapter_Snapshot (m : manager) (id : bytes) : result bytes :=
  wrap_err #"session adapter: snapshot" (Snapshot (svc m) id).

Definition adapter_MetaSet (m : manager) (id key value : bytes) : option error * manager :=
  let (e, s) := MetaSet (svc m) id key value in
  (EWrap #"session adapter: meta set" <$> e, advance m s []).

Definition adapter_MetaGet (m : manager) (id key : bytes) : result bytes :=
  wrap_err #"session adapter: meta get" (MetaGet (svc m) id key).

Definition adapter_MetaGetAll (m : manager) (id : bytes) : result (gmap bytes bytes) :=
  wrap_err #"session adapter: meta get all" (MetaGetAll (svc m) id).

Definition adapter_UpdateEmulatorScrollback (m : manager) (id : bytes) (n : Z) : option error * manager :=
  let (e, s) := UpdateEmulatorScrollback (svc m) id n in (e, advance m s []).

#[export] Instance sessionAdapter : SessionManager manager := {|
  sm_Create := adapter_Create;
  sm_Get := adapter_Get;
  sm_List := adapter_List;
  sm_Kill := adapter_Kill;
  sm_Resize := adapter_Resize;
  sm_WriteInput := adapter_WriteInput;
  sm_ReadOutput := adapter_ReadOutput;
  sm_Attach := adapter_Attach;
  sm_Detach := adapter_Detach;
  sm_Snapshot := adapter_Snapshot;
  sm_MetaSet := adapter_MetaSet;
  sm_MetaGet := adapter_MetaGet;
  sm_MetaGetAll := adapter_MetaGetAll;
  sm_UpdateEmulatorScrollback := adapter_UpdateEmulatorScrollback;
|}.

(** ** The adapter keeps the laws *)

Definition manager_ok (m : manager) : Prop := svc_inv (svc m).

Lemma adapter_known m id :
  manager_ok m → known m id = bool_decide (is_Some (sessions (svc m) !! id)).
Proof.
  intros Hi. unfold known. cbn. unfold adapter_Get, Get.
  destruct (Session.lookup (svc m) id) as [[ptr ms]|] eqn:Hl.
  - apply Session.lookup_Some in Hl as [Hs _]. symmetry. apply bool_decide_eq_true. by exists ptr.
  - apply Session.lookup_None in Hl; [|done]. symmetry. apply bool_decide_eq_false. rewrite Hl. by intros [].
Qed.

Lemma known_lookup m id : manager_ok m → known m id = true ↔ Session.lookup (svc m) id ≠ None.
Proof.
  intros Hi. unfold known. cbn. unfold adapter_Get, Get.
  destruct (Session.lookup (svc m) id) as [[ptr ms]|]; naive_solver.
Qed.

Lemma adapter_quiet m s' eff :
  manager_ok m → sstep (λ _ _, 0%nat) (svc m) s' → sessions s' = sessions (svc m) →
  quiet manager_ok m (advance m s' eff).
Proof.
  intros Hi Hs He. assert (Hi' : manager_ok (advance m s' eff)) by (eapply sstep_inv; [exact Hi|exact Hs]).
  split; [done|]. intros id. rewrite !adapter_known by done. cbn. by rewrite He.
Qed.

Lemma fmap_None_iff {A B} (f : A → B) (o : option A) : f <$> o = None ↔ o = None.
Proof. by destruct o. Qed.

#[export] Program Instance sessionAdapter_laws : SessionManagerLaws manager := {| sm_ok := manager_ok |}.
Next Obligation.
  intros m id i Hi. cbn. unfold adapter_Get. destruct (Get (svc m) id) as [sess|] eqn:Hg; [|done].
  intros [= <-]. cbn. apply Get_lookup in Hg as (ptr & ms & Hl & <-).
  apply Session.lookup_Some in Hl as [Hs Hms]. destruct Hi as (H1 & _).
  destruct (H1 _ _ Hs) as (ms' & Hms' & Hid & _). congruence.
Qed.
Next Obligation.
  intros m Hi. cbn. unfold adapter_List. split.
  { rewrite <- list_fmap_compose. by apply List_NoDup. }
  destruct (List_spec _ Hi) as [Hids Hget]. rewrite Forall_forall in Hget.
  intros i. rewrite list_elem_of_fmap. unfold adapter_Get. split.
  - intros (sess & -> & Hin). cbn [si_ID toInfo]. by rewrite (Hget _ Hin).
  - destruct (Get (svc m) (si_ID i)) as [sess|] eqn:Hg; [|done]. intros [= <-].
    exists sess. split; [done|]. apply Get_lookup in Hg as (ptr & ms & Hl & <-).
    apply Session.lookup_Some in Hl as [Hs Hms].
    assert (Hin : ID (session ms) ∈ ID <$> List (svc m)).
    { rewrite Hids. apply list_elem_of_fmap. exists (ID (session ms), ptr). split; [done|].
      apply elem_of_map_to_list. exact Hs. }
    apply list_elem_of_fmap in Hin as (sess & Hid & Hin). specialize (Hget _ Hin).
    rewrite <- Hid in Hget. apply Get_lookup in Hget as (ptr' & ms' & Hl & <-).
    apply Session.lookup_Some in Hl as [Hs' Hms']. cbn in Hs. congruence.
Qed.
Next Obligation.
  intros m id o Hi. cbn. unfold adapter_Create.
  match goal with |- context [Create (svc m) id ?x ?y ?z] =>
    pose proof (Create_inv (svc m) id x y z Hi) as Hi';
    destruct (Create_cases (svc m) id x y z) as
      [(e & eff & Hc)|(sess & eff & ms & Hc & _ & Hn & _ & Hs & Hid & _)] end;
    rewrite Hc in Hi' |- *; cbn [wrap_err result_map]; (split; [exact Hi'|]).
  - intros id'. by rewrite !adapter_known.
  - split; [done|]. rewrite adapter_known, Hn by done. split; [by apply bool_decide_eq_false; intros []|].
    intros id'. rewrite !adapter_known by done. cbn. destruct (decide (id' = id)) as [->|Hne].
    + rewrite lookup_insert_eq, !bool_decide_eq_true_2 by (done || by eexists). done.
    + by rewrite lookup_insert_ne, (bool_decide_eq_false_2 (id' = id)) by done.
Qed.
Next Obligation.
  intros m id Hi. cbn. unfold adapter_Kill. set (pg := a_pgid _).
  pose proof (Kill_inv (svc m) id pg Hi) as Hi'. pose proof (Kill_lookup (svc m) id pg) as Hk.
  destruct (Kill (svc m) id pg) as [[e eff] s] eqn:Hkill. cbn [snd] in *.
  assert (Hok : manager_ok (advance m s eff)) by done. split; [done|]. split.
  - rewrite fmap_None_iff, known_lookup by done. unfold Kill in Hkill.
    destruct (Session.lookup (svc m) id) as [[ptr ms]|]; [|simplify_eq; naive_solver].
    destruct (close_pty _); simplify_eq. naive_solver.
  - intros id'. specialize (Hk id' Hi).
    pose proof (known_lookup (advance m s eff) id' Hok) as H1.
    pose proof (known_lookup m id' Hi) as H2. cbn [svc advance] in H1. rewrite Hk in H1.
    case_bool_decide; case_decide; try done; cbn [negb]; rewrite ?andb_true_r, ?andb_false_r.
    + apply not_true_is_false. naive_solver.
    + destruct (known m id') eqn:Hkn; [by apply H1, H2|]. apply not_true_is_false.
      intros Ht%H1%H2. done.
Qed.
Next Obligation.
  intros m id Hi. cbn. unfold adapter_Attach. pose proof (st_attach (λ _ _, 0%nat) (svc m) id) as Hst.
  pose proof (known_lookup m id Hi) as Hk. unfold Attach in *.
  destruct (Session.lookup (svc m) id) as [[ptr ms]|]; [case_decide|]; cbn [fmap option_fmap option_map];
    (split; [by apply adapter_quiet|naive_solver]).
Qed.
Next Obligation.
  intros m id Hi. cbn. unfold adapter_Detach. pose proof (st_detach (λ _ _, 0%nat) (svc m) id) as Hst.
  pose proof (known_lookup m id Hi) as Hk. unfold Detach in *.
  destruct (Session.lookup (svc m) id) as [[ptr ms]|]; [case_decide|]; cbn [fmap option_fmap option_map];
    (split; [by apply adapter_quiet|naive_solver]).
Qed.
Next Obligation.
  intros m id Hi. cbn. unfold adapter_ReadOutput. pose proof (st_read (λ _ _, 0%nat) (svc m) id) as Hst.
  pose proof (known_lookup m id Hi) as Hk. unfold ReadOutput in *.
  destruct (Session.lookup (svc m) id) as [[ptr ms]|]; [destruct (drain (pipe ms)) as [out p]|];
    (split; [by apply adapter_quiet|]); cbn; destruct (known m id); naive_solver.
Qed.
Next Obligation.
  intros m id data Hi. cbn. unfold adapter_WriteInput. pose proof (known_lookup m id Hi) as Hk.
  unfold WriteInput. destruct (Session.lookup (svc m) id) as [[ptr ms]|];
    (split; [split; [done|by intros id'; rewrite !adapter_known by done]|]); intros Hf; [|done].
  by rewrite (proj2 Hk) in Hf.
Qed.
Next Obligation.
  intros m id cols rows Hi. cbn. unfold adapter_Resize. set (r := a_resized _).
  pose proof (st_resize (λ _ _, 0%nat) (svc m) id cols rows r) as Hst.
  pose proof (known_lookup m id Hi) as Hk. unfold Resize in *.
  destruct (Session.lookup (svc m) id) as [[ptr ms]|]; [destruct r|];
    (split; [by apply adapter_quiet|intros Hf; first [by rewrite (proj2 Hk) in Hf|done]]).
Qed.
Next Obligation.
  intros m id k v Hi. cbn. unfold adapter_MetaSet. pose proof (st_meta (λ _ _, 0%nat) (svc m) id k v) as Hst.
  pose proof (known_lookup m id Hi) as Hk. unfold MetaSet in *.
  destruct (Session.lookup (svc m) id) as [[ptr ms]|]; (split; [by apply adapter_quiet|naive_solver]).
Qed.
Next Obligation.
  intros m id n Hi. cbn. unfold adapter_UpdateEmulatorScrollback.
  pose proof (st_scrollback (λ _ _, 0%nat) (svc m) id n) as Hst.
  pose proof (known_lookup m id Hi) as Hk. unfold UpdateEmulatorScrollback in *.
  destruct (Session.lookup (svc m) id) as [[ptr ms]|]; [destruct (SetScrollbackSize (p_emulator (pipe ms)))|];
    (split; [by apply adapter_quiet|intros Hf; first [by rewrite (proj2 Hk) in Hf|done]]).
Qed.

End Adapter.

(** What a client of the metadata may rely on: what is set is read back, with
    everything else that the session had; the other sessions keep theirs. *)
Class MetadataLaws (S : Type) `{SM : SessionManager S, !SessionManagerLaws S} := {
  sm_Metadata_spec s id k v : sm_ok s → known s id = true →
    let s' := snd (sm_MetaSet s id k v) in
    sm_MetaGet s' id k = Ok v ∧
    (∃ m, sm_MetaGetAll s id = Ok m ∧ sm_MetaGetAll s' id = Ok (<[k := v]> m)) ∧
    ∀ id', id' ≠ id → sm_MetaGetAll s' id' = sm_MetaGetAll s id';
}.

Lemma lookup_with_store {E} `{ScreenEmulator E} (s : Service (E := E)) id id' ptr ms ms' :
  svc_inv s → Session.lookup s id = Some (ptr, ms) →
  Session.lookup (with_store s ptr ms') id' = if decide (id' = id) then Some (ptr, ms') else Session.lookup s id'.
Proof.
  intros (Hin & _) Hl. apply Session.lookup_Some in Hl as [Hs Hms]. unfold Session.lookup. cbn.
  case_decide as Hid; [subst; rewrite Hs; cbn; by rewrite lookup_insert_eq|].
  destruct (sessions s !! id') as [q|] eqn:Hq; [|done]. cbn. rewrite lookup_insert_ne; [done|].
  intros <-. destruct (Hin _ _ Hs) as (m1 & Hm1 & Hi1 & _). destruct (Hin _ _ Hq) as (m2 & Hm2 & Hi2 & _). congruence.
Qed.

#[export] Instance sessionAdapter_metadata {E} `{ScreenEmulator E} answers :
  MetadataLaws (manager (E := E)) (SM := sessionAdapter answers).
Proof.
  constructor. intros m id k v Hi Hk. cbn in Hi. cbn -[lookup insert]. unfold adapter_MetaSet, adapter_MetaGet, adapter_MetaGetAll, MetaSet.
  apply (known_lookup answers) in Hk; [|done]. destruct (Session.lookup (svc m) id) as [[ptr ms]|] eqn:Hl; [|done].
  cbn [snd advance svc]. unfold MetaGet, MetaGetAll. split_and!.
  - rewrite (lookup_with_store _ _ _ _ _ _ Hi Hl), decide_True by done. cbn. by rewrite lookup_insert_eq.
  - exists (Metadata (session ms)). rewrite Hl, (lookup_with_store _ _ _ _ _ _ Hi Hl), decide_True by done. done.
  - intros id' Hne. by rewrite (lookup_with_store _ _ _ _ _ _ Hi Hl), decide_False by done.
Qed.

(** ** What has been read from a backend *)

(** A backend that remembers the output that was read from it, session by
    session; the other operations read none. *)
Class Drains (S : Type) `{SessionManager S} := {
  drained : S → list (bytes * bytes);
  drained_ReadOutput s id :
    drained (snd (sm_ReadOutput s id)) =
      drained s ++ match fst (sm_ReadOutput s id) with
                   | Ok data => if decide (data = []) then [] else [(id, data)]
                   | Err _ => []
                   end;
  drained_Create s id o : drained (snd (sm_Create s id o)) = drained s;
  drained_Kill s id : drained (snd (sm_Kill s id)) = drained s;
  drained_Resize s id cols rows : drained (snd (sm_Resize s id cols rows)) = drained s;
  drained_WriteInput s id data : drained (snd (sm_WriteInput s id data)) = drained s;
  drained_Attach s id : drained (snd (sm_Attach s id)) = drained s;
  drained_Detach s id : drained (snd (sm_Detach s id)) = drained s;
  drained_MetaSet s id k v : drained (snd (sm_MetaSet s id k v)) = drained s;
  drained_UpdateEmulatorScrollback s id n :
    drained (snd (sm_UpdateEmulatorScrollback s id n)) = drained s;
}.

(** Any backend, with a record of what was read. *)
Section Logged.

Context {S : Type} `{SessionManager S}.

Definition logged : Type := S * list (bytes * bytes).

(** An operation of the backend under the record. *)
Definition under {A} (r : A * S) (l : list (bytes * bytes)) : A * logged := (fst r, (snd r, l)).

#[export] Instance logged_manager : SessionManager logged := {|
  sm_Create s id o := under (sm_Create (fst s) id o) (snd s);
  sm_Get s id := sm_Get (fst s) id;
  sm_List s := sm_List (fst s);
  sm_Kill s id := under (sm_Kill (fst s) id) (snd s);
  sm_Resize s id cols rows := under (sm_Resize (fst s) id cols rows) (snd s);
  sm_WriteInput s id data := under (sm_WriteInput (fst s) id data) (snd s);
  sm_ReadOutput s id :=
    let r := sm_ReadOutput (fst s) id in
    under r (snd s ++ match fst r with
                      | Ok data => if decide (data = []) then [] else [(id, data)]
                      | Err _ => []
                      end);
  sm_Attach s id := under (sm_Attach (fst s) id) (snd s);
  sm_Detach s id := under (sm_Detach (fst s) id) (snd s);
  sm_Snapshot s id := sm_Snapshot (fst s) id;
  sm_MetaSet s id k v := under (sm_MetaSet (fst s) id k v) (snd s);
  sm_MetaGet s id k := sm_MetaGet (fst s) id k;
  sm_MetaGetAll s id := sm_MetaGetAll (fst s) id;
  sm_UpdateEmulatorScrollback s id n := under (sm_UpdateEmulatorScrollback (fst s) id n) (snd s);
|}.

#[export] Program Instance logged_drains : Drains logged := {| drained s := snd s |}.
Next Obligation. done. Qed.
Next Obligation. done. Qed.
Next Obligation. done. Qed.
Next Obligation. done. Qed.
Next Obligation. done. Qed.
Next Obligation. done. Qed.
Next Obligation. done. Qed.
Next Obligation. done. Qed.
Next Obligation. done. Qed.

Lemma logged_quiet ok (s s' : S) l l' : quiet ok s s' → quiet (λ p : logged, ok (fst p)) (s, l) (s', l').
Proof. intros [Hok Hk]. by split. Qed.

(** The record changes nothing that the daemon relies on. *)
#[export] Program Instance logged_laws `{!SessionManagerLaws S} : SessionManagerLaws logged :=
  {| sm_ok s := sm_ok (fst s) |}.
Next Obligation. intros ? [s l] id i Hok. exact (sm_Get_id s id i Hok). Qed.
Next Obligation. intros ? [s l] Hok. exact (sm_List_spec s Hok). Qed.
Next Obligation.
  intros ? [s l] id o Hok. pose proof (sm_Create_spec s id o Hok) as Hs. cbn in *.
  by destruct (sm_Create s id o) as [[i|e] s'].
Qed.
Next Obligation.
  intros ? [s l] id Hok. pose proof (sm_Kill_spec s id Hok) as Hs. cbn in *.
  by destruct (sm_Kill s id) as [e s'].
Qed.
Next Obligation.
  intros ? [s l] id Hok. pose proof (sm_Attach_spec s id Hok) as Hs. cbn in *.
  destruct (sm_Attach s id) as [e s']. destruct Hs. split; [by apply logged_quiet|done].
Qed.
Next Obligation.
  intros ? [s l] id Hok. pose proof (sm_Detach_spec s id Hok) as Hs. cbn in *.
  destruct (sm_Detach s id) as [e s']. destruct Hs. split; [by apply logged_quiet|done].
Qed.
Next Obligation.
  intros ? [s l] id Hok. pose proof (sm_ReadOutput_spec s id Hok) as Hs. cbn in *.
  destruct (sm_ReadOutput s id) as [e s']. destruct Hs. split; [by apply logged_quiet|done].
Qed.
Next Obligation.
  intros ? [s l] id data Hok. pose proof (sm_WriteInput_spec s id data Hok) as Hs. cbn in *.
  destruct (sm_WriteInput s id data) as [e s']. destruct Hs. split; [by apply logged_quiet|done].
Qed.
Next Obligation.
  intros ? [s l] id cols rows Hok. pose proof (sm_Resize_spec s id cols rows Hok) as Hs. cbn in *.
  destruct (sm_Resize s id cols rows) as [e s']. destruct Hs. split; [by apply logged_quiet|done].
Qed.
Next Obligation.
  intros ? [s l] id k v Hok. pose proof (sm_MetaSet_spec s id k v Hok) as Hs. cbn in *.
  destruct (sm_MetaSet s id k v) as [e s']. destruct Hs. split; [by apply logged_quiet|done].
Qed.
Next Obligation.
  intros ? [s l] id n Hok. pose proof (sm_UpdateEmulatorScrollback_spec s id n Hok) as Hs. cbn in *.
  destruct (sm_UpdateEmulatorScrollback s id n) as [e s']. destruct Hs. split; [by apply logged_quiet|done].
Qed.

#[export] Instance logged_metadata `{!SessionManagerLaws S, !MetadataLaws S} : MetadataLaws logged.
Proof. constructor. intros [s l] id k v Hok Hk. exact (sm_Metadata_spec s id k v Hok Hk). Qed.

End Logged.

Arguments logged : clear implicits.
