(* ===== verification/DaemonTypes.v ===== *)
(** * The daemon's data: [daemon/entity.go] and the state of [daemon/service.go]

    The requests and responses of the control channel, the state of the daemon
    over an abstract session backend, and what its handlers do outside that
    state.  [encoding/json] is a parameter, one function for each type that is
    read or written; a response is kept as the value that is encoded. *)

From S2P Require Import Prelude Files GoStrings SessionValues Protocol SessionManager.
From S2P Require History Recording Commands CmdLifecycle Event.

#[local] Open Scope Z_scope.

(** ** Requests *)

Record CreateRequest := mkCreateRequest {
  cr_ID : bytes;
  cr_Shell : bytes;
  cr_Args : list bytes;
  cr_Cols : Z;
  cr_Rows : Z;
  cr_Cwd : bytes;
  cr_Env : list bytes;
}.

Record SessionIDRequest := mkSessionIDRequest { sr_SessionID : bytes }.

Record ResizeRequest := mkResizeRequest { rr_SessionID : bytes; rr_Cols : Z; rr_Rows : Z }.

Record ListRequest := mkListRequest { lr_Prefix : bytes }.

Record EventSubscribeRequest := mkEventSubscribeRequest { es_SessionID : bytes }.

Record MetaSetRequest := mkMetaSetRequest { ms_SessionID : bytes; ms_Key : bytes; ms_Value : bytes }.

Record MetaGetRequest := mkMetaGetRequest { mg_SessionID : bytes; mg_Key : bytes }.

Record EnvForwardRequest := mkEnvForwardRequest { ef_SessionID : bytes; ef_Env : gmap bytes bytes }.

Record ExecRequest := mkExecRequest { ex_SessionID : bytes; ex_Input : bytes; ex_Newline : bool }.

Record ExecSyncRequest := mkExecSyncRequest {
  xs_SessionIDs : list bytes;
  xs_Prefix : bytes;
  xs_Input : bytes;
  xs_Newline : bool;
}.

Record WaitRequest := mkWaitRequest {
  wq_SessionID : bytes;
  wq_Mode : bytes;
  wq_Timeout : Z;
  wq_IdleFor : Z;
  wq_Pattern : bytes;
}.

Record RecordRequest := mkRecordRequest { rq_SessionID : bytes; rq_Action : bytes }.

Record UpdateEmulatorScrollbackRequest := mkUpdateScrollbackRequest {
  us_SessionID : bytes;
  us_ScrollbackLines : Z;
}.

Record KillPrefixRequest := mkKillPrefixRequest { kp_Prefix : bytes }.

Record HistoryRequest := mkHistoryRequest { hr_SessionID : bytes; hr_Format : bytes; hr_Lines : Z }.

(** ** Responses *)

Record CommandResponse := mkCommandResponse {
  cmd_StartedAt : time;
  cmd_EndedAt : time;
  cmd_ExitCode : Z;
  cmd_StartRow : Z;
  cmd_EndRow : Z;
  cmd_DurationMs : Z;
  cmd_Orphan : bool;
  cmd_OrphanReason : bytes;
}.

#[export] Instance CommandResponse_eq_decision : EqDecision CommandResponse.
Proof. solve_decision. Defined.

Record ExecResult := mkExecResult { er_SessionID : bytes; er_OK : bool; er_Error : bytes }.

#[export] Instance ExecResult_eq_decision : EqDecision ExecResult.
Proof. solve_decision. Defined.

Record WaitResponse := mkWaitResponse {
  wr_SessionID : bytes;
  wr_Mode : bytes;
  wr_ExitCode : option Z;
  wr_Matched : bool;
  wr_TimedOut : bool;
}.

#[export] Instance WaitResponse_eq_decision : EqDecision WaitResponse.
Proof. solve_decision. Defined.

(** [AttachResponse] is [RAttach]: the session, the snapshot, the command
    history and the command in flight. *)
Inductive response :=
  | RSession (info : SessionInfo)
  | RSessions (l : list SessionInfo)
  | RAttach (info : SessionInfo) (snapshot : option bytes) (history : list CommandResponse)
      (inFlight : option CommandResponse)
  | RStatus (version : bytes) (uptime : Z) (sessionCount clientCount : Z)
  | RMeta (value : bytes) (metadata : option (gmap bytes bytes))
  | RExecSync (results : list ExecResult)
  | RKillPrefix (killed : list bytes) (errors : gmap bytes bytes)
  | RWait (r : WaitResponse)
  | RRecord (sessionID : bytes) (recording : bool) (p : path).

(** A frame written to a control channel, before its payload is encoded. *)
Inductive message :=
  | MOk (r : option response)        (** [okFrame] *)
  | MError (msg : bytes)             (** [errorFrame] *)
  | MHistory (chunk : bytes)
  | MHistoryEnd.

(** ** JSON *)

(** For a list request the error is ignored, and the value is what decoding
    left. *)
Record Json := mkJson {
  json_Create : bytes → result CreateRequest;
  json_List : bytes → ListRequest;
  json_SessionID : bytes → result SessionIDRequest;
  json_Resize : bytes → result ResizeRequest;
  json_EventSubscribe : bytes → result EventSubscribeRequest;
  json_MetaSet : bytes → result MetaSetRequest;
  json_MetaGet : bytes → result MetaGetRequest;
  json_EnvForward : bytes → result EnvForwardRequest;
  json_Exec : bytes → result ExecRequest;
  json_ExecSync : bytes → result ExecSyncRequest;
  json_Wait : bytes → result WaitRequest;
  json_Record : bytes → result RecordRequest;
  json_UpdateScrollback : bytes → result UpdateEmulatorScrollbackRequest;
  json_KillPrefix : bytes → result KillPrefixRequest;
  json_History : bytes → result HistoryRequest;
  json_meta_marshal : History.Metadata → result bytes;
  json_meta_unmarshal : bytes → result History.Metadata;
  json_cmds_marshal : Commands.File → result bytes;
  json_cmds_unmarshal : bytes → result Commands.File;
  json_record_line : Z → bytes → result bytes;
}.

(** ** The daemon *)

(** The options that do not change; the data directory is absent when it is the
    empty string, and the recording directory is then the root of a relative
    path. *)
Record Config := mkConfig {
  version : bytes;
  dataDir : option path;
  coldRestore : bool;
  maxScrollbackSize : Z;
  recordingMaxSize : Z;
  recordingDir : path;
  maxHistoryDumpSize : Z;
  hasBus : bool;
}.

(** A waiter and the goroutine that waits for it.  [w_done] is what its channel
    holds; [w_idle] and [w_timeout] are the times its timers fire at. *)
Record waiter := mkWaiter {
  w_client : bytes;
  w_session : bytes;
  w_mode : bytes;
  w_pattern : bytes;
  w_idleFor : Z;
  w_idle : option time;
  w_timeout : option time;
  w_done : option WaitResponse;
}.

#[export] Instance waiter_eq_decision : EqDecision waiter.
Proof. solve_decision. Defined.

Section Daemon.

Context {S : Type}.

(** [svcRepo] is the repository that the command service saves to, when that is
    not the daemon's own. *)
Record Daemon := mkDaemon {
  config : Config;
  backend : S;
  startedAt : time;
  attachments : gmap bytes (gset bytes);
  clientSession : gmap bytes bytes;
  scrollbackWriters : gmap bytes History.Writer;
  waiters : gmap bytes (list nat);
  waiterStore : gmap nat waiter;
  nextWaiter : nat;
  recordings : gmap bytes Recording.Writer;
  lineCounters : gmap bytes Z;
  cmdSvc : option CmdLifecycle.Service;
  cmdRepo : option Commands.cmdRepository;
  svcRepo : option Commands.cmdRepository;
  disk : FS;
}.

Definition NewDaemon (cfg : Config) (s : S) (svc : option CmdLifecycle.Service)
    (repo own : option Commands.cmdRepository) (fs : FS) : Daemon :=
  mkDaemon cfg s zero_time ∅ ∅ ∅ ∅ ∅ 0 ∅ ∅ svc repo own fs.

(** Updates of one field. *)
Definition set_backend (d : Daemon) (s : S) : Daemon :=
  mkDaemon (config d) s (startedAt d) (attachments d) (clientSession d) (scrollbackWriters d)
    (waiters d) (waiterStore d) (nextWaiter d) (recordings d) (lineCounters d) (cmdSvc d) (cmdRepo d)
    (svcRepo d) (disk d).

Definition set_startedAt (d : Daemon) (t : time) : Daemon :=
  mkDaemon (config d) (backend d) t (attachments d) (clientSession d) (scrollbackWriters d)
    (waiters d) (waiterStore d) (nextWaiter d) (recordings d) (lineCounters d) (cmdSvc d) (cmdRepo d)
    (svcRepo d) (disk d).

Definition set_clients (d : Daemon) (a : gmap bytes (gset bytes)) (c : gmap bytes bytes) : Daemon :=
  mkDaemon (config d) (backend d) (startedAt d) a c (scrollbackWriters d)
    (waiters d) (waiterStore d) (nextWaiter d) (recordings d) (lineCounters d) (cmdSvc d) (cmdRepo d)
    (svcRepo d) (disk d).

Definition set_scrollback (d : Daemon) (m : gmap bytes History.Writer) (fs : FS) : Daemon :=
  mkDaemon (config d) (backend d) (startedAt d) (attachments d) (clientSession d) m
    (waiters d) (waiterStore d) (nextWaiter d) (recordings d) (lineCounters d) (cmdSvc d) (cmdRepo d)
    (svcRepo d) fs.

Definition set_waiters (d : Daemon) (w : gmap bytes (list nat)) (st : gmap nat waiter) (n : nat) : Daemon :=
  mkDaemon (config d) (backend d) (startedAt d) (attachments d) (clientSession d) (scrollbackWriters d)
    w st n (recordings d) (lineCounters d) (cmdSvc d) (cmdRepo d) (svcRepo d) (disk d).

Definition set_recordings (d : Daemon) (m : gmap bytes Recording.Writer) (fs : FS) : Daemon :=
  mkDaemon (config d) (backend d) (startedAt d) (attachments d) (clientSession d) (scrollbackWriters d)
    (waiters d) (waiterStore d) (nextWaiter d) m (lineCounters d) (cmdSvc d) (cmdRepo d)
    (svcRepo d) fs.

Definition set_counters (d : Daemon) (m : gmap bytes Z) : Daemon :=
  mkDaemon (config d) (backend d) (startedAt d) (attachments d) (clientSession d) (scrollbackWriters d)
    (waiters d) (waiterStore d) (nextWaiter d) (recordings d) m (cmdSvc d) (cmdRepo d)
    (svcRepo d) (disk d).

Definition set_commands (d : Daemon) (svc : option CmdLifecycle.Service)
    (repo own : option Commands.cmdRepository) (fs : FS) : Daemon :=
  mkDaemon (config d) (backend d) (startedAt d) (attachments d) (clientSession d) (scrollbackWriters d)
    (waiters d) (waiterStore d) (nextWaiter d) (recordings d) (lineCounters d) svc repo own fs.

End Daemon.

Arguments Daemon : clear implicits.

(** What a handler does outside the daemon's state.  The payload of a broadcast
    frame is already encoded.  Forwarding a variable removes and creates a
    symbolic link. *)
Inductive effect :=
  | Reply (client : bytes) (m : message)
  | BroadcastTo (client : bytes) (f : Frame)
  | Publish (e : Event.Event)
  | Subscribed (client : bytes) (filter : bytes)   (** a goroutine forwards events *)
  | StopLater
  | MkdirAll (p : path)
  | ForwardLink (link : path) (target : bytes)
  | WriteEnv (p : path) (content : bytes).

(** A handler changes the state and has effects, in order. *)
Abbreviation handler S := (Daemon S → list effect * Daemon S).

Definition emit {S} (e : effect) : handler S := λ d, ([e], d).

Definition skip {S} : handler S := λ d, ([], d).

Definition andThen {S} (h k : handler S) : handler S := λ d,
  let (e1, d) := h d in
  let (e2, d) := k d in (e1 ++ e2, d).

Notation "h ;> k" := (andThen h k) (at level 60, right associativity) : go_scope.

(** [for _, x := range l]. *)
Fixpoint each {S A} (h : A → handler S) (l : list A) : handler S :=
  match l with
  | [] => skip
  | x :: l => h x ;> each h l
  end.

Definition modify {S} (f : Daemon S → Daemon S) : handler S := λ d, ([], f d).
