(* ===== verification/Daemon.v ===== *)
(** * The daemon: [daemon/service.go], [daemon/reconcile.go], [daemon/shutdown.go]

    The handlers of the control channel, the flow of output from the sessions
    to clients, recordings, scrollback files and waiters, and what happens when
    a session exits or a client leaves.  A critical section is one step; the
    parts of [flushOutput] and of the handlers that run without the lock are
    atomic here too, so the interleavings are those of whole handlers, flushes
    and callbacks.  A map is ranged over in the order of its list.  The debug
    tracer is left out. *)

From S2P Require Import Prelude Files GoStrings SessionValues Protocol Payload SessionManager DaemonTypes.
From S2P Require Ansi Html Osc History Recording Commands CmdLifecycle Event.

#[local] Open Scope Z_scope.

Section Handlers.

Context {S : Type} `{SessionManager S}.

(** [net/url], [encoding/json], [time.Format] and [os.Stat]. *)
Context (url : bytes → option bytes) (J : Json) (stamp : time → bytes) (stat_ok : bytes → bool).

Definition reply (c : bytes) (m : message) : handler S := emit (Reply c m).

Definition reply_error (c : bytes) (e : error) : handler S := reply c (MError (err_text e)).

Definition reply_result (c : bytes) (e : option error) : handler S :=
  match e with
  | Some e => reply_error c e
  | None => reply c (MOk None)
  end.

Definition publishEvent (e : Event.Event) : handler S :=
  λ d, (if hasBus (config d) then [Publish e] else [], d).

(** Calls of the backend. *)
Definition call {A} (f : S → A * S) (k : A → handler S) : handler S :=
  λ d, let (r, s) := f (backend d) in k r (set_backend d s).

Definition query {A} (f : S → A) (k : A → handler S) : handler S := λ d, k (f (backend d)) d.

(** [json.Unmarshal] of a request, or the error reply. *)
Definition decode {A} (f : bytes → result A) (payload : bytes) (c msg : bytes) (k : A → handler S) :
    handler S :=
  match f payload with
  | Err _ => reply c (MError msg)
  | Ok req => k req
  end.

(** ** Persistence *)

Definition session_file (dir : path) (id name : bytes) : path := join_path dir id ++ [name].

Definition scrollback_file : bytes := #"scrollback.bin".

Definition commands_file : bytes := #"commands.json".

Definition persistSessionCreate (now : time) (id : bytes) (req : CreateRequest) (d : Daemon S) : Daemon S :=
  match dataDir (config d) with
  | Some dir =>
      if negb (coldRestore (config d)) then d
      else
        match History.EnsureSessionDir (disk d) dir id with
        | (Err _, fs) => set_scrollback d (scrollbackWriters d) fs
        | (Ok sessionDir, fs) =>
            let meta := History.mkMetadata id (cr_Shell req) (cr_Cwd req) (cr_Cols req) (cr_Rows req)
                          now None None in
            match History.WriteMetadata (json_meta_marshal J) fs sessionDir meta with
            | (Some _, fs) => set_scrollback d (scrollbackWriters d) fs
            | (None, fs) =>
                match History.NewWriter fs (sessionDir ++ [scrollback_file]) (maxScrollbackSize (config d)) with
                | (Err _, fs) => set_scrollback d (scrollbackWriters d) fs
                | (Ok w, fs) => set_scrollback d (<[id := w]> (scrollbackWriters d)) fs
                end
            end
        end
  | None => d
  end.

Definition persistSessionExit (now : time) (id : bytes) (exitCode : Z) (d : Daemon S) : Daemon S :=
  match dataDir (config d) with
  | Some dir =>
      if negb (coldRestore (config d)) then d
      else
        set_scrollback d (delete id (scrollbackWriters d))
          (snd (History.UpdateMetadataExit (json_meta_marshal J) (json_meta_unmarshal J) (disk d)
             (join_path dir id) now exitCode))
  | None => d
  end.

(** What the writer's file holds is what the disk holds under its path. *)
Definition write_through (fs : FS) (p : path) (data : bytes) : FS :=
  match entries fs !! p with
  | Some (EFile _) => set_entries fs (<[p := EFile data]> (entries fs))
  | _ => fs
  end.

Definition persistOutput (id data : bytes) (d : Daemon S) : Daemon S :=
  match scrollbackWriters d !! id with
  | None => d
  | Some w =>
      let (_, w) := History.Write None w data in
      set_scrollback d (<[id := w]> (scrollbackWriters d))
        match dataDir (config d) with
        | Some dir => write_through (disk d) (session_file dir id scrollback_file) (History.file w)
        | None => disk d
        end
  end.

(** ** Recordings *)

Definition teeRecording (now : time) (id data : bytes) : handler S := λ d,
  match recordings d !! id with
  | None => ([], d)
  | Some w =>
      match Recording.Write (json_record_line J) None now w data with
      | ((_, Some e), w) =>
          if err_is e Recording.ErrSizeLimitReached
          then publishEvent (Event.mkEvent Event.RecordingLimitReached id [])
                 (set_recordings d (delete id (recordings d)) (disk d))
          else ([], set_recordings d (<[id := w]> (recordings d)) (disk d))
      | ((_, None), w) => ([], set_recordings d (<[id := w]> (recordings d)) (disk d))
      end
  end.

Definition closeRecording (id : bytes) (d : Daemon S) : Daemon S :=
  set_recordings d (delete id (recordings d)) (disk d).

Definition recordStart (now : time) (c : bytes) (req : RecordRequest) : handler S := λ d,
  let id := rq_SessionID req in
  match recordings d !! id with
  | Some _ => reply c (MError #"session already being recorded") d
  | None =>
      match sm_Get (backend d) id with
      | Err e => reply_error c e d
      | Ok info =>
          let sessionDir := join_path (recordingDir (config d)) id in
          match Files.MkdirAll (disk d) sessionDir with
          | (Err e, fs) => reply_error c (EWrap #"create recording dir" e) (set_recordings d (recordings d) fs)
          | (Ok _, fs) =>
              let recordPath := sessionDir ++ [ #"recording-" ++ stamp now ++ #".cast"] in
              match Recording.NewWriter fs recordPath (si_Cols info) (si_Rows info)
                      (recordingMaxSize (config d)) now None with
              | (Err e, fs) =>
                  reply_error c (EWrap #"start recording" e) (set_recordings d (recordings d) fs)
              | (Ok w, fs) =>
                  reply c (MOk (Some (RRecord id true recordPath)))
                    (set_recordings d (<[id := w]> (recordings d)) fs)
              end
          end
      end
  end.

Definition recordStop (c : bytes) (req : RecordRequest) : handler S := λ d,
  let id := rq_SessionID req in
  match recordings d !! id with
  | None => reply c (MError #"session is not being recorded") d
  | Some _ => reply c (MOk (Some (RRecord id false []))) (closeRecording id d)
  end.

Definition handleRecord (now : time) (c payload : bytes) : handler S :=
  decode (json_Record J) payload c #"invalid record request" (λ req,
    if decide (rq_Action req = #"start") then recordStart now c req
    else if decide (rq_Action req = #"stop") then recordStop c req
    else reply c (MError #"invalid action: must be start or stop")).

(** ** Command events *)

Definition finished_payload (c : CmdLifecycle.Command) : list (bytes * Event.any) :=
  [(#"started_at", Event.ATime (CmdLifecycle.StartedAt c));
   (#"ended_at", Event.ATime (CmdLifecycle.EndedAt c));
   (#"exit_code", Event.AInt (CmdLifecycle.ExitCode c));
   (#"start_row", Event.AInt (CmdLifecycle.StartRow c));
   (#"end_row", Event.AInt (CmdLifecycle.EndRow c));
   (#"duration_ms", Event.AInt (milliseconds (time_sub (CmdLifecycle.EndedAt c) (CmdLifecycle.StartedAt c))));
   (#"orphan", Event.ABool (CmdLifecycle.Orphan c))] ++
  if decide (CmdLifecycle.OrphanReason c = []) then []
  else [(#"orphan_reason", Event.AStr (CmdLifecycle.OrphanReason c))].

Definition publishCmdEvent (id : bytes) (ev : CmdLifecycle.Event) : handler S :=
  match CmdLifecycle.Kind ev with
  | CmdLifecycle.EventPromptShown =>
      publishEvent (Event.mkEvent Event.CommandPromptShown id [(#"row", Event.AInt (CmdLifecycle.ev_Row ev))])
  | CmdLifecycle.EventCommandStarted =>
      publishEvent (Event.mkEvent Event.CommandStarted id
        match CmdLifecycle.ev_Command ev with
        | Some c => [(#"started_at", Event.ATime (CmdLifecycle.StartedAt c));
                     (#"start_row", Event.AInt (CmdLifecycle.StartRow c))]
        | None => []
        end)
  | CmdLifecycle.EventCommandFinished =>
      publishEvent (Event.mkEvent Event.CommandFinished id
        (from_option finished_payload [] (CmdLifecycle.ev_Command ev)))
  end.

(** The command service saves to its own repository. *)
Definition save_commands (id : bytes) (st : CmdLifecycle.SessionState) (d : Daemon S) : Daemon S :=
  match svcRepo d with
  | Some r => set_commands d (cmdSvc d) (cmdRepo d) (Some (Commands.repo_Save r id st)) (disk d)
  | None =>
      set_commands d (cmdSvc d) ((λ r, Commands.repo_Save r id st) <$> cmdRepo d) None (disk d)
  end.

Definition cmd_output (o : CmdLifecycle.output) : handler S :=
  match o with
  | CmdLifecycle.Handler id ev => publishCmdEvent id ev
  | CmdLifecycle.Save id st => modify (save_commands id st)
  end.

Definition commandToResponse (c : CmdLifecycle.Command) : CommandResponse :=
  mkCommandResponse (CmdLifecycle.StartedAt c) (CmdLifecycle.EndedAt c) (CmdLifecycle.ExitCode c)
    (CmdLifecycle.StartRow c) (CmdLifecycle.EndRow c)
    (if decide (CmdLifecycle.EndedAt c = zero_time) then 0
     else milliseconds (time_sub (CmdLifecycle.EndedAt c) (CmdLifecycle.StartedAt c)))
    (CmdLifecycle.Orphan c) (CmdLifecycle.OrphanReason c).

(** ** Waiters *)

Definition addWaiter (w : waiter) (d : Daemon S) : Daemon S :=
  let p := nextWaiter d in
  let id := w_session w in
  set_waiters d (<[id := default [] (waiters d !! id) ++ [p]]> (waiters d))
    (<[p := w]> (waiterStore d)) (p + 1).

(** The first occurrence of the pointer leaves the list; the goroutine is gone. *)
Definition removeWaiter (p : nat) (w : waiter) (d : Daemon S) : Daemon S :=
  let id := w_session w in
  let ws := default [] (waiters d !! id) in
  let m := match list_find (λ q, q = p) ws with
           | Some (i, _) => <[id := take i ws ++ drop (i + 1) ws]> (waiters d)
           | None => waiters d
           end in
  set_waiters d m (delete p (waiterStore d)) (nextWaiter d).

(** A send to a channel of capacity one that may be full. *)
Definition deliver (r : WaitResponse) (w : waiter) : waiter :=
  match w_done w with
  | Some _ => w
  | None =>
      mkWaiter (w_client w) (w_session w) (w_mode w) (w_pattern w) (w_idleFor w) (w_idle w)
        (w_timeout w) (Some r)
  end.

Definition reset_idle (now : time) (w : waiter) : waiter :=
  match w_idle w with
  | None => w
  | Some _ =>
      mkWaiter (w_client w) (w_session w) (w_mode w) (w_pattern w) (w_idleFor w)
        (Some (now + w_idleFor w)) (w_timeout w) (w_done w)
  end.

(** Every waiter in the session's list is rewritten. *)
Definition notify (id : bytes) (f : waiter → waiter) (d : Daemon S) : Daemon S :=
  set_waiters d (waiters d)
    (foldl (λ st p, alter f p st) (waiterStore d) (default [] (waiters d !! id))) (nextWaiter d).

Definition notifyExitWaiters (id : bytes) (exitCode : Z) : Daemon S → Daemon S :=
  notify id (λ w,
    if decide (w_mode w = #"exit")
    then deliver (mkWaitResponse id #"exit" (Some exitCode) false false) w else w).

Definition notifyExitOnNonExitWaiters (id : bytes) (exitCode : Z) : Daemon S → Daemon S :=
  notify id (λ w,
    if decide (w_mode w = #"idle" ∨ w_mode w = #"match")
    then deliver (mkWaitResponse id (w_mode w) (Some exitCode) false false) w else w).

Definition notifyOutputWaiters (now : time) (id data : bytes) : Daemon S → Daemon S :=
  notify id (λ w,
    if decide (w_mode w = #"match")
    then if contains data (w_pattern w) then deliver (mkWaitResponse id #"match" None true false) w else w
    else if decide (w_mode w = #"idle") then reset_idle now w
    else w).

(** [time.Duration(n) * time.Millisecond]. *)
Definition millis (n : Z) : Z := wrap_i64 (n * millisecond).

(** The waiter of a request: its timers start now. *)
Definition wait_timeout (now : time) (req : WaitRequest) : option time :=
  if bool_decide (0 < wq_Timeout req) then Some (now + millis (wq_Timeout req)) else None.

Definition waitUntilExit (now : time) (c : bytes) (req : WaitRequest) : waiter :=
  mkWaiter c (wq_SessionID req) #"exit" [] 0 None (wait_timeout now req) None.

Definition waitUntilIdle (now : time) (c : bytes) (req : WaitRequest) : waiter :=
  mkWaiter c (wq_SessionID req) #"idle" [] (millis (wq_IdleFor req))
    (Some (now + millis (wq_IdleFor req))) (wait_timeout now req) None.

Definition waitUntilMatch (now : time) (c : bytes) (req : WaitRequest) : waiter :=
  mkWaiter c (wq_SessionID req) #"match" (wq_Pattern req) 0 None (wait_timeout now req) None.

Definition new_waiter (now : time) (c : bytes) (req : WaitRequest) : waiter :=
  if decide (wq_Mode req = #"idle") then waitUntilIdle now c req
  else if decide (wq_Mode req = #"exit") then waitUntilExit now c req
  else waitUntilMatch now c req.

(** [handleWait] up to the point where its goroutine blocks. *)
Definition handleWait (now : time) (c payload : bytes) : handler S :=
  decode (json_Wait J) payload c #"invalid wait request" (λ req,
    query (λ s, sm_Get s (wq_SessionID req)) (λ r,
      match r with
      | Err e => reply_error c e
      | Ok _ =>
          if decide (wq_Mode req ∈ [ #"exit"; #"idle"; #"match"])
          then modify (addWaiter (new_waiter now c req))
          else reply c (MError (#"invalid wait mode: " ++ wq_Mode req))
      end)).

(** Which case of its select the goroutine takes. *)
Inductive wake := WakeDone | WakeIdle | WakeTimeout.

#[export] Instance wake_eq_decision : EqDecision wake.
Proof. solve_decision. Defined.

(** The response of that case, when it is ready. *)
Definition wake_response (now : time) (k : wake) (w : waiter) : option WaitResponse :=
  let due (t : option time) := from_option (λ t, bool_decide (t <= now)) false t in
  match k with
  | WakeDone => w_done w
  | WakeIdle =>
      if due (w_idle w) then Some (mkWaitResponse (w_session w) #"idle" None false false) else None
  | WakeTimeout =>
      if due (w_timeout w) then Some (mkWaitResponse (w_session w) (w_mode w) None false true) else None
  end.

(** The goroutine of waiter [p] wakes up, replies and removes the waiter. *)
Definition finishWait (now : time) (p : nat) (k : wake) (d : Daemon S) : option (list effect * Daemon S) :=
  w ← waiterStore d !! p;
  r ← wake_response now k w;
  Some ((reply (w_client w) (MOk (Some (RWait r))) ;> modify (removeWaiter p w)) d).

(** ** Output *)

(** A command marker at offset [off], when [cursor] bytes have been counted. *)
Definition osc133 (now : time) (id data : bytes) (value : bytes) (off cursor : nat) : handler S := λ d,
  let d :=
    match lineCounters d !! id with
    | Some n =>
        set_counters d
          (<[id := n + Z.of_nat (count_byte x0a (drop cursor (take off data)))]> (lineCounters d))
    | None => d
    end in
  let row := default 0 (lineCounters d !! id) in
  let (code, exit) := Osc.parseOSC133Value value in
  match cmdSvc d with
  | None => ([], d)
  | Some svc =>
      let '(_, outs, svc) := CmdLifecycle.HandleOSC svc id code exit row (λ _, now) in
      each cmd_output outs (set_commands d (Some svc) (cmdRepo d) (svcRepo d) (disk d))
  end.

(** What one sequence does; returns the cursor.  The counter is the one looked up
    before the loop, and it stays in the map meanwhile. *)
Definition scan_one (now : time) (id data : bytes) (r : Osc.OSCResult) (cursor : nat) (d : Daemon S) :
    nat * (list effect * Daemon S) :=
  match Osc.osc_Type r with
  | Osc.OSCTypeCwd =>
      (cursor,
       (call (λ s, sm_MetaSet s id #"cwd" (Osc.osc_Value r)) (λ _,
          publishEvent (Event.mkEvent Event.CwdChanged id [(#"cwd", Event.AStr (Osc.osc_Value r))]))) d)
  | Osc.OSCTypeNotification =>
      (cursor,
       publishEvent (Event.mkEvent Event.Notification id [(#"body", Event.AStr (Osc.osc_Value r))]) d)
  | Osc.OSCTypeShellReady => (cursor, publishEvent (Event.mkEvent Event.ShellReady id []) d)
  | Osc.OSCType133 =>
      (if decide (is_Some (lineCounters d !! id)) then Osc.osc_Offset r else cursor,
       osc133 now id data (Osc.osc_Value r) (Osc.osc_Offset r) cursor d)
  end.

(** The loop over the sequences found. *)
Fixpoint scan_loop (now : time) (id data : bytes) (l : list Osc.OSCResult) (cursor : nat) (d : Daemon S) :
    nat * (list effect * Daemon S) :=
  match l with
  | [] => (cursor, ([], d))
  | r :: l =>
      let '(cursor, (e1, d)) := scan_one now id data r cursor d in
      let '(cursor, (e2, d)) := scan_loop now id data l cursor d in
      (cursor, (e1 ++ e2, d))
  end.

Definition scanOSC (now : time) (id data : bytes) : handler S := λ d,
  match Osc.ParseOSC url data with
  | [] => ([], d)
  | results =>
      let '(cursor, (eff, d)) := scan_loop now id data results 0 d in
      (eff,
       match lineCounters d !! id with
       | Some n =>
           if bool_decide (cursor < length data)%nat
           then set_counters d (<[id := n + Z.of_nat (count_byte x0a (drop cursor data))]> (lineCounters d))
           else d
       | None => d
       end)
  end.

Definition da_response (t : Osc.DAType) : bytes :=
  match t with
  | Osc.DATypeDA1 => Osc.DA1Response
  | Osc.DATypeDA2 => Osc.DA2Response
  end.

Definition scanDA (id data : bytes) : handler S := λ d,
  if bool_decide (0 < size (default ∅ (attachments d !! id)))%nat then ([], d)
  else each (λ t, call (λ s, sm_WriteInput s id (da_response t)) (λ _, skip)) (Osc.ParseDA data) d.

(** What happens to drained output before it is sent to clients. *)
Definition process_output (now : time) (id data : bytes) : handler S :=
  scanOSC now id data ;>
  scanDA id data ;>
  modify (persistOutput id data) ;>
  teeRecording now id data ;>
  modify (notifyOutputWaiters now id data).

Definition data_frame (id data : bytes) : Frame :=
  mkFrame ProtocolVersion MsgData (AcquireDataPayload [] id data).

Definition broadcast (id data : bytes) (clients : list bytes) : handler S :=
  each (λ c, emit (BroadcastTo c (data_frame id data))) clients.

(** Output that cannot be read or is empty is skipped. *)
Definition drain_session (id : bytes) (k : bytes → handler S) : handler S :=
  call (λ s, sm_ReadOutput s id) (λ r,
    match r with
    | Err _ => skip
    | Ok data => if decide (data = []) then skip else k data
    end).

Definition flush_clients (now : time) (id : bytes) (clients : list bytes) : handler S :=
  drain_session id (λ data, process_output now id data ;> broadcast id data clients).

(** The sessions with waiters that had no clients in the snapshot. *)
Definition waiterSessions (sessions : gmap bytes (gset bytes)) (d : Daemon S) : list bytes :=
  filter (λ id, sessions !! id = None)
    (omap (λ '(id, ws), if decide (ws = []) then None else Some id) (map_to_list (waiters d))).

Definition flushOutput (now : time) : handler S := λ d,
  let sessions := attachments d in
  (each (λ '(id, clients), flush_clients now id (elements clients)) (map_to_list sessions) ;>
   λ d, each (λ id, drain_session id (process_output now id)) (waiterSessions sessions d) d) d.

Definition flushSessionOutput (now : time) (id : bytes) : handler S := λ d,
  match elements (default ∅ (attachments d !! id)) with
  | [] => flushOutput now d
  | [c] => if decide (c = []) then flushOutput now d else flush_clients now id [c] d
  | cs => flush_clients now id cs d
  end.

(** ** Requests *)

(** A session that is created gets a tracker (the error for an existing one is
    dropped), a fresh line counter and, with cold restore, a history file. *)
Definition start_commands (id : bytes) (d : Daemon S) : Daemon S :=
  let svc := (λ svc, snd (CmdLifecycle.Register svc id)) <$> cmdSvc d in
  let repo :=
    match dataDir (config d) with
    | Some dir =>
        if coldRestore (config d)
        then (λ r, snd (Commands.Open r id (session_file dir id commands_file))) <$> cmdRepo d
        else cmdRepo d
    | None => cmdRepo d
    end in
  set_counters (set_commands d svc repo (svcRepo d) (disk d)) (<[id := 0]> (lineCounters d)).

Definition handleCreate (now : time) (c payload : bytes) : handler S :=
  decode (json_Create J) payload c #"invalid create request" (λ req,
    call (λ s, sm_Create s (cr_ID req)
            (mkCreateOptions (cr_Shell req) (cr_Args req) (cr_Cols req) (cr_Rows req) (cr_Cwd req) (cr_Env req)))
      (λ r,
        match r with
        | Err e => reply_error c e
        | Ok info =>
            modify (persistSessionCreate now (cr_ID req) req) ;>
            modify (start_commands (cr_ID req)) ;>
            reply c (MOk (Some (RSession info))) ;>
            publishEvent (Event.mkEvent Event.SessionCreated (cr_ID req)
              [(#"shell", Event.AStr (cr_Shell req)); (#"pid", Event.AInt (si_Pid info))])
        end)).

Definition in_prefix (prefix id : bytes) : bool := has_prefix id (prefix ++ #"/").

Definition handleList (c payload : bytes) : handler S :=
  let req := if decide (payload = []) then mkListRequest [] else json_List J payload in
  query sm_List (λ l,
    reply c (MOk (Some (RSessions
      (filter (λ i, bool_decide (lr_Prefix req = []) || in_prefix (lr_Prefix req) (si_ID i)) l))))).

Definition handleInfo (c payload : bytes) : handler S :=
  decode (json_SessionID J) payload c #"invalid info request" (λ req,
    query (λ s, sm_Get s (sr_SessionID req)) (λ r,
      match r with
      | Err e => reply_error c e
      | Ok info => reply c (MOk (Some (RSession info)))
      end)).

Definition handleKill (c payload : bytes) : handler S :=
  decode (json_SessionID J) payload c #"invalid kill request" (λ req,
    call (λ s, sm_Kill s (sr_SessionID req)) (reply_result c)).

Definition handleResize (c payload : bytes) : handler S :=
  decode (json_Resize J) payload c #"invalid resize request" (λ req,
    call (λ s, sm_Resize s (rr_SessionID req) (rr_Cols req) (rr_Rows req)) (reply_result c)).

Definition handleInput (c payload : bytes) : handler S :=
  match DecodeInputPayload payload with
  | Err _ => reply c (MError #"invalid input payload")
  | Ok (id, data) => call (λ s, sm_WriteInput s id data) (reply_result c)
  end.

Definition attach_client (c id : bytes) (d : Daemon S) : Daemon S :=
  set_clients d (<[id := {[c]} ∪ default ∅ (attachments d !! id)]> (attachments d))
    (<[c := id]> (clientSession d)).

(** The session's information is the one before it is attached. *)
Definition attach_response (info : SessionInfo) (id : bytes) (d : Daemon S) : response :=
  let snapshot :=
    match sm_Snapshot (backend d) id with
    | Ok replay => if decide (replay = []) then None else Some replay
    | Err _ => None
    end in
  match cmdSvc d with
  | None => RAttach info snapshot [] None
  | Some svc =>
      match CmdLifecycle.Snapshot svc id with
      | Err _ => RAttach info snapshot [] None
      | Ok st =>
          RAttach info snapshot (commandToResponse <$> CmdLifecycle.ss_History st)
            (commandToResponse <$> CmdLifecycle.ss_InFlight st)
      end
  end.

Definition handleAttach (c payload : bytes) : handler S :=
  decode (json_SessionID J) payload c #"invalid attach request" (λ req,
    let id := sr_SessionID req in
    query (λ s, sm_Get s id) (λ r,
      match r with
      | Err e => reply_error c e
      | Ok info =>
          call (λ s, sm_Attach s id) (λ e,
            match e with
            | Some e => reply_error c e
            | None =>
                modify (attach_client c id) ;>
                (λ d, reply c (MOk (Some (attach_response info id d))) d) ;>
                publishEvent (Event.mkEvent Event.SessionAttached id [(#"client_id", Event.AStr c)])
            end)
      end)).

(** The client leaves the session's set; tells whether it was the last one. *)
Definition drop_client (c id : bytes) (a : gmap bytes (gset bytes)) : gmap bytes (gset bytes) * bool :=
  match a !! id with
  | None => (a, false)
  | Some cs =>
      let cs := cs ∖ {[c]} in
      if decide (cs = ∅) then (delete id a, true) else (<[id := cs]> a, false)
  end.

(** The client leaves session [id], which is detached when it was the last one. *)
Definition leave (c id : bytes) : handler S := λ d,
  let (a, shouldDetach) := drop_client c id (attachments d) in
  let d := set_clients d a (delete c (clientSession d)) in
  if shouldDetach
  then call (λ s, sm_Detach s id) (λ _, publishEvent (Event.mkEvent Event.SessionDetached id [])) d
  else ([], d).

Definition handleDetach (c payload : bytes) : handler S :=
  decode (json_SessionID J) payload c #"invalid detach request" (λ req,
    leave c (sr_SessionID req) ;> reply c (MOk None)).

(** The control connection of the client has ended. *)
Definition detachClient (c : bytes) : handler S := λ d,
  match clientSession d !! c with
  | None => ([], d)
  | Some id => leave c id d
  end.

Definition handleShutdown (c : bytes) : handler S := reply c (MOk None) ;> emit StopLater.

Definition handleSubscribe (c payload : bytes) : handler S := λ d,
  if negb (hasBus (config d)) then reply c (MError #"events not enabled") d
  else
    (if decide (payload = [])
     then reply c (MOk None) ;> emit (Subscribed c [])
     else decode (json_EventSubscribe J) payload c #"invalid event subscribe request" (λ req,
            reply c (MOk None) ;> emit (Subscribed c (es_SessionID req)))) d.

(** The uptime is cut to whole seconds. *)
Definition handleStatus (now : time) (c : bytes) : handler S := λ d,
  let up := time_sub now (startedAt d) in
  reply c (MOk (Some (RStatus (version (config d)) (Z.quot up (10 ^ 9) * 10 ^ 9)
    (Z.of_nat (length (sm_List (backend d)))) (Z.of_nat (size (clientSession d)))))) d.

Definition handleMetaSet (c payload : bytes) : handler S :=
  decode (json_MetaSet J) payload c #"invalid meta set request" (λ req,
    call (λ s, sm_MetaSet s (ms_SessionID req) (ms_Key req) (ms_Value req)) (reply_result c)).

Definition handleMetaGet (c payload : bytes) : handler S :=
  decode (json_MetaGet J) payload c #"invalid meta get request" (λ req,
    if decide (mg_Key req = [])
    then query (λ s, sm_MetaGetAll s (mg_SessionID req)) (λ r,
           match r with
           | Err e => reply_error c e
           | Ok meta => reply c (MOk (Some (RMeta [] (Some meta))))
           end)
    else query (λ s, sm_MetaGet s (mg_SessionID req) (mg_Key req)) (λ r,
           match r with
           | Err e => reply_error c e
           | Ok val => reply c (MOk (Some (RMeta val None)))
           end)).

(** [WriteEnvFile]: the lines in the order of the names. *)
Definition env_content (env : gmap bytes bytes) : bytes :=
  join [x0a] ((λ k, k ++ #"=" ++ default [] (env !! k)) <$>
    merge_sort bytes_le ((map_to_list env).*1)) ++ [x0a].

(** [ForwardEnv] removes what is at the link's path and links the value there. *)
Definition handleEnvForward (c payload : bytes) : handler S :=
  decode (json_EnvForward J) payload c #"invalid env forward request" (λ req d,
    match dataDir (config d) with
    | None => reply c (MOk None) d
    | Some dir =>
        let sessionDir := join_path dir (ef_SessionID req) in
        let nonPathEnv := filter (λ kv, stat_ok kv.2 = false) (ef_Env req) in
        (emit (MkdirAll sessionDir) ;>
         each (λ '(k, v), emit (ForwardLink (join_path sessionDir k) v))
           (filter (λ kv, stat_ok kv.2 = true) (map_to_list (ef_Env req))) ;>
         (if decide (nonPathEnv = ∅) then skip
          else emit (WriteEnv (sessionDir ++ [ #"env"]) (env_content nonPathEnv))) ;>
         reply c (MOk None)) d
    end).

Definition exec_input (input : bytes) (newline : bool) : bytes := input ++ if newline then [x0a] else [].

Definition handleExec (c payload : bytes) : handler S :=
  decode (json_Exec J) payload c #"invalid exec request" (λ req,
    call (λ s, sm_WriteInput s (ex_SessionID req) (exec_input (ex_Input req) (ex_Newline req)))
      (reply_result c)).

Definition sessionsByPrefix (prefix : bytes) (s : S) : list bytes :=
  filter (λ id, in_prefix prefix id = true) (si_ID <$> sm_List s).

(** One backend call for each target, and what each returned. *)
Fixpoint for_targets {A} (f : S → bytes → A * S) (targets : list bytes) (s : S) : list (bytes * A) * S :=
  match targets with
  | [] => ([], s)
  | id :: targets =>
      let (r, s) := f s id in
      let (rs, s) := for_targets f targets s in ((id, r) :: rs, s)
  end.

Definition exec_result (r : bytes * option error) : ExecResult :=
  match snd r with
  | Some e => mkExecResult (fst r) false (err_text e)
  | None => mkExecResult (fst r) true []
  end.

Definition handleExecSync (c payload : bytes) : handler S :=
  decode (json_ExecSync J) payload c #"invalid exec_sync request" (λ req,
    if negb (bool_decide (xs_SessionIDs req = [])) && negb (bool_decide (xs_Prefix req = []))
    then reply c (MError #"specify session_ids or prefix, not both")
    else
      query (λ s, if decide (xs_Prefix req = []) then xs_SessionIDs req
                  else sessionsByPrefix (xs_Prefix req) s) (λ targets,
        if decide (targets = []) then reply c (MError #"no matching sessions")
        else
          call (for_targets (λ s id, sm_WriteInput s id (exec_input (xs_Input req) (xs_Newline req))) targets)
            (λ rs, reply c (MOk (Some (RExecSync (exec_result <$> rs))))))).

Definition killed_ids (rs : list (bytes * option error)) : list bytes :=
  omap (λ r, match snd r with None => Some (fst r) | Some _ => None end) rs.

Definition kill_errors (rs : list (bytes * option error)) : gmap bytes bytes :=
  foldl (λ m r, match snd r with None => m | Some e => <[fst r := err_text e]> m end) ∅ rs.

Definition handleKillPrefix (c payload : bytes) : handler S :=
  decode (json_KillPrefix J) payload c #"invalid kill_prefix request" (λ req,
    if decide (kp_Prefix req = []) then reply c (MError #"prefix is required")
    else
      query (sessionsByPrefix (kp_Prefix req)) (λ targets,
        if decide (targets = []) then reply c (MError #"no sessions match prefix")
        else call (for_targets sm_Kill targets) (λ rs,
               reply c (MOk (Some (RKillPrefix (killed_ids rs) (kill_errors rs))))))).

Definition handleUpdateEmulatorScrollback (c payload : bytes) : handler S :=
  decode (json_UpdateScrollback J) payload c #"invalid update emulator scrollback request" (λ req,
    call (λ s, sm_UpdateEmulatorScrollback s (us_SessionID req) (us_ScrollbackLines req))
      (reply_result c)).

Definition chunkSize : Z := 1024 * 1024.

(** The chunks of a dump; [length data] rounds are enough. *)
Fixpoint chunks (fuel : nat) (data : bytes) : list bytes :=
  match fuel, data with
  | Datatypes.S n, _ :: _ => take (Z.to_nat chunkSize) data :: chunks n (drop (Z.to_nat chunkSize) data)
  | _, _ => []
  end.

Definition rendered (format replay : bytes) : bytes :=
  if decide (format = #"text") then Ansi.Strip replay
  else if decide (format = #"html") then Html.ToHTML replay
  else replay.

Definition limited (max : Z) (data : bytes) : bytes :=
  if bool_decide (0 < max) && bool_decide (max < Z.of_nat (length data)) then take (Z.to_nat max) data else data.

Definition handleHistory (c payload : bytes) : handler S :=
  decode (json_History J) payload c #"invalid history request" (λ req d,
    if decide (hr_Format req ∈ [ #"ansi"; #"text"; #"html"])
    then
      match sm_Snapshot (backend d) (hr_SessionID req) with
      | Err e => reply_error c e d
      | Ok replay =>
          let data := limited (maxHistoryDumpSize (config d)) (rendered (hr_Format req) replay) in
          (each (λ chunk, reply c (MHistory chunk)) (chunks (length data) data) ;> reply c MHistoryEnd) d
      end
    else reply c (MError #"invalid format: must be ansi, text, or html") d).

(** Requests to wait run in a goroutine of their own, up to where it blocks. *)
Definition dispatch (now : time) (c : bytes) (frame : Frame) : handler S :=
  let t := Type_ frame in
  let p := Payload frame in
  if decide (t = MsgCreate) then handleCreate now c p
  else if decide (t = MsgList) then handleList c p
  else if decide (t = MsgInfo) then handleInfo c p
  else if decide (t = MsgKill) then handleKill c p
  else if decide (t = MsgResize) then handleResize c p
  else if decide (t = MsgInput) then handleInput c p
  else if decide (t = MsgAttach) then handleAttach c p
  else if decide (t = MsgDetach) then handleDetach c p
  else if decide (t = MsgShutdown) then handleShutdown c
  else if decide (t = MsgEvent) then handleSubscribe c p
  else if decide (t = MsgStatus) then handleStatus now c
  else if decide (t = MsgMetaSet) then handleMetaSet c p
  else if decide (t = MsgMetaGet) then handleMetaGet c p
  else if decide (t = MsgEnvForward) then handleEnvForward c p
  else if decide (t = MsgExec) then handleExec c p
  else if decide (t = MsgExecSync) then handleExecSync c p
  else if decide (t = MsgWait) then handleWait now c p
  else if decide (t = MsgRecord) then handleRecord now c p
  else if decide (t = MsgHistory) then handleHistory c p
  else if decide (t = MsgKillPrefix) then handleKillPrefix c p
  else if decide (t = MsgUpdateEmulatorScrollback) then handleUpdateEmulatorScrollback c p
  else reply c (MError #"unknown message type").

(** ** Sessions that exit, start and stop *)

(** The callback registered with [OnExit]. *)
Definition onExit (now : time) (id : bytes) (exitCode : Z) : handler S :=
  modify (notifyExitWaiters id exitCode) ;>
  modify (notifyExitOnNonExitWaiters id exitCode) ;>
  modify (persistSessionExit now id exitCode) ;>
  modify (closeRecording id) ;>
  modify (λ d, set_commands d ((λ svc, CmdLifecycle.Unregister svc id) <$> cmdSvc d) (cmdRepo d)
                 (svcRepo d) (disk d)) ;>
  modify (λ d, set_counters d (delete id (lineCounters d))) ;>
  modify (λ d,
    match cmdRepo d with
    | None => d
    | Some r =>
        let (r, fs) := Commands.repo_Close (json_cmds_marshal J) r (disk d) now id in
        set_commands d (cmdSvc d) (Some r) (svcRepo d) fs
    end) ;>
  publishEvent (Event.mkEvent Event.SessionExited id [(#"exit_code", Event.AInt exitCode)]).

(** Sessions whose metadata has no end are given one, with exit code -1; the
    number of those that could be updated. *)
Definition ReconcileOrphans (now : time) (fs : FS) (dir : path) : result Z * FS :=
  match History.ListSessionDirs (json_meta_unmarshal J) fs dir with
  | Err e => (Err (EWrap #"reconcile: list session dirs" e), fs)
  | Ok dirs =>
      let '(n, fs) :=
        foldl (λ '(n, fs) i,
          match History.info_EndedAt i with
          | Some _ => (n, fs)
          | None =>
              match History.UpdateMetadataExit (json_meta_marshal J) (json_meta_unmarshal J) fs
                      (History.Path i) now (-1) with
              | (Some _, fs) => (n, fs)
              | (None, fs) => (n + 1, fs)
              end
          end) (0, fs) dirs in
      (Ok n, fs)
  end.

Definition RestoreCommandsForSession (now : time) (fs : FS) (dir : path) (id : bytes)
    (svc : option CmdLifecycle.Service) : option error * option CmdLifecycle.Service :=
  match svc with
  | None => (None, None)
  | Some s =>
      match Commands.Load (json_cmds_unmarshal J) fs (session_file dir id commands_file) with
      | (_, Some e) =>
          if err_is e Commands.ErrUnsupportedVersion then (None, svc)
          else (Some (EWrap #"RestoreCommandsForSession" e), svc)
      | (f, None) =>
          if bool_decide (Commands.Version f = 0) && bool_decide (Commands.History f = []) &&
             bool_decide (Commands.InFlight f = None)
          then (None, svc)
          else
            let (e, s) := CmdLifecycle.Restore s id
                            (CmdLifecycle.mkSessionState (Commands.History f) (Commands.InFlight f)) now in
            (EWrap #"RestoreCommandsForSession" <$> e, Some s)
      end
  end.

(** One directory of [restoreCommandHistoriesAtStartup]. *)
Definition restore_one (now : time) (dir : path) (d : Daemon S) (m : bytes * entry) : Daemon S :=
  match snd m with
  | EFile _ => d
  | EDir =>
      let id := fst m in
      let (e, svc) := RestoreCommandsForSession now (disk d) dir id (cmdSvc d) in
      match e with
      | Some _ => set_commands d svc (cmdRepo d) (svcRepo d) (disk d)
      | None =>
          set_counters
            (set_commands d svc ((λ r, snd (Commands.Open r id (session_file dir id commands_file))) <$> cmdRepo d)
               (svcRepo d) (disk d))
            (if decide (is_Some (lineCounters d !! id)) then lineCounters d else <[id := 0]> (lineCounters d))
      end
  end.

Definition restoreCommandHistoriesAtStartup (now : time) (dir : path) (d : Daemon S) : Daemon S :=
  match ReadDir (disk d) dir with
  | Err _ => d
  | Ok l => foldl (restore_one now dir) d l
  end.

(** What [Start] does before it serves; it registers the event handler of the
    command service. *)
Definition Start (now : time) (d : Daemon S) : Daemon S :=
  let d := set_startedAt d now in
  let d :=
    match dataDir (config d) with
    | None => d
    | Some dir =>
        let d := set_commands d (cmdSvc d) (cmdRepo d) (svcRepo d) (snd (ReconcileOrphans now (disk d) dir)) in
        if coldRestore (config d) && bool_decide (is_Some (cmdSvc d))
        then restoreCommandHistoriesAtStartup now dir d else d
    end in
  set_commands d ((λ svc, CmdLifecycle.OnEvent svc true) <$> cmdSvc d) (cmdRepo d) (svcRepo d) (disk d).

(** What [Start] does once serving has ended. *)
Definition serve_ended (now : time) (d : Daemon S) : Daemon S :=
  match cmdRepo d with
  | None => d
  | Some r =>
      let (r, fs) := Commands.CloseAll (json_cmds_marshal J) r (disk d) now in
      set_commands d (cmdSvc d) (Some r) (svcRepo d) fs
  end.

Definition GracefulShutdown (d : Daemon S) : Daemon S :=
  set_backend d (snd (for_targets sm_Kill (si_ID <$> sm_List (backend d)) (backend d))).

End Handlers.
