(* ===== verification/DaemonExample.v ===== *)
(** * A daemon to run

    Concrete parameters for the daemon: the session service behind its adapter,
    with an operating system that always succeeds, and a JSON whose requests
    are the names they carry.  The statements about the daemon are applied to
    it. *)

From S2P Require Import Prelude Files GoStrings Pipeline SessionValues Protocol SessionManager DaemonTypes Daemon.
From S2P Require Session History Recording Commands CmdLifecycle Event.

#[local] Open Scope Z_scope.

Definition example_answers (n : nat) : answer := mkAnswer (Ok 42) 5 true None None.

#[export] Instance example_manager : SessionManager (manager (E := NoneEmulator)) :=
  sessionAdapter example_answers.

#[export] Instance example_manager_laws : SessionManagerLaws (manager (E := NoneEmulator)) :=
  sessionAdapter_laws example_answers.

(** The backend, with a record of what is read from it. *)
Abbreviation example_backend := (logged (manager (E := NoneEmulator))).

(** A request is the identifier it is about, with fixed other fields. *)
Definition example_json : Json := {|
  json_Create p := Ok (mkCreateRequest p #"/bin/sh" [] 80 24 #"/" []);
  json_List p := mkListRequest p;
  json_SessionID p := if decide (p = []) then Err (ENew #"EOF") else Ok (mkSessionIDRequest p);
  json_Resize p := Ok (mkResizeRequest p 100 30);
  json_EventSubscribe p := Ok (mkEventSubscribeRequest p);
  json_MetaSet p := Ok (mkMetaSetRequest p #"key" #"value");
  json_MetaGet p := Ok (mkMetaGetRequest p #"key");
  json_EnvForward p := Ok (mkEnvForwardRequest p {[ #"SSH_AUTH_SOCK" := #"/tmp/agent"]});
  json_Exec p := Ok (mkExecRequest p #"ls" true);
  json_ExecSync p := Ok (mkExecSyncRequest [p] [] #"ls" true);
  json_Wait p := Ok (mkWaitRequest p #"exit" 0 0 []);
  json_Record p := Ok (mkRecordRequest p #"start");
  json_UpdateScrollback p := Ok (mkUpdateScrollbackRequest p 100);
  json_KillPrefix p := Ok (mkKillPrefixRequest p);
  json_History p := Ok (mkHistoryRequest p #"ansi" 0);
  json_meta_marshal _ := Ok #"{}";
  json_meta_unmarshal _ := Err (ENew #"EOF");
  json_cmds_marshal _ := Ok #"{}";
  json_cmds_unmarshal _ := Err (ENew #"EOF");
  json_record_line _ data := Ok data;
|}.

Definition example_url (b : bytes) : option bytes := Some b.

Definition example_stamp (t : time) : bytes := #"now".

Definition example_stat (p : bytes) : bool := has_prefix p #"/tmp/".

Definition example_config : Config := mkConfig #"dev" None false 0 0 [] 0 true.

Definition example_create (m : manager (E := NoneEmulator)) (id : bytes) : manager :=
  snd (sm_Create m id (mkCreateOptions #"/bin/sh" [] 80 24 #"/" [])).

(** Two sessions, nothing read yet. *)
Definition example_sessions : example_backend :=
  (example_create (example_create (mkManager (Session.NewService 0 true true None) 0 []) #"a") #"b", []).

Definition example_daemon : Daemon example_backend :=
  NewDaemon example_config example_sessions None None None (mkFS ∅ ∅).

(** The terminal of a session produces a piece of output. *)
Definition example_output (s : example_backend) (id chunk : bytes) : example_backend :=
  match Session.lookup (svc (fst s)) id with
  | None => s
  | Some (ptr, ms) =>
      let p := read_check (Session.pipe ms) in
      let p := snd (read_chunk false p chunk false 6) in
      let p := snd (batch_tick (λ _ _, 0%nat) true p) in
      (mkManager (Session.with_store (svc (fst s)) ptr (Session.with_pipe ms p)) (asked (fst s))
         (done_effects (fst s)), snd s)
  end.

Definition request (t : MessageType) (payload : bytes) : Frame := mkFrame ProtocolVersion t payload.


Lemma example_create_ok (m : manager (E := NoneEmulator)) id : sm_ok m → sm_ok (example_create m id).
Proof.
  intros Hok. unfold example_create.
  pose proof (sm_Create_spec m id (mkCreateOptions #"/bin/sh" [] 80 24 #"/" []) Hok) as Hs.
  destruct (sm_Create m id _) as [r s]. apply Hs.
Qed.

Definition example_empty : manager (E := NoneEmulator) := mkManager (Session.NewService 0 true true None) 0 [].

Lemma example_empty_ok : sm_ok example_empty.
Proof. exact (proj1 (Session.reachable_svc_inv (λ _ _, 0%nat) 0 true true None _ (rtc_refl _ _))). Qed.

Lemma example_ok : sm_ok (backend example_daemon).
Proof. apply (example_create_ok (example_create example_empty _)), example_create_ok, example_empty_ok. Qed.
