(* ===== verification/DaemonLemmas.v ===== *)
(** * Reasoning about handlers

    A property of a handler relates the state before, the effects and the state
    after.  When the property is kept by doing nothing and by doing one thing
    after the other, it is enough to show it of the primitive steps. *)

From S2P Require Import Prelude Files GoStrings SessionValues Protocol Payload SessionManager DaemonTypes Daemon.
From S2P Require History Recording Commands CmdLifecycle Event Osc.

#[local] Open Scope Z_scope.

(** A relation on states and effects that composes. *)
Class Composes {S} (R : Daemon S → list effect → Daemon S → Prop) := {
  composes_nil d : R d [] d;
  composes_app d1 e1 d2 e2 d3 : R d1 e1 d2 → R d2 e2 d3 → R d1 (e1 ++ e2) d3;
}.

Definition obeys {S} (R : Daemon S → list effect → Daemon S → Prop) (h : handler S) : Prop :=
  ∀ d, R d (fst (h d)) (snd (h d)).

Section Obeys.

Context {S : Type} `{SessionManager S} (R : Daemon S → list effect → Daemon S → Prop) `{!Composes R}.

Lemma obeys_skip : obeys R skip.
Proof. intros d. apply composes_nil. Qed.

Lemma obeys_andThen h k : obeys R h → obeys R k → obeys R (h ;> k).
Proof.
  intros Hh Hk d. unfold andThen. specialize (Hh d). destruct (h d) as [e1 d1]. cbn in Hh.
  specialize (Hk d1). destruct (k d1) as [e2 d2]. cbn in *. by eapply composes_app.
Qed.

Lemma obeys_each {A} (h : A → handler S) l : (∀ x, x ∈ l → obeys R (h x)) → obeys R (each h l).
Proof.
  induction l as [|x l IH]; intros Hh; [apply obeys_skip|]. cbn [each].
  apply obeys_andThen; [apply Hh; by left|]. apply IH. intros y Hy. apply Hh. by right.
Qed.

Lemma obeys_emit e : (∀ d, R d [e] d) → obeys R (emit e).
Proof. intros He d. apply He. Qed.

Lemma obeys_modify f : (∀ d, R d [] (f d)) → obeys R (modify f).
Proof. intros Hf d. apply Hf. Qed.

Lemma obeys_call {A} (f : S → A * S) k :
  (∀ d, R d [] (set_backend d (snd (f (backend d))))) → (∀ a, obeys R (k a)) → obeys R (call f k).
Proof.
  intros Hf Hk d. unfold call. specialize (Hf d). destruct (f (backend d)) as [r s]. cbn in Hf.
  exact (composes_app _ _ _ _ _ Hf (Hk r (set_backend d s))).
Qed.

Lemma obeys_query {A} (f : S → A) k : (∀ a, obeys R (k a)) → obeys R (query f k).
Proof. intros Hk d. apply Hk. Qed.

Lemma obeys_decode {A} (f : bytes → result A) p c msg k :
  obeys R (reply c (MError msg)) → (∀ a, obeys R (k a)) → obeys R (decode f p c msg k).
Proof. intros Hm Hk. unfold decode. by destruct (f p). Qed.

Lemma obeys_state (f : Daemon S → handler S) : (∀ d, obeys R (f d)) → obeys R (λ d, f d d).
Proof. intros Hf d. apply Hf. Qed.

Lemma obeys_if (b : bool) h k : obeys R h → obeys R k → obeys R (if b then h else k).
Proof. by destruct b. Qed.

Lemma obeys_if_dec {P} (b : Decision P) h k : obeys R h → obeys R k → obeys R (if b then h else k).
Proof. by destruct b. Qed.

End Obeys.

(** Sequencing, in terms of the projections. *)
Lemma andThen_eq {S} (h k : handler S) d :
  (h ;> k) d = (fst (h d) ++ fst (k (snd (h d))), snd (k (snd (h d)))).
Proof. unfold andThen. destruct (h d) as [e1 d1]. cbn. by destruct (k d1). Qed.

(** Runs a handler down to its primitive steps. *)
Ltac obey :=
  repeat first
    [ apply obeys_andThen; [apply _|..] | apply obeys_skip; apply _
    | apply obeys_each; [apply _|intros ? _] | apply obeys_decode
    | apply obeys_query; intros ? | apply obeys_call; [apply _|..|intros ?]
    | apply obeys_if | apply obeys_if_dec ].
