(* ===== verification/DaemonFrame.v ===== *)
(** * What every handler keeps

    A relation between states that is kept by each elementary change (a call of
    the backend, a change of the clients, of a history file, of a recording, of
    the counters, of the commands, a notification of waiters) is kept by every
    handler, flush and callback of the daemon but those that add or remove a
    waiter. *)

From S2P Require Import Prelude Files GoStrings SessionValues Protocol Payload SessionManager DaemonTypes Daemon DaemonLemmas.
From S2P Require History Recording Commands CmdLifecycle Event Osc.

#[local] Open Scope Z_scope.

(** The command service changes, and nothing else. *)
Definition set_svc {S} (d : Daemon S) (svc : option CmdLifecycle.Service) : Daemon S :=
  set_commands d svc (cmdRepo d) (svcRepo d) (disk d).

(** The history file of a session is closed. *)
Definition close_commands {S} (J : Json) (now : time) (id : bytes) (d : Daemon S) : Daemon S :=
  match cmdRepo d with
  | None => d
  | Some r =>
      let (r, fs) := Commands.repo_Close (json_cmds_marshal J) r (disk d) now id in
      set_commands d (cmdSvc d) (Some r) (svcRepo d) fs
  end.

Class StepFrame {S} (J : Json) (R : Daemon S → list effect → Daemon S → Prop) := {
  frame_composes :: Composes R;
  frame_emit d e : R d [e] d;
  frame_backend d s : R d [] (set_backend d s);
  frame_scrollback d m fs : R d [] (set_scrollback d m fs);
  frame_recordings d m fs : R d [] (set_recordings d m fs);
  frame_counters d m : R d [] (set_counters d m);
  frame_clients d a c : R d [] (set_clients d a c);
  frame_svc d svc : R d [] (set_svc d svc);
  frame_start id d : R d [] (start_commands id d);
  frame_save id st d : R d [] (save_commands id st d);
  frame_close now id d : R d [] (close_commands J now id d);
  frame_notify_exit id code d : R d [] (notifyExitWaiters id code d);
  frame_notify_other id code d : R d [] (notifyExitOnNonExitWaiters id code d);
  frame_notify_output now id data d : R d [] (notifyOutputWaiters now id data d);
}.

Section Frame.

Context {S : Type} `{SessionManager S}.

Context (url : bytes → option bytes) (J : Json) (stamp : time → bytes) (stat_ok : bytes → bool).

Context (R : Daemon S → list effect → Daemon S → Prop) `{!StepFrame J R}.

Lemma frame_refl d : R d [] d.
Proof. apply composes_nil. Qed.

Lemma frame_call {A} (f : S → A * S) (k : A → handler S) : (∀ a, obeys R (k a)) → obeys R (call f k).
Proof. intros Hk. apply obeys_call; [apply _| |done]. intros d. apply frame_backend. Qed.

Lemma frame_obeys_emit e : obeys R (emit e).
Proof. intros d. apply frame_emit. Qed.

Lemma frame_publish e : obeys R (publishEvent e).
Proof. intros d. unfold publishEvent. destruct (hasBus (config d)); [apply frame_emit|apply frame_refl]. Qed.

Lemma frame_modify f : (∀ d, R d [] (f d)) → obeys R (modify f).
Proof. intros Hf d. apply Hf. Qed.

Ltac walk :=
  repeat first
    [ apply obeys_skip; apply _ | apply frame_obeys_emit | apply frame_publish
    | apply obeys_andThen; [apply _|..] | apply frame_call; intros ?
    | apply obeys_each; [apply _|intros ? _] | apply obeys_decode; [apply frame_obeys_emit|intros ?]
    | apply obeys_query; intros ?
    | match goal with
      | |- obeys _ (reply_result _ ?e) => destruct e
      | |- obeys _ (match ?x with _ => _ end) => destruct x
      end ].

Lemma frame_persist now id req d : R d [] (persistSessionCreate J now id req d).
Proof. unfold persistSessionCreate. repeat case_match; first [apply frame_scrollback|apply frame_refl]. Qed.

Lemma frame_handleCreate now c p : obeys R (handleCreate J now c p).
Proof.
  unfold handleCreate. walk; apply frame_modify; intros d; [apply frame_persist|apply frame_start].
Qed.

Lemma frame_leave c id : obeys R (leave c id).
Proof.
  intros d. unfold leave. destruct (drop_client c id (attachments d)) as [a b].
  pose proof (frame_clients d a (delete c (clientSession d))) as Hc. destruct b; [|exact Hc].
  eapply (composes_app d []); [exact Hc|]. refine ((_ : obeys R (call _ _)) _). walk.
Qed.

Lemma frame_detachClient c : obeys R (detachClient c).
Proof. intros d. unfold detachClient. destruct (clientSession d !! c); [apply frame_leave|apply frame_refl]. Qed.

Lemma frame_handleAttach c p : obeys R (handleAttach J c p).
Proof.
  unfold handleAttach. walk; [|intros d; apply frame_emit].
  apply frame_modify. intros d. apply frame_clients.
Qed.

Lemma frame_recordStart now c req : obeys R (recordStart stamp now c req).
Proof.
  intros d. unfold recordStart.
  assert (Hd : ∀ m fs msg, R d [Reply c msg] (set_recordings d m fs)).
  { intros m fs msg. eapply (composes_app d []); [apply frame_recordings|apply frame_emit]. }
  repeat case_match; try apply frame_emit; apply Hd.
Qed.

Lemma frame_recordStop c req : obeys R (recordStop c req).
Proof.
  intros d. unfold recordStop. case_match; [|apply frame_emit].
  eapply (composes_app d []); [apply frame_recordings|apply frame_emit].
Qed.

Lemma frame_handleHistory c p : obeys R (handleHistory J c p).
Proof.
  unfold handleHistory. walk. intros d. case_decide; [|apply frame_emit].
  destruct (sm_Snapshot (backend d) (hr_SessionID a)); [|apply frame_emit].
  refine ((_ : obeys R (_ ;> _)) d). walk.
Qed.

Lemma frame_handleEnvForward c p : obeys R (handleEnvForward J stat_ok c p).
Proof.
  unfold handleEnvForward. walk. intros d. destruct (dataDir (config d)) as [dir|]; [|apply frame_emit].
  cbv zeta. refine ((_ : obeys R (_ ;> _)) d). walk.
Qed.

Lemma frame_handleSubscribe c p : obeys R (handleSubscribe J c p).
Proof.
  intros d. unfold handleSubscribe. destruct (negb _); [apply frame_emit|].
  case_decide; [refine ((_ : obeys R (_ ;> _)) d)|refine ((_ : obeys R (decode _ _ _ _ _)) d)]; walk.
Qed.

Lemma frame_dispatch now c f : Type_ f ≠ MsgWait → obeys R (dispatch J stamp stat_ok now c f).
Proof.
  intros Hw. unfold dispatch. rewrite (decide_False (P := Type_ f = MsgWait)) by done.
  repeat (apply obeys_if_dec; [first
    [ apply frame_handleCreate | apply frame_handleAttach | apply frame_handleHistory
    | apply frame_handleEnvForward | apply frame_handleSubscribe
    | (unfold handleDetach; walk; apply frame_leave)
    | (unfold handleRecord; walk; [apply frame_recordStart|apply frame_recordStop])
    | (intros d; apply frame_emit)
    | (unfold handleList, handleInfo, handleKill, handleResize, handleInput, handleShutdown, handleMetaSet,
         handleMetaGet, handleExec, handleExecSync, handleKillPrefix, handleUpdateEmulatorScrollback; walk; done) ]
    |]).
  apply frame_obeys_emit.
Qed.

Lemma frame_onExit now id code : obeys R (onExit J now id code).
Proof.
  unfold onExit. walk; apply frame_modify; intros d.
  - apply frame_notify_exit.
  - apply frame_notify_other.
  - unfold persistSessionExit. repeat case_match; first [apply frame_scrollback|apply frame_refl].
  - apply frame_recordings.
  - apply frame_svc.
  - apply frame_counters.
  - apply frame_close.
Qed.

(** ** Output *)

Lemma frame_cmd_output o : obeys R (cmd_output o).
Proof.
  destruct o as [id ev|id st]; cbn; [unfold publishCmdEvent; walk|]. apply frame_modify. intros d. apply frame_save.
Qed.

Lemma frame_osc133 now id data v off cur : obeys R (osc133 now id data v off cur).
Proof.
  intros d. unfold osc133. set (d1 := match lineCounters d !! id with Some _ => _ | None => d end).
  assert (Hd1 : R d [] d1) by (subst d1; case_match; [apply frame_counters|apply frame_refl]). clearbody d1.
  destruct (Osc.parseOSC133Value v) as [code exit]. destruct (cmdSvc d1) as [svc|]; [|exact Hd1].
  destruct (CmdLifecycle.HandleOSC svc id code exit _ _) as [[e outs] svc'].
  apply (composes_app d [] d1); [exact Hd1|].
  apply (composes_app d1 [] (set_svc d1 (Some svc'))); [apply frame_svc|].
  apply (obeys_each R cmd_output outs). intros o _. apply frame_cmd_output.
Qed.

Lemma frame_scan_one now id data r cur d :
  R d (fst (snd (scan_one now id data r cur d))) (snd (snd (scan_one now id data r cur d))).
Proof.
  unfold scan_one. destruct (Osc.osc_Type r); cbn [snd]; [|apply frame_publish..|apply frame_osc133].
  refine ((_ : obeys R (call _ _)) d). walk.
Qed.

Lemma frame_scan_loop now id data l cur d :
  R d (fst (snd (scan_loop now id data l cur d))) (snd (snd (scan_loop now id data l cur d))).
Proof.
  revert cur d. induction l as [|r l IH]; intros cur d; [apply frame_refl|].
  cbn [scan_loop]. pose proof (frame_scan_one now id data r cur d) as Hm.
  destruct (scan_one now id data r cur d) as [cur' [e1 d1]]. specialize (IH cur' d1).
  destruct (scan_loop now id data l cur' d1) as [cur2 [e2 d2]]. by eapply composes_app.
Qed.

Lemma frame_scanOSC now id data : obeys R (scanOSC url now id data).
Proof.
  intros d. unfold scanOSC. destruct (Osc.ParseOSC url data) as [|r l]; [apply frame_refl|].
  pose proof (frame_scan_loop now id data (r :: l) 0 d) as Hs.
  destruct (scan_loop now id data (r :: l) 0 d) as [cur [e d1]]. cbn [fst snd] in *.
  rewrite <- (app_nil_r e). eapply composes_app; [exact Hs|].
  repeat case_match; first [apply frame_counters|apply frame_refl].
Qed.

Lemma frame_process now id data : obeys R (process_output url J now id data).
Proof.
  unfold process_output. repeat (apply obeys_andThen; [apply _| |]); [apply frame_scanOSC|..].
  - intros d. unfold scanDA. case_match; [apply frame_refl|]. refine ((_ : obeys R (each _ _)) d). walk.
  - apply frame_modify. intros d. unfold persistOutput. case_match; [|apply frame_refl].
    destruct (History.Write _ _ _). apply frame_scrollback.
  - intros d. unfold teeRecording. repeat case_match; try apply frame_recordings; [|apply frame_refl].
    eapply (composes_app d []); [apply frame_recordings|apply frame_publish].
  - apply frame_modify. intros d. apply frame_notify_output.
Qed.

Lemma frame_drain id k : (∀ data, obeys R (k data)) → obeys R (drain_session id k).
Proof. intros Hk. unfold drain_session. walk. apply Hk. Qed.

Lemma frame_flush_clients now id l : obeys R (flush_clients url J now id l).
Proof.
  apply frame_drain. intros data. apply obeys_andThen; [apply _|apply frame_process|unfold broadcast; walk].
Qed.

Lemma frame_flushOutput now : obeys R (flushOutput url J now).
Proof.
  intros d. unfold flushOutput. refine ((_ : obeys R (_ ;> _)) d). apply obeys_andThen; [apply _| |].
  - apply obeys_each; [apply _|]. intros [id cs] _. apply frame_flush_clients.
  - intros d1. refine ((_ : obeys R (each _ _)) d1). apply obeys_each; [apply _|]. intros id _.
    apply frame_drain. intros data. apply frame_process.
Qed.

Lemma frame_flushSession now id : obeys R (flushSessionOutput url J now id).
Proof.
  intros d. unfold flushSessionOutput. destruct (elements _) as [|c [|]]; [apply frame_flushOutput| |].
  - case_decide; [apply frame_flushOutput|apply frame_flush_clients].
  - apply frame_flush_clients.
Qed.
End Frame.
