(* ===== verification/DaemonClients.v ===== *)
(** * The clients of the daemon

    Which clients are attached to which sessions, and what they are sent: the
    bookkeeping of [handleAttach], [handleDetach] and [detachClient], and the
    output that [flushOutput] and [flushSessionOutput] broadcast, over every
    interleaving of requests, disconnections, flushes, waits and exits. *)

From S2P Require Import Prelude Files GoStrings SessionValues Protocol Payload SessionManager DaemonTypes Daemon DaemonExample DaemonLemmas.
From S2P Require History Recording Commands CmdLifecycle Event Osc.

#[local] Open Scope Z_scope.

(** The data frames among the effects, with their clients. *)
Definition sends (e : list effect) : list (bytes * Frame) :=
  omap (λ x, match x with BroadcastTo c f => Some (c, f) | _ => None end) e.

Section Clients.

Context {S : Type} `{Drains S}.

Context (url : bytes → option bytes) (J : Json) (stamp : time → bytes) (stat_ok : bytes → bool).

(** What a step is: a request of a client, the end of its connection, or
    something else. *)
Inductive label := Request (c : bytes) (f : Frame) | Gone (c : bytes) | Other.

(** A step of the daemon and its effects; the other steps are the flushes, a
    waiter that wakes up, a session that exits, and a step of the backend's own
    goroutines. *)
Inductive dstep : Daemon S → label → list effect → Daemon S → Prop :=
  | ds_dispatch d now c f :
      dstep d (Request c f) (fst (dispatch J stamp stat_ok now c f d)) (snd (dispatch J stamp stat_ok now c f d))
  | ds_disconnect d c : dstep d (Gone c) (fst (detachClient c d)) (snd (detachClient c d))
  | ds_flush d now : dstep d Other (fst (flushOutput url J now d)) (snd (flushOutput url J now d))
  | ds_flush_session d now id :
      dstep d Other (fst (flushSessionOutput url J now id d)) (snd (flushSessionOutput url J now id d))
  | ds_wait d now p k r : finishWait now p k d = Some r → dstep d Other (fst r) (snd r)
  | ds_exit d now id code : dstep d Other (fst (onExit J now id code d)) (snd (onExit J now id code d))
  | ds_backend d s : drained s = drained (backend d) → dstep d Other [] (set_backend d s).

(** A run whose states and steps satisfy [P]. *)
Inductive exec (P : Daemon S → label → Prop) : Daemon S → list effect → Daemon S → Prop :=
  | exec_nil d : exec P d [] d
  | exec_step d1 l e1 d2 e2 d3 : P d1 l → dstep d1 l e1 d2 → exec P d2 e2 d3 → exec P d1 (e1 ++ e2) d3.

Lemma exec_one P d l e d' : P d l → dstep d l e d' → exec P d e d'.
Proof. intros Hp Hs. rewrite <- (app_nil_r e). eapply exec_step; [done..|constructor]. Qed.

Lemma exec_backend P d s e d' :
  P d Other → drained s = drained (backend d) → exec P (set_backend d s) e d' → exec P d e d'.
Proof. intros Hp Hs He. exact (exec_step P d Other [] _ e d' Hp (ds_backend d s Hs) He). Qed.

(** Nothing is read from the backend or sent, and the clients stay where they are. *)
Definition silent (d : Daemon S) (e : list effect) (d' : Daemon S) : Prop :=
  attachments d' = attachments d ∧ clientSession d' = clientSession d ∧ sends e = [] ∧
  drained (backend d') = drained (backend d).

#[export] Instance silent_composes : Composes silent.
Proof.
  split; [intros d; unfold silent; by split_and!|].
  intros d1 e1 d2 e2 d3 (H1 & H2 & H3 & H4) (H5 & H6 & H7 & H8). unfold silent, sends in *.
  rewrite omap_app, H3, H7. split_and!; done || congruence.
Qed.

Lemma silent_call {A} (f : S → A * S) (k : A → handler S) :
  (∀ s, drained (snd (f s)) = drained s) → (∀ a, obeys silent (k a)) → obeys silent (call f k).
Proof. intros Hf Hk. apply obeys_call; [apply _| |done]. intros d. unfold silent. split_and!; [done..|apply Hf]. Qed.

Lemma silent_reply c m : obeys silent (reply c m).
Proof. intros d. unfold silent. by split_and!. Qed.

Lemma silent_reply_error c e : obeys silent (reply_error c e).
Proof. apply silent_reply. Qed.

Lemma silent_reply_result c e : obeys silent (reply_result c e).
Proof. destruct e; apply silent_reply. Qed.

Lemma silent_publish e : obeys silent (publishEvent e).
Proof. intros d. unfold publishEvent. by destruct (hasBus (config d)). Qed.

Lemma silent_emit e : sends [e] = [] → obeys silent (emit e).
Proof. intros He d. by split_and!. Qed.

(** A change of the state that leaves the clients and the backend. *)
Lemma silent_modify f :
  (∀ d, attachments (f d) = attachments d ∧ clientSession (f d) = clientSession d ∧
    backend (f d) = backend d) → obeys silent (modify f).
Proof. intros Hf d. destruct (Hf d) as (H1 & H2 & H3). unfold silent. split_and!; cbn; congruence. Qed.

Lemma silent_for_targets {A} (f : S → bytes → A * S) l s :
  (∀ s id, drained (snd (f s id)) = drained s) → drained (snd (for_targets f l s)) = drained s.
Proof.
  intros Hf. revert s. induction l as [|id l IH]; intros s; [done|]. cbn [for_targets].
  specialize (Hf s id). destruct (f s id) as [r s1]. cbn in Hf.
  specialize (IH s1). destruct (for_targets f l s1) as [rs s2]. cbn in *. congruence.
Qed.

Ltac drains :=
  intros; first
    [ apply drained_Create | apply drained_Kill | apply drained_Resize | apply drained_WriteInput
    | apply drained_Attach | apply drained_Detach | apply drained_MetaSet
    | apply drained_UpdateEmulatorScrollback | apply silent_for_targets; drains ].

Ltac silent :=
  repeat first
    [ apply obeys_skip; apply _ | apply silent_reply | apply silent_reply_error
    | apply silent_reply_result | apply silent_publish | apply silent_emit; reflexivity
    | apply obeys_andThen; [apply _|..] | apply silent_call; [drains|intros ?]
    | apply obeys_each; [apply _|intros ? _] | apply obeys_decode; [|intros ?]
    | apply obeys_query; intros ?
    | apply silent_modify; intros ?; solve [by repeat case_match|by split_and!]
    | match goal with |- obeys _ (match ?x with _ => _ end) => destruct x end ].

Lemma silent_persist now id req (d : Daemon S) :
  attachments (persistSessionCreate J now id req d) = attachments d ∧
  clientSession (persistSessionCreate J now id req d) = clientSession d ∧
  backend (persistSessionCreate J now id req d) = backend d.
Proof. unfold persistSessionCreate. by repeat case_match. Qed.

Lemma silent_handleCreate now c p : obeys silent (handleCreate J now c p).
Proof.
  unfold handleCreate. silent. apply silent_modify. intros. apply silent_persist.
Qed.

Lemma silent_handleWait now c p : obeys silent (handleWait J now c p).
Proof. unfold handleWait. silent. Qed.

Lemma silent_handleRecord now c p : obeys silent (handleRecord J stamp now c p).
Proof.
  unfold handleRecord. silent.
  - intros d. unfold recordStart. repeat case_match; unfold silent; by split_and!.
  - intros d. unfold recordStop. repeat case_match; unfold silent; by split_and!.
Qed.

Lemma silent_handleHistory c p : obeys silent (handleHistory J c p).
Proof.
  unfold handleHistory. silent. intros d. repeat case_match; try apply silent_reply;
    try apply silent_reply_error.
  match goal with |- silent _ (fst (?h d)) _ => cut (obeys silent h); [intros Hh; apply Hh|] end.
  silent.
Qed.

Lemma silent_handleEnvForward c p : obeys silent (handleEnvForward J stat_ok c p).
Proof.
  unfold handleEnvForward. silent. intros d. case_match; [|apply silent_reply].
  match goal with |- silent _ (fst (?h d)) _ => cut (obeys silent h); [intros Hh; apply Hh|] end.
  silent.
Qed.

Lemma silent_handleSubscribe c p : obeys silent (handleSubscribe J c p).
Proof.
  intros d. unfold handleSubscribe. case_match; [apply silent_reply|].
  match goal with |- silent _ (fst (?h d)) _ => cut (obeys silent h); [intros Hh; apply Hh|] end.
  silent.
Qed.

Lemma silent_dispatch now c f :
  Type_ f ≠ MsgAttach → Type_ f ≠ MsgDetach → obeys silent (dispatch J stamp stat_ok now c f).
Proof.
  intros Ha Hd. unfold dispatch.
  rewrite (decide_False (P := Type_ f = MsgAttach)) by done.
  rewrite (decide_False (P := Type_ f = MsgDetach)) by done.
  repeat (apply obeys_if_dec; [first
    [ apply silent_handleCreate | apply silent_handleWait | apply silent_handleRecord
    | apply silent_handleHistory | apply silent_handleEnvForward | apply silent_handleSubscribe
    | unfold handleList | unfold handleInfo | unfold handleKill | unfold handleResize
    | unfold handleInput | unfold handleShutdown | (intros d; apply silent_reply)
    | unfold handleMetaSet | unfold handleMetaGet | unfold handleExec | unfold handleExecSync
    | unfold handleKillPrefix | unfold handleUpdateEmulatorScrollback ]; silent|]).
  apply silent_reply.
Qed.

Lemma silent_onExit now id code : obeys silent (onExit J now id code).
Proof.
  unfold onExit. silent. apply silent_modify. intros d. unfold persistSessionExit.
  by repeat case_match.
Qed.

Lemma silent_finishWait now p k d r : finishWait now p k d = Some r → silent d (fst r) (snd r).
Proof.
  unfold finishWait. destruct (waiterStore d !! p) as [w|]; [|done]. cbn.
  destruct (wake_response now k w) as [x|]; [|done]. intros [= <-].
  unfold silent. by split_and!.
Qed.

Lemma silent_cmd_output o : obeys silent (cmd_output o).
Proof.
  destruct o as [id ev|id st]; cbn.
  - unfold publishCmdEvent. case_match; apply silent_publish.
  - apply silent_modify. intros d. unfold save_commands. by case_match.
Qed.

Lemma silent_osc133 now id data v off cur : obeys silent (osc133 now id data v off cur).
Proof.
  intros d. unfold osc133. set (d1 := match lineCounters d !! id with Some _ => _ | None => d end).
  assert (Hd1 : silent d [] d1) by (subst d1; case_match; unfold silent; by split_and!).
  clearbody d1. destruct (Osc.parseOSC133Value v) as [code exit].
  destruct (cmdSvc d1) as [svc|]; [|exact Hd1].
  destruct (CmdLifecycle.HandleOSC svc id code exit _ _) as [[e outs] svc'].
  apply (composes_app d [] d1); [exact Hd1|].
  apply (composes_app d1 [] (set_commands d1 (Some svc') (cmdRepo d1) (svcRepo d1) (disk d1)));
    [unfold silent; by split_and!|].
  apply (obeys_each silent). intros o _. apply silent_cmd_output.
Qed.

Lemma silent_pair (h : handler S) d :
  obeys silent h → let '(e, d') := h d in silent d e d'.
Proof. intros Hh. specialize (Hh d). by destruct (h d). Qed.

Lemma silent_scan_one now id data r cur d :
  let '(_, (e, d')) := scan_one now id data r cur d in silent d e d'.
Proof.
  unfold scan_one. destruct (Osc.osc_Type r); apply silent_pair.
  - silent.
  - apply silent_publish.
  - apply silent_publish.
  - apply silent_osc133.
Qed.

Lemma silent_scan_loop now id data l cur d :
  let '(_, (e, d')) := scan_loop now id data l cur d in silent d e d'.
Proof.
  revert cur d. induction l as [|r l IH]; intros cur d; [unfold silent; by split_and!|].
  cbn [scan_loop]. pose proof (silent_scan_one now id data r cur d) as Hm.
  destruct (scan_one now id data r cur d) as [cur' [e1 d1]]. specialize (IH cur' d1).
  destruct (scan_loop now id data l cur' d1) as [cur2 [e2 d2]]. by eapply composes_app.
Qed.

Lemma silent_scanOSC now id data : obeys silent (scanOSC url now id data).
Proof.
  intros d. unfold scanOSC. destruct (Osc.ParseOSC url data) as [|r l]; [unfold silent; by split_and!|].
  pose proof (silent_scan_loop now id data (r :: l) 0 d) as Hs.
  destruct (scan_loop now id data (r :: l) 0 d) as [cur [e d1]]. cbn [fst snd].
  rewrite <- (app_nil_r e). eapply composes_app; [exact Hs|].
  repeat case_match; unfold silent; by split_and!.
Qed.

Lemma silent_process now id data : obeys silent (process_output url J now id data).
Proof.
  unfold process_output. silent.
  - apply silent_scanOSC.
  - intros d. unfold scanDA. case_match; [unfold silent; by split_and!|].
    apply (obeys_each silent). intros t _. silent.
  - apply silent_modify. intros d. unfold persistOutput. case_match; [|done].
    by destruct (History.Write _ _ _).
  - intros d. unfold teeRecording. repeat case_match; try (unfold silent; by split_and!).
    eapply (composes_app d []); [|apply silent_publish]. unfold silent. by split_and!.
Qed.

(** ** Output reaches the attached clients *)

(** The frames for pieces of output, when [a] says who is attached. *)
Definition frames_for (a : gmap bytes (gset bytes)) (log : list (bytes * bytes)) : list (bytes * Frame) :=
  log ≫= (λ '(id, data), (λ c, (c, data_frame id data)) <$> elements (default ∅ (a !! id))).

Definition flows (a : gmap bytes (gset bytes)) (d : Daemon S) (e : list effect) (d' : Daemon S) : Prop :=
  attachments d = a → attachments d' = a ∧ clientSession d' = clientSession d ∧
  ∃ log, drained (backend d') = drained (backend d) ++ log ∧ sends e = frames_for a log.

#[export] Instance flows_composes a : Composes (flows a).
Proof.
  split.
  - intros d Ha. split_and!; [done|done|]. exists []. by rewrite app_nil_r.
  - intros d1 e1 d2 e2 d3 H1 H2 Ha. destruct (H1 Ha) as (Ha2 & Hc & l1 & Hl1 & He1).
    destruct (H2 Ha2) as (Ha3 & Hc3 & l2 & Hl2 & He2). split_and!; [done|congruence|].
    exists (l1 ++ l2). unfold sends, frames_for in *.
    by rewrite Hl2, Hl1, <- app_assoc, omap_app, bind_app, He1, He2.
Qed.

Lemma silent_flows a d e d' : silent d e d' → flows a d e d'.
Proof.
  intros (H1 & H2 & H3 & H4) Ha. split_and!; [congruence|done|]. exists [].
  by rewrite app_nil_r, H3, H4.
Qed.

Lemma broadcast_spec id data l (d : Daemon S) :
  sends (fst (broadcast id data l d)) = (λ c, (c, data_frame id data)) <$> l ∧
  snd (broadcast id data l d) = d.
Proof.
  unfold broadcast. induction l as [|c l [IH1 IH2]]; [done|].
  cbn [each]. rewrite andThen_eq. cbn [emit fst snd]. unfold sends in *. rewrite omap_app. cbn.
  split; [by f_equal|done].
Qed.

(** Output that is drained goes to [l], which is who is attached. *)
Lemma flows_drain a now id l :
  l = elements (default ∅ (a !! id)) →
  obeys (flows a) (drain_session id (λ data, process_output url J now id data ;> broadcast id data l)).
Proof.
  intros Hl d Ha. unfold drain_session, call. pose proof (drained_ReadOutput (backend d) id) as Hr.
  destruct (sm_ReadOutput (backend d) id) as [r s]. cbn [fst snd] in Hr.
  assert (Hskip : drained s = drained (backend d) → flows a d [] (set_backend d s)).
  { intros Hs _. split_and!; [done|done|]. exists []. cbn. by rewrite app_nil_r. }
  destruct r as [data|e]; [|by apply Hskip; [rewrite Hr, app_nil_r|]].
  case_decide as Hd; [by apply Hskip; [rewrite Hr, app_nil_r|]|].
  unfold andThen. pose proof (silent_process now id data (set_backend d s)) as (H1 & H2 & H3 & H4).
  destruct (process_output url J now id data (set_backend d s)) as [e1 d1]. cbn [fst snd] in *.
  destruct (broadcast_spec id data l d1) as [Hb1 Hb2].
  destruct (broadcast id data l d1) as [e2 d2]. cbn [fst snd] in *. subst d2.
  split_and!; [by rewrite H1|done|]. exists [(id, data)]. cbn in H4. rewrite H4, Hr. split; [done|].
  unfold sends, frames_for in *. rewrite omap_app, H3, Hb1, Hl. cbn. by rewrite app_nil_r.
Qed.

Lemma flows_drain_unattached a now id :
  a !! id = None → obeys (flows a) (drain_session id (process_output url J now id)).
Proof.
  intros Hn d. pose proof (flows_drain a now id [] ltac:(by rewrite Hn) d) as Hf.
  enough (Heq : drain_session id (process_output url J now id) d =
    drain_session id (λ data, process_output url J now id data ;> broadcast id data []) d)
    by by rewrite Heq.
  unfold drain_session, call. destruct (sm_ReadOutput (backend d) id) as [[data|e] s]; [|done].
  case_decide; [done|]. unfold andThen, broadcast. cbn [each]. unfold skip.
  destruct (process_output url J now id data (set_backend d s)). by rewrite app_nil_r.
Qed.

Lemma flows_flushOutput a now : obeys (flows a) (flushOutput url J now).
Proof.
  intros d Ha. unfold flushOutput. rewrite Ha. revert Ha.
  match goal with |- _ → _ ∧ _ ∧ ∃ _, drained (backend (snd (?h d))) = _ ∧ _ =>
    cut (obeys (flows a) h); [intros Hh; apply Hh|] end.
  apply obeys_andThen; [apply _| |].
  - apply obeys_each; [apply _|]. intros [id cs] Hin. apply elem_of_map_to_list in Hin.
    apply flows_drain. by rewrite Hin.
  - intros d1. match goal with |- flows _ _ (fst (?h d1)) _ => cut (obeys (flows a) h); [intros Hh; apply Hh|] end.
    apply obeys_each; [apply _|]. intros id Hin. unfold waiterSessions in Hin.
    apply list_elem_of_filter in Hin as [Hn _]. by apply flows_drain_unattached.
Qed.

Lemma flows_flushSession a now id : obeys (flows a) (flushSessionOutput url J now id).
Proof.
  intros d Ha. pose proof (flows_flushOutput a now d Ha) as Hall. revert Ha.
  unfold flushSessionOutput. destruct (elements (default ∅ (attachments d !! id))) as [|c [|c2 cs]] eqn:He;
    intros Ha; [done| |].
  - case_decide; [done|]. apply (flows_drain a); [by rewrite <- Ha, He|done].
  - apply (flows_drain a); [by rewrite <- Ha, He|done].
Qed.

(** ** Who is attached *)

Abbreviation books := (gmap bytes (gset bytes) * gmap bytes bytes)%type.

Definition books_of (d : Daemon S) : books := (attachments d, clientSession d).

Definition attach_books (c id : bytes) (b : books) : books :=
  (<[id := {[c]} ∪ default ∅ (fst b !! id)]> (fst b), <[c := id]> (snd b)).

Definition leave_books (c id : bytes) (b : books) : books :=
  (fst (drop_client c id (fst b)), delete c (snd b)).

(** The client is attached to the session, by the session's set. *)
Definition attached (b : books) (c id : bytes) : Prop := c ∈ default ∅ (fst b !! id).

#[export] Instance attached_decision b c id : Decision (attached b c id).
Proof. unfold attached. apply _. Defined.

Lemma attach_books_attached c id b c' id' :
  attached (attach_books c id b) c' id' ↔ (c' = c ∧ id' = id) ∨ attached b c' id'.
Proof.
  unfold attached, attach_books. cbn [fst]. destruct (decide (id' = id)) as [->|Hne].
  - rewrite lookup_insert_eq. cbn. set_solver.
  - rewrite lookup_insert_ne by done. naive_solver.
Qed.

Lemma leave_books_attached c id b c' id' :
  attached (leave_books c id b) c' id' ↔ attached b c' id' ∧ ¬ (c' = c ∧ id' = id).
Proof.
  unfold attached, leave_books, drop_client. cbn [fst].
  destruct (fst b !! id) as [cs|] eqn:Hid; [|].
  - case_decide as Hcs; cbn [fst]; (destruct (decide (id' = id)) as [->|Hne];
      [rewrite Hid, ?lookup_delete_eq, ?lookup_insert_eq; cbn; set_solver
      |rewrite ?lookup_delete_ne, ?lookup_insert_ne by done; naive_solver]).
  - cbn [fst]. split; [|naive_solver]. intros Ha. split; [done|]. intros [-> ->].
    rewrite Hid in Ha. cbn in Ha. set_solver.
Qed.

(** No set is empty, and the session of a client has it in its set. *)
Definition books_inv (b : books) : Prop :=
  (∀ id cs, fst b !! id = Some cs → cs ≠ ∅) ∧ (∀ c id, snd b !! c = Some id → attached b c id).

(** And a client is in no other set. *)
Definition books_exact (b : books) : Prop :=
  ∀ c id, attached b c id → snd b !! c = Some id.

Lemma attach_books_inv c id b : books_inv b → books_inv (attach_books c id b).
Proof.
  intros [H1 H2]. split.
  - unfold attach_books. cbn [fst]. intros id' cs [[<- <-]|[_ Hl]]%lookup_insert_Some; [set_solver|by eapply H1].
  - intros c' id' Hl. apply attach_books_attached. unfold attach_books in Hl. cbn [snd] in Hl.
    apply lookup_insert_Some in Hl as [[<- <-]|[_ Hl]]; [by left|].
    right. by apply H2.
Qed.

Lemma leave_books_inv c id b : books_inv b → books_inv (leave_books c id b).
Proof.
  intros [H1 H2]. split.
  - unfold leave_books, drop_client. cbn [fst]. intros id' cs'.
    destruct (fst b !! id) as [cs|] eqn:Hid; [|apply H1].
    case_decide as Hcs; cbn [fst].
    + intros [_ Hl]%lookup_delete_Some. by eapply H1.
    + intros [[<- <-]|[_ Hl]]%lookup_insert_Some; [done|by eapply H1].
  - intros c' id' Hl. apply leave_books_attached. unfold leave_books in Hl. cbn [snd] in Hl.
    apply lookup_delete_Some in Hl as [Hne Hl]. split; [by apply H2|]. naive_solver.
Qed.

(** What a request asks of the books. *)
Definition asks (f : Frame) : option bytes :=
  if decide (Type_ f = MsgAttach ∨ Type_ f = MsgDetach)
  then match json_SessionID J (Payload f) with Ok r => Some (sr_SessionID r) | Err _ => None end
  else None.

(** The client names the session it is attached to, if it is. *)
Definition orderly_in (b : books) (l : label) : Prop :=
  match l with
  | Request c f => ∀ id id', asks f = Some id → snd b !! c = Some id' → id' = id
  | _ => True
  end.

Definition orderly (d : Daemon S) (l : label) : Prop := orderly_in (books_of d) l.

(** Nothing is sent or read. *)
Definition unsent (d : Daemon S) (e : list effect) (d' : Daemon S) : Prop :=
  sends e = [] ∧ drained (backend d') = drained (backend d).

Lemma leave_spec c id (d : Daemon S) :
  unsent d (fst (leave c id d)) (snd (leave c id d)) ∧
  books_of (snd (leave c id d)) = leave_books c id (books_of d).
Proof.
  unfold leave, leave_books, unsent. cbn [fst snd books_of].
  destruct (drop_client c id (attachments d)) as [a b]. cbn [fst].
  destruct b; [|done]. unfold call. pose proof (drained_Detach (backend d) id) as Hd.
  cbn [backend set_clients]. destruct (sm_Detach (backend d) id) as [r s]. cbn in Hd.
  unfold publishEvent. by destruct (hasBus _).
Qed.

Lemma handleDetach_spec c p (d : Daemon S) :
  unsent d (fst (handleDetach J c p d)) (snd (handleDetach J c p d)) ∧
  books_of (snd (handleDetach J c p d)) =
    match json_SessionID J p with
    | Ok r => leave_books c (sr_SessionID r) (books_of d)
    | Err _ => books_of d
    end.
Proof.
  unfold handleDetach, decode. destruct (json_SessionID J p) as [r|]; [|done].
  rewrite andThen_eq. cbn [fst snd]. destruct (leave_spec c (sr_SessionID r) d) as [[H1 H2] H3].
  split; [|done]. split; [|done]. unfold sends in *. by rewrite omap_app, H1.
Qed.

Lemma handleAttach_spec c p (d : Daemon S) :
  unsent d (fst (handleAttach J c p d)) (snd (handleAttach J c p d)) ∧
  (books_of (snd (handleAttach J c p d)) = books_of d ∨
   ∃ r, json_SessionID J p = Ok r ∧
     books_of (snd (handleAttach J c p d)) = attach_books c (sr_SessionID r) (books_of d)).
Proof.
  unfold handleAttach, decode. destruct (json_SessionID J p) as [r|]; [|by split; [|left]].
  unfold query. destruct (sm_Get (backend d) (sr_SessionID r)) as [info|]; [|by split; [|left]].
  unfold call. pose proof (drained_Attach (backend d) (sr_SessionID r)) as Ha.
  destruct (sm_Attach (backend d) (sr_SessionID r)) as [e s]. cbn [snd] in Ha.
  destruct e as [e|]; [by split; [|left]|].
  rewrite !andThen_eq. cbn [modify reply emit fst snd]. unfold publishEvent.
  destruct (hasBus _); (split; [done|right; by exists r]).
Qed.

(** The registry of clients as a specification: what a step may do to it. *)
Inductive bstep : books → label → books → Prop :=
  | b_stay b l : (∀ c, l = Gone c → snd b !! c = None) → bstep b l b
  | b_attach b c f id : asks f = Some id → bstep b (Request c f) (attach_books c id b)
  | b_leave b c f id : asks f = Some id → bstep b (Request c f) (leave_books c id b)
  | b_gone b c id : snd b !! c = Some id → bstep b (Gone c) (leave_books c id b).

Lemma books_of_eq (d d' : Daemon S) :
  attachments d' = attachments d → clientSession d' = clientSession d → books_of d' = books_of d.
Proof. unfold books_of. congruence. Qed.

Lemma unsent_flows d e d' : unsent d e d' → books_of d' = books_of d → flows (attachments d) d e d'.
Proof.
  intros [H1 H2] [= H3 H4] _. split_and!; [done|done|]. exists []. by rewrite app_nil_r.
Qed.

(** The cases of a step. *)
Definition bcase (d : Daemon S) (l : label) (e : list effect) (d' : Daemon S) : Prop :=
  bstep (books_of d) l (books_of d') ∧ (unsent d e d' ∨ flows (attachments d) d e d').

Lemma bcase_flows d l e d' :
  (∀ c, l = Gone c → clientSession d !! c = None) → flows (attachments d) d e d' → bcase d l e d'.
Proof.
  intros Hg Hf. split; [|by right]. destruct (Hf eq_refl) as (H1 & H2 & _).
  rewrite (books_of_eq d d') by done. by constructor.
Qed.

(** A step moves a client without sending anything, or leaves the clients where
    they are and sends what it drains to those who are attached. *)
Lemma dstep_cases d l e d' : dstep d l e d' → bcase d l e d'.
Proof.
  intros [d1 now c f|d1 c|d1 now|d1 now id|d1 now p k r Hw|d1 now id code|d1 s Hs].
  - destruct (decide (Type_ f = MsgAttach)) as [Ha|Ha]; [|destruct (decide (Type_ f = MsgDetach)) as [Hd|Hd]].
    + assert (Hk : asks f = match json_SessionID J (Payload f) with Ok r => Some (sr_SessionID r) | Err _ => None end)
        by (unfold asks; by rewrite decide_True by by left).
      assert (Heq : dispatch J stamp stat_ok now c f d1 = handleAttach J c (Payload f) d1)
        by (unfold dispatch; by rewrite Ha).
      rewrite Heq. destruct (handleAttach_spec c (Payload f) d1) as [Hu [Hb|(r & Hr & Hb)]];
        (split; [rewrite Hb|by left]); [by constructor|].
      apply b_attach. by rewrite Hk, Hr.
    + assert (Hk : asks f = match json_SessionID J (Payload f) with Ok r => Some (sr_SessionID r) | Err _ => None end)
        by (unfold asks; by rewrite decide_True by by right).
      assert (Heq : dispatch J stamp stat_ok now c f d1 = handleDetach J c (Payload f) d1)
        by (unfold dispatch; by rewrite Hd).
      rewrite Heq. destruct (handleDetach_spec c (Payload f) d1) as [Hu Hb].
      split; [rewrite Hb|by left]. destruct (json_SessionID J (Payload f)) as [r|] eqn:Hr; [|by constructor].
      by apply b_leave.
    + apply bcase_flows; [done|]. by apply silent_flows, silent_dispatch.
  - unfold detachClient. destruct (clientSession d1 !! c) as [id|] eqn:Hc.
    + destruct (leave_spec c id d1) as [Hu Hb]. split; [|by left]. rewrite Hb. by apply b_gone.
    + apply bcase_flows; [intros ? [= <-]; done|]. apply silent_flows, composes_nil.
  - apply bcase_flows; [done|apply flows_flushOutput].
  - apply bcase_flows; [done|apply flows_flushSession].
  - apply bcase_flows; [done|]. by apply silent_flows, (silent_finishWait now p k).
  - apply bcase_flows; [done|]. apply silent_flows, silent_onExit.
  - apply bcase_flows; [done|]. apply silent_flows. unfold silent. by split_and!.
Qed.

Lemma bstep_books_inv b l b' : bstep b l b' → books_inv b → books_inv b'.
Proof. intros [] Hb; [done|by apply attach_books_inv|by apply leave_books_inv..]. Qed.

Lemma leave_books_exact c id b : snd b !! c = None ∨ snd b !! c = Some id → books_exact b → books_exact (leave_books c id b).
Proof.
  intros Hc Hb c' id' [Ha Hne]%leave_books_attached. apply Hb in Ha. unfold leave_books. cbn [snd].
  rewrite lookup_delete_ne; [done|]. intros <-. apply Hne. split; [done|]. destruct Hc; congruence.
Qed.

Lemma bstep_exact b l b' : bstep b l b' → orderly_in b l → books_exact b → books_exact b'.
Proof.
  intros [b0 l0|b0 c f id Hk|b0 c f id Hk|b0 c id Hk] Ho Hb; [done|..].
  - intros c' id' [[-> ->]|Ha]%attach_books_attached; unfold attach_books; cbn [snd].
    + by rewrite lookup_insert_eq.
    + apply Hb in Ha. destruct (decide (c' = c)) as [->|Hne].
      * rewrite lookup_insert_eq. f_equal. symmetry. exact (Ho _ _ Hk Ha).
      * by rewrite lookup_insert_ne.
  - apply leave_books_exact; [|done]. destruct (snd b0 !! c) as [id'|] eqn:Hc; [|by left].
    right. f_equal. exact (Ho _ _ Hk Hc).
  - apply leave_books_exact; [by right|done].
Qed.

Lemma exec_books P d1 e d2 :
  exec P d1 e d2 → (∀ d l, P d l → orderly d l) →
  books_inv (books_of d1) → books_exact (books_of d1) →
  books_inv (books_of d2) ∧ books_exact (books_of d2).
Proof.
  intros He HP. induction He as [d|d1 l e1 d2 e2 d3 Hp Hs He IH]; intros Hi Hx; [done|].
  apply dstep_cases in Hs as [Hs _]. apply IH; [by eapply bstep_books_inv|].
  eapply bstep_exact; [done| |done]. by apply HP.
Qed.

Lemma exec_books_inv P d1 e d2 : exec P d1 e d2 → books_inv (books_of d1) → books_inv (books_of d2).
Proof.
  intros He. induction He as [d|d1 l e1 d2 e2 d3 Hp Hs He IH]; intros Hi; [done|].
  apply dstep_cases in Hs as [Hs _]. by eapply IH, bstep_books_inv.
Qed.

(** ** What a client receives *)

(** The pieces of output of session [id] that client [c] decodes from frames. *)
Definition received_from (c id : bytes) (l : list (bytes * Frame)) : list bytes :=
  omap (λ '(c', f),
    if decide (c' = c) then
      match decodeDataPayload (Payload f) with
      | Ok (id', data) => if decide (id' = id) then Some data else None
      | Err _ => None
      end
    else None) l.

Definition received (c id : bytes) (e : list effect) : list bytes := received_from c id (sends e).

(** The pieces of output of session [id] in a record of what was drained. *)
Definition pieces (id : bytes) (log : list (bytes * bytes)) : list bytes :=
  omap (λ '(id', data), if decide (id' = id) then Some data else None) log.

Lemma received_broadcast c id id' data cs :
  NoDup cs → Z.of_nat (length id') < 256 →
  received_from c id ((λ c, (c, data_frame id' data)) <$> cs) =
    if decide (id' = id) then if decide (c ∈ cs) then [data] else [] else [].
Proof.
  intros Hn Hl. assert (Hdec : decodeDataPayload (Payload (data_frame id' data)) = Ok (id', data)).
  { cbn [data_frame Payload]. rewrite <- (decode_payload_encode errDataPayloadTooShort id' data Hl).
    unfold AcquireDataPayload, EncodeDataPayload. cbn [take app]. done. }
  assert (Hrec : ∀ c', received_from c id [(c', data_frame id' data)] =
    if decide (c' = c) then if decide (id' = id) then [data] else [] else []).
  { intros c'. unfold received_from. cbn [omap list_omap]. rewrite Hdec. by repeat case_decide. }
  induction Hn as [|c' cs Hc Hn IH]; [by repeat case_decide; [set_solver|..]|].
  rewrite fmap_cons. change (?x :: ?l) with ([x] ++ l). unfold received_from in *.
  rewrite omap_app, Hrec, IH. repeat case_decide; set_solver.
Qed.

Lemma received_frames_for c id a log :
  Forall (λ p, Z.of_nat (length p.1) < 256) log →
  received_from c id (frames_for a log) = if decide (attached (a, ∅) c id) then pieces id log else [].
Proof.
  induction 1 as [|[id' data] log Hl _ IH]; [by case_decide|].
  unfold frames_for, received_from in *. cbn [mbind list_bind]. rewrite omap_app, IH. clear IH.
  fold (received_from c id ((λ c, (c, data_frame id' data)) <$> elements (default ∅ (a !! id')))).
  rewrite received_broadcast by (done || apply NoDup_elements).
  unfold pieces, attached. cbn [omap list_omap fst].
  destruct (decide (id' = id)) as [->|Hne]; [|by case_decide].
  rewrite (decide_ext (c ∈ elements (default ∅ (a !! id))) (c ∈ default ∅ (a !! id))) by apply elem_of_elements.
  repeat case_decide; tauto || done.
Qed.

(** A run that drains [log] while a client stays attached, or stays away. *)
Lemma exec_received c id (b : bool) P d1 e d2 :
  exec P d1 e d2 → (∀ d l, P d l → attached (books_of d) c id ↔ b = true) →
  ∃ log, drained (backend d2) = drained (backend d1) ++ log ∧
    (Forall (λ p, Z.of_nat (length p.1) < 256) log → received c id e = if b then pieces id log else []).
Proof.
  intros He HP. induction He as [d|d1 l e1 d2 e2 d3 Hp Hs He (log2 & Hd2 & IH)].
  { exists []. rewrite app_nil_r. split; [done|]. by destruct b. }
  apply dstep_cases in Hs as [_ [[Hu1 Hu2]|Hf]].
  - exists log2. split; [congruence|]. intros Hl. unfold received, sends in *.
    rewrite omap_app, Hu1. by apply IH.
  - destruct (Hf eq_refl) as (_ & _ & log1 & Hd1 & Hs). exists (log1 ++ log2).
    split; [by rewrite Hd2, Hd1, app_assoc|]. intros [Hl1 Hl2]%Forall_app.
    unfold received in *. unfold sends in Hs |- *. rewrite omap_app, Hs.
    unfold received_from at 1. rewrite omap_app.
    fold (received_from c id (frames_for (attachments d1) log1)). rewrite received_frames_for by done.
    specialize (IH Hl2). unfold received_from, sends in IH. rewrite IH.
    assert (Ha : attached (attachments d1, ∅) c id ↔ b = true) by by apply (HP d1 l).
    destruct b; [rewrite decide_True by by apply Ha|rewrite decide_False by (intros Hx; by apply Ha in Hx); done].
    unfold pieces. by rewrite omap_app.
Qed.

(** ** Theorems *)

Lemma new_books cfg s svc repo own fs :
  let b := books_of (NewDaemon cfg s svc repo own fs) in books_inv b ∧ books_exact b.
Proof.
  assert (Hn : ∀ c id, ¬ attached (∅, ∅) c id)
    by (intros c id; unfold attached; cbn [fst]; rewrite lookup_empty; cbn; set_solver).
  split; [split|].
  - intros id cs Hl. cbn in Hl. by rewrite lookup_empty in Hl.
  - intros c id Hl. cbn in Hl. by rewrite lookup_empty in Hl.
  - by intros c id Ha%Hn.
Qed.

Lemma bstep_gone b l b' c : bstep b l b' → l = Gone c → snd b' !! c = None.
Proof.
  intros [b0 l0 Hg|b0 c0 f id Hk|b0 c0 f id Hk|b0 c0 id Hk]; [by apply Hg|done..|].
  intros [= ->]. apply lookup_delete_eq.
Qed.

Lemma gone_client_is_nowhere d c e d' : dstep d (Gone c) e d' → clientSession d' !! c = None.
Proof. intros Hs. apply dstep_cases in Hs as [Hb _]. by apply (bstep_gone _ _ _ c Hb). Qed.

(** Over every run of requests, disconnections, flushes, waits and exits in
    which a client attaches to a session, or detaches, only when it is attached
    to no other, the daemon's two maps agree: no session has an empty set, a
    client is in the set of exactly the session it is attached to, and one
    whose connection has ended is in none. *)
Theorem registry_of_clients_is_exact cfg s svc repo own fs e d c e' d' :
  exec orderly (NewDaemon cfg s svc repo own fs) e d → dstep d (Gone c) e' d' →
  (∀ id cs, attachments d' !! id = Some cs → cs ≠ ∅) ∧
  (∀ c' id, c' ∈ default ∅ (attachments d' !! id) ↔ clientSession d' !! c' = Some id) ∧
  ∀ id, c ∉ default ∅ (attachments d' !! id).
Proof.
  intros He Hs. destruct (new_books cfg s svc repo own fs) as [Hi Hx].
  assert (exec orderly (NewDaemon cfg s svc repo own fs) (e ++ e') d') as He'.
  { clear Hi Hx. induction He as [d0|d1 l e1 d2 e2 d3 Hp Hd He IH].
    - cbn [app]. rewrite <- (app_nil_r e'). eapply exec_step; [|exact Hs|constructor]. exact I.
    - rewrite <- app_assoc. eapply exec_step; [done..|]. by apply IH. }
  destruct (exec_books _ _ _ _ He' (λ _ _ H, H) Hi Hx) as [[H1 H2] H3].
  split_and!; [exact H1|intros c' id; split; [apply H3|apply H2]|].
  intros id Ha%H3. cbn in Ha. by rewrite (gone_client_is_nowhere _ _ _ _ Hs) in Ha.
Qed.

(** A client that attaches to a second session without detaching from the
    first stays in the first one's set when its connection ends: the daemon
    knows only its last session. *)
Theorem reattached_client_stays_behind `{!SessionManagerLaws S} d c now1 now2 p1 p2 id1 id2 :
  sm_ok (backend d) → known (backend d) id1 = true → known (backend d) id2 = true → id1 ≠ id2 →
  json_SessionID J p1 = Ok (mkSessionIDRequest id1) → json_SessionID J p2 = Ok (mkSessionIDRequest id2) →
  let d1 := snd (dispatch J stamp stat_ok now1 c (mkFrame ProtocolVersion MsgAttach p1) d) in
  let d2 := snd (dispatch J stamp stat_ok now2 c (mkFrame ProtocolVersion MsgAttach p2) d1) in
  let d3 := snd (detachClient c d2) in
  clientSession d3 !! c = None ∧ c ∈ default ∅ (attachments d3 !! id1).
Proof.
  intros Hok Hk1 Hk2 Hne Hp1 Hp2. cbv zeta.
  assert (Hatt : ∀ now d p id, sm_ok (backend d) → known (backend d) id = true →
    json_SessionID J p = Ok (mkSessionIDRequest id) →
    let d' := snd (dispatch J stamp stat_ok now c (mkFrame ProtocolVersion MsgAttach p) d) in
    quiet sm_ok (backend d) (backend d') ∧ books_of d' = attach_books c id (books_of d)).
  { clear. intros now d p id Hok Hk Hp. change (dispatch J stamp stat_ok now c _) with (handleAttach J c p).
    unfold handleAttach, decode, query, call. rewrite Hp. cbn [sr_SessionID].
    unfold known in Hk. destruct (sm_Get (backend d) id) as [info|] eqn:Hg; [|done].
    pose proof (sm_Attach_spec (backend d) id Hok) as Hs.
    destruct (sm_Attach (backend d) id) as [e s]. destruct Hs as [Hq He].
    assert (e = None) as -> by (apply He; unfold known; by rewrite Hg).
    rewrite !andThen_eq. cbn [modify reply emit fst snd]. unfold publishEvent. done. }
  destruct (Hatt now1 d p1 id1) as [[Hok1 Hkn1] Hb1]; [done..|].
  set (d1 := snd (dispatch J stamp stat_ok now1 c _ d)) in *. clearbody d1.
  destruct (Hatt now2 d1 p2 id2) as [_ Hb2]; [done|by rewrite Hkn1|done|].
  set (d2 := snd (dispatch J stamp stat_ok now2 c _ d1)) in *. clearbody d2.
  assert (Hc : clientSession d2 !! c = Some id2)
    by (apply (f_equal snd) in Hb2; cbn in Hb2; by rewrite Hb2, lookup_insert_eq).
  unfold detachClient. rewrite Hc. destruct (leave_spec c id2 d2) as [_ Hb3].
  split.
  - apply (f_equal snd) in Hb3. cbn in Hb3. by rewrite Hb3, lookup_delete_eq.
  - change (attached (books_of (snd (leave c id2 d2))) c id1). rewrite Hb3, Hb2, Hb1.
    apply leave_books_attached. split; [|by intros [_ ?]].
    apply attach_books_attached. right. apply attach_books_attached. by left.
Qed.

End Clients.

(** ** Witnesses *)

Section Witnesses.

#[local] Abbreviation step := (dstep example_url example_json example_stamp example_stat) (only parsing).
#[local] Abbreviation run := (exec example_url example_json example_stamp example_stat) (only parsing).
#[local] Abbreviation dispatched c t p d :=
  (dispatch example_json example_stamp example_stat 5 c (request t p) d) (only parsing).

Definition example_attached : Daemon example_backend := snd (dispatched #"c1" MsgAttach #"a" example_daemon).

Lemma registry_of_clients_is_exact_witness :
  run (orderly example_json) example_daemon (fst (dispatched #"c1" MsgAttach #"a" example_daemon)) example_attached ∧
  #"c1" ∈ default ∅ (attachments example_attached !! #"a") ∧
  ∀ id, #"c1" ∉ default ∅ (attachments (snd (detachClient #"c1" example_attached)) !! id).
Proof.
  assert (He : run (orderly example_json) example_daemon (fst (dispatched #"c1" MsgAttach #"a" example_daemon))
    example_attached).
  { eapply exec_one; [|apply ds_dispatch]. intros id id' _ Hl. vm_compute in Hl. discriminate. }
  split; [exact He|]. split; [apply (bool_decide_unpack _); vm_compute; exact I|].
  exact (proj2 (proj2 (registry_of_clients_is_exact _ _ _ _ _ _ _ _ _ _ _ _ _ _ _ He
    (ds_disconnect _ _ _ _ example_attached #"c1")))).
Defined.

Lemma reattached_client_stays_behind_witness :
  known (fst (backend example_daemon)) #"a" = true ∧ known (fst (backend example_daemon)) #"b" = true ∧
  #"c1" ∈ default ∅ (attachments (snd (detachClient #"c1" (snd (dispatched #"c1" MsgAttach #"b"
    (snd (dispatched #"c1" MsgAttach #"a" example_daemon)))))) !! #"a").
Proof.
  split; [vm_compute; reflexivity|]. split; [vm_compute; reflexivity|].
  apply (reattached_client_stays_behind example_url example_json example_stamp example_stat example_daemon
    #"c1" 5 5 #"a" #"b" #"a" #"b"); first [exact example_ok|vm_compute; reflexivity|discriminate].
Defined.

(** The output of the session arrives and is flushed while the client is attached. *)
Definition example_ready : Daemon example_backend :=
  set_backend example_attached (example_output (backend example_attached) #"a" #"hello").

End Witnesses.
