(* ===== verification/DaemonLoops.v ===== *)
(** * The daemon's goroutines: [readControl], [broadcastOutput], the data-ready channel, [Stop]

    One goroutine reads the requests of each client and detaches it when its
    connection ends; one sends output, woken by the backend through a channel
    or by a ticker; all of them end with the context that [Stop] cancels. *)

From S2P Require Import Prelude Files GoStrings SessionValues Protocol Payload SessionManager DaemonTypes Daemon DaemonExample DaemonLemmas DaemonClients.

(** The goroutine of a client is at [ReadFrame], or has returned. *)
Inductive loop := Reading | Returned.

#[export] Instance loop_eq_decision : EqDecision loop.
Proof. solve_decision. Defined.

(** What the [select] of the broadcaster takes. *)
Inductive awake := CtxDone | DataReady | Ticker.

Definition dataReady_cap : nat := 256.

Section Loops.

Context {S : Type} `{Drains S}.

Context (url : bytes → option bytes) (J : Json) (stamp : time → bytes) (stat_ok : bytes → bool).

#[local] Abbreviation dstep := (dstep url J stamp stat_ok) (only parsing).
#[local] Abbreviation exec := (exec url J stamp stat_ok) (only parsing).
#[local] Abbreviation orderly := (orderly J) (only parsing).

(** [cancelled] is whether the context is done, [broadcasting] whether the
    broadcaster runs. *)
Record system := mkSystem {
  daemon : Daemon S;
  dataReady : list bytes;
  cancelled : bool;
  broadcasting : bool;
  loops : gmap bytes loop;
}.

(** The goroutines when [Start] begins to serve. *)
Definition started (d : Daemon S) : system := mkSystem d [] false true ∅.

(** The callback for new output: a send that gives up when the channel is full. *)
Definition on_data_ready (id : bytes) (ch : list bytes) : list bytes :=
  if decide (length ch < dataReady_cap) then ch ++ [id] else ch.

(** One round of [readControl], when [ReadFrame] returns [r] and the context is
    [done] or not. *)
Definition readControl (now : time) (c : bytes) (r : result Frame) (done : bool) : handler S * loop :=
  match r with
  | Err _ => (detachClient c, Returned)
  | Ok f => if done then (detachClient c, Returned) else (dispatch J stamp stat_ok now c f, Reading)
  end.

(** One round of [broadcastOutput]; [None]: the case is not ready. *)
Definition broadcastOutput (now : time) (k : awake) (ch : list bytes) (done : bool) :
    option (handler S * list bytes * bool) :=
  match k with
  | CtxDone => if done then Some (skip, ch, false) else None
  | DataReady =>
      match ch with
      | id :: ch => Some (flushSessionOutput url J now id, ch, true)
      | [] => None
      end
  | Ticker => Some (flushOutput url J now, ch, true)
  end.

(** What the round of a client is for the daemon. *)
Definition round_label (c : bytes) (r : result Frame) (done : bool) : label :=
  match r with
  | Ok f => if done then Gone c else Request c f
  | Err _ => Gone c
  end.

(** A step of a goroutine: a client connects, under an identifier that none had
    before, and its rounds; a notification; a round of the broadcaster; [Stop];
    and the daemon's callbacks, its waiters, and the backend's own steps. *)
Inductive lstep : system → label → list effect → system → Prop :=
  | l_connect d ch b br m c :
      m !! c = None → lstep (mkSystem d ch b br m) Other [] (mkSystem d ch b br (<[c := Reading]> m))
  | l_round d ch b br m c now r :
      m !! c = Some Reading →
      let h := readControl now c r b in
      lstep (mkSystem d ch b br m) (round_label c r b) (fst (fst h d))
        (mkSystem (snd (fst h d)) ch b br (<[c := snd h]> m))
  | l_ready d ch b br m id :
      lstep (mkSystem d ch b br m) Other [] (mkSystem d (on_data_ready id ch) b br m)
  | l_broadcast d ch b m now k h ch' br :
      broadcastOutput now k ch b = Some (h, ch', br) →
      lstep (mkSystem d ch b true m) Other (fst (h d)) (mkSystem (snd (h d)) ch' b br m)
  | l_stop d ch b br m : lstep (mkSystem d ch b br m) Other [] (mkSystem d ch true br m)
  | l_wait d ch b br m now p k r :
      finishWait now p k d = Some r → lstep (mkSystem d ch b br m) Other (fst r) (mkSystem (snd r) ch b br m)
  | l_exit d ch b br m now id code :
      lstep (mkSystem d ch b br m) Other (fst (onExit J now id code d)) (mkSystem (snd (onExit J now id code d)) ch b br m)
  | l_backend d ch b br m s :
      drained s = drained (backend d) → lstep (mkSystem d ch b br m) Other [] (mkSystem (set_backend d s) ch b br m).

(** A run whose states and steps satisfy [P]. *)
Inductive lexec (P : Daemon S → label → Prop) : system → list effect → system → Prop :=
  | lexec_nil s : lexec P s [] s
  | lexec_step s1 l e1 s2 e2 s3 :
      P (daemon s1) l → lstep s1 l e1 s2 → lexec P s2 e2 s3 → lexec P s1 (e1 ++ e2) s3.

(** ** Lemmas *)

Lemma set_backend_id (d : Daemon S) : set_backend d (backend d) = d.
Proof. by destruct d. Qed.

Lemma dstep_idle (d : Daemon S) : dstep d Other [] d.
Proof. rewrite <- (set_backend_id d) at 2. by apply ds_backend. Qed.

(** A step of a goroutine is a step of the daemon. *)
Lemma lstep_dstep s l e s' : lstep s l e s' → dstep (daemon s) l e (daemon s').
Proof.
  intros Hs. destruct Hs as [| d ch b br m c now r Hm h | |d ch b m now k h ch' br Hb| | | |]; cbn [daemon];
    try apply dstep_idle; try by econstructor.
  - subst h. unfold readControl, round_label. destruct r as [f|]; [destruct b|]; cbn; constructor.
  - unfold broadcastOutput in Hb. destruct k; [destruct b; [|done]|destruct ch; [done|]|]; simplify_eq; try constructor.
    apply dstep_idle.
Qed.

Lemma lexec_exec P s e s' : lexec P s e s' → exec P (daemon s) e (daemon s').
Proof. induction 1; [constructor|]. eapply exec_step; [done|by apply lstep_dstep|done]. Qed.

Lemma bstep_request b l b' c id :
  bstep J b l b' → snd b' !! c = Some id → snd b !! c = Some id ∨ ∃ f, l = Request c f.
Proof.
  intros [b0 l0 Hg|b0 c0 f id0 Hk|b0 c0 f id0 Hk|b0 c0 id0 Hk] Hl; [by left|..].
  - cbn in Hl. apply lookup_insert_Some in Hl as [[-> _]|[_ Hl]]; [right; by exists f|by left].
  - cbn in Hl. apply lookup_delete_Some in Hl as [_ Hl]. by left.
  - cbn in Hl. apply lookup_delete_Some in Hl as [_ Hl]. by left.
Qed.
(** A client that the daemon knows to be attached has a goroutine. *)
Definition attached_are_read (s : system) : Prop :=
  (∀ c id, clientSession (daemon s) !! c = Some id → loops s !! c = Some Reading) ∧ length (dataReady s) ≤ dataReady_cap.

(** The goroutines of clients: one that runs either was there or is new, and
    ends only by detaching its client. *)
Lemma lstep_loops s l e s' c :
  lstep s l e s' → loops s !! c = Some Reading → loops s' !! c = Some Reading ∨ l = Gone c.
Proof.
  intros Hs Hc. destruct Hs as [d ch b br m c0 Hn|d ch b br m c0 now r Hm h| | | | | |]; cbn [loops] in *; try by left.
  - left. destruct (decide (c = c0)) as [->|Hne]; [by rewrite lookup_insert_eq|by rewrite lookup_insert_ne].
  - destruct (decide (c = c0)) as [->|Hne]; [|left; by rewrite lookup_insert_ne].
    rewrite lookup_insert_eq. subst h. unfold readControl, round_label.
    destruct r; [destruct b|]; cbn; solve [by left|by right].
Qed.

Lemma lstep_request s c f e s' : lstep s (Request c f) e s' → loops s' !! c = Some Reading.
Proof.
  intros Hs. inversion Hs as [|d ch b br m c0 now r Hm h Heq Hl| | | | | |]; subst. cbn [loops].
  unfold round_label in Hl. destruct r as [g|]; [|done]. destruct b; [done|]. injection Hl as -> ->.
  subst h. cbn. by rewrite lookup_insert_eq.
Qed.

Lemma on_data_ready_length id ch : length ch ≤ dataReady_cap → length (on_data_ready id ch) ≤ dataReady_cap.
Proof. unfold on_data_ready. case_decide; [|done]. rewrite length_app. cbn. lia. Qed.

Lemma lstep_ready s l e s' : lstep s l e s' → length (dataReady s) ≤ dataReady_cap → length (dataReady s') ≤ dataReady_cap.
Proof.
  intros Hs Hc. destruct Hs as [| | |d ch b m now k h ch' br Hb| | | |]; cbn [dataReady] in *; try done.
  - by apply on_data_ready_length.
  - unfold broadcastOutput in Hb. destruct k; [destruct b; [|done]|destruct ch; [done|]|]; simplify_eq; cbn in *; lia.
Qed.

Lemma lstep_connected s l e s' : lstep s l e s' → attached_are_read s → attached_are_read s'.
Proof.
  intros Hs [Hc Hr]. split; [|by eapply lstep_ready]. intros c id Hl.
  destruct (dstep_cases _ _ _ _ _ _ _ _ (lstep_dstep _ _ _ _ Hs)) as [Hb _].
  destruct (bstep_request _ _ _ c id Hb Hl) as [Hl0|[f ->]]; [|by eapply lstep_request].
  apply Hc in Hl0. destruct (lstep_loops _ _ _ _ c Hs Hl0) as [Hm|Hm]; [done|]. subst l.
  pose proof (bstep_gone J _ _ _ c Hb eq_refl) as Hn. unfold books_of in Hn. cbn in Hn. congruence.
Qed.

Lemma lexec_connected P s e s' : lexec P s e s' → attached_are_read s → attached_are_read s'.
Proof. induction 1; [done|]. intros Hc. by apply IHlexec; [..|eapply lstep_connected]. Qed.

(** What [Start] does to the clients before it serves: nothing. *)
Lemma restore_one_books now dir (d : Daemon S) x : books_of (restore_one J now dir d x) = books_of d.
Proof.
  unfold restore_one. destruct (snd x); try done. destruct (RestoreCommandsForSession _ _ _ _ _ _) as [[?|] ?]; done.
Qed.

Lemma restore_books now dir (d : Daemon S) : books_of (restoreCommandHistoriesAtStartup J now dir d) = books_of d.
Proof.
  unfold restoreCommandHistoriesAtStartup. destruct (ReadDir (disk d) dir) as [l|]; [|done].
  revert d. induction l as [|x l IH]; intros d; [done|]. cbn [foldl]. by rewrite IH, restore_one_books.
Qed.

Lemma set_commands_books (d : Daemon S) svc repo own fs : books_of (set_commands d svc repo own fs) = books_of d.
Proof. done. Qed.

Lemma Start_books now (d : Daemon S) : books_of (Start J now d) = books_of d.
Proof.
  unfold Start. rewrite set_commands_books. destruct (dataDir _) as [dir|]; [|done].
  case_match; [|done]. by rewrite restore_books.
Qed.

(** *** After [Stop] *)

Lemma lstep_cancelled s l e s' :
  lstep s l e s' → cancelled s = true → cancelled s' = true ∧ ∀ c f, l ≠ Request c f.
Proof.
  intros [|d ch b br m c now r Hm h| | | | | |] Hc; cbn [cancelled] in *; try done.
  subst b. split; [done|]. intros c' f. unfold round_label. by destruct r.
Qed.

Lemma lstep_returned s l e s' c : lstep s l e s' → loops s !! c = Some Returned → loops s' !! c = Some Returned.
Proof.
  intros Hs Hc. destruct Hs as [d ch b br m c0 Hn|d ch b br m c0 now r Hm h| | | | | |]; cbn [loops] in *; try done;
    (rewrite lookup_insert_ne; [done|]; intros ->; congruence).
Qed.

Lemma bstep_attached b l b' c id :
  bstep J b l b' → (∀ f, l ≠ Request c f) → attached b' c id → attached b c id.
Proof.
  intros [b0 l0 Hg|b0 c0 f id0 Hk|b0 c0 f id0 Hk|b0 c0 id0 Hk] Hl Ha; [done|..].
  - apply (attach_books_attached url stat_ok) in Ha as [[-> ->]|Ha]; [|done]. by destruct (Hl f).
  - by apply (leave_books_attached url stat_ok) in Ha as [Ha _].
  - by apply (leave_books_attached url stat_ok) in Ha as [Ha _].
Qed.
Lemma lexec_cancelled P s e s' :
  lexec P s e s' → cancelled s = true →
  lexec (λ _ l, ∀ c f, l ≠ Request c f) s e s' ∧ cancelled s' = true ∧
  (∀ c id, attached (books_of (daemon s')) c id → attached (books_of (daemon s)) c id) ∧
  ∀ c, loops s !! c = Some Returned → loops s' !! c = Some Returned.
Proof.
  intros He. induction He as [s|s1 l e1 s2 e2 s3 Hp Hs He IH]; intros Hc; [by split_and!; [constructor|..]|].
  destruct (lstep_cancelled _ _ _ _ Hs Hc) as [Hc2 Hl]. destruct (IH Hc2) as (He2 & Hc3 & Ha & Hr).
  split_and!; [by eapply lexec_step|done| |].
  - intros c id Ha3. destruct (dstep_cases _ _ _ _ _ _ _ _ (lstep_dstep _ _ _ _ Hs)) as [Hb _].
    eapply bstep_attached; [exact Hb|by apply Hl|by apply Ha].
  - intros c Hc1. by eapply Hr, lstep_returned.
Qed.

(** ** Theorems *)


(** Once [Stop] has cancelled the context no request is handled any more,
    whatever arrives and however the goroutines interleave: the next frame or
    the end of its connection ends a client's goroutine and detaches it, those
    that have ended stay so, no client is attached to anything, and the
    broadcaster can end. *)
Theorem stopped_daemon_serves_nobody P s e s' :
  lexec P s e s' → cancelled s = true →
  lexec (λ _ l, ∀ c f, l ≠ Request c f) s e s' ∧
  (∀ c id, c ∈ default ∅ (attachments (daemon s') !! id) → c ∈ default ∅ (attachments (daemon s) !! id)) ∧
  (∀ c, loops s !! c = Some Returned → loops s' !! c = Some Returned) ∧
  (∀ now c r, readControl now c r (cancelled s') = (detachClient c, Returned)) ∧
  ∀ now, broadcastOutput now CtxDone (dataReady s') (cancelled s') = Some (skip, dataReady s', false).
Proof.
  intros He Hc. destruct (lexec_cancelled _ _ _ _ He Hc) as (He2 & -> & Ha & Hr).
  split_and!; [done|exact Ha|exact Hr|by intros now c []|done].
Qed.
End Loops.

(** ** Witnesses *)

Section Witnesses.

#[local] Abbreviation readC := (readControl example_json example_stamp example_stat) (only parsing).
#[local] Abbreviation lrun := (lexec example_url example_json example_stamp example_stat) (only parsing).

Definition example_start : Daemon example_backend := Start example_json 3 example_daemon.

Definition example_asked : handler example_backend * loop := readC 5%Z #"c1" (Ok (request MsgAttach #"a")) false.

(** A client connects and attaches to a session. *)
Lemma example_lexec (P : Daemon example_backend → label → Prop) :
  P example_start Other → P example_start (Request #"c1" (request MsgAttach #"a")) →
  lrun P (started example_start) (fst (fst example_asked example_start))
    (mkSystem (snd (fst example_asked example_start)) [] false true {[ #"c1" := Reading]}).
Proof.
  intros H1 H2. rewrite <- (app_nil_l (fst _)). eapply lexec_step; [exact H1|apply (l_connect _ _ _ _ _ _ _ _ _ #"c1"); done|].
  rewrite <- (app_nil_r (fst _)). eapply lexec_step;
    [|apply (l_round _ _ _ _ _ _ _ _ _ #"c1" 5%Z (Ok (request MsgAttach #"a"))); by rewrite lookup_insert_eq|].
  - exact H2.
  - cbn [snd readControl]. rewrite insert_insert_eq. constructor.
Qed.

Definition example_running : system :=
  mkSystem (snd (fst example_asked example_start)) [] false true {[ #"c1" := Reading]}.


(** The daemon is stopped, and the client's next request detaches it. *)
Lemma stopped_daemon_serves_nobody_witness :
  ∃ e s', lrun (λ _ _, True) (mkSystem (daemon example_running) [] true true {[ #"c1" := Reading]}) e s' ∧
    (∀ c id, c ∈ default ∅ (attachments (daemon s') !! id) → c ∈ default ∅ (attachments (daemon example_running) !! id)) ∧
    default ∅ (attachments (daemon s') !! #"a") = ∅.
Proof.
  eexists _, _.
  assert (He : lrun (λ _ _, True) (mkSystem (daemon example_running) [] true true {[ #"c1" := Reading]})
    (fst (detachClient #"c1" (daemon example_running)) ++ [])
    (mkSystem (snd (detachClient #"c1" (daemon example_running))) [] true true (<[ #"c1" := Returned]> {[ #"c1" := Reading]}))).
  { eapply lexec_step; [done| |constructor].
    apply (l_round example_url example_json example_stamp example_stat (daemon example_running) [] true true
      {[ #"c1" := Reading]} #"c1" 6%Z (Ok (request MsgList #""))). by rewrite lookup_singleton_eq. }
  split; [exact He|]. split; [|vm_compute; reflexivity].
  exact (proj1 (proj2 (stopped_daemon_serves_nobody _ _ _ _ _ _ _ _ He eq_refl))).
Defined.
End Witnesses.
