(* ===== verification/DaemonReplies.v ===== *)
(** * The replies of the daemon

    Every request but the one to wait is answered, on the connection it came
    from, before the handler returns: by one frame, or for a history by its
    chunks and an end.  A request that is refused changes nothing that a client
    can see. *)

From S2P Require Import Prelude Files GoStrings SessionValues Protocol Payload SessionManager DaemonTypes Daemon DaemonExample DaemonLemmas.
From S2P Require History Recording Commands CmdLifecycle Event Ansi Html.

#[local] Open Scope Z_scope.

(** The frames written to control channels, with their clients. *)
Definition replies (e : list effect) : list (bytes * message) :=
  omap (λ x, match x with Reply c m => Some (c, m) | _ => None end) e.

Lemma replies_app e1 e2 : replies (e1 ++ e2) = replies e1 ++ replies e2.
Proof. apply omap_app. Qed.

Section Replies.

Context {S : Type} `{SessionManagerLaws S}.

Context (J : Json) (stamp : time → bytes) (stat_ok : bytes → bool).

(** A step without replies. *)
Definition mute (d : Daemon S) (e : list effect) (d' : Daemon S) : Prop := replies e = [].

#[export] Instance mute_composes : Composes mute.
Proof.
  split; [done|]. intros d1 e1 d2 e2 d3 H1 H2. unfold mute in *. by rewrite replies_app, H1, H2.
Qed.

Lemma mute_modify f : obeys mute (modify f).
Proof. done. Qed.

Lemma mute_publish e : obeys mute (publishEvent e).
Proof. intros d. unfold publishEvent. by destruct (hasBus (config d)). Qed.

(** The sessions, and who uses them, stay as they are. *)
Definition steady (d d' : Daemon S) : Prop :=
  sm_ok (backend d) →
  quiet sm_ok (backend d) (backend d') ∧
  attachments d' = attachments d ∧ clientSession d' = clientSession d ∧ waiters d' = waiters d ∧
  recordings d' = recordings d ∧ lineCounters d' = lineCounters d.

Lemma steady_backend (d : Daemon S) s :
  (sm_ok (backend d) → quiet sm_ok (backend d) s) → steady d (set_backend d s).
Proof. intros Hq Hok. split; [by apply Hq|done]. Qed.

Lemma steady_refl (d : Daemon S) : steady d d.
Proof. intros Hok. by repeat split. Qed.

(** One reply, and nothing changes when it is an error. *)
Definition answers (c : bytes) (h : handler S) : Prop :=
  ∀ d, ∃ m, replies (fst (h d)) = [(c, m)] ∧ ∀ msg, m = MError msg → steady d (snd (h d)).

Definition accepts (c : bytes) (h : handler S) : Prop :=
  ∀ d, ∃ r, replies (fst (h d)) = [(c, MOk r)].

Lemma accepts_answers c h : accepts c h → answers c h.
Proof. intros Hh d. destruct (Hh d) as [r Hr]. by exists (MOk r). Qed.

Lemma accepts_reply c r : accepts c (reply c (MOk r)).
Proof. intros d. by exists r. Qed.

Lemma accepts_before c h k : accepts c h → obeys mute k → accepts c (h ;> k).
Proof.
  intros Hh Hk d. rewrite andThen_eq. destruct (Hh d) as [r Hr]. exists r. cbn [fst].
  rewrite replies_app, Hr, (Hk (snd (h d))). done.
Qed.

Lemma accepts_after c h k : obeys mute h → accepts c k → accepts c (h ;> k).
Proof.
  intros Hh Hk d. rewrite andThen_eq. destruct (Hk (snd (h d))) as [r Hr]. exists r. cbn [fst].
  by rewrite replies_app, Hr, (Hh d).
Qed.

Lemma accepts_call {A} c (f : S → A * S) k : (∀ a, accepts c (k a)) → accepts c (call f k).
Proof. intros Hk d. unfold call. destruct (f (backend d)) as [a s]. apply Hk. Qed.

Lemma answers_error c msg : answers c (reply c (MError msg)).
Proof. intros d. exists (MError msg). split; [done|]. intros _ _. apply steady_refl. Qed.

Lemma answers_decode {A} c (f : bytes → result A) p msg k :
  (∀ a, answers c (k a)) → answers c (decode f p c msg k).
Proof. intros Hk. unfold decode. destruct (f p); [apply Hk|apply answers_error]. Qed.

Lemma answers_query {A} c (f : S → A) k : (∀ a, answers c (k a)) → answers c (query f k).
Proof. intros Hk d. apply Hk. Qed.

(** A backend call whose refusals leave the sessions as they are. *)
Lemma answers_call {A} c (f : S → A * S) (k : A → handler S) :
  (∀ a, accepts c (k a) ∨
    (∃ msg, k a = reply c (MError msg)) ∧
    ∀ s, sm_ok s → fst (f s) = a → quiet sm_ok s (snd (f s))) →
  answers c (call f k).
Proof.
  intros Hk d. unfold call. destruct (f (backend d)) as [a s] eqn:Hf.
  destruct (Hk a) as [Ha|[[msg Hm] Hq]].
  - destruct (Ha (set_backend d s)) as [r Hr]. by exists (MOk r).
  - rewrite Hm. exists (MError msg). split; [done|]. intros _ _. apply steady_backend. intros Hok.
    specialize (Hq _ Hok). rewrite Hf in Hq. by apply Hq.
Qed.

Lemma answers_call_result c (f : S → option error * S) :
  (∀ s e, sm_ok s → fst (f s) = Some e → quiet sm_ok s (snd (f s))) →
  answers c (call f (reply_result c)).
Proof.
  intros Hf. apply answers_call. intros [e|]; [right|left; apply accepts_reply].
  split; [by eexists|]. intros s Hok. by apply Hf.
Qed.

(** Every operation of the backend that fails leaves the sessions alone. *)
Lemma failed_Kill s id e : sm_ok s → fst (sm_Kill s id) = Some e → quiet sm_ok s (snd (sm_Kill s id)).
Proof.
  intros Hok. pose proof (sm_Kill_spec s id Hok) as Hs. destruct (sm_Kill s id) as [e' s'].
  destruct Hs as (Hok' & He & Hk). cbn. intros ->. split; [done|]. intros id'. rewrite Hk.
  destruct (decide (id' = id)) as [->|Hne].
  - destruct (known s id) eqn:Hkn; [|done]. discriminate (proj2 He eq_refl).
  - rewrite bool_decide_eq_false_2 by done. apply andb_true_r.
Qed.

Lemma failed_Create s id o e :
  sm_ok s → fst (sm_Create s id o) = Err e → quiet sm_ok s (snd (sm_Create s id o)).
Proof.
  intros Hok. pose proof (sm_Create_spec s id o Hok) as Hs. destruct (sm_Create s id o) as [r s'].
  destruct Hs as [Hok' Hr]. cbn. intros ->. by split.
Qed.

Lemma quiet_WriteInput s id data : sm_ok s → quiet sm_ok s (snd (sm_WriteInput s id data)).
Proof. intros Hok. pose proof (sm_WriteInput_spec s id data Hok) as Hs. destruct (sm_WriteInput s id data). apply Hs. Qed.

Lemma quiet_Resize s id cols rows : sm_ok s → quiet sm_ok s (snd (sm_Resize s id cols rows)).
Proof. intros Hok. pose proof (sm_Resize_spec s id cols rows Hok) as Hs. destruct (sm_Resize s id cols rows). apply Hs. Qed.

Lemma quiet_Attach s id : sm_ok s → quiet sm_ok s (snd (sm_Attach s id)).
Proof. intros Hok. pose proof (sm_Attach_spec s id Hok) as Hs. destruct (sm_Attach s id). apply Hs. Qed.

Lemma quiet_MetaSet s id k v : sm_ok s → quiet sm_ok s (snd (sm_MetaSet s id k v)).
Proof. intros Hok. pose proof (sm_MetaSet_spec s id k v Hok) as Hs. destruct (sm_MetaSet s id k v). apply Hs. Qed.

Lemma quiet_UpdateScrollback s id n : sm_ok s → quiet sm_ok s (snd (sm_UpdateEmulatorScrollback s id n)).
Proof.
  intros Hok. pose proof (sm_UpdateEmulatorScrollback_spec s id n Hok) as Hs.
  destruct (sm_UpdateEmulatorScrollback s id n). apply Hs.
Qed.

(** ** The handlers *)

Lemma answers_handleCreate now c p : answers c (handleCreate J now c p).
Proof.
  apply answers_decode. intros req. apply answers_call. intros [info|e].
  - left. apply accepts_after; [apply mute_modify|]. apply accepts_after; [apply mute_modify|].
    apply accepts_before; [apply accepts_reply|apply mute_publish].
  - right. split; [by eexists|]. intros s Hok. by apply failed_Create.
Qed.

Lemma answers_handleAttach c p : answers c (handleAttach J c p).
Proof.
  apply answers_decode. intros req. apply answers_query. intros [info|e]; [|apply answers_error].
  apply answers_call. intros [e|].
  - right. split; [by eexists|]. intros s Hok _. by apply quiet_Attach.
  - left. apply accepts_after; [apply mute_modify|].
    apply accepts_before; [by intros d; eexists|apply mute_publish].
Qed.

Lemma mute_leave c id : obeys mute (leave c id).
Proof.
  intros d. unfold leave. destruct (drop_client c id (attachments d)) as [a []]; [|done].
  unfold call. destruct (sm_Detach _ id). apply mute_publish.
Qed.

Lemma answers_handleRecord now c p : answers c (handleRecord J stamp now c p).
Proof.
  apply answers_decode. intros req. case_decide; [|case_decide; [|apply answers_error]].
  - intros d. unfold recordStart. repeat case_match; try (eexists; split; [done|]); intros; simplify_eq;
      first [apply steady_refl | by intros Hok; repeat split].
  - intros d. unfold recordStop. repeat case_match; (eexists; split; [done|]); intros; simplify_eq.
    apply steady_refl.
Qed.

Lemma answers_handleSubscribe c p : answers c (handleSubscribe J c p).
Proof.
  intros d. unfold handleSubscribe. destruct (negb _); [by apply answers_error|].
  case_decide; [by exists (MOk None)|]. unfold decode. destruct (json_EventSubscribe J p).
  - by exists (MOk None).
  - by apply answers_error.
Qed.

Lemma mute_each {A} (h : A → handler S) l : (∀ x, obeys mute (h x)) → obeys mute (each h l).
Proof. intros Hh. apply obeys_each; [apply _|]. intros x _. apply Hh. Qed.

Lemma accepts_handleEnvForward c p : answers c (handleEnvForward J stat_ok c p).
Proof.
  apply answers_decode. intros req d. destruct (dataDir (config d)) as [dir|]; [|by exists (MOk None)].
  cbv zeta. refine ((_ : answers c (_ ;> _)) d).
  apply accepts_answers, accepts_after; [done|]. apply accepts_after; [by apply mute_each; intros []|].
  apply accepts_after; [by case_decide|]. apply accepts_reply.
Qed.

Lemma answers_dispatch now c f :
  Type_ f ≠ MsgWait → Type_ f ≠ MsgHistory → answers c (dispatch J stamp stat_ok now c f).
Proof.
  intros Hw Hh. unfold dispatch. rewrite (decide_False (P := Type_ f = MsgWait)) by done.
  rewrite (decide_False (P := Type_ f = MsgHistory)) by done.
  repeat (case_decide; [|]); try apply answers_error.
  - apply answers_handleCreate.
  - apply answers_query. intros l. apply accepts_answers, accepts_reply.
  - apply answers_decode. intros req. apply answers_query. intros [i|e]; [apply accepts_answers, accepts_reply|apply answers_error].
  - apply answers_decode. intros req. apply answers_call_result. intros s e. apply failed_Kill.
  - apply answers_decode. intros req. apply answers_call_result. intros s e Hok _. by apply quiet_Resize.
  - unfold handleInput. destruct (DecodeInputPayload _) as [[id data]|]; [|apply answers_error].
    apply answers_call_result. intros s e Hok _. by apply quiet_WriteInput.
  - apply answers_handleAttach.
  - apply answers_decode. intros req. apply accepts_answers, accepts_after; [apply mute_leave|apply accepts_reply].
  - apply accepts_answers, accepts_before; [apply accepts_reply|done].
  - apply answers_handleSubscribe.
  - intros d. by eexists.
  - apply answers_decode. intros req. apply answers_call_result. intros s e Hok _. by apply quiet_MetaSet.
  - apply answers_decode. intros req. case_decide; apply answers_query; intros [i|e];
      [apply accepts_answers, accepts_reply|apply answers_error|apply accepts_answers, accepts_reply|apply answers_error].
  - apply accepts_handleEnvForward.
  - apply answers_decode. intros req. apply answers_call_result. intros s e Hok _. by apply quiet_WriteInput.
  - apply answers_decode. intros req. destruct (_ && _); [apply answers_error|]. apply answers_query. intros l.
    case_decide; [apply answers_error|]. apply accepts_answers, accepts_call. intros rs. apply accepts_reply.
  - apply answers_handleRecord.
  - apply answers_decode. intros req. case_decide; [apply answers_error|]. apply answers_query. intros l.
    case_decide; [apply answers_error|]. apply accepts_answers, accepts_call. intros rs. apply accepts_reply.
  - apply answers_decode. intros req. apply answers_call_result. intros s e Hok _. by apply quiet_UpdateScrollback.
Qed.

(** What a request to wait does before its goroutine blocks. *)
Lemma handleWait_cases now c p (d : Daemon S) :
  (∃ msg, replies (fst (handleWait J now c p d)) = [(c, MError msg)] ∧ snd (handleWait J now c p d) = d) ∨
  (∃ req, json_Wait J p = Ok req ∧ known (backend d) (wq_SessionID req) = true ∧
    wq_Mode req ∈ [ #"exit"; #"idle"; #"match"] ∧
    handleWait J now c p d = ([], addWaiter (new_waiter now c req) d)).
Proof.
  unfold handleWait, decode. destruct (json_Wait J p) as [req|e]; [|left; by eexists].
  unfold query, known. destruct (sm_Get (backend d) (wq_SessionID req)) as [i|e] eqn:Hg; [|left; by eexists].
  case_decide; [right|left; by eexists]. exists req. rewrite Hg. by split_and!.
Qed.

(** The chunks of a dump are its pieces, in order, none of them empty or longer
    than a mebibyte. *)
Lemma chunks_spec n data :
  (length data <= n)%nat →
  concat (chunks n data) = data ∧
  Forall (λ ch, ch ≠ [] ∧ Z.of_nat (length ch) <= chunkSize) (chunks n data).
Proof.
  assert (Hc : ∃ k, Z.to_nat chunkSize = Datatypes.S k ∧ chunkSize = Z.of_nat (Datatypes.S k)).
  { exists (Z.to_nat (chunkSize - 1)). unfold chunkSize. lia. }
  destruct Hc as (k & Hk & HZ). revert data. induction n as [|n IH]; intros data Hl.
  - by destruct data; [|cbn in Hl; lia].
  - destruct data as [|b data]; [done|]. cbn [chunks]. rewrite Hk, HZ in *.
    destruct (IH (drop (Datatypes.S k) (b :: data))) as [IH1 IH2]; [rewrite length_drop; cbn in *; lia|].
    split; [cbn [concat]; by rewrite IH1, take_drop|]. constructor; [|done].
    split; [done|]. rewrite length_take. lia.
Qed.

Lemma replies_chunks c l (d : Daemon S) :
  replies (fst (each (λ ch, reply c (MHistory ch)) l d)) = (λ ch, (c, MHistory ch)) <$> l ∧
  snd (each (λ ch, reply c (MHistory ch)) l d) = d.
Proof.
  induction l as [|ch l [IH1 IH2]]; [done|]. cbn [each]. rewrite andThen_eq. cbn [reply emit fst snd].
  rewrite replies_app, IH1. done.
Qed.

Lemma handleHistory_cases c p (d : Daemon S) :
  snd (handleHistory J c p d) = d ∧
  ((∃ msg, replies (fst (handleHistory J c p d)) = [(c, MError msg)]) ∨
   (∃ req replay, json_History J p = Ok req ∧ hr_Format req ∈ [ #"ansi"; #"text"; #"html"] ∧
     sm_Snapshot (backend d) (hr_SessionID req) = Ok replay ∧
     let data := limited (maxHistoryDumpSize (config d)) (rendered (hr_Format req) replay) in
     replies (fst (handleHistory J c p d)) =
       ((λ ch, (c, MHistory ch)) <$> chunks (length data) data) ++ [(c, MHistoryEnd)])).
Proof.
  unfold handleHistory, decode. destruct (json_History J p) as [req|e]; [|split; [done|left; by eexists]].
  case_decide; [|split; [done|left; by eexists]].
  destruct (sm_Snapshot (backend d) (hr_SessionID req)) as [replay|e] eqn:Hs; [|split; [done|left; by eexists]].
  rewrite !andThen_eq. cbn [reply emit fst snd].
  set (data := limited _ _). destruct (replies_chunks c (chunks (length data) data) d) as [Hr Hd].
  split; [exact Hd|]. right. exists req, replay. split_and!; [done..|]. cbv zeta. fold data.
  rewrite replies_app. by rewrite <- Hr.
Qed.

(** ** Theorems *)

(** C5: every request is answered on the connection it came from and on no
    other.  A request that is neither to wait nor for a history gets exactly
    one frame, and when that is an error the sessions, the attachments, the
    waiters, the recordings and the row counters are as before.  A request to
    wait is refused with nothing changed, or silently adds one waiter of that
    client.  A request for a history is refused, or answered by chunks and one
    end, with nothing changed. *)
Theorem every_request_is_answered now c f d :
  sm_ok (backend d) →
  let e := fst (dispatch J stamp stat_ok now c f d) in
  let d' := snd (dispatch J stamp stat_ok now c f d) in
  (Type_ f ≠ MsgWait → Type_ f ≠ MsgHistory →
    ∃ m, replies e = [(c, m)] ∧
      ∀ msg, m = MError msg →
        quiet sm_ok (backend d) (backend d') ∧
        attachments d' = attachments d ∧ clientSession d' = clientSession d ∧ waiters d' = waiters d ∧
        recordings d' = recordings d ∧ lineCounters d' = lineCounters d) ∧
  (Type_ f = MsgWait →
    (∃ msg, replies e = [(c, MError msg)] ∧ d' = d) ∨
    replies e = [] ∧ ∃ w, w_client w = c ∧ d' = addWaiter w d) ∧
  (Type_ f = MsgHistory →
    d' = d ∧
    ((∃ msg, replies e = [(c, MError msg)]) ∨
     ∃ l, replies e = ((λ ch, (c, MHistory ch)) <$> l) ++ [(c, MHistoryEnd)])).
Proof.
  intros Hok. cbv zeta. split; [|split].
  - intros Hw Hh. destruct (answers_dispatch now c f Hw Hh d) as (m & Hm & Hs).
    exists m. split; [done|]. intros msg Hmsg. by apply (Hs msg).
  - intros Hw. assert (Heq : dispatch J stamp stat_ok now c f = handleWait J now c (Payload f))
      by (unfold dispatch; by rewrite Hw).
    rewrite Heq. destruct (handleWait_cases now c (Payload f) d) as [?|(req & _ & _ & _ & Hd)]; [by left|].
    right. rewrite Hd. split; [done|]. eexists. split; [|done]. unfold new_waiter. by repeat case_decide.
  - intros Hh. assert (Heq : dispatch J stamp stat_ok now c f = handleHistory J c (Payload f))
      by (unfold dispatch; by rewrite Hh).
    rewrite Heq. destruct (handleHistory_cases c (Payload f) d) as [Hd [?|(req & replay & _ & _ & _ & Hr)]].
    + split; [done|by left].
    + split; [done|]. right. by eexists.
Qed.
End Replies.

(** ** Witnesses *)

Section Witnesses.

Lemma every_request_is_answered_witness :
  sm_ok (backend example_daemon) ∧
  ∃ msg, replies (fst (dispatch example_json example_stamp example_stat 5 #"c1" (request MsgKill #"none")
      example_daemon)) = [(#"c1", MError msg)] ∧
    known (backend (snd (dispatch example_json example_stamp example_stat 5 #"c1" (request MsgKill #"none")
      example_daemon))) #"a" = true.
Proof.
  split; [exact example_ok|].
  destruct (every_request_is_answered example_json example_stamp example_stat 5 #"c1"
    (request MsgKill #"none") example_daemon example_ok) as [Hone _].
  destruct (Hone ltac:(discriminate) ltac:(discriminate)) as (m & Hm & Hs).
  destruct m as [r|msg| |]; [vm_compute in Hm; discriminate| |vm_compute in Hm; discriminate..].
  exists msg. split; [exact Hm|]. destruct (Hs msg eq_refl) as [[_ Hk] _]. rewrite Hk. vm_compute. reflexivity.
Defined.
End Witnesses.
