(* ===== verification/DaemonWaiters.v ===== *)
(** * The waiters of the daemon

    Clients that wait for a session to exit, to be idle or to print a pattern:
    that the lists of waiters and the waiters themselves agree, that what woke
    a waiter up is not lost, and that none disappears without its reply. *)

From S2P Require Import Prelude Files GoStrings SessionValues Protocol Payload SessionManager DaemonTypes Daemon DaemonExample DaemonLemmas DaemonFrame DaemonClients DaemonReplies.
From S2P Require History Recording Commands CmdLifecycle Event Osc.

#[local] Open Scope Z_scope.

(** A waiter has the timer of its mode, and what it was sent is about its own
    session and mode. *)
Definition good (w : waiter) : Prop :=
  w_mode w ∈ [ #"exit"; #"idle"; #"match"] ∧
  (is_Some (w_idle w) ↔ w_mode w = #"idle") ∧
  ∀ r, w_done w = Some r → wr_SessionID r = w_session w ∧ wr_Mode r = w_mode w ∧ wr_TimedOut r = false.

(** How a waiter changes while it waits. *)
Definition evolves (w w' : waiter) : Prop :=
  w_client w' = w_client w ∧ w_session w' = w_session w ∧ w_mode w' = w_mode w ∧
  w_pattern w' = w_pattern w ∧ w_timeout w' = w_timeout w ∧
  ∀ r, w_done w = Some r → w_done w' = Some r.

#[export] Instance evolves_preorder : PreOrder evolves.
Proof.
  split; [intros w; unfold evolves; naive_solver|].
  intros w1 w2 w3 (H1 & H2 & H3 & H4 & H5 & H6) (H7 & H8 & H9 & H10 & H11 & H12).
  unfold evolves. split_and!; [congruence..|]. eauto.
Qed.

Lemma deliver_evolves r w : evolves w (deliver r w).
Proof. unfold deliver, evolves. destruct (w_done w) eqn:Hd; naive_solver. Qed.

Lemma deliver_mode r w : w_mode (deliver r w) = w_mode w.
Proof. unfold deliver. by destruct (w_done w). Qed.

Lemma deliver_done r w : w_done (deliver r w) = Some (default r (w_done w)).
Proof. unfold deliver. by destruct (w_done w) eqn:Hd. Qed.

Lemma reset_idle_evolves now w : evolves w (reset_idle now w).
Proof. unfold reset_idle, evolves. destruct (w_idle w); naive_solver. Qed.

Lemma deliver_good r w :
  wr_SessionID r = w_session w → wr_Mode r = w_mode w → wr_TimedOut r = false → good w → good (deliver r w).
Proof.
  intros H1 H2 H3 (H4 & H5 & H6). unfold deliver. unfold good. destruct (w_done w) eqn:Hd; [naive_solver|].
  cbn. split_and!; [done..|]. by intros r' [= <-].
Qed.

Lemma reset_idle_good now w : good w → good (reset_idle now w).
Proof.
  intros (H1 & H2 & H3). unfold reset_idle, good. destruct (w_idle w) eqn:Hd; [|by rewrite Hd].
  cbn. split_and!; [done| |done]. rewrite <- H2. by split; intros _; eexists.
Qed.

Lemma foldl_alter {A} (f : A → A) l (st : gmap nat A) p :
  NoDup l → foldl (λ st p, alter f p st) st l !! p = if decide (p ∈ l) then f <$> st !! p else st !! p.
Proof.
  intros Hn. revert st. induction Hn as [|q l Hq Hn IH]; intros st; cbn [foldl]; [by case_decide; [set_solver|]|].
  rewrite IH. destruct (decide (p = q)) as [->|Hne].
  - rewrite decide_False, decide_True by (done || by left). apply lookup_alter_eq.
  - rewrite lookup_alter_ne by done. repeat case_decide; set_solver.
Qed.

Lemma new_waiter_good now c req : wq_Mode req ∈ [ #"exit"; #"idle"; #"match"] → good (new_waiter now c req).
Proof.
  intros Hm. unfold new_waiter, good. repeat case_decide; cbn; split_and!; try done; try set_solver.
  all: split; [by intros []|done].
Qed.

Section Waiters.

Context {S : Type} `{SessionManagerLaws S} `{!Drains S}.

Context (url : bytes → option bytes) (J : Json) (stamp : time → bytes) (stat_ok : bytes → bool).

(** The list of a session holds its waiters, each once. *)
Definition wf (d : Daemon S) : Prop :=
  (∀ id p, p ∈ default [] (waiters d !! id) ↔ ∃ w, waiterStore d !! p = Some w ∧ w_session w = id) ∧
  (∀ id, NoDup (default [] (waiters d !! id))) ∧
  (∀ p w, waiterStore d !! p = Some w → (p < nextWaiter d)%nat ∧ good w).

(** No waiter comes or goes. *)
Definition tended (d : Daemon S) (e : list effect) (d' : Daemon S) : Prop :=
  wf d → wf d' ∧ waiters d' = waiters d ∧ nextWaiter d' = nextWaiter d ∧
  ∀ p w, waiterStore d !! p = Some w → ∃ w', waiterStore d' !! p = Some w' ∧ evolves w w'.

#[export] Instance tended_composes : Composes tended.
Proof.
  split; [intros d Hd; split_and!; [done..|]; intros p w Hp; by exists w|].
  intros d1 e1 d2 e2 d3 H1 H2 Hw1. destruct (H1 Hw1) as (Hw2 & Ha & Hb & Hc).
  destruct (H2 Hw2) as (Hw3 & Hd & He & Hf). split_and!; [done|congruence..|].
  intros p w Hp. destruct (Hc _ _ Hp) as (w' & Hp' & Hev). destruct (Hf _ _ Hp') as (w'' & Hp'' & Hev').
  exists w''. split; [done|]. by transitivity w'.
Qed.

(** The waiters are not touched. *)
Definition untouched (d d' : Daemon S) : Prop :=
  waiters d' = waiters d ∧ waiterStore d' = waiterStore d ∧ nextWaiter d' = nextWaiter d.

Lemma tended_untouched d e d' : untouched d d' → tended d e d'.
Proof.
  intros (H1 & H2 & H3) Hw. unfold wf. rewrite H1, H2, H3. split_and!; [apply Hw..|done|done|].
  intros p w Hp. by exists w.
Qed.

(** What a notification does to each waiter of a session. *)
Lemma tended_notify id f (d : Daemon S) e :
  (∀ w, w_session w = id → good w → good (f w) ∧ evolves w (f w)) → tended d e (notify id f d).
Proof.
  intros Hf (H1 & H2 & H3). unfold notify.
  assert (Hl : ∀ p, waiterStore (notify id f d) !! p =
    if decide (p ∈ default [] (waiters d !! id)) then f <$> waiterStore d !! p else waiterStore d !! p)
    by (intros p; by apply foldl_alter).
  assert (Hw : ∀ p w, waiterStore d !! p = Some w →
    ∃ w', waiterStore (notify id f d) !! p = Some w' ∧ evolves w w' ∧ good w').
  { intros p w Hp. rewrite Hl, Hp. destruct (H3 _ _ Hp) as [_ Hg]. case_decide as Hin.
    - apply H1 in Hin as (w' & Hp' & Hs). simplify_eq. exists (f w). destruct (Hf w) as [? ?]; done.
    - by exists w. }
  assert (Hw' : ∀ p w', waiterStore (notify id f d) !! p = Some w' →
    ∃ w, waiterStore d !! p = Some w ∧ evolves w w' ∧ good w').
  { intros p w' Hp. destruct (waiterStore d !! p) as [w|] eqn:Hd.
    - destruct (Hw _ _ Hd) as (w2 & Hp2 & ?). simplify_eq. by exists w.
    - rewrite Hl, Hd in Hp. by case_decide. }
  fold (notify id f d). split_and!; [split_and!|done|done|].
  - intros id' p. cbn [notify set_waiters waiters]. rewrite H1. split.
    + intros (w & Hp & <-). destruct (Hw _ _ Hp) as (w' & Hp' & Hev & _). exists w'. split; [done|apply Hev].
    + intros (w' & Hp' & <-). destruct (Hw' _ _ Hp') as (w & Hp & Hev & _). exists w. split; [done|]. symmetry. apply Hev.
  - apply H2.
  - intros p w' Hp'. destruct (Hw' _ _ Hp') as (w & Hp & _ & Hg). split; [by apply (H3 p w)|done].
  - intros p w Hp. destruct (Hw _ _ Hp) as (w' & Hp' & Hev & _). by exists w'.
Qed.

Lemma tended_exit id code (d : Daemon S) e : tended d e (notifyExitWaiters id code d).
Proof.
  apply tended_notify. intros w Hs Hg. case_decide as Hm; [|done].
  split; [by apply deliver_good|apply deliver_evolves].
Qed.

Lemma tended_non_exit id code (d : Daemon S) e : tended d e (notifyExitOnNonExitWaiters id code d).
Proof.
  apply tended_notify. intros w Hs Hg. case_decide as Hm; [|done].
  split; [by apply deliver_good|apply deliver_evolves].
Qed.

Lemma tended_output now id data (d : Daemon S) e : tended d e (notifyOutputWaiters now id data d).
Proof.
  apply tended_notify. intros w Hs Hg. case_decide as Hm; [|case_decide; [|done]].
  - destruct (contains data (w_pattern w)); [|done].
    split; [by apply deliver_good|apply deliver_evolves].
  - split; [by apply reset_idle_good|apply reset_idle_evolves].
Qed.

Lemma untouched_start id (d : Daemon S) : untouched d (start_commands id d).
Proof. done. Qed.

Lemma untouched_save id st (d : Daemon S) : untouched d (save_commands id st d).
Proof. unfold save_commands. by case_match. Qed.

Lemma untouched_close now id (d : Daemon S) : untouched d (close_commands J now id d).
Proof. unfold close_commands. by repeat case_match. Qed.

#[export] Instance tended_frame : StepFrame J tended.
Proof.
  split; try apply _; intros; try by apply tended_untouched.
  - apply tended_untouched, untouched_save.
  - apply tended_untouched, untouched_close.
  - apply tended_exit.
  - apply tended_non_exit.
  - apply tended_output.
Qed.

(** ** Waiters that come and go *)

Lemma wf_new cfg s svc repo own fs : wf (NewDaemon cfg s svc repo own fs).
Proof.
  split_and!.
  - intros id p. cbn. rewrite lookup_empty. cbn. split; [set_solver|]. intros (w & Hw & _).
    by rewrite lookup_empty in Hw.
  - intros id. cbn. rewrite lookup_empty. constructor.
  - intros p w Hw. cbn in Hw. by rewrite lookup_empty in Hw.
Qed.

Lemma wf_add w (d : Daemon S) : wf d → good w → wf (addWaiter w d).
Proof.
  intros (H1 & H2 & H3) Hg.
  assert (Hfresh : waiterStore d !! nextWaiter d = None).
  { destruct (waiterStore d !! nextWaiter d) as [w'|] eqn:Hn; [|done]. apply H3 in Hn. lia. }
  assert (Hnot : ∀ id, nextWaiter d ∉ default [] (waiters d !! id)).
  { intros id (w' & Hw & _)%H1. congruence. }
  unfold addWaiter. split_and!; cbn [set_waiters waiters waiterStore nextWaiter].
  - intros id p. destruct (decide (id = w_session w)) as [->|Hid].
    + rewrite lookup_insert_eq. cbn. rewrite elem_of_app, H1, list_elem_of_singleton. split.
      * intros [(w' & Hw & Hs)|Hx]; [|subst p; exists w; by rewrite lookup_insert_eq].
        exists w'. split; [|done]. rewrite lookup_insert_ne; [done|]. congruence.
      * intros (w' & [[<- <-]|[_ Hw]]%lookup_insert_Some & Hs); [by right|]. left. by exists w'.
    + rewrite lookup_insert_ne by done. rewrite H1. split.
      * intros (w' & Hw & Hs). exists w'. split; [|done]. rewrite lookup_insert_ne; [done|]. congruence.
      * intros (w' & [[<- <-]|[_ Hw]]%lookup_insert_Some & Hs); [done|]. by exists w'.
  - intros id. destruct (decide (id = w_session w)) as [->|Hid].
    + rewrite lookup_insert_eq. cbn. apply NoDup_app. split_and!; [apply H2| |apply NoDup_singleton].
      intros p Hp ->%list_elem_of_singleton. by apply Hnot in Hp.
    + rewrite lookup_insert_ne by done. apply H2.
  - intros p w' [[<- <-]|[_ Hw]]%lookup_insert_Some; [split; [lia|done]|].
    apply H3 in Hw as [? ?]. split; [lia|done].
Qed.

(** The list without the pointer that is found. *)
Lemma cut_spec (ws : list nat) p i q :
  list_find (λ q, q = p) ws = Some (i, q) → NoDup ws →
  NoDup (take i ws ++ drop (i + 1) ws) ∧ ∀ x, x ∈ take i ws ++ drop (i + 1) ws ↔ x ∈ ws ∧ x ≠ p.
Proof.
  intros (Hi & -> & _)%list_find_Some Hn. rewrite Nat.add_1_r, <- delete_take_drop.
  split; [by eapply sublist_NoDup, sublist_delete|].
  pose proof (take_drop_middle _ _ _ Hi) as Heq. rewrite delete_take_drop. rewrite <- Heq in Hn.
  apply NoDup_app in Hn as (Hn1 & Hn2 & [Hn3 Hn4]%NoDup_cons). intros x. rewrite <- Heq at 3.
  rewrite !elem_of_app, elem_of_cons. split.
  - intros [Hx|Hx]; (split; [tauto|]); intros ->; [apply (Hn2 _ Hx); by left|done].
  - tauto.
Qed.

Lemma wf_remove p w (d : Daemon S) :
  wf d → waiterStore d !! p = Some w →
  wf (removeWaiter p w d) ∧ waiterStore (removeWaiter p w d) = delete p (waiterStore d).
Proof.
  intros (H1 & H2 & H3) Hp. split; [|done].
  assert (Hin : p ∈ default [] (waiters d !! w_session w)) by (apply H1; by exists w).
  unfold removeWaiter. destruct (list_find (λ q, q = p) (default [] (waiters d !! w_session w))) as [[i q]|] eqn:Hf.
  - destruct (cut_spec _ _ _ _ Hf (H2 _)) as [Hn Hx].
    split_and!; cbn [set_waiters waiters waiterStore nextWaiter].
    + intros id x. destruct (decide (id = w_session w)) as [->|Hid].
      * rewrite lookup_insert_eq. cbn [default]. rewrite Hx, H1. split.
        -- intros [(w' & Hw & Hs) Hne]. exists w'. split; [|done]. by rewrite lookup_delete_ne.
        -- intros (w' & [Hne Hw]%lookup_delete_Some & Hs). split; [by exists w'|done].
      * rewrite lookup_insert_ne by done. rewrite H1. split.
        -- intros (w' & Hw & Hs). exists w'. split; [|done]. rewrite lookup_delete_ne; [done|]. congruence.
        -- intros (w' & [Hne Hw]%lookup_delete_Some & Hs). by exists w'.
    + intros id. destruct (decide (id = w_session w)) as [->|Hid];
        [by rewrite lookup_insert_eq|rewrite lookup_insert_ne by done; apply H2].
    + intros x w' [_ Hw]%lookup_delete_Some. by apply H3.
  - apply list_find_None in Hf. rewrite Forall_forall in Hf. by destruct (Hf p Hin).
Qed.

(** The frame that answers a waiter. *)
Definition answer_of (w : waiter) (r : WaitResponse) : bytes * message := (w_client w, MOk (Some (RWait r))).

Lemma finishWait_spec now p k (d : Daemon S) res :
  wf d → finishWait now p k d = Some res →
  ∃ w r, waiterStore d !! p = Some w ∧ wake_response now k w = Some r ∧
    replies (fst res) = [answer_of w r] ∧ snd res = removeWaiter p w d ∧
    wr_SessionID r = w_session w ∧ wr_Mode r = w_mode w.
Proof.
  intros (_ & _ & H3). unfold finishWait. destruct (waiterStore d !! p) as [w|] eqn:Hp; [|done]. cbn.
  destruct (wake_response now k w) as [r|] eqn:Hr; [|done]. intros [= <-].
  destruct (H3 _ _ Hp) as [_ (Hm & Hi & Hd)]. exists w, r. split_and!; try done.
  - destruct k; cbn in Hr; [by apply (Hd _ Hr)|by repeat case_match; simplify_eq..].
  - destruct k; cbn in Hr; [by apply (Hd _ Hr)| |by repeat case_match; simplify_eq].
    destruct (w_idle w) as [t|]; [|done]. cbn in Hr. case_bool_decide; [|done]. simplify_eq. cbn.
    symmetry. apply Hi. by eexists.
Qed.

(** A waiter goes on waiting, or is answered and gone. *)
Lemma dstep_waiters d l e d' :
  dstep url J stamp stat_ok d l e d' → wf d →
  wf d' ∧ ∀ p w, waiterStore d !! p = Some w →
    (∃ w', waiterStore d' !! p = Some w' ∧ evolves w w') ∨
    ∃ r, answer_of w r ∈ replies e ∧ wr_SessionID r = w_session w ∧ wr_Mode r = w_mode w.
Proof.
  assert (Htend : tended d e d' → wf d →
    wf d' ∧ ∀ p w, waiterStore d !! p = Some w →
    (∃ w', waiterStore d' !! p = Some w' ∧ evolves w w') ∨
    ∃ r, answer_of w r ∈ replies e ∧ wr_SessionID r = w_session w ∧ wr_Mode r = w_mode w).
  { intros Ht Hw. destruct (Ht Hw) as (Hw' & _ & _ & Hp). split; [done|]. intros p w Hpw. left. by apply Hp. }
  intros Hs Hw. destruct Hs as [d now c f|d c|d now|d now id|d now p k res Hf|d now id code|d s Hs].
  - destruct (decide (Type_ f = MsgWait)) as [Ht|Ht]; [|by apply Htend; [apply (frame_dispatch J stamp stat_ok tended)|]].
    assert (Heq : dispatch J stamp stat_ok now c f = handleWait J now c (Payload f))
      by (unfold dispatch; by rewrite Ht).
    rewrite Heq. destruct (handleWait_cases J now c (Payload f) d) as [(msg & _ & Hd)|(req & _ & _ & Hm & Hd)];
      rewrite Hd; [split; [done|]; intros p w Hp; left; by exists w|].
    assert (Hg : good (new_waiter now c req)) by by apply new_waiter_good.
    split; [by apply wf_add|]. intros p w Hp. left. exists w. split; [|done]. cbn.
    rewrite lookup_insert_ne; [done|]. intros <-. apply Hw in Hp. lia.
  - apply Htend; [apply (frame_detachClient J tended)|done].
  - apply Htend; [apply (frame_flushOutput url J tended)|done].
  - apply Htend; [apply (frame_flushSession url J tended)|done].
  - destruct (finishWait_spec _ _ _ _ _ Hw Hf) as (w & r & Hp & _ & Hr & Hd & Hid & Hm).
    rewrite Hd, Hr. destruct (wf_remove p w d Hw Hp) as [Hw' Hst]. split; [done|]. rewrite Hst.
    intros p' w' Hp'. destruct (decide (p' = p)) as [->|Hne].
    + right. exists r. simplify_eq. split_and!; [by left|done..].
    + left. exists w'. by rewrite lookup_delete_ne.
  - apply Htend; [apply (frame_onExit J tended)|done].
  - apply Htend; [by apply tended_untouched|done].
Qed.

Lemma exec_waiters P d e d' :
  exec url J stamp stat_ok P d e d' → wf d →
  wf d' ∧ ∀ p w, waiterStore d !! p = Some w →
    (∃ w', waiterStore d' !! p = Some w' ∧ evolves w w') ∨
    ∃ r, answer_of w r ∈ replies e ∧ wr_SessionID r = w_session w ∧ wr_Mode r = w_mode w.
Proof.
  intros He. induction He as [d|d1 l e1 d2 e2 d3 Hp Hs He IH]; intros Hw.
  { split; [done|]. intros p w Hpw. left. by exists w. }
  destruct (dstep_waiters _ _ _ _ Hs Hw) as [Hw2 H1]. destruct (IH Hw2) as [Hw3 H2]. split; [done|].
  intros p w Hpw. destruct (H1 _ _ Hpw) as [(w' & Hpw' & Hev)|(r & Hr & ?)].
  - destruct (H2 _ _ Hpw') as [(w'' & Hpw'' & Hev')|(r & Hr & Hid & Hm)].
    + left. exists w''. split; [done|]. by transitivity w'.
    + right. exists r. destruct Hev as (E1 & E2 & E3 & _). rewrite replies_app, elem_of_app.
      unfold answer_of in *. rewrite E1 in Hr. split_and!; [by right|congruence..].
  - right. exists r. rewrite replies_app, elem_of_app. split; [by left|done].
Qed.

(** ** Theorems *)

(** A session that exits wakes up its waiters. *)
Lemma onExit_store now id code (d : Daemon S) :
  waiterStore (snd (onExit J now id code d)) =
    waiterStore (notifyExitOnNonExitWaiters id code (notifyExitWaiters id code d)).
Proof.
  assert (Hm : ∀ (f : Daemon S → Daemon S) k d, (∀ d, waiterStore (f d) = waiterStore d) →
    (∀ d, waiterStore (snd (k d)) = waiterStore d) →
    waiterStore (snd ((modify f ;> k) d)) = waiterStore d).
  { intros f k d0 Hf Hk. rewrite andThen_eq. cbn. by rewrite Hk, Hf. }
  unfold onExit. rewrite 2 andThen_eq. cbn [modify fst snd].
  repeat (apply Hm; [intros ?|intros ?]); try done.
  - unfold persistSessionExit. by repeat case_match.
  - by repeat case_match.
Qed.

Lemma onExit_wakes now code (d : Daemon S) p w :
  wf d → waiterStore d !! p = Some w →
  ∃ w', waiterStore (snd (onExit J now (w_session w) code d)) !! p = Some w' ∧ evolves w w' ∧
    w_done w' = Some (default (mkWaitResponse (w_session w) (w_mode w) (Some code) false false) (w_done w)).
Proof.
  intros Hw Hp. pose proof Hw as (H1 & H2 & H3). rewrite onExit_store.
  assert (Hin : p ∈ default [] (waiters d !! w_session w)) by (apply H1; by exists w).
  unfold notifyExitOnNonExitWaiters, notifyExitWaiters, notify. cbn [set_waiters waiters waiterStore].
  rewrite !foldl_alter by apply H2. rewrite !decide_True by done. rewrite Hp. cbn [fmap option_fmap option_map].
  eexists. split; [done|]. destruct (H3 _ _ Hp) as [_ [Hm _]].
  destruct (decide (w_mode w = #"exit")) as [He|He].
  - rewrite decide_False by (rewrite deliver_mode, He; by intros []).
    rewrite deliver_done, He. split; [apply deliver_evolves|done].
  - assert (Hm' : w_mode w = #"idle" ∨ w_mode w = #"match") by set_solver.
    rewrite decide_True by done. rewrite deliver_done. split; [apply deliver_evolves|done].
Qed.

(** C19: in every reachable state the lists of waiters and the waiters that are
    blocked are the same ones, each in the list of its session and once; a
    waiter has the idle timer exactly when its mode asks for it, and what it
    was sent is about its own session and mode. *)
Theorem waiters_are_well_formed P cfg s svc repo own fs e d :
  exec url J stamp stat_ok P (NewDaemon cfg s svc repo own fs) e d →
  (∀ id p, p ∈ default [] (waiters d !! id) ↔ ∃ w, waiterStore d !! p = Some w ∧ w_session w = id) ∧
  (∀ id, NoDup (default [] (waiters d !! id))) ∧
  (∀ p w, waiterStore d !! p = Some w →
    (p < nextWaiter d)%nat ∧ w_mode w ∈ [ #"exit"; #"idle"; #"match"] ∧
    (is_Some (w_idle w) ↔ w_mode w = #"idle") ∧
    ∀ r, w_done w = Some r → wr_SessionID r = w_session w ∧ wr_Mode r = w_mode w ∧ wr_TimedOut r = false).
Proof. intros He. by destruct (exec_waiters _ _ _ _ He (wf_new cfg s svc repo own fs)) as [Hw _]. Qed.

(** C20: when a session exits, every client that waits for it, in whatever mode,
    is answered or can be: after any further run it has got a response about
    its own session and mode, or its goroutine can send it one now, which is
    the exit code unless something woke it up before. *)
Theorem exit_answers_every_waiter P P' cfg s svc repo own fs e0 d p w now code e d' :
  exec url J stamp stat_ok P (NewDaemon cfg s svc repo own fs) e0 d →
  waiterStore d !! p = Some w →
  exec url J stamp stat_ok P' (snd (onExit J now (w_session w) code d)) e d' →
  (∃ r, (w_client w, MOk (Some (RWait r))) ∈ replies e ∧ wr_SessionID r = w_session w ∧ wr_Mode r = w_mode w) ∨
  ∀ now', ∃ d'',
    let r := default (mkWaitResponse (w_session w) (w_mode w) (Some code) false false) (w_done w) in
    finishWait now' p WakeDone d' = Some ([Reply (w_client w) (MOk (Some (RWait r)))], d'') ∧
    waiterStore d'' !! p = None.
Proof.
  intros He0 Hp He. destruct (exec_waiters _ _ _ _ He0 (wf_new cfg s svc repo own fs)) as [Hw _].
  destruct (onExit_wakes now code d p w Hw Hp) as (w1 & Hp1 & (Hc1 & Hs1 & Hm1 & _) & Hd1).
  assert (Hw1 : wf (snd (onExit J now (w_session w) code d))) by by apply (frame_onExit J tended).
  destruct (exec_waiters _ _ _ _ He Hw1) as [Hw2 Hall].
  destruct (Hall _ _ Hp1) as [(w2 & Hp2 & (Hc2 & _ & _ & _ & _ & Hd2))|(r & Hr & Hid & Hm)].
  - right. intros now'. exists (removeWaiter p w2 d'). cbv zeta. unfold finishWait. rewrite Hp2. cbn [mbind option_bind].
    cbn [wake_response]. rewrite (Hd2 _ Hd1). cbn [mbind option_bind]. rewrite andThen_eq.
    cbn [reply emit modify fst snd app]. rewrite Hc2, Hc1. split; [done|].
    rewrite (proj2 (wf_remove p w2 d' Hw2 Hp2)). apply lookup_delete_eq.
  - left. exists r. unfold answer_of in Hr. rewrite Hc1 in Hr. split_and!; congruence.
Qed.

Lemma notifyOutput_at now (d : Daemon S) p w data :
  wf d → waiterStore d !! p = Some w → w_mode w = #"match" →
  waiterStore (notifyOutputWaiters now (w_session w) data d) !! p =
    Some (if contains data (w_pattern w)
          then deliver (mkWaitResponse (w_session w) #"match" None true false) w else w).
Proof.
  intros (H1 & H2 & H3) Hp Hm. unfold notifyOutputWaiters, notify. cbn [set_waiters waiterStore].
  rewrite foldl_alter by apply H2. rewrite decide_True by (apply H1; by exists w). rewrite Hp.
  cbn [fmap option_fmap option_map]. by rewrite decide_True by done.
Qed.

(** A client that waits for a pattern is told of a match exactly when one
    of the pieces in which the output is drained contains the whole pattern; a
    pattern that is cut between two pieces goes unnoticed. *)
Theorem match_needs_one_piece now (d : Daemon S) p w l :
  wf d → waiterStore d !! p = Some w → w_mode w = #"match" → w_done w = None →
  w_done <$> waiterStore (foldl (λ d data, notifyOutputWaiters now (w_session w) data d) d l) !! p =
    Some (if existsb (λ data, contains data (w_pattern w)) l
          then Some (mkWaitResponse (w_session w) #"match" None true false) else None).
Proof.
  revert d w. induction l as [|data l IH]; intros d w Hw Hp Hm Hd; [cbn; by rewrite Hp; cbn; rewrite Hd|].
  cbn [foldl existsb]. pose proof (notifyOutput_at now d p w data Hw Hp Hm) as Hp'.
  assert (Hw' : wf (notifyOutputWaiters now (w_session w) data d)) by by apply (tended_output now _ data d []).
  destruct (contains data (w_pattern w)); cbn [orb]; [|by apply IH].
  clear IH Hp. set (w' := deliver _ w) in *. set (d' := notifyOutputWaiters _ _ _ d) in *. clearbody d'.
  assert (Hd' : w_done w' = Some (mkWaitResponse (w_session w) #"match" None true false))
    by (unfold w'; by rewrite deliver_done, Hd).
  assert (Hs : w_session w' = w_session w) by apply deliver_evolves. clearbody w'. rewrite <- Hs. rewrite <- Hs in Hd'.
  clear Hs Hd Hm w. revert d' w' Hw' Hp' Hd'. induction l as [|x l IH]; intros d' w' Hw' Hp' Hd';
    [cbn; rewrite Hp'; cbn; by rewrite Hd'|].
  cbn [foldl]. destruct (tended_output now (w_session w') x d' [] Hw') as (Hw2 & _ & _ & Hev).
  destruct (Hev _ _ Hp') as (w2 & Hp2 & (_ & Hs2 & _ & _ & _ & Hd2)). rewrite <- Hs2 in Hw2, Hp2, Hd' |- *.
  apply IH; [done|done|by apply Hd2].
Qed.
End Waiters.

(** ** Witnesses *)

Section Witnesses.

#[local] Abbreviation run := (exec example_url example_json example_stamp example_stat (λ _ _, True)) (only parsing).
#[local] Abbreviation dispatched c t p d :=
  (dispatch example_json example_stamp example_stat 5 c (request t p) d) (only parsing).

Definition example_waiting : Daemon example_backend := snd (dispatched #"c1" MsgWait #"a" example_daemon).

Lemma example_waits : run example_daemon (fst (dispatched #"c1" MsgWait #"a" example_daemon)) example_waiting.
Proof. eapply exec_one; [done|apply ds_dispatch]. Qed.

Lemma waiters_are_well_formed_witness :
  run example_daemon (fst (dispatched #"c1" MsgWait #"a" example_daemon)) example_waiting ∧
  0%nat ∈ default [] (waiters example_waiting !! #"a") ∧
  ∃ w, waiterStore example_waiting !! 0%nat = Some w ∧ w_session w = #"a".
Proof.
  split; [exact example_waits|].
  destruct (waiters_are_well_formed _ _ _ _ _ _ _ _ _ _ _ _ _ example_waits) as [Hin _].
  assert (Hp : 0%nat ∈ default [] (waiters example_waiting !! #"a"))
    by (apply (bool_decide_unpack _); vm_compute; exact I).
  split; [exact Hp|]. by apply Hin.
Defined.

Lemma exit_answers_every_waiter_witness :
  run example_daemon (fst (dispatched #"c1" MsgWait #"a" example_daemon)) example_waiting ∧
  ∃ w, waiterStore example_waiting !! 0%nat = Some w ∧
    ∀ now', is_Some (finishWait now' 0 WakeDone (snd (onExit example_json 6 #"a" 3 example_waiting))).
Proof.
  split; [exact example_waits|].
  destruct (waiterStore example_waiting !! 0%nat) as [w|] eqn:Hp; [|vm_compute in Hp; discriminate].
  exists w. split; [done|]. assert (Hs : w_session w = #"a") by (vm_compute in Hp; by injection Hp as <-).
  destruct (exit_answers_every_waiter _ _ _ _ _ (λ _ _, True) _ _ _ _ _ _ _ _ _ _ 6 3 [] _ example_waits Hp
    (exec_nil _ _ _ _ _ _)) as [(r & Hr & _)|Hall].
  - exfalso. exact (not_elem_of_nil _ Hr).
  - intros now'. destruct (Hall now') as (d'' & Hf & _). rewrite Hs in Hf. by eexists.
Defined.

(** A waiter for [ab], and output that arrives as [xa] and [by]. *)
Definition example_matching : Daemon example_backend :=
  addWaiter (new_waiter 0 #"c1" (mkWaitRequest #"a" #"match" 0 0 #"ab")) example_daemon.

Lemma match_needs_one_piece_witness :
  w_done <$> waiterStore (foldl (λ d data, notifyOutputWaiters 7 #"a" data d) example_matching [ #"xa"; #"by"]) !! 0%nat =
    Some None ∧
  w_done <$> waiterStore (foldl (λ d data, notifyOutputWaiters 7 #"a" data d) example_matching [ #"xaby"]) !! 0%nat =
    Some (Some (mkWaitResponse #"a" #"match" None true false)).
Proof.
  assert (Hw : wf example_matching) by (apply wf_add; [apply wf_new|apply new_waiter_good; by apply (bool_decide_unpack _); vm_compute]).
  split; by apply (match_needs_one_piece 7 example_matching 0
    (new_waiter 0 #"c1" (mkWaitRequest #"a" #"match" 0 0 #"ab"))).
Defined.
End Witnesses.
