(* ===== verification/DaemonOutput.v ===== *)
(** * What the daemon reads from output

    The rows of command markers, which [scanOSC] counts lazily, against a
    reference that counts all newlines before each marker; and which sessions
    [flushOutput] reads at all. *)

From S2P Require Import Prelude Files GoStrings SessionValues Protocol Payload SessionManager DaemonTypes Daemon DaemonExample DaemonLemmas DaemonFrame DaemonClients DaemonReplies DaemonWaiters.
From S2P Require History Recording Commands CmdLifecycle Event Osc.

#[local] Open Scope Z_scope.

Section Output.

Context {S : Type} `{SessionManager S}.

Context (url : bytes → option bytes) (J : Json) (stamp : time → bytes) (stat_ok : bytes → bool).

(** ** Rows *)

(** A handler that neither reads nor writes the row counters. *)
Definition blind (h : handler S) : Prop :=
  ∀ d m, h (set_counters d m) = (fst (h d), set_counters (snd (h d)) m).

Lemma blind_each {A} (h : A → handler S) l : (∀ x, blind (h x)) → blind (each h l).
Proof.
  intros Hh. induction l as [|x l IH]; intros d m; [done|]. cbn [each].
  rewrite !andThen_eq, Hh. cbn [fst snd]. by rewrite IH.
Qed.

Lemma blind_publish e : blind (publishEvent e).
Proof. done. Qed.

Lemma blind_cmd_output o : blind (cmd_output o).
Proof.
  intros d m. destruct o as [id ev|id st]; cbn; [unfold publishCmdEvent; by destruct (CmdLifecycle.Kind ev)|].
  unfold modify, save_commands. cbn [svcRepo set_counters]. by destruct (svcRepo d).
Qed.

(** A command marker in a given row. *)
Definition marker_at (now : time) (id value : bytes) (row : Z) : handler S := λ d,
  let (code, exit) := Osc.parseOSC133Value value in
  match cmdSvc d with
  | None => ([], d)
  | Some svc =>
      let '(_, outs, svc) := CmdLifecycle.HandleOSC svc id code exit row (λ _, now) in
      each cmd_output outs (set_commands d (Some svc) (cmdRepo d) (svcRepo d) (disk d))
  end.

Lemma blind_marker now id v row : blind (marker_at now id v row).
Proof.
  intros d m. unfold marker_at. destruct (Osc.parseOSC133Value v) as [code exit]. cbn [cmdSvc set_counters].
  destruct (cmdSvc d) as [svc|]; [|done].
  destruct (CmdLifecycle.HandleOSC svc id code exit row _) as [[e outs] svc'].
  exact (blind_each cmd_output outs blind_cmd_output
    (set_commands d (Some svc') (cmdRepo d) (svcRepo d) (disk d)) m).
Qed.

(** The reference: a marker is in the row of all newlines before it, those of
    this piece and the [n] counted before. *)
Definition sequence_at (now : time) (id data : bytes) (n : Z) (r : Osc.OSCResult) : handler S :=
  match Osc.osc_Type r with
  | Osc.OSCTypeCwd =>
      call (λ s, sm_MetaSet s id #"cwd" (Osc.osc_Value r)) (λ _,
        publishEvent (Event.mkEvent Event.CwdChanged id [(#"cwd", Event.AStr (Osc.osc_Value r))]))
  | Osc.OSCTypeNotification =>
      publishEvent (Event.mkEvent Event.Notification id [(#"body", Event.AStr (Osc.osc_Value r))])
  | Osc.OSCTypeShellReady => publishEvent (Event.mkEvent Event.ShellReady id [])
  | Osc.OSCType133 =>
      marker_at now id (Osc.osc_Value r) (n + Z.of_nat (count_byte x0a (take (Osc.osc_Offset r) data)))
  end.

Lemma blind_sequence now id data n r : blind (sequence_at now id data n r).
Proof.
  unfold sequence_at. destruct (Osc.osc_Type r); try apply blind_publish; [|apply blind_marker].
  intros d m. unfold call. cbn [backend set_counters]. destruct (sm_MetaSet (backend d) id _ _). reflexivity.
Qed.

(** The newlines before an offset, of those before an earlier one. *)
Lemma count_between data (cur off : nat) :
  (cur <= off)%nat →
  count_byte x0a (take off data) = (count_byte x0a (take cur data) + count_byte x0a (drop cur (take off data)))%nat.
Proof.
  intros Hle. rewrite (count_byte_take_drop _ cur (take off data)). by rewrite take_take, Nat.min_l by done.
Qed.

Lemma set_counters_id (d : Daemon S) : set_counters d (lineCounters d) = d.
Proof. by destruct d. Qed.

Lemma set_counters_twice (d : Daemon S) m m' : set_counters (set_counters d m) m' = set_counters d m'.
Proof. done. Qed.

(** The state in the middle of the loop: [cur] bytes have been counted. *)
Definition counted (id data : bytes) (n : Z) (m : gmap bytes Z) (cur : nat) : gmap bytes Z :=
  <[id := n + Z.of_nat (count_byte x0a (take cur data))]> m.

Lemma osc133_counted now id data v off cur (d : Daemon S) k :
  lineCounters d !! id = Some k →
  osc133 now id data v off cur d =
    let row := k + Z.of_nat (count_byte x0a (drop cur (take off data))) in
    marker_at now id v row (set_counters d (<[id := row]> (lineCounters d))).
Proof. intros Hk. unfold osc133. rewrite Hk. cbn [lineCounters set_counters]. by rewrite lookup_insert_eq. Qed.

Lemma scan_one_counted now id data n m r cur (d : Daemon S) :
  (cur <= Osc.osc_Offset r)%nat →
  ∃ cur', (cur' = cur ∨ cur' = Osc.osc_Offset r) ∧
    scan_one now id data r cur (set_counters d (counted id data n m cur)) =
      (cur', (fst (sequence_at now id data n r d),
              set_counters (snd (sequence_at now id data n r d)) (counted id data n m cur'))).
Proof.
  intros Hle. pose proof (blind_sequence now id data n r) as Hb. unfold scan_one, sequence_at in *.
  destruct (Osc.osc_Type r); try (exists cur; split; [by left|]; by rewrite Hb).
  exists (Osc.osc_Offset r). split; [by right|].
  rewrite decide_True by (cbn; unfold counted; rewrite lookup_insert_eq; by eexists). f_equal.
  rewrite (osc133_counted _ _ _ _ _ _ _ (n + Z.of_nat (count_byte x0a (take cur data))))
    by (cbn; unfold counted; apply lookup_insert_eq).
  rewrite <- Z.add_assoc, <- Nat2Z.inj_add, <- count_between by done.
  cbn [lineCounters set_counters]. rewrite set_counters_twice. unfold counted at 1.
  rewrite insert_insert_eq. apply Hb.
Qed.

Lemma scan_loop_counted now id data n m l cur (d : Daemon S) :
  Osc.increasing (Osc.osc_Offset <$> l) → Forall (λ r, (cur <= Osc.osc_Offset r)%nat) l →
  ∃ cur', (cur <= cur')%nat ∧
    scan_loop now id data l cur (set_counters d (counted id data n m cur)) =
      (cur', (fst (each (sequence_at now id data n) l d),
              set_counters (snd (each (sequence_at now id data n) l d)) (counted id data n m cur'))).
Proof.
  revert cur d. induction l as [|r l IH]; intros cur d Hs Hl; [by exists cur|].
  apply Forall_cons in Hl as [Hr Hl]. cbn [fmap list_fmap Osc.increasing] in Hs. destruct Hs as [Hlt Hs].
  destruct (scan_one_counted now id data n m r cur d Hr) as (cur1 & Hcur & Hone).
  destruct (IH cur1 (snd (sequence_at now id data n r d)) Hs) as (cur2 & Hle & Hloop).
  { rewrite Forall_fmap in Hlt. rewrite Forall_forall in Hl, Hlt |- *. intros x Hx.
    specialize (Hl x Hx). specialize (Hlt x Hx). cbn in Hlt. destruct Hcur; lia. }
  exists cur2. split; [destruct Hcur; lia|]. cbn [scan_loop each]. rewrite Hone, Hloop.
  by rewrite !andThen_eq.
Qed.

(** C31: [scanOSC], which counts newlines lazily between the markers of a piece
    of output and after the last one, does exactly what the reference does that
    counts all newlines before each marker, and leaves the counter advanced by
    all newlines of the piece.  But a piece in which no sequence is found
    changes nothing, so its newlines are never counted. *)
Theorem scanOSC_counts_rows now id data (d : Daemon S) n :
  lineCounters d !! id = Some n →
  scanOSC url now id data d =
    match Osc.ParseOSC url data with
    | [] => ([], d)
    | l =>
        let (e, d') := each (sequence_at now id data n) l d in
        (e, set_counters d' (<[id := n + Z.of_nat (count_byte x0a data)]> (lineCounters d)))
    end.
Proof.
  intros Hn. unfold scanOSC. destruct (Osc.ParseOSC url data) as [|r l] eqn:Hp; [done|].
  destruct (Osc.ParseOSC_loop_offsets url (Datatypes.S (length data)) data 0) as [Hs Hr].
  fold (Osc.ParseOSC url data) in Hs, Hr. rewrite Hp in Hs, Hr.
  destruct (scan_loop_counted now id data n (lineCounters d) (r :: l) 0 d Hs) as (cur & _ & Hloop).
  { apply Forall_forall. intros x _. lia. }
  assert (Hd : set_counters d (counted id data n (lineCounters d) 0) = d).
  { unfold counted. rewrite take_0. change (count_byte x0a []) with 0%nat. rewrite Z.add_0_r, insert_id by done.
    apply set_counters_id. }
  rewrite Hd in Hloop. rewrite Hloop. destruct (each (sequence_at now id data n) (r :: l) d) as [e d'].
  cbn [fst snd lineCounters set_counters]. unfold counted at 1. rewrite lookup_insert_eq.
  rewrite set_counters_twice. f_equal. case_bool_decide as Hc.
  - unfold counted. rewrite ?set_counters_twice, ?insert_insert_eq.
    by rewrite <- Z.add_assoc, <- Nat2Z.inj_add, <- count_byte_take_drop.
  - unfold counted. rewrite take_ge by lia. done.
Qed.
End Output.

(** ** Which sessions are read *)

Section Unwatched.

Context {S : Type} `{SessionManagerLaws S} `{!Drains S}.

Context (url : bytes → option bytes) (J : Json) (stamp : time → bytes) (stat_ok : bytes → bool).

(** Nobody is attached to the session, and nobody waits for it. *)
Definition unwatched (id : bytes) (d : Daemon S) : Prop :=
  wf d ∧ attachments d !! id = None ∧ default [] (waiters d !! id) = [].

(** No output of the session is read. *)
Definition leaves_alone (id : bytes) (d : Daemon S) (e : list effect) (d' : Daemon S) : Prop :=
  unwatched id d → unwatched id d' ∧
  ∃ log, drained (backend d') = drained (backend d) ++ log ∧ Forall (λ p, p.1 ≠ id) log.

#[export] Instance leaves_alone_composes id : Composes (leaves_alone id).
Proof.
  split; [intros d Hd; split; [done|]; exists []; by rewrite app_nil_r|].
  intros d1 e1 d2 e2 d3 H1 H2 Hd. destruct (H1 Hd) as (Hd2 & l1 & Hl1 & Hf1).
  destruct (H2 Hd2) as (Hd3 & l2 & Hl2 & Hf2). split; [done|]. exists (l1 ++ l2).
  rewrite Hl2, Hl1, app_assoc. split; [done|]. by apply Forall_app.
Qed.

Lemma leaves_alone_silent id d e d' : silent d e d' → tended d e d' → leaves_alone id d e d'.
Proof.
  intros (H1 & _ & _ & H4) Ht (Hw & Ha & Hn). destruct (Ht Hw) as (Hw' & Hws & _).
  unfold unwatched. rewrite H1, Hws. split; [done|]. exists []. by rewrite app_nil_r.
Qed.

Lemma leaves_alone_drain now id id' l :
  id' ≠ id →
  obeys (leaves_alone id) (drain_session id' (λ data, process_output url J now id' data ;> broadcast id' data l)).
Proof.
  intros Hne. assert (Hk : ∀ data, obeys (leaves_alone id) (process_output url J now id' data ;> broadcast id' data l)).
  { intros data. apply obeys_andThen; [apply _| |].
    - intros d. apply leaves_alone_silent; [apply silent_process|apply (frame_process url J tended)].
    - intros d (Hw & Ha & Hn). destruct (broadcast_spec id' data l d) as [_ Hb]. rewrite Hb.
      split; [done|]. exists []. by rewrite app_nil_r. }
  intros d Hd. unfold drain_session, call. pose proof (drained_ReadOutput (backend d) id') as Hr.
  destruct (sm_ReadOutput (backend d) id') as [r s]. cbn [fst snd] in Hr.
  assert (Hs : unwatched id (set_backend d s)) by done.
  assert (Hskip : drained s = drained (backend d) ++ [] → unwatched id (set_backend d s) ∧
    ∃ log, drained s = drained (backend d) ++ log ∧ Forall (λ p, p.1 ≠ id) log)
    by (intros Heq; split; [done|by exists []]).
  destruct r as [data|e]; [|by apply Hskip]. case_decide as Hdata; [by apply Hskip|].
  destruct (Hk data _ Hs) as (Hd' & log & Hl & Hf). split; [done|]. cbn [backend set_backend] in Hl.
  exists ((id', data) :: log). rewrite Hl, Hr, <- app_assoc. by split; [|constructor].
Qed.

Lemma leaves_alone_flushOutput id now : obeys (leaves_alone id) (flushOutput url J now).
Proof.
  intros d Hd. pose proof Hd as (_ & Ha & _). revert Hd. unfold flushOutput.
  refine ((_ : obeys (leaves_alone id) (_ ;> _)) d). apply obeys_andThen; [apply _| |].
  - apply obeys_each; [apply _|]. intros [id' cs] Hin%elem_of_map_to_list. apply leaves_alone_drain. congruence.
  - intros d1 Hd1. pose proof Hd1 as (_ & _ & Hn). revert Hd1.
    refine ((_ : obeys (leaves_alone id) (each _ _)) d1). apply obeys_each; [apply _|].
    intros id' Hin. assert (Hne : id' ≠ id).
    { intros ->. unfold waiterSessions in Hin. apply list_elem_of_filter in Hin as [_ Hin].
      apply list_elem_of_omap in Hin as ([x ws] & Hx%elem_of_map_to_list & Heq). case_decide; [done|].
      simplify_eq. by rewrite Hx in Hn. }
    intros d2. pose proof (leaves_alone_drain now id id' [] Hne d2) as Hl.
    enough (Heq : drain_session id' (process_output url J now id') d2 =
      drain_session id' (λ data, process_output url J now id' data ;> broadcast id' data []) d2) by by rewrite Heq.
    unfold drain_session, call. destruct (sm_ReadOutput (backend d2) id') as [[data|e] s]; [|done].
    case_decide; [done|]. rewrite andThen_eq. unfold broadcast. cbn [each skip fst snd]. rewrite app_nil_r.
    by destruct (process_output url J now id' data (set_backend d2 s)).
Qed.

(** The output of a session that nobody is attached to and nobody waits for
    is read by no flush, not even by the one that its own output triggers; so
    until a client comes it is neither persisted nor recorded nor scanned. *)
Theorem unwatched_output_is_not_read P cfg s svc repo own fs e d id id' now :
  exec url J stamp stat_ok P (NewDaemon cfg s svc repo own fs) e d →
  attachments d !! id = None → default [] (waiters d !! id) = [] →
  (∃ log, drained (backend (snd (flushOutput url J now d))) = drained (backend d) ++ log ∧
     Forall (λ p, p.1 ≠ id) log) ∧
  ∃ log, drained (backend (snd (flushSessionOutput url J now id' d))) = drained (backend d) ++ log ∧
     Forall (λ p, p.1 ≠ id) log.
Proof.
  intros He Ha Hn. destruct (exec_waiters _ _ _ _ _ _ _ _ He (wf_new cfg s svc repo own fs)) as [Hw _].
  assert (Hd : unwatched id d) by done.
  destruct (leaves_alone_flushOutput id now d Hd) as (_ & Hall). split; [done|].
  unfold flushSessionOutput. destruct (decide (id' = id)) as [->|Hne].
  - rewrite Ha. cbn [default]. by rewrite elements_empty.
  - destruct (elements (default ∅ (attachments d !! id'))) as [|c [|c2 cs]]; [done|case_decide; [done|]|].
    all: by apply (leaves_alone_drain now id id').
Qed.
End Unwatched.

(** ** Witnesses *)

Section Witnesses.

Definition example_tracked : Daemon example_backend := set_counters example_daemon {[ #"a" := 3 ]}.

Lemma scanOSC_counts_rows_witness :
  lineCounters example_tracked !! #"a" = Some 3 ∧
  scanOSC example_url 7 #"a" (#"one" ++ [x0a]) example_tracked = ([], example_tracked).
Proof.
  assert (Hn : lineCounters example_tracked !! #"a" = Some 3) by apply lookup_insert_eq.
  split; [exact Hn|]. rewrite (scanOSC_counts_rows example_url 7 #"a" (#"one" ++ [x0a]) example_tracked 3 Hn).
  replace (Osc.ParseOSC example_url (#"one" ++ [x0a])) with (@nil Osc.OSCResult) by (vm_compute; reflexivity).
  reflexivity.
Defined.

(** Output of a session, with no client. *)
Definition example_unwatched : Daemon example_backend :=
  set_backend example_daemon (example_output example_sessions #"a" #"hello").

Lemma unwatched_output_is_not_read_witness :
  attachments example_unwatched !! #"a" = None ∧
  #"a" ∉ (drained (backend (snd (flushSessionOutput example_url example_json 7 #"a" example_unwatched)))).*1.
Proof.
  split; [reflexivity|].
  assert (He : exec example_url example_json example_stamp example_stat (λ _ _, True)
    (NewDaemon example_config example_sessions None None None (mkFS ∅ ∅)) [] example_unwatched).
  { apply (exec_backend _ _ _ _ _ _ (example_output example_sessions #"a" #"hello")); [done|reflexivity|constructor]. }
  destruct (unwatched_output_is_not_read _ _ _ _ _ _ _ _ _ _ _ _ _ #"a" #"a" 7 He eq_refl eq_refl)
    as [_ (log & Hl & Hf)].
  assert (H0 : drained (backend example_unwatched) = []) by (vm_compute; reflexivity).
  rewrite H0 in Hl. cbn [app] in Hl. rewrite Hl. intros ([x y] & Hx & Hin)%list_elem_of_fmap. rewrite Forall_forall in Hf.
  apply (Hf _ Hin). by rewrite Hx.
Defined.
End Witnesses.
