(* ===== verification/DaemonSessions.v ===== *)
(** * The sessions a daemon manages

    Requests about many sessions, against the laws of the backend: listing,
    killing by prefix, and the graceful shutdown. *)

From S2P Require Import Prelude Files GoStrings SessionValues Protocol Payload SessionManager DaemonTypes Daemon DaemonExample DaemonLemmas DaemonReplies.
From S2P Require History Recording Commands CmdLifecycle Event.

#[local] Open Scope Z_scope.

Section Sessions.

Context {S : Type} `{SessionManagerLaws S}.

Context (J : Json) (stamp : time → bytes) (stat_ok : bytes → bool).

Lemma known_List s id : sm_ok s → id ∈ si_ID <$> sm_List s ↔ known s id = true.
Proof.
  intros Hok. destruct (sm_List_spec s Hok) as [_ Hl]. rewrite list_elem_of_fmap. unfold known. split.
  - intros (i & -> & Hi). apply Hl in Hi. by rewrite Hi.
  - destruct (sm_Get s id) as [i|] eqn:Hg; [|done]. intros _. pose proof (sm_Get_id _ _ _ Hok Hg) as Hid.
    exists i. split; [done|]. apply Hl. by rewrite Hid.
Qed.

(** Killing sessions that exist, one after the other. *)
Lemma kill_targets l s :
  sm_ok s → NoDup l → Forall (λ id, known s id = true) l →
  fst (for_targets sm_Kill l s) = (λ id, (id, None)) <$> l ∧
  sm_ok (snd (for_targets sm_Kill l s)) ∧
  ∀ id, known (snd (for_targets sm_Kill l s)) id = known s id && negb (bool_decide (id ∈ l)).
Proof.
  intros Hok Hn. revert s Hok. induction Hn as [|x l Hx Hn IH]; intros s Hok Hl.
  - split_and!; [done|done|]. intros id. cbn. rewrite bool_decide_eq_false_2 by apply not_elem_of_nil.
    by rewrite andb_true_r.
  - apply Forall_cons in Hl as [Hk Hl]. cbn [for_targets]. pose proof (sm_Kill_spec s x Hok) as Hs.
    destruct (sm_Kill s x) as [e s1]. destruct Hs as (Hok1 & He & Hk1).
    assert (e = None) as -> by by apply He.
    destruct (IH s1 Hok1) as (H1 & H2 & H3).
    { rewrite Forall_forall in Hl |- *. intros id Hid. rewrite Hk1, Hl by done.
      rewrite bool_decide_eq_false_2; [done|]. by intros ->. }
    destruct (for_targets sm_Kill l s1) as [rs s2]. cbn [fst snd] in *. split_and!; [by rewrite H1|done|].
    intros id. rewrite H3, Hk1, <- andb_assoc. f_equal. rewrite <- negb_orb. f_equal.
    rewrite <- bool_decide_or.
    apply bool_decide_ext. rewrite elem_of_cons. tauto.
Qed.

Lemma killed_all l : killed_ids ((λ id, (id, None)) <$> l) = l.
Proof. unfold killed_ids. induction l as [|x l IH]; [done|]. cbn in *. by rewrite IH. Qed.

Lemma no_kill_errors l : kill_errors ((λ id, (id, None)) <$> l) = ∅.
Proof. unfold kill_errors. generalize (∅ : gmap bytes bytes). induction l as [|x l IH]; [done|]. apply IH. Qed.

Lemma sessionsByPrefix_spec p s :
  sm_ok s → NoDup (sessionsByPrefix p s) ∧
  ∀ id, id ∈ sessionsByPrefix p s ↔ known s id = true ∧ in_prefix p id = true.
Proof.
  intros Hok. unfold sessionsByPrefix. split; [apply NoDup_filter; by apply sm_List_spec|].
  intros id. rewrite list_elem_of_filter, known_List by done. tauto.
Qed.

(** ** Theorems *)

End Sessions.

(** ** Witnesses *)

Section Witnesses.

(** Sessions [w/a], [w/b] and [x]. *)
Definition example_prefixed : Daemon example_backend :=
  set_backend example_daemon
    (example_create (example_create (example_create example_empty #"w/a") #"w/b") #"x", []).

End Witnesses.
