(* ===== verification/DaemonHistory.v ===== *)
(** * The command history of a served daemon

    How [Daemon.Serve] of [pkg/client] puts the daemon together: the command
    service saves to one repository, and the daemon opens its writers in
    another. *)

From S2P Require Import Prelude Files GoStrings SessionValues Protocol Payload SessionManager DaemonTypes Daemon DaemonExample DaemonLemmas DaemonFrame DaemonClients DaemonReplies DaemonWaiters.
From S2P Require History Recording Commands CmdLifecycle Event.

#[local] Open Scope Z_scope.

Section History.

Context {S : Type} `{SessionManagerLaws S} `{!Drains S}.

Context (url : bytes → option bytes) (J : Json) (stamp : time → bytes) (stat_ok : bytes → bool).

(** ** Options ([internal/daemon/options.go])

    The path of the pid file is an argument of the functions that use it, and
    the tracer is left out. *)

Definition with_config (f : Config → Config) (d : Daemon S) : Daemon S :=
  mkDaemon (f (config d)) (backend d) (startedAt d) (attachments d) (clientSession d) (scrollbackWriters d)
    (waiters d) (waiterStore d) (nextWaiter d) (recordings d) (lineCounters d) (cmdSvc d) (cmdRepo d)
    (svcRepo d) (disk d).

Definition daemon_WithVersion (v : bytes) : Daemon S → Daemon S := with_config (λ c,
  mkConfig v (dataDir c) (coldRestore c) (maxScrollbackSize c) (recordingMaxSize c) (recordingDir c)
    (maxHistoryDumpSize c) (hasBus c)).

Definition daemon_WithDataDir (dir : option path) : Daemon S → Daemon S := with_config (λ c,
  mkConfig (version c) dir (coldRestore c) (maxScrollbackSize c) (recordingMaxSize c) (recordingDir c)
    (maxHistoryDumpSize c) (hasBus c)).

Definition daemon_WithEventBus (bus : bool) : Daemon S → Daemon S := with_config (λ c,
  mkConfig (version c) (dataDir c) (coldRestore c) (maxScrollbackSize c) (recordingMaxSize c) (recordingDir c)
    (maxHistoryDumpSize c) bus).

Definition daemon_WithMaxScrollbackSize (n : Z) : Daemon S → Daemon S := with_config (λ c,
  mkConfig (version c) (dataDir c) (coldRestore c) n (recordingMaxSize c) (recordingDir c)
    (maxHistoryDumpSize c) (hasBus c)).

Definition daemon_WithRecordingMaxSize (n : Z) : Daemon S → Daemon S := with_config (λ c,
  mkConfig (version c) (dataDir c) (coldRestore c) (maxScrollbackSize c) n (recordingDir c)
    (maxHistoryDumpSize c) (hasBus c)).

Definition daemon_WithRecordingDir (dir : path) : Daemon S → Daemon S := with_config (λ c,
  mkConfig (version c) (dataDir c) (coldRestore c) (maxScrollbackSize c) (recordingMaxSize c) dir
    (maxHistoryDumpSize c) (hasBus c)).

Definition daemon_WithMaxHistoryDumpSize (n : Z) : Daemon S → Daemon S := with_config (λ c,
  mkConfig (version c) (dataDir c) (coldRestore c) (maxScrollbackSize c) (recordingMaxSize c) (recordingDir c)
    n (hasBus c)).

(** It makes the daemon's repository of command histories, too. *)
Definition daemon_WithColdRestore (enabled : bool) (d : Daemon S) : Daemon S :=
  let d := with_config (λ c,
    mkConfig (version c) (dataDir c) enabled (maxScrollbackSize c) (recordingMaxSize c) (recordingDir c)
      (maxHistoryDumpSize c) (hasBus c)) d in
  set_commands d (cmdSvc d) (Some (Commands.newCmdRepository enabled)) (svcRepo d) (disk d).

(** The service comes with the repository that it was made with. *)
Definition daemon_WithCommandLifecycle (svc : CmdLifecycle.Service) (own : Commands.cmdRepository) (d : Daemon S) : Daemon S :=
  set_commands d (Some svc) (cmdRepo d) (Some own) (disk d).

(** [daemon.NewDaemon]: the defaults, and the options in turn. *)
Definition with_options (opts : list (Daemon S → Daemon S)) (s : S) (fs : FS) : Daemon S :=
  foldl (λ d o, o d) (NewDaemon (mkConfig [] None false 0 0 [] 0 false) s None None None fs) opts.

(** The daemon that [Serve] of the client library starts. *)
Definition client_Serve (dir : option path) (cold : bool) (maxScrollback : Z) (s : S) (fs : FS) : Daemon S :=
  with_options [
    daemon_WithDataDir dir;
    daemon_WithVersion #"0.1.0";
    daemon_WithEventBus true;
    daemon_WithColdRestore cold;
    daemon_WithCommandLifecycle (CmdLifecycle.NewService []) (Commands.newCmdRepository cold);
    daemon_WithMaxScrollbackSize maxScrollback] s fs.

(** The service's repository has no writer, and no writer of the daemon's has
    anything to write. *)
Definition unsaved (d : Daemon S) : Prop :=
  (∃ r, svcRepo d = Some r ∧ Commands.writers r = ∅) ∧
  ∀ r, cmdRepo d = Some r → ∀ id w, Commands.writers r !! id = Some w → Commands.pending_state w = None.

Definition keeps_unsaved (d : Daemon S) (e : list effect) (d' : Daemon S) : Prop := unsaved d → unsaved d'.

Lemma unsaved_same (d d' : Daemon S) : svcRepo d' = svcRepo d → cmdRepo d' = cmdRepo d → unsaved d → unsaved d'.
Proof. intros H1 H2. unfold unsaved. by rewrite H1, H2. Qed.

(** The writers of the daemon's repository, after it opens one. *)
Lemma open_unsaved r id p id' w :
  (∀ id w, Commands.writers r !! id = Some w → Commands.pending_state w = None) →
  Commands.writers (snd (Commands.Open r id p)) !! id' = Some w → Commands.pending_state w = None.
Proof.
  intros Hr. unfold Commands.Open. destruct (negb _); [apply Hr|].
  destruct (Commands.writers r !! id); [apply Hr|]. unfold Commands.NewWriter. repeat case_decide; [apply Hr..|].
  cbn. intros [[<- <-]|[_ Hl]]%lookup_insert_Some; [done|by eapply Hr].
Qed.

Lemma saved_nowhere r id st : Commands.writers r = ∅ → Commands.repo_Save r id st = r.
Proof.
  intros Hr. unfold Commands.repo_Save. destruct (negb _); [done|]. by rewrite Hr, lookup_empty.
Qed.

Lemma save_unsaved id st (d : Daemon S) : unsaved d → save_commands id st d = d.
Proof.
  intros [(r & Hs & Hr) _]. unfold save_commands. rewrite Hs, saved_nowhere by done. rewrite <- Hs. by destruct d.
Qed.

Lemma closing_writes_nothing m fs now w :
  Commands.pending_state w = None → fst (Commands.Close m fs now w) = fs.
Proof.
  intros Hw. unfold Commands.Close, Commands.flushOnce, Commands.begin_close.
  destruct (Commands.closed w) eqn:Hc; [done|]. cbn. by rewrite Hw.
Qed.

Lemma close_unsaved now id (d : Daemon S) :
  unsaved d → unsaved (close_commands J now id d) ∧ disk (close_commands J now id d) = disk d.
Proof.
  intros [Hs Hr]. unfold close_commands. destruct (cmdRepo d) as [r|] eqn:Hc; [|split; [split|]; [done|by rewrite Hc|done]].
  unfold Commands.repo_Close. destruct (Commands.writers r !! id) as [w|] eqn:Hw.
  - cbn. rewrite closing_writes_nothing by by eapply Hr. split; [|done]. split; [done|].
    intros r' [= <-] id' w' Hl. cbn in Hl. apply lookup_delete_Some in Hl as [_ Hl]. by eapply Hr.
  - split; [|done]. split; [done|]. intros r' [= <-]. by apply Hr.
Qed.

#[export] Instance unsaved_frame : StepFrame J keeps_unsaved.
Proof.
  split; try (by intros d ? Hd); try (by intros d ? ? Hd); try by intros ? ? ? ? Hd.
  - split; [by intros d Hd|]. unfold keeps_unsaved. by eauto.
  - intros id d [Hs Hr]. split; [done|]. unfold start_commands. cbn [cmdRepo set_counters set_commands].
    destruct (dataDir (config d)) as [dir|]; [|done]. destruct (coldRestore (config d)); [|done].
    destruct (cmdRepo d) as [r|] eqn:Hc; [|done]. intros r' [= <-] id' w. apply open_unsaved. by apply Hr.
  - intros id st d Hd. by rewrite save_unsaved.
  - intros now id d Hd. by apply close_unsaved.
Qed.

Lemma serve_ended_unsaved now (d : Daemon S) : unsaved d → disk (serve_ended J now d) = disk d.
Proof.
  intros [_ Hr]. unfold serve_ended. destruct (cmdRepo d) as [r|]; [|done].
  cbn. specialize (Hr r eq_refl).
  assert (Hall : Forall (λ w, Commands.pending_state w = None) (snd <$> map_to_list (Commands.writers r))).
  { apply Forall_fmap, Forall_forall. intros [id w] Hin%elem_of_map_to_list. by eapply Hr. }
  revert Hall. generalize (snd <$> map_to_list (Commands.writers r)) (disk d). clear.
  intros l. induction l as [|w l IH]; intros fs Hall; [done|]. apply Forall_cons in Hall as [Hw Hl].
  cbn [foldl]. rewrite closing_writes_nothing by done. by apply IH.
Qed.

Lemma exec_unsaved P d e d' : exec url J stamp stat_ok P d e d' → unsaved d → unsaved d'.
Proof.
  intros He. induction He as [d|d1 l e1 d2 e2 d3 Hp Hs He IH]; intros Hd; [done|]. apply IH. clear IH He.
  destruct Hs as [d now c f|d c|d now|d now id|d now p k res Hf|d now id code|d s Hs].
  - destruct (decide (Type_ f = MsgWait)) as [Ht|Ht]; [|by apply (frame_dispatch J stamp stat_ok keeps_unsaved)].
    assert (Heq : dispatch J stamp stat_ok now c f = handleWait J now c (Payload f))
      by (unfold dispatch; by rewrite Ht).
    rewrite Heq. by destruct (handleWait_cases J now c (Payload f) d) as [(msg & _ & ->)|(req & _ & _ & _ & ->)].
  - by apply (frame_detachClient J keeps_unsaved).
  - by apply (frame_flushOutput url J keeps_unsaved).
  - by apply (frame_flushSession url J keeps_unsaved).
  - unfold finishWait in Hf. destruct (waiterStore d !! p) as [w|]; [|done]. cbn in Hf.
    destruct (wake_response now k w); [|done]. by injection Hf as <-.
  - by apply (frame_onExit J keeps_unsaved).
  - by apply (unsaved_same d).
Qed.

(** Restoring histories at start-up opens writers, too. *)
Lemma Start_unsaved now (d : Daemon S) : unsaved d → unsaved (Start J now d).
Proof.
  intros Hd. unfold Start. cbn [dataDir config set_startedAt].
  destruct (dataDir (config d)) as [dir|]; [|by apply (unsaved_same d)].
  set (d0 := set_commands (set_startedAt d now) _ _ _ _).
  assert (Hd0 : unsaved d0) by by apply (unsaved_same d). clearbody d0.
  match goal with |- unsaved (set_commands ?x _ _ _ _) => cut (unsaved x); [by apply unsaved_same|] end.
  destruct (coldRestore (config d0) && _); [|done]. unfold restoreCommandHistoriesAtStartup.
  destruct (ReadDir (disk d0) dir) as [l|]; [|done]. revert d0 Hd0. induction l as [|[id x] l IH]; intros d0 Hd0; [done|].
  cbn [foldl]. apply IH. unfold restore_one. cbn [fst snd]. destruct x; [|done].
  destruct (RestoreCommandsForSession J now (disk d0) dir id (cmdSvc d0)) as [[e|] svc]; [by apply (unsaved_same d0)|].
  destruct Hd0 as [Hs Hr]. split; [done|]. cbn [cmdRepo set_counters set_commands].
  destruct (cmdRepo d0) as [r|] eqn:Hc; [|done]. intros r' [= <-] id' w. apply open_unsaved. by apply Hr.
Qed.

(** In the daemon that [Serve] starts, whatever happens, no state of a
    session's commands ever reaches its history file: the command service saves
    to a repository of its own in which nothing is open, so a save changes
    nothing, and closing the daemon's writers, when a session exits and when
    the daemon ends, writes nothing, with cold restore as without. *)
Theorem served_commands_are_never_saved P dir cold maxScrollback s fs start e d :
  exec url J stamp stat_ok P (Start J start (client_Serve dir cold maxScrollback s fs)) e d →
  (∀ id st, save_commands id st d = d) ∧
  (∀ now id, disk (close_commands J now id d) = disk d) ∧
  ∀ now, disk (serve_ended J now d) = disk d.
Proof.
  intros He. apply exec_unsaved in He as Hd.
  2: { apply Start_unsaved. split; [by eexists|]. intros r [= <-] id w Hw. cbn in Hw. by rewrite lookup_empty in Hw. }
  split_and!.
  - intros id st. by apply save_unsaved.
  - intros now id. by apply close_unsaved.
  - intros now. by apply serve_ended_unsaved.
Qed.
End History.

(** ** Witnesses *)

Section Witnesses.

Lemma served_commands_are_never_saved_witness :
  let d := Start example_json 3 (client_Serve (Some [ #"data"]) true 0 example_sessions (mkFS ∅ ∅)) in
  let d' := snd (dispatch example_json example_stamp example_stat 5 #"c1" (request MsgCreate #"new") d) in
  lineCounters d' !! #"new" = Some 0 ∧
  save_commands #"new" (CmdLifecycle.mkSessionState [] None) d' = d'.
Proof.
  cbv zeta. set (d := Start _ _ _). split; [vm_compute; reflexivity|].
  refine (proj1 (served_commands_are_never_saved example_url example_json example_stamp example_stat (λ _ _, True)
    (Some [ #"data"]) true 0 example_sessions (mkFS ∅ ∅) 3 _ _ _) _ _).
  eapply exec_one; [done|apply ds_dispatch].
Defined.
End Witnesses.
