(* ===== verification/ClientHistory.v ===== *)
(** * Streamed histories: [pkg/client/recording.go], [readControl] of [stream.go]

    The client routes the frames of the control channel and reads a history
    from its channel; together with the daemon's handler, what it reads is the
    whole dump. *)

From S2P Require Import Prelude Files GoStrings Pipeline SessionValues Protocol Payload SessionManager DaemonTypes Daemon DaemonExample DaemonLemmas DaemonReplies.
From S2P Require History Recording Commands CmdLifecycle Event Ansi Html.

#[local] Open Scope Z_scope.

Definition EOF : error := ENew #"EOF".

(** ** Frames of replies *)

(** How the payloads of [okFrame] and [errorFrame] are encoded. *)
Record ReplyJson := mkReplyJson { enc_response : response → bytes; enc_error : bytes → bytes }.

Definition frame_of (E : ReplyJson) (m : message) : Frame :=
  match m with
  | MOk None => mkFrame ProtocolVersion MsgOK []
  | MOk (Some r) => mkFrame ProtocolVersion MsgOK (enc_response E r)
  | MError msg => mkFrame ProtocolVersion MsgError (enc_error E msg)
  | MHistory chunk => mkFrame ProtocolVersion MsgHistory chunk
  | MHistoryEnd => mkFrame ProtocolVersion MsgHistoryEnd []
  end.

(** Where [readControl] sends a frame. *)
Inductive route := ToHandler | ToHistory | ToResponses.

#[export] Instance route_eq_decision : EqDecision route.
Proof. solve_decision. Defined.

Definition route_of (f : Frame) : route :=
  if decide (Type_ f = MsgEvent) then ToHandler
  else if decide (Type_ f = MsgHistory ∨ Type_ f = MsgHistoryEnd) then ToHistory
  else ToResponses.

(** ** The reader *)

Record historyReader := mkReader {
  hr_buf : bytes;
  hr_done : bool;
  hr_initial : bytes;
  hr_usedInit : bool;
}.

(** The first chunk becomes the buffer. *)
Definition prime (r : historyReader) : historyReader :=
  if negb (hr_usedInit r) && bool_decide (hr_initial r ≠ [])
  then mkReader (hr_initial r) (hr_done r) (hr_initial r) true else r.

(** One [Read] into a buffer of [n] bytes, when the channel holds [frames] and
    is [closed] after them: what is read and the error.  [None]: it blocks. *)
Definition Read (r : historyReader) (frames : list Frame) (closed : bool) (n : nat) :
    option (bytes * option error * historyReader * list Frame) :=
  let r := prime r in
  if decide (hr_buf r = []) then
    if hr_done r then Some ([], Some EOF, r, frames)
    else
      match frames with
      | [] =>
          if closed then Some ([], Some EOF, mkReader (hr_buf r) true (hr_initial r) (hr_usedInit r), [])
          else None
      | f :: frames =>
          if decide (Type_ f = MsgHistoryEnd) then
            Some ([], Some EOF, mkReader (hr_buf r) true (hr_initial r) (hr_usedInit r), frames)
          else if decide (Type_ f = MsgHistory) then
            Some (take n (Payload f), None,
              mkReader (drop n (Payload f)) (hr_done r) (hr_initial r) (hr_usedInit r), frames)
          else
            Some ([], Some (ENew (#"client: unexpected frame type during history stream: " ++
                MessageType_String (Type_ f))),
              mkReader (hr_buf r) true (hr_initial r) (hr_usedInit r), frames)
      end
  else
    Some (take n (hr_buf r), None,
      mkReader (drop n (hr_buf r)) (hr_done r) (hr_initial r) (hr_usedInit r), frames).

Definition reader_Close (r : historyReader) : historyReader :=
  mkReader (hr_buf r) true (hr_initial r) (hr_usedInit r).

(** [History], once it has written: what it makes of the first frame that
    arrives for it, on the history channel or the response channel.  An empty
    history is a reader that is at its end.  [None]: the frame goes elsewhere. *)
Definition History_first (parse_error : Frame → error) (f : Frame) : option (result historyReader) :=
  match route_of f with
  | ToHandler => None
  | ToHistory =>
      Some (Ok (if decide (Type_ f = MsgHistoryEnd) then mkReader [] true [] true
                else mkReader [] false (Payload f) false))
  | ToResponses =>
      Some (Err (if decide (Type_ f = MsgError) then parse_error f
                 else ENew (#"client: unexpected response type: " ++ MessageType_String (Type_ f))))
  end.

(** [io.ReadAll]: reads into buffers of the sizes given until the end. *)
Fixpoint read_all (fuel : nat) (sizes : nat → nat) (r : historyReader) (frames : list Frame) (closed : bool) :
    option (bytes * option error) :=
  match fuel with
  | O => None
  | Datatypes.S fuel =>
      '(data, e, r, frames) ← Read r frames closed (sizes fuel);
      match e with
      | Some e => Some (data, if decide (e = EOF) then None else Some e)
      | None =>
          '(rest, e) ← read_all fuel sizes r frames closed;
          Some (data ++ rest, e)
      end
  end.

(** ** Lemmas *)

Section Reader.

(** The frames of the chunks and the end of a history. *)
Definition dump_frames (l : list bytes) : list Frame :=
  ((λ ch, mkFrame ProtocolVersion MsgHistory ch) <$> l) ++ [mkFrame ProtocolVersion MsgHistoryEnd []].

(** The first chunk is in the buffer, or there was none. *)
Definition primed (r : historyReader) : Prop := hr_usedInit r = true ∨ hr_initial r = [].

Lemma prime_primed r : primed (prime r).
Proof.
  unfold prime, primed. destruct (hr_usedInit r) eqn:Hu; [by left|]. cbn. case_bool_decide as Hi; [by left|].
  right. by destruct (hr_initial r); [|destruct Hi].
Qed.

Lemma prime_id r : primed r → prime r = r.
Proof. unfold prime. intros [->|Hi]; [done|]. rewrite Hi. cbn. by rewrite andb_false_r. Qed.

Lemma Read_prime r frames closed n : Read r frames closed n = Read (prime r) frames closed n.
Proof. unfold Read. by rewrite (prime_id (prime r)) by apply prime_primed. Qed.

(** Reading to the end gives the buffer and then every chunk; each read takes a
    byte or a frame. *)
Lemma read_all_primed fuel sizes r l closed :
  (∀ i, (0 < sizes i)%nat) → primed r → hr_done r = false → Forall (λ ch, ch ≠ []) l →
  (length (hr_buf r) + length (concat l) < fuel)%nat →
  read_all fuel sizes r (dump_frames l) closed = Some (hr_buf r ++ concat l, None).
Proof.
  intros Hs. revert r l. induction fuel as [|fuel IH]; intros r l Hp Hd Hl Hf; [lia|].
  cbn [read_all]. unfold Read. rewrite prime_id by done. specialize (Hs fuel) as Hsize.
  case_decide as Hb; [rewrite Hd; destruct l as [|ch l]|].
  - cbn. by rewrite Hb.
  - apply Forall_cons in Hl as [Hch Hl]. unfold dump_frames at 1. cbn [fmap list_fmap app Type_ Payload].
    rewrite decide_False, decide_True by done. cbn [mbind option_bind]. rewrite Hb in *. cbn [length concat] in *.
    rewrite length_app in Hf. fold (dump_frames l). rewrite IH.
    + cbn [mbind option_bind hr_buf]. by rewrite app_assoc, take_drop.
    + exact Hp.
    + done.
    + done.
    + cbn [hr_buf]. rewrite length_drop. destruct ch; [done|]. cbn [length] in *. lia.
  - cbn [mbind option_bind]. rewrite IH.
    + cbn [mbind option_bind hr_buf]. by rewrite app_assoc, take_drop.
    + exact Hp.
    + done.
    + done.
    + cbn [hr_buf]. rewrite length_drop. destruct (hr_buf r); [done|]. cbn [length] in *. lia.
Qed.

Lemma read_all_dump fuel sizes ch l closed :
  (∀ i, (0 < sizes i)%nat) → Forall (λ ch, ch ≠ []) (ch :: l) → (length (concat (ch :: l)) < fuel)%nat →
  read_all fuel sizes (mkReader [] false ch false) (dump_frames l) closed = Some (concat (ch :: l), None).
Proof.
  intros Hs [Hch Hl]%Forall_cons Hf. destruct fuel as [|fuel]; [lia|].
  assert (Hp : prime (mkReader [] false ch false) = mkReader ch false ch true)
    by (unfold prime; cbn; by rewrite bool_decide_eq_true_2).
  assert (Heq : read_all (Datatypes.S fuel) sizes (mkReader [] false ch false) (dump_frames l) closed =
    read_all (Datatypes.S fuel) sizes (mkReader ch false ch true) (dump_frames l) closed)
    by (cbn [read_all]; by rewrite Read_prime, Hp).
  rewrite Heq. cbn [concat] in *. rewrite length_app in Hf. by apply read_all_primed; [|left|..].
Qed.
End Reader.

(** ** Theorems *)

Section History.

Context {S : Type} `{SessionManagerLaws S}.

Context (J : Json) (E : ReplyJson) (stamp : time → bytes) (stat_ok : bytes → bool).

End History.

(** ** An example *)

(** An emulator whose screen is what was written to it. *)
#[export] Instance transcript_emulator : ScreenEmulator bytes := {|
  Process e p := e ++ p;
  Emulator_Snapshot e := e;
  Emulator_Resize e _ _ := e;
  SetScrollbackSize _ := None;
  Emulator_Closer _ := false;
|}.

#[export] Instance transcript_manager : SessionManager (manager (E := bytes)) := sessionAdapter example_answers.

#[export] Instance transcript_laws : SessionManagerLaws (manager (E := bytes)) := sessionAdapter_laws example_answers.

(** A daemon with one session, whose screen shows a prompt. *)
Definition transcript_daemon : Daemon (manager (E := bytes)) :=
  NewDaemon example_config
    (snd (sm_Create (mkManager (Session.NewService (E := bytes) 0 true true (Some (λ _ _ _, #"$ ls"))) 0 []) #"a"
       (mkCreateOptions #"/bin/sh" [] 80 24 #"/" []))) None None None (mkFS ∅ ∅).

Definition example_replies : ReplyJson := {| enc_response _ := #"{}"; enc_error m := m |}.

