(* ===== verification/ClientStream.v ===== *)
(** * A client's connection: [readStream], [readControl], [Close], [OnData], [OnEvent] of [pkg/client]

    The two goroutines that [connect] starts.  [readStream] reads the frames of
    the stream channel and calls the data handler.  [readControl] routes those
    of the control channel to the event handler and to two channels with room
    for one response and four history frames, on which it blocks when they are
    full and which it closes when the connection ends; callers of [sendRequest],
    [History] and the history reader receive from them. *)

From S2P Require Import Prelude Files GoStrings Protocol Payload DaemonTypes Daemon ClientHistory.

(** ** The stream channel *)

(** What is done with one frame: a call of the handler, when there is one. *)
Definition stream_call (handler : bool) (f : Frame) : list (bytes * bytes) :=
  if decide (Type_ f = MsgData) then
    match decodeDataPayload (Payload f) with
    | Ok (sessionID, data) => if handler then [(sessionID, data)] else []
    | Err _ => []
    end
  else [].

(** The calls of the data handler: [handler i] is whether [OnData] has
    registered one when the frame number [i] has been read.  [None]: out of
    fuel. *)
Fixpoint readStream (fuel : nat) (handler : nat → bool) (i : nat) (r : reader) : option (list (bytes * bytes)) :=
  match fuel with
  | O => None
  | S fuel =>
      match ReadFrame r with
      | (Err _, _) => Some []
      | (Ok f, r) =>
          calls ← readStream fuel handler (S i) r;
          Some (stream_call (handler i) f ++ calls)
      end
  end.

(** ** The control channel *)

Record Event (V : Type) := mkEvent { ev_Type : bytes; ev_SessionID : bytes; ev_Data : option V }.
Arguments mkEvent {V}.
Arguments ev_Type {V}.
Arguments ev_SessionID {V}.
Arguments ev_Data {V}.

(** [unread] are the frames that are on the socket, [ended] is whether no more
    will come, [closed] whether [Close] was called, [held] the frame that
    [readControl] is sending on a channel, [returned] whether it has returned
    and so closed the channels.  The last four fields keep what has happened:
    the frames that arrived, those received from each channel, and the calls of
    the event handler. *)
Record Control (V : Type) := mkControl {
  unread : list Frame;
  ended : bool;
  closed : bool;
  held : option Frame;
  returned : bool;
  responses : list Frame;
  history : list Frame;
  evtHandler : bool;
  arrived : list Frame;
  answered : list Frame;
  streamed : list Frame;
  handled : list (Event V);
}.
Arguments mkControl {V}.
Arguments unread {V}.
Arguments ended {V}.
Arguments closed {V}.
Arguments held {V}.
Arguments returned {V}.
Arguments responses {V}.
Arguments history {V}.
Arguments evtHandler {V}.
Arguments arrived {V}.
Arguments answered {V}.
Arguments streamed {V}.
Arguments handled {V}.

Definition responses_cap : nat := 1.

Definition history_cap : nat := 4.

(** The client that [connect] makes. *)
Definition new_client {V} : Control V := mkControl [] false false None false [] [] false [] [] [] [].

Inductive cevent :=
  | Arrive (f : Frame)      (** the daemon writes a frame *)
  | PeerEnds                (** the daemon goes away *)
  | CloseClient             (** [Close] *)
  | OnEvent (h : bool)      (** [OnEvent], with a handler or with none *)
  | ReadNext                (** [readControl] reads *)
  | Put                     (** and gets its frame into a channel *)
  | TakeResponse            (** [sendRequest], [History] or a drain receives *)
  | TakeHistory.            (** [History] or the history reader receives *)

#[export] Instance cevent_eq_decision : EqDecision cevent.
Proof. solve_decision. Defined.

Section Control.

(** [json.Unmarshal] into an event: what it makes of the event, and its error. *)
Context {V : Type} (unmarshal : bytes → Event V → Event V * option error).

Definition decodeEvent (payload : bytes) : Event V := fst (unmarshal payload (mkEvent [] [] None)).

(** [None]: the second call panics.  The frames that were not read are lost. *)
Definition Close (s : Control V) : option (Control V) :=
  if closed s then None
  else Some (mkControl [] true true (held s) (returned s) (responses s) (history s) (evtHandler s)
    (arrived s) (answered s) (streamed s) (handled s)).

Definition readControl_read (s : Control V) : option (Control V) :=
  if returned s then None
  else
    match held s, unread s with
    | Some _, _ => None
    | None, [] =>
        if ended s then
          Some (mkControl [] (ended s) (closed s) None true (responses s) (history s) (evtHandler s)
            (arrived s) (answered s) (streamed s) (handled s))
        else None
    | None, f :: fs =>
        match route_of f with
        | ToHandler =>
            Some (mkControl fs (ended s) (closed s) None false (responses s) (history s) (evtHandler s)
              (arrived s) (answered s) (streamed s)
              (handled s ++ if evtHandler s then [decodeEvent (Payload f)] else []))
        | _ =>
            Some (mkControl fs (ended s) (closed s) (Some f) false (responses s) (history s) (evtHandler s)
              (arrived s) (answered s) (streamed s) (handled s))
        end
    end.

Definition readControl_put (s : Control V) : option (Control V) :=
  f ← held s;
  match route_of f with
  | ToHistory =>
      if decide (length (history s) < history_cap) then
        Some (mkControl (unread s) (ended s) (closed s) None (returned s) (responses s) (history s ++ [f])
          (evtHandler s) (arrived s) (answered s) (streamed s) (handled s))
      else None
  | _ =>
      if decide (length (responses s) < responses_cap) then
        Some (mkControl (unread s) (ended s) (closed s) None (returned s) (responses s ++ [f]) (history s)
          (evtHandler s) (arrived s) (answered s) (streamed s) (handled s))
      else None
  end.

(** What a receive gives: a frame, or that the channel is closed; [None]: it
    blocks. *)
Definition channel_receive (channel : list Frame) (is_closed : bool) : option (option Frame * list Frame) :=
  match channel with
  | f :: fs => Some (Some f, fs)
  | [] => if is_closed then Some (None, []) else None
  end.

Definition take_response (s : Control V) : option (option Frame * Control V) :=
  '(f, fs) ← channel_receive (responses s) (returned s);
  Some (f, mkControl (unread s) (ended s) (closed s) (held s) (returned s) fs (history s) (evtHandler s)
    (arrived s) (answered s ++ option_list f) (streamed s) (handled s)).

Definition take_history (s : Control V) : option (option Frame * Control V) :=
  '(f, fs) ← channel_receive (history s) (returned s);
  Some (f, mkControl (unread s) (ended s) (closed s) (held s) (returned s) (responses s) fs (evtHandler s)
    (arrived s) (answered s) (streamed s ++ option_list f) (handled s)).

(** [None]: the event cannot happen now (or, for [CloseClient], panics). *)
Definition control_step (s : Control V) (e : cevent) : option (Control V) :=
  match e with
  | Arrive f =>
      if ended s then None
      else Some (mkControl (unread s ++ [f]) (ended s) (closed s) (held s) (returned s) (responses s) (history s)
        (evtHandler s) (arrived s ++ [f]) (answered s) (streamed s) (handled s))
  | PeerEnds =>
      Some (mkControl (unread s) true (closed s) (held s) (returned s) (responses s) (history s)
        (evtHandler s) (arrived s) (answered s) (streamed s) (handled s))
  | CloseClient => Close s
  | OnEvent h =>
      Some (mkControl (unread s) (ended s) (closed s) (held s) (returned s) (responses s) (history s)
        h (arrived s) (answered s) (streamed s) (handled s))
  | ReadNext => readControl_read s
  | Put => readControl_put s
  | TakeResponse => snd <$> take_response s
  | TakeHistory => snd <$> take_history s
  end.

Fixpoint control_run (s : Control V) (es : list cevent) : option (Control V) :=
  match es with
  | [] => Some s
  | e :: es => s ← control_step s e; control_run s es
  end.

(** ** The callers *)

Definition ErrClosed : error := ENew #"client: connection closed".

(** What [sendRequest] returns when its receive does. *)
Definition sendRequest_result (f : option Frame) : result Frame :=
  match f with
  | Some f => Ok f
  | None => Err ErrClosed
  end.

(** [History], whose [select] has received from one of the channels. *)
Definition History_result (parse_error : Frame → error) (f : option Frame) : option (result historyReader) :=
  match f with
  | Some f => History_first parse_error f
  | None => Some (Err ErrClosed)
  end.

(** [History]: [write] is the error of writing a frame, [received] what the
    [select] receives.  [None]: it cannot receive that. *)
Definition client_History (marshal : HistoryRequest → result bytes) (write : Frame → option error)
    (parse_error : Frame → error) (req : HistoryRequest) (received : option Frame) : option (result historyReader) :=
  match marshal req with
  | Err e => Some (Err (EWrap #"client: marshal history" e))
  | Ok payload =>
      match write (mkFrame ProtocolVersion MsgHistory payload) with
      | Some e => Some (Err (EWrap #"client: write history" e))
      | None => History_result parse_error received
      end
  end.

(** ** Lemmas *)

Definition on (r : route) (fs : list Frame) : list Frame := filter (λ f, route_of f = r) fs.

(** What has been taken from a channel, what is in it and what is on the way are
    the frames that arrived for it; [Close] may lose the last of them. *)
Definition kept (r : route) (arr taken channel : list Frame) (hd : option Frame) (un : list Frame) (cl : bool) : Prop :=
  ∃ lost, on r arr = taken ++ channel ++ on r (option_list hd) ++ on r un ++ lost ∧ (cl = false → lost = []).

(** The same for the calls of the event handler, which the events that are read
    while there is none do not cause. *)
Definition events_kept (arr : list Frame) (calls : list (Event V)) (un : list Frame) (cl : bool) : Prop :=
  ∃ seen, kept ToHandler arr seen [] None un cl ∧ calls `sublist_of` ((λ f, decodeEvent (Payload f)) <$> seen).

Record invariant (s : Control V) : Prop := mkInvariant {
  inv_history : kept ToHistory (arrived s) (streamed s) (history s) (held s) (unread s) (closed s);
  inv_responses : kept ToResponses (arrived s) (answered s) (responses s) (held s) (unread s) (closed s);
  inv_events : events_kept (arrived s) (handled s) (unread s) (closed s);
  inv_room : length (responses s) ≤ responses_cap ∧ length (history s) ≤ history_cap;
  inv_held : ∀ f, held s = Some f → route_of f ≠ ToHandler ∧ returned s = false;
  inv_closed : closed s = true → ended s = true;
  inv_returned : returned s = true → unread s = [] ∧ ended s = true;
}.

Lemma on_app r fs gs : on r (fs ++ gs) = on r fs ++ on r gs.
Proof. apply filter_app. Qed.

Lemma on_cons r f fs : on r (f :: fs) = on r [f] ++ on r fs.
Proof. by rewrite <- on_app. Qed.

Lemma on_same f : on (route_of f) [f] = [f].
Proof. unfold on. by rewrite filter_cons_True. Qed.

Lemma on_other r f : route_of f ≠ r → on r [f] = [].
Proof. intros H. unfold on. by rewrite filter_cons_False. Qed.

Lemma kept_arrive r arr t c h u f : kept r arr t c h u false → kept r (arr ++ [f]) t c h (u ++ [f]) false.
Proof.
  intros (lost & Heq & Hl). exists []. split; [|done].
  rewrite !on_app, Heq, (Hl eq_refl), !app_nil_r. by rewrite <- !app_assoc.
Qed.

Lemma kept_close r arr t c h u cl : kept r arr t c h u cl → kept r arr t c h [] true.
Proof. intros (lost & Heq & Hl). by exists (on r u ++ lost). Qed.

Lemma kept_read r arr t c f u cl : kept r arr t c None (f :: u) cl → kept r arr t c (Some f) u cl.
Proof. intros (lost & Heq & Hl). exists lost. split; [|done]. rewrite Heq, on_cons. by rewrite <- app_assoc. Qed.

Lemma kept_put arr t c f u cl :
  kept (route_of f) arr t c (Some f) u cl → kept (route_of f) arr t (c ++ [f]) None u cl.
Proof.
  intros (lost & Heq & Hl). exists lost. split; [|done]. rewrite Heq. change (option_list (Some f)) with [f]. rewrite on_same.
  by rewrite <- !app_assoc.
Qed.

Lemma kept_other r arr t c f u cl : route_of f ≠ r → kept r arr t c (Some f) u cl → kept r arr t c None u cl.
Proof. intros Hr (lost & Heq & Hl). exists lost. split; [|done]. rewrite Heq. change (option_list (Some f)) with [f]. by rewrite on_other. Qed.

Lemma kept_take r arr t f c h u cl : kept r arr t (f :: c) h u cl → kept r arr (t ++ [f]) c h u cl.
Proof. intros (lost & Heq & Hl). exists lost. split; [|done]. rewrite Heq. by rewrite <- app_assoc. Qed.

(** An event that is read is past, whether or not there is a handler. *)
Lemma events_kept_read arr calls f u cl h :
  route_of f = ToHandler → events_kept arr calls (f :: u) cl →
  events_kept arr (calls ++ if (h : bool) then [decodeEvent (Payload f)] else []) u cl.
Proof.
  intros Hr (seen & Hk & Hs). exists (seen ++ [f]). split.
  - apply kept_read in Hk. rewrite <- Hr in Hk |- *. apply kept_put in Hk.
    destruct Hk as (lost & Heq & Hl). exists lost. split; [|done]. rewrite Heq. by rewrite <- !app_assoc.
  - rewrite fmap_app. apply sublist_app; [done|]. destruct h; [done|apply sublist_nil_l].
Qed.

Lemma events_kept_skip arr calls f u cl :
  route_of f ≠ ToHandler → events_kept arr calls (f :: u) cl → events_kept arr calls u cl.
Proof. intros Hr (seen & Hk & Hs). exists seen. split; [|done]. by apply kept_read, kept_other in Hk. Qed.

Lemma new_client_invariant : invariant new_client.
Proof.
  split; cbn; try done; try by exists [].
  - exists []. split; [by exists []|done].
  - unfold responses_cap. lia.
Qed.

Lemma step_invariant s e s' : invariant s → control_step s e = Some s' → invariant s'.
Proof.
  destruct s as [un en cl hd ret rs hi evh arr ans str hdl]. intros [Hh Hr He Hroom Hheld Hc Hret] Hs.
  destruct e as [f| | |h| | | |]; cbn in *.
  - destruct en; [done|]. injection Hs as <-. assert (cl = false) as -> by (destruct cl; [by destruct Hc|done]).
    split; cbn; try done; try by apply kept_arrive.
    + destruct He as (seen & Hk & Hsub). exists seen. split; [by apply kept_arrive|done].
    + intros ->. by destruct Hret.
  - injection Hs as <-. split; cbn; try done. intros ->. by destruct Hret.
  - unfold Close in Hs. cbn in Hs. destruct cl; [done|]. injection Hs as <-.
    split; cbn; try done; try by eapply kept_close.
    destruct He as (seen & Hk & Hsub). exists seen. split; [by eapply kept_close|done].
  - by injection Hs as <-.
  - unfold readControl_read in Hs. cbn in Hs. destruct ret; [done|]. destruct hd as [f|]; [done|].
    destruct un as [|f un]; [destruct en; [|done]; by injection Hs as <-|].
    destruct (route_of f) eqn:Hrt; injection Hs as <-; split; cbn; try done;
      try (by apply kept_read); try (eapply kept_other; [|by apply kept_read]; congruence);
      try (eapply events_kept_skip; [|eassumption]; congruence); try (intros g [= <-]; split; congruence).
    by apply events_kept_read.
  - unfold readControl_put in Hs. cbn in Hs. destruct hd as [f|]; [|done]. cbn in Hs.
    destruct (Hheld f eq_refl) as [Hnh ->].
    destruct (route_of f) eqn:Hrt; [done| |]; (case_decide; [|done]); injection Hs as <-;
      split; cbn; try done; try (by eapply kept_other; [|eassumption]; congruence);
      try (rewrite <- Hrt in *; by apply kept_put); rewrite length_app; cbn; unfold history_cap, responses_cap in *; lia.
  - unfold take_response in Hs. cbn in Hs. destruct rs as [|f rs]; cbn in Hs.
    + destruct ret; [|done]. injection Hs as <-. cbn. by rewrite app_nil_r.
    + injection Hs as <-. split; cbn in *; try done; [by apply kept_take|lia].
  - unfold take_history in Hs. cbn in Hs. destruct hi as [|f hi]; cbn in Hs.
    + destruct ret; [|done]. injection Hs as <-. cbn. by rewrite app_nil_r.
    + injection Hs as <-. split; cbn in *; try done; [by apply kept_take|lia].
Qed.

Lemma run_invariant es : ∀ s s', invariant s → control_run s es = Some s' → invariant s'.
Proof.
  induction es as [|e es IH]; intros s s' Hi Hr; [by injection Hr as <-|]. cbn in Hr.
  apply bind_Some in Hr as (s1 & Hs & Hr). eapply IH; [|exact Hr]. by eapply step_invariant.
Qed.

(** *** Progress *)

(** A step of [readControl], or a receive that gets a frame. *)
Definition working (s : Control V) (e : cevent) : option (Control V) :=
  match e with
  | ReadNext | Put => control_step s e
  | TakeResponse => if decide (responses s = []) then None else control_step s e
  | TakeHistory => if decide (history s = []) then None else control_step s e
  | _ => None
  end.

Fixpoint work (s : Control V) (es : list cevent) : option (Control V) :=
  match es with
  | [] => Some s
  | e :: es => s ← working s e; work s es
  end.

(** How many such steps are left. *)
Definition weight (s : Control V) : nat :=
  3 * length (unread s) + 2 * length (option_list (held s)) + length (responses s) + length (history s) +
  if returned s then 0 else 1.

Lemma working_step s e s' : working s e = Some s' → control_step s e = Some s'.
Proof. destruct e; cbn -[control_step]; try done; by case_decide. Qed.

Lemma working_spec s e s' :
  working s e = Some s' → weight s' < weight s ∧ ended s' = ended s ∧ closed s' = closed s ∧ arrived s' = arrived s.
Proof.
  intros Hw. destruct s as [un en cl hd ret rs hi evh arr ans str hdl].
  destruct e; cbn in Hw; try done; unfold weight; cbn.
  - unfold readControl_read in Hw. cbn in Hw. destruct ret, hd; try done.
    destruct un as [|f un]; [destruct en; [|done]; injection Hw as <-|destruct (route_of f); injection Hw as <-];
      cbn; split_and!; done || lia.
  - unfold readControl_put in Hw. cbn in Hw. destruct hd as [f|]; [|done]. cbn in Hw.
    destruct (route_of f); (case_decide; [|done]); injection Hw as <-; cbn; rewrite length_app; cbn;
      split_and!; done || lia.
  - destruct rs; [by case_decide|]. rewrite decide_False in Hw by done. injection Hw as <-. cbn. split_and!; done || lia.
  - destruct hi; [by case_decide|]. rewrite decide_False in Hw by done. injection Hw as <-. cbn. split_and!; done || lia.
Qed.

Lemma work_spec es : ∀ s s', invariant s → work s es = Some s' →
  invariant s' ∧ length es + weight s' ≤ weight s ∧ ended s' = ended s ∧ closed s' = closed s ∧ arrived s' = arrived s.
Proof.
  induction es as [|e es IH]; intros s s' Hi Hw; cbn in Hw; [injection Hw as <-; cbn; by split_and!|].
  apply bind_Some in Hw as (s1 & Hs & Hw). apply working_spec in Hs as Hd.
  apply IH in Hw as (Hi' & Hl & He & Hc & Ha); [|by eapply step_invariant, working_step].
  cbn [length]. destruct Hd as (Hd & He1 & Hc1 & Ha1). split_and!; [done|lia|congruence..].
Qed.

(** When no such step is left the goroutine has returned. *)
Lemma stuck_returned s :
  invariant s → ended s = true → (∀ e, working s e = None) →
  returned s = true ∧ unread s = [] ∧ held s = None ∧ responses s = [] ∧ history s = [].
Proof.
  destruct s as [un en cl hd ret rs hi evh arr ans str hdl]. intros Hi He Hw. cbn in *. subst en.
  assert (rs = []) as -> by (destruct rs; [done|]; specialize (Hw TakeResponse); done).
  assert (hi = []) as -> by (destruct hi; [done|]; specialize (Hw TakeHistory); done).
  assert (hd = None) as ->.
  { destruct hd as [f|]; [|done]. specialize (Hw Put). cbn in Hw. unfold readControl_put in Hw. cbn in Hw.
    by destruct (route_of f). }
  specialize (Hw ReadNext). cbn in Hw. unfold readControl_read in Hw. cbn in Hw.
  destruct ret; [|destruct un as [|f un]; [done|by destruct (route_of f)]].
  destruct (inv_returned _ Hi eq_refl) as [Hu _]. cbn in Hu. by subst.
Qed.

(** *** A history that nobody reads *)

(** [readControl] is sending a history frame, and there is no room for it. *)
Definition wedged (s : Control V) : Prop :=
  length (history s) = history_cap ∧ returned s = false ∧ ∃ f, held s = Some f ∧ route_of f = ToHistory.

Lemma wedged_step s e s' :
  e ≠ TakeHistory → wedged s → control_step s e = Some s' →
  wedged s' ∧ answered s' ++ responses s' = answered s ++ responses s ∧ handled s' = handled s.
Proof.
  destruct s as [un en cl hd ret rs hi evh arr ans str hdl]. intros He (Hl & Hret & f & Hhd & Hrt) Hs. cbn in *. subst.
  assert (Hgo : wedged (mkControl un en cl (Some f) false rs hi evh arr ans str hdl)) by (split_and!; eauto).
  destruct e; cbn in Hs; try done.
  - destruct en; [done|]. by injection Hs as <-.
  - by injection Hs as <-.
  - unfold Close in Hs. cbn in Hs. destruct cl; [done|]. by injection Hs as <-.
  - by injection Hs as <-.
  - unfold readControl_put in Hs. cbn in Hs. rewrite Hrt in Hs. case_decide; [lia|done].
  - unfold take_response in Hs. cbn in Hs. destruct rs; [done|]. injection Hs as <-. cbn. by rewrite <- app_assoc.
Qed.

Lemma wedged_run es : ∀ s s', TakeHistory ∉ es → wedged s → control_run s es = Some s' →
  wedged s' ∧ answered s' ++ responses s' = answered s ++ responses s ∧ handled s' = handled s.
Proof.
  induction es as [|e es IH]; intros s s' Hni Hw Hr; cbn in Hr; [by injection Hr as <-|].
  apply not_elem_of_cons in Hni as [Hne Hni]. apply bind_Some in Hr as (s1 & Hs & Hr).
  apply wedged_step in Hs as (Hw1 & Ha & Hh); [|done..]. apply IH in Hr as (Hw2 & Ha2 & Hh2); [|done..].
  split; [done|]. split; congruence.
Qed.

Lemma run_app es1 es2 : ∀ s, control_run s (es1 ++ es2) = s ← control_run s es1; control_run s es2.
Proof. induction es1 as [|e es1 IH]; intros s; [done|]. cbn. destruct (control_step s e); cbn; [apply IH|done]. Qed.

Lemma run_arrive fs : ∀ s, ended s = false →
  control_run s (Arrive <$> fs) = Some (mkControl (unread s ++ fs) (ended s) (closed s) (held s) (returned s)
    (responses s) (history s) (evtHandler s) (arrived s ++ fs) (answered s) (streamed s) (handled s)).
Proof.
  induction fs as [|f fs IH]; intros s He; cbn.
  - rewrite !app_nil_r. by destruct s.
  - rewrite He. cbn. rewrite IH by done. cbn. by rewrite <- !app_assoc.
Qed.
End Control.

(** The first frame is received, and the goroutine goes on as far as it can. *)
Definition abandon : list cevent :=
  [ReadNext; Put; TakeHistory; ReadNext; Put; ReadNext; Put; ReadNext; Put; ReadNext; Put; ReadNext].

Definition history_frame (chunk : bytes) : Frame := mkFrame ProtocolVersion MsgHistory chunk.

Section Abandon.

Context {V : Type} (unmarshal : bytes → Event V → Event V * option error).

Lemma read_history f un rs hi arr ans str hdl :
  route_of f = ToHistory →
  readControl_read (V := V) unmarshal (mkControl (f :: un) false false None false rs hi false arr ans str hdl) =
  Some (mkControl un false false (Some f) false rs hi false arr ans str hdl).
Proof. intros H. unfold readControl_read. cbn -[route_of]. by rewrite H. Qed.

Lemma put_history f un rs hi arr ans str hdl :
  route_of f = ToHistory → length hi < history_cap →
  readControl_put (V := V) (mkControl un false false (Some f) false rs hi false arr ans str hdl) =
  Some (mkControl un false false None false rs (hi ++ [f]) false arr ans str hdl).
Proof. intros H Hl. unfold readControl_put. cbn -[route_of]. rewrite H. by rewrite decide_True. Qed.

Lemma take_history_frame f un rs hi arr ans str hdl :
  snd <$> take_history (V := V) (mkControl un false false None false rs (f :: hi) false arr ans str hdl) =
  Some (mkControl un false false None false rs hi false arr ans (str ++ [f]) hdl).
Proof. done. Qed.

Lemma run_abandon f1 f2 f3 f4 f5 f6 fs arr :
  Forall (λ f, route_of f = ToHistory) [f1; f2; f3; f4; f5; f6] →
  control_run (V := V) unmarshal
    (mkControl (f1 :: f2 :: f3 :: f4 :: f5 :: f6 :: fs) false false None false [] [] false arr [] [] []) abandon =
  Some (mkControl fs false false (Some f6) false [] [f2; f3; f4; f5] false arr [] [f1] []).
Proof.
  intros H. decompose_Forall_hyps. unfold abandon. cbn [control_run control_step].
  repeat (first [rewrite read_history by done | rewrite put_history by (done || (cbn; unfold history_cap; lia))
    | rewrite take_history_frame]; cbn [mbind option_bind app]).
  reflexivity.
Qed.
End Abandon.

(** *** The stream *)

Definition output_frames (pieces : list (bytes * bytes)) : list Frame := (λ '(id, data), data_frame id data) <$> pieces.

(** A piece whose identifier and length fit. *)
Definition sendable (p : bytes * bytes) : Prop :=
  (Z.of_nat (length (fst p)) < 256)%Z ∧ valid_frame (data_frame (fst p) (snd p)).

Lemma sendable_frames pieces : Forall sendable pieces → Forall valid_frame (output_frames pieces).
Proof. intros H. apply Forall_fmap. eapply Forall_impl; [exact H|]. by intros [id data] [_ Hv]. Qed.

Lemma stream_call_output h id data :
  (Z.of_nat (length id) < 256)%Z → stream_call h (data_frame id data) = if h then [(id, data)] else [].
Proof.
  intros Hl. unfold stream_call, data_frame. cbn [Type_ Payload]. rewrite decide_True by done.
  assert (Hp : AcquireDataPayload [] id data = EncodeDataPayload id data)
    by done.
  rewrite Hp. unfold decodeDataPayload. by rewrite decode_payload_encode.
Qed.


(** The calls from the frame number [i] on. *)
Fixpoint calls_from (h : nat → bool) (i : nat) (pieces : list (bytes * bytes)) : list (bytes * bytes) :=
  match pieces with
  | [] => []
  | p :: pieces => (if h i then [p] else []) ++ calls_from h (S i) pieces
  end.

Lemma calls_from_drop k pieces : ∀ i, calls_from (λ j, bool_decide (k ≤ j)) i pieces = drop (k - i) pieces.
Proof.
  induction pieces as [|p pieces IH]; intros i; [by rewrite drop_nil|]. cbn. rewrite IH.
  case_bool_decide as Hk.
  - replace (k - i) with 0 by lia. replace (k - S i) with 0 by lia. done.
  - by replace (k - i) with (S (k - S i)) by lia.
Qed.

Lemma ReadFrame_cut f n :
  valid_frame f → n < length (wire f) → ∃ e r, ReadFrame (Protocol.mkReader (take n (wire f)) None) = (Err e, r).
Proof.
  intros Hv Hn. pose proof (Decode_truncated f n Hv Hn) as Hd. unfold ReadFrame.
  destruct (Decode _) as [res r]. cbn in Hd. subst res. by eexists _, _.
Qed.

(** Whatever the connection lost, the calls are those of the first pieces. *)
Lemma readStream_cut h pieces : Forall sendable pieces → ∀ n i fuel, length pieces < fuel →
  ∃ m, readStream fuel h i (Protocol.mkReader (take n (concat (wire <$> output_frames pieces))) None) =
    Some (calls_from h i (take m pieces)) ∧
    (length (concat (wire <$> output_frames pieces)) ≤ n → m = length pieces).
Proof.
  induction pieces as [|[id data] pieces IH]; intros Hp n i fuel Hf; (destruct fuel as [|fuel]; [cbn in Hf; lia|]).
  - exists 0. cbn. by rewrite take_nil.
  - apply Forall_cons in Hp as [[Hl Hv] Hp]. cbn [fst snd] in Hl, Hv.
    unfold output_frames. rewrite fmap_cons. fold (output_frames pieces).
    rewrite fmap_cons. cbn [concat]. cbn [length] in Hf.
    destruct (decide (n < length (wire (data_frame id data)))) as [Hn|Hn].
    + rewrite take_app_le by lia. destruct (ReadFrame_cut _ n Hv Hn) as (e & r & Hr).
      exists 0. cbn [readStream]. rewrite Hr. split; [done|]. rewrite length_app. lia.
    + rewrite take_app_ge by lia.
      destruct (IH Hp (n - length (wire (data_frame id data))) (S i) fuel ltac:(lia)) as (m & Hm & Hall).
      exists (S m). cbn [readStream]. unfold ReadFrame. rewrite Decode_wire by done. cbn [wrap_err].
      rewrite Hm. cbn [mbind option_bind]. rewrite stream_call_output by done. split; [done|].
      rewrite length_app. intros Hle. cbn [length]. rewrite Hall; lia.
Qed.

(** ** Theorems *)

(** Whatever the daemon writes for a client on the stream channel, the data
    handler gets: pieces of output that fit are handled one by one, in order,
    from the first that is read after the handler was registered, unchanged and
    under the right session.  When the connection breaks in the middle, at
    whatever byte, what was handled is the beginning of it, and the goroutine
    ends. *)
Theorem output_is_handled_in_order pieces k werr :
  Forall sendable pieces →
  ∃ out, write_all (mkWriter [] None werr) (output_frames pieces) = (None, mkWriter out None werr) ∧
    ∀ fuel n, length pieces < fuel →
      let calls n := readStream fuel (λ i, bool_decide (k ≤ i)) 0 (Protocol.mkReader (take n out) None) in
      (length out ≤ n → calls n = Some (drop k pieces)) ∧
      ∃ m, calls n = Some (drop k (take m pieces)).
Proof.
  intros Hp. exists (concat (wire <$> output_frames pieces)). split.
  - rewrite write_all_valid; [done|done|by apply sendable_frames].
  - intros fuel n Hf. cbn zeta. destruct (readStream_cut (λ i, bool_decide (k ≤ i)) pieces Hp n 0 fuel Hf) as (m & Hm & Hall).
    rewrite Hm, calls_from_drop, Nat.sub_0_r. split; [|by exists m]. intros Hle. by rewrite (Hall Hle), firstn_all.
Qed.

Section Control.

Context {V : Type} (unmarshal : bytes → Event V → Event V * option error).

(** C12: in every reachable state of a client's connection, what the callers have
    received of responses and of history frames is the beginning of what the
    daemon sent of each, in order, whatever came in between, and the event
    handler has been given events that were sent, in order, each once; the
    channels never hold more than one response and four history frames.  Unless
    the client was closed, what a caller has not received yet is in the channel,
    held by the goroutine or on the socket. *)
Theorem frames_are_demultiplexed_in_order es s :
  control_run unmarshal new_client es = Some s →
  answered s `prefix_of` on ToResponses (arrived s) ∧ streamed s `prefix_of` on ToHistory (arrived s) ∧
  handled s `sublist_of` ((λ f, decodeEvent unmarshal (Payload f)) <$> on ToHandler (arrived s)) ∧
  length (responses s) ≤ responses_cap ∧ length (history s) ≤ history_cap ∧
  (closed s = false →
    on ToResponses (arrived s) =
      answered s ++ responses s ++ on ToResponses (option_list (held s)) ++ on ToResponses (unread s) ∧
    on ToHistory (arrived s) =
      streamed s ++ history s ++ on ToHistory (option_list (held s)) ++ on ToHistory (unread s)).
Proof.
  intros Hr. apply run_invariant in Hr; [|apply new_client_invariant].
  destruct Hr as [(l1 & Hh & Hh0) (l2 & Hrs & Hrs0) (seen & (l3 & He & _) & Hsub) [Hr1 Hr2] _ _ _].
  split_and!; try done.
  - rewrite Hrs. by eexists.
  - rewrite Hh. by eexists.
  - rewrite He, fmap_app. etrans; [exact Hsub|]. apply sublist_inserts_r. done.
  - intros Hc. rewrite (Hh0 Hc), (Hrs0 Hc), !app_nil_r in *. done.
Qed.

(** C11: a connection that has ended releases everybody.  However the goroutine
    and the receivers of the two channels take turns, at most [weight s] steps
    are left; and when none is left every frame that was still on the socket has
    been received, and every caller that waits, or will wait, for a response or
    for a history gets the error that the connection is closed. *)
Theorem ended_connection_releases_callers es s steps s' parse_error :
  control_run unmarshal new_client es = Some s → ended s = true → work unmarshal s steps = Some s' →
  length steps ≤ weight s ∧
  ((∀ e, working unmarshal s' e = None) →
    (closed s = false → answered s' = on ToResponses (arrived s) ∧ streamed s' = on ToHistory (arrived s)) ∧
    (sendRequest_result ∘ fst) <$> take_response s' = Some (Err ErrClosed) ∧
    ((History_result parse_error ∘ fst) <$> take_response s' = Some (Some (Err ErrClosed))) ∧
    ((History_result parse_error ∘ fst) <$> take_history s' = Some (Some (Err ErrClosed)))).
Proof.
  intros Hr He Hw. apply run_invariant in Hr; [|apply new_client_invariant].
  apply work_spec in Hw as (Hi & Hl & He' & Hc & Ha); [|done]. split; [lia|]. intros Hstuck.
  apply stuck_returned in Hstuck as (Hret & Hu & Hh & Hrs & Hhi); [|done|congruence].
  split_and!.
  - intros Hcl. rewrite <- Ha. rewrite <- Hc in Hcl.
    destruct Hi as [(l1 & Hk & Hk0) (l2 & Hk' & Hk0') _ _ _ _ _].
    rewrite Hk, Hk', (Hk0 Hcl), (Hk0' Hcl), Hu, Hh, Hrs, Hhi. cbn. by rewrite !app_nil_r.
  - unfold take_response. by rewrite Hrs, Hret.
  - unfold take_response. by rewrite Hrs, Hret.
  - unfold take_history. by rewrite Hhi, Hret.
Qed.

(** C13: a history that is not read to its end stays in the client.  When a
    caller has closed its reader after the first of five chunks or more, the
    next call of [History], for whatever session, is given the rest of that
    history as its own; and
    until somebody reads it nothing else reaches anybody: no request gets a
    response, no event is handled, and the goroutine does not end, even when
    the client is closed. *)
Theorem abandoned_history_blocks_the_client l marshal write parse_error req payload :
  5 ≤ length l → marshal req = Ok payload → write (mkFrame ProtocolVersion MsgHistory payload) = None →
  ∃ es s, control_run unmarshal new_client ((Arrive <$> dump_frames l) ++ es) = Some s ∧
    streamed s = take 1 (dump_frames l) ∧
    (∃ chunk, l !! 1 = Some chunk ∧
      (client_History marshal write parse_error req ∘ fst) <$> take_history s =
        Some (Some (Ok (mkReader [] false chunk false)))) ∧
    ∀ es' s', TakeHistory ∉ es' → control_run unmarshal s es' = Some s' →
      answered s' = [] ∧ handled s' = [] ∧ returned s' = false.
Proof.
  destruct l as [|c1 [|c2 [|c3 [|c4 [|c5 l]]]]]; cbn [length]; try lia. intros _ Hm Hwr.
  assert (Hd : ∃ f fs, dump_frames (c1 :: c2 :: c3 :: c4 :: c5 :: l) =
      history_frame c1 :: history_frame c2 :: history_frame c3 :: history_frame c4 :: history_frame c5 :: f :: fs ∧
      route_of f = ToHistory) by (destruct l as [|c6 l]; eexists _, _; split; reflexivity).
  destruct Hd as (f & fs & Hd & Hf). exists abandon. eexists. rewrite Hd. split; [|split; [|split]].
  - rewrite run_app, run_arrive by done. cbn [mbind option_bind]. apply run_abandon. by repeat constructor.
  - reflexivity.
  - exists c2. split; [done|]. cbn. unfold client_History. by rewrite Hm, Hwr.
  - intros es s' Hni Hrun. apply wedged_run in Hrun as ((_ & Hret & _) & Ha & Hhd); [|done|by split_and!; [..|exists f]].
    apply app_eq_nil in Ha as [Ha _]. by split_and!.
Qed.
End Control.

(** ** Witnesses *)

Section Witnesses.

Definition no_events (payload : bytes) (e : Event unit) : Event unit * option error := (e, None).

Lemma output_is_handled_in_order_witness :
  ∃ out, write_all (mkWriter [] None EOF) (output_frames [(#"a", #"ls"); (#"b", #"ok")]) = (None, mkWriter out None EOF) ∧
    readStream 3 (λ i, bool_decide (1 ≤ i)) 0 (Protocol.mkReader (take 30 out) None) = Some [(#"b", #"ok")].
Proof.
  assert (Hs : Forall sendable [(#"a", #"ls"); (#"b", #"ok")]) by (repeat constructor; vm_compute; done).
  destruct (output_is_handled_in_order [(#"a", #"ls"); (#"b", #"ok")] 1 EOF Hs) as (out & Hw & Hc).
  exists out. split; [exact Hw|]. refine (proj1 (Hc 3 30 ltac:(cbn; lia)) _).
  vm_compute in Hw. injection Hw as <-. cbn. lia.
Defined.

Definition reply_frame : Frame := mkFrame ProtocolVersion MsgOK #"{}".

Lemma frames_are_demultiplexed_in_order_witness :
  ∃ s, control_run no_events new_client
      [Arrive (history_frame #"x"); Arrive reply_frame; ReadNext; Put; ReadNext; Put; TakeResponse] = Some s ∧
    answered s = [reply_frame] ∧ answered s `prefix_of` on ToResponses (arrived s).
Proof.
  destruct (control_run no_events new_client
    [Arrive (history_frame #"x"); Arrive reply_frame; ReadNext; Put; ReadNext; Put; TakeResponse]) as [s|] eqn:Hr;
    [|vm_compute in Hr; discriminate].
  exists s. split; [done|]. split; [vm_compute in Hr; by injection Hr as <-|].
  exact (proj1 (frames_are_demultiplexed_in_order no_events _ s Hr)).
Defined.

Lemma ended_connection_releases_callers_witness :
  ∃ s s', control_run no_events new_client [Arrive reply_frame; PeerEnds] = Some s ∧
    work no_events s [ReadNext; Put; TakeResponse; ReadNext] = Some s' ∧ 4 ≤ weight s ∧
    (sendRequest_result ∘ fst) <$> take_response s' = Some (Err ErrClosed).
Proof.
  destruct (control_run no_events new_client [Arrive reply_frame; PeerEnds]) as [s|] eqn:Hr; [|vm_compute in Hr; discriminate].
  exists s. destruct (work no_events s [ReadNext; Put; TakeResponse; ReadNext]) as [s'|] eqn:Hw;
    [|vm_compute in Hr; injection Hr as <-; vm_compute in Hw; discriminate].
  exists s'. split; [done|]. split; [done|].
  assert (He : ended s = true) by (vm_compute in Hr; by injection Hr as <-).
  destruct (ended_connection_releases_callers no_events _ s _ s' (λ _, EOF) Hr He Hw) as [Hl Hd].
  split; [exact Hl|]. refine (proj1 (proj2 (Hd _))).
  vm_compute in Hr. injection Hr as <-. vm_compute in Hw. injection Hw as <-. by intros [].
Defined.

Lemma abandoned_history_blocks_the_client_witness :
  let l := replicate 5 #"x" in
  5 ≤ length l ∧
  ∃ es s, control_run no_events new_client ((Arrive <$> dump_frames l) ++ es) = Some s ∧
    streamed s = take 1 (dump_frames l) ∧
    ∀ es' s', TakeHistory ∉ es' → control_run no_events s es' = Some s' → answered s' = [].
Proof.
  split; [cbn; lia|].
  destruct (abandoned_history_blocks_the_client no_events (replicate 5 #"x") (λ _, Ok #"{}") (λ _, None) (λ _, EOF)
    (mkHistoryRequest #"b" #"ansi" 0) #"{}" ltac:(cbn; lia) eq_refl eq_refl) as (es & s & Hr & Hs & _ & Hb).
  exists es, s. split; [exact Hr|]. split; [exact Hs|]. intros es' s' Hni Hr'. by destruct (Hb es' s' Hni Hr').
Defined.
End Witnesses.
