(* ===== verification/Adapters.v ===== *)
(** * The adapters of [pkg/client/adapter.go], and output from end to end

    The transport server and its clients as the daemon sees them, and an
    emulator of the client library's interface as the session service sees it
    (the adapter of the session service is in [SessionManager]).  Through them
    the daemon's output, the transport's registry, the wire format and the
    client's goroutine fit together. *)

From S2P Require Import Prelude Files GoStrings Protocol Payload Pipeline SessionManager DaemonTypes Daemon DaemonExample DaemonLemmas DaemonClients ClientStream.
From S2P Require Transport Session.

(** ** The transport server *)

Section Server.

Context (write_err : nat → Frame → option error).

Definition adapter_BroadcastTo (s : Transport.Server) (clientID : bytes) (f : Frame) : option error * list Transport.effect :=
  let (e, eff) := Transport.BroadcastTo write_err s clientID f in (EWrap #"server adapter: broadcast" <$> e, eff).

(** The error of [Serve] of the server. *)
Definition adapter_Serve (e : option error) : option error := EWrap #"server adapter: serve" <$> e.

Definition adapter_ClientID (c : Transport.Client) : bytes := Transport.ID c.

Definition adapter_Control (c : Transport.Client) : option nat := Transport.Control c.

(** What becomes of the frames that the daemon sends: [srv i] is the server when
    the frame number [i] is sent. *)
Fixpoint transported (srv : nat → Transport.Server) (i : nat) (l : list (bytes * Frame)) : list Transport.effect :=
  match l with
  | [] => []
  | (c, f) :: l => snd (adapter_BroadcastTo (srv i) c f) ++ transported srv (S i) l
  end.
End Server.

(** The frames written to a connection. *)
Definition written (conn : nat) (l : list Transport.effect) : list Frame :=
  omap (λ x, match x with Transport.WriteTo conn' f => if decide (conn' = conn) then Some f else None | _ => None end) l.

Definition stream_of (s : Transport.Server) (c : bytes) : option nat :=
  '(_, cl) ← Transport.lookup_client s c; Transport.Stream cl.

(** ** Emulators *)

(** [client.ScreenEmulator], and the methods that only some emulators have:
    [SetScrollbackSize], and [Close]. *)
Class ClientEmulator (E : Type) := {
  em_Process : E → bytes → E;
  em_Snapshot : E → bytes;
  em_Resize : E → Z → Z → E;
  em_SetScrollbackSize : option (E → Z → E);
  em_Close : option (E → option error * E);
}.

(** [screenEmulatorAdapter]; it has no [Close]. *)
Definition screenEmulatorAdapter (E : Type) `{ClientEmulator E} : ScreenEmulator E := {|
  Process := em_Process;
  Emulator_Snapshot := em_Snapshot;
  Emulator_Resize := em_Resize;
  SetScrollbackSize em := Some (λ lines, match em_SetScrollbackSize with Some set => set em lines | None => em end);
  Emulator_Closer _ := false;
|}.

#[local] Existing Instance screenEmulatorAdapter.

(** [emulatorFactoryAdapter.Create], over the factory's. *)
Definition factory_Create {E} (create : bytes → Z → Z → E) (sessionID : bytes) (cols rows : Z) : E :=
  create sessionID cols rows.

(** The adapter hides what an emulator can do besides the three methods of
    its interface.  A session's emulator that has a [Close] is not closed when
    the session's process exits; and one whose scrollback cannot be configured
    takes any size of it without the error that is for this. *)
Theorem adapted_emulators_are_never_closed {E} `{ClientEmulator E} (s : Session.Service (E := E)) ptr code now id lines em ms :
  (∀ id', Session.CloseEmulator id' ∉ fst (Session.waitLoop s ptr code now)) ∧
  (Session.lookup s id = Some (ptr, ms) → p_emulator (Session.pipe ms) = inl em → em_SetScrollbackSize = None →
   fst (Session.UpdateEmulatorScrollback s id lines) = None).
Proof.
  split.
  - intros id'. unfold Session.waitLoop. destruct (Session.store s !! ptr) as [ms0|]; [|apply not_elem_of_nil].
    unfold Session.close_pty. assert (Hc : ∀ e : E + NoneEmulator, Emulator_Closer e = false) by by intros [].
    case_match eqn:Hcl. cbn [fst]. rewrite Hc. repeat case_match; simplify_eq; cbn [fst]; set_solver.
  - intros Hl He _. unfold Session.UpdateEmulatorScrollback. by rewrite Hl, He.
Qed.

(** ** Output from end to end *)

(** Frames of output for clients. *)
Definition output_to (l : list (bytes * (bytes * bytes))) : list (bytes * Frame) :=
  (λ '(c, p), (c, data_frame (fst p) (snd p))) <$> l.

(** The pieces for one client. *)
Definition for_client (c : bytes) (l : list (bytes * (bytes * bytes))) : list (bytes * bytes) :=
  omap (λ '(c', p), if decide (c' = c) then Some p else None) l.

Lemma length_for_client c l : (length (for_client c l) ≤ length l)%nat.
Proof. induction l as [|[c' p] l IH]; [done|]. unfold for_client in *. cbn. case_decide; cbn; lia. Qed.

Section Output.

Context {S : Type} `{Drains S}.

Context (url : bytes → option bytes) (J : Json) (stamp : time → bytes) (stat_ok : bytes → bool).

Lemma frames_for_output a log : ∃ l, frames_for a log = output_to l ∧ ∀ x, x ∈ l → snd x ∈ log.
Proof using Type.
  clear. exists (log ≫= (λ p, (λ c, (c, p)) <$> elements (default ∅ (a !! fst p)))). split.
  - unfold frames_for, output_to. induction log as [|[id data] log IH]; [done|]. cbn [mbind list_bind fst].
    rewrite fmap_app, <- list_fmap_compose, IH. done.
  - intros x [p [Hx Hp]]%list_elem_of_bind. apply list_elem_of_fmap in Hx as (c & -> & _). done.
Qed.

(** Whatever the daemon does, what it sends are frames of output that it drained. *)
Lemma exec_output P (d1 : Daemon S) e d2 :
  exec url J stamp stat_ok P d1 e d2 →
  ∃ log l, drained (backend d2) = drained (backend d1) ++ log ∧ sends e = output_to l ∧ ∀ x, x ∈ l → snd x ∈ log.
Proof.
  intros He. induction He as [d|d1 lab e1 d2 e2 d3 _ Hs _ (log2 & l2 & Hd2 & Hs2 & Hin2)].
  - exists [], []. rewrite app_nil_r. split_and!; [done..|]. by intros x ?%elem_of_nil.
  - apply dstep_cases in Hs as [_ [[Hu1 Hu2]|Hf]].
    + exists log2, l2. split; [congruence|]. unfold sends in *. by rewrite omap_app, Hu1.
    + destruct (Hf eq_refl) as (_ & _ & log1 & Hd1 & Hs1).
      destruct (frames_for_output (attachments d1) log1) as (l1 & Hl1 & Hin1).
      exists (log1 ++ log2), (l1 ++ l2). split_and!.
      * by rewrite Hd2, Hd1, app_assoc.
      * unfold sends in *. rewrite omap_app, Hs1, Hl1, Hs2. unfold output_to. by rewrite fmap_app.
      * intros x [Hx|Hx]%elem_of_app; apply elem_of_app; [left; by apply Hin1|right; by apply Hin2].
Qed.

(** What a client decodes for a session is that session's part of its pieces. *)
Lemma received_output c id l :
  Forall sendable (snd <$> l) → received_from c id (output_to l) = pieces id (for_client c l).
Proof using Type.
  clear. induction l as [|[c' [id' data]] l IH]; intros Hl; [done|].
  rewrite fmap_cons in Hl. apply Forall_cons in Hl as [[Hid _] Hl]. cbn [fst snd] in Hid.
  unfold received_from, output_to, pieces, for_client in *. rewrite fmap_cons. cbn [omap list_omap fst snd].
  rewrite (IH Hl). clear IH. case_decide as Hc; [|done]. cbn [omap list_omap].
  assert (Hp : Payload (data_frame id' data) = EncodeDataPayload id' data) by done.
  rewrite Hp. unfold decodeDataPayload. by rewrite decode_payload_encode.
Qed.
End Output.

Section Transported.

Context (write_err : nat → Frame → option error).

Lemma adapter_BroadcastTo_eff s c f :
  snd (adapter_BroadcastTo write_err s c f) =
    match stream_of s c with Some st => [Transport.WriteTo st f] | None => [] end.
Proof.
  unfold adapter_BroadcastTo, Transport.BroadcastTo, stream_of.
  destruct (Transport.lookup_client s c) as [[ptr cl]|]; [|done]. cbn. by destruct (Transport.Stream cl).
Qed.

(** The stream of a client, when it is nobody else's, carries the client's pieces. *)
Lemma written_output srv c conn l : ∀ i,
  (∀ j, stream_of (srv j) c = Some conn) → (∀ j c', c' ≠ c → stream_of (srv j) c' ≠ Some conn) →
  written conn (transported write_err srv i (output_to l)) = output_frames (for_client c l).
Proof.
  induction l as [|[c' [id data]] l IH]; intros i Hc Ho; [done|].
  unfold output_to. rewrite fmap_cons. cbn [transported fst snd]. fold (output_to l).
  unfold written in *. rewrite omap_app, IH by done. rewrite adapter_BroadcastTo_eff. unfold for_client. cbn [omap list_omap].
  destruct (decide (c' = c)) as [->|Hne].
  - rewrite Hc. cbn [omap list_omap app]. by rewrite decide_True.
  - destruct (stream_of (srv i) c') as [st|] eqn:Hst; [|done]. cbn [omap list_omap app].
    rewrite decide_False; [done|]. intros ->. by eapply Ho.
Qed.
End Transported.

(** ** Theorems *)

Section Theorems.

Context {S : Type} `{Drains S}.

Context (url : bytes → option bytes) (J : Json) (stamp : time → bytes) (stat_ok : bytes → bool).

Context (write_err : nat → Frame → option error).

End Theorems.

(** ** Witness *)

Section Witness.

(** An emulator that keeps what it is given, and can be closed. *)
#[local] Instance closable : ClientEmulator bytes := {|
  em_Process e p := e ++ p;
  em_Snapshot e := e;
  em_Resize e _ _ := e;
  em_SetScrollbackSize := None;
  em_Close := Some (λ e, (None, []));
|}.

Lemma adapted_emulators_are_never_closed_witness :
  let s := snd (Session.Create (E := bytes) (Session.NewService 0 true true (Some (λ _ _ _, []))) #"a"
    (Session.mkCreate #"/bin/sh" [] 80 24 #"/" [] 8 4 0 false) (Ok 42%Z) 5%Z) in
  (∀ id, Session.CloseEmulator id ∉ fst (Session.waitLoop s 0 0%Z 9%Z)) ∧
  fst (Session.UpdateEmulatorScrollback s #"a" 100%Z) = None.
Proof.
  intros s. destruct (Session.lookup s #"a") as [[ptr ms]|] eqn:Hl; [|vm_compute in Hl; discriminate].
  assert (ptr = 0%nat) as -> by (vm_compute in Hl; congruence).
  assert (He : p_emulator (Session.pipe ms) = inl []) by (vm_compute in Hl; by injection Hl as <-).
  destruct (adapted_emulators_are_never_closed s 0 0%Z 9%Z #"a" 100%Z [] ms) as [Hc Hu].
  split; [exact Hc|]. exact (Hu Hl He eq_refl).
Defined.

Definition streaming_server : Transport.Server :=
  Transport.mkServer [] {[ #"c1" := 0%nat]}
    {[ 0%nat := Transport.mkClient #"c1" (Some 3%nat) (Some 4%nat) (Transport.mkCreds 0 7) 5 0 0]} 1 Transport.ModeOpen false.

#[local] Abbreviation flushed := (flushOutput example_url example_json 7%Z example_ready) (only parsing).

End Witness.
