(* ===== verification/Subscriptions.v ===== *)
(** * Subscriptions: from the event bus to a client's event handler

    The goroutine that [handleSubscribe] of [internal/daemon/service.go] starts:
    it takes events from its subscription of the bus, writes those that the
    client asked for to the client's control connection, and unsubscribes when
    the subscription ends or a write fails.  The other goroutines act on the bus
    and write responses to the same connection, a frame at a time; the client's
    side of the connection is [ClientStream]. *)

From S2P Require Import Prelude Protocol ClientHistory.
From S2P Require GoStrings Event ClientStream.

(** ** The goroutine *)

(** What an operation does: it blocks, it panics, or it happens. *)
Inductive outcome (A : Type) := Blocks | Panics | Happens (a : A).
Arguments Blocks {A}.
Arguments Panics {A}.
Arguments Happens {A}.

Definition or_panic {A} (o : option A) : outcome A :=
  match o with
  | Some a => Happens a
  | None => Panics
  end.

Definition event_frame (data : bytes) : Frame := mkFrame ProtocolVersion MsgEvent data.

(** The bus, the client's control connection as it is written to, and whether
    the goroutine has returned. *)
Record World := mkWorld { bus : Event.Bus; conn : writer; returned : bool }.

Section Forward.

(** [json.Marshal] of an event. *)
Context (marshal : Event.Event → result bytes).

(** The session the client asked for, the empty one for all of them, and the
    subscription. *)
Context (filter : bytes) (sub : nat).

(** The deferred [Unsubscribe] and the return. *)
Definition forward_return (w : World) : outcome World :=
  or_panic ((λ b, mkWorld b (conn w) true) <$> Event.Unsubscribe (bus w) sub).

Definition forward_event (e : Event.Event) (w : World) : outcome World :=
  if negb (bool_decide (filter = [])) && negb (bool_decide (Event.SessionID e = filter)) then Happens w
  else
    match marshal e with
    | Err _ => Happens w
    | Ok data =>
        match WriteFrame (conn w) (event_frame data) with
        | (None, c) => Happens (mkWorld (bus w) c false)
        | (Some _, c) => forward_return (mkWorld (bus w) c false)
        end
    end.

(** One round of [for evt := range sub.Events()]. *)
Definition forward (w : World) : outcome World :=
  if returned w then Blocks
  else
    match Event.receive (bus w) sub with
    | (Some e, b) => forward_event e (mkWorld b (conn w) false)
    | (None, _) =>
        match Event.store (bus w) !! sub with
        | Some s => if Event.ch_closed s then forward_return w else Blocks
        | None => Blocks
        end
    end.

(** Somebody acts on the bus, another goroutine writes a frame to the
    connection, or this one goes on. *)
Inductive waction := OnBus (a : Event.action) | Respond (f : Frame) | Forward.

Definition world_step (w : World) (a : waction) : outcome World :=
  match a with
  | OnBus a => or_panic ((λ b, mkWorld b (conn w) (returned w)) <$> Event.act (bus w) a)
  | Respond f => Happens (mkWorld (bus w) (snd (WriteFrame (conn w) f)) (returned w))
  | Forward => forward w
  end.

(** What happens on the bus in a step. *)
Definition bus_action (a : waction) : option Event.action :=
  match a with
  | OnBus a => Some a
  | Respond _ => None
  | Forward => Some (Event.AReceive sub)
  end.

Definition world_observe (w : World) (a : waction) (g : Event.ghost) : Event.ghost :=
  match a, bus_action a with
  | Forward, _ => if returned w then g else Event.observe sub (bus w) (Event.AReceive sub) g
  | _, Some a => Event.observe sub (bus w) a g
  | _, None => g
  end.

(** A run, which skips what blocks; [None]: something panicked. *)
Fixpoint world_run (w : World) (g : Event.ghost) (l : list waction) : option (World * Event.ghost) :=
  match l with
  | [] => Some (w, g)
  | a :: l =>
      match world_step w a with
      | Blocks => world_run w g l
      | Panics => None
      | Happens w' => world_run w' (world_observe w a g) l
      end
  end.

(** The frame that the goroutine makes of an event. *)
Definition frame_for (e : Event.Event) : option Frame :=
  if negb (bool_decide (filter = [])) && negb (bool_decide (Event.SessionID e = filter)) then None
  else match marshal e with Err _ => None | Ok data => Some (event_frame data) end.
End Forward.

(** [handleSubscribe] makes the subscription, writes its response and starts the
    goroutine. *)
Definition subscribed (b : Event.Bus) (c : writer) (response : Frame) : nat * World :=
  let (p, b) := Event.Subscribe b in (p, mkWorld b (snd (WriteFrame c response)) false).

(** ** Lemmas *)

(** *** The connection *)

(** The frames went out in turn, until one was cut and nothing was taken any more. *)
Definition carried (c : writer) (fs : list Frame) : Prop :=
  wr_out c = concat (wire <$> fs) ∨ wr_room c = Some 0 ∧ wr_out c `prefix_of` concat (wire <$> fs).

Lemma Write_cut c p :
  let (e, c') := Write c p in
  wr_out c' = wr_out c ++ p ∧ e = None ∧ (wr_room c = None → wr_room c' = None) ∨
  wr_out c' `prefix_of` wr_out c ++ p ∧ e ≠ None ∧ wr_room c ≠ None ∧ wr_room c' = Some 0 ∧
    (wr_room c = Some 0 → wr_out c' = wr_out c).
Proof.
  unfold Write. destruct (wr_room c) as [room|] eqn:Hr; [|by left]. case_decide; [by left|]. right. cbn.
  split_and!; try done.
  - apply prefix_app. exists (drop room p). by rewrite take_drop.
  - intros [= ->]. by rewrite app_nil_r.
Qed.

(** A full connection takes nothing of a frame. *)
Lemma WriteFrame_full c f : wr_room c = Some 0 → wr_out (snd (WriteFrame c f)) = wr_out c ∧ wr_room (snd (WriteFrame c f)) = Some 0.
Proof.
  intros Hr. unfold WriteFrame, Encode. case_bool_decide; [done|]. unfold Write. rewrite Hr.
  rewrite decide_False by (rewrite length_frame_header; unfold HeaderSize; lia). cbn. by rewrite app_nil_r.
Qed.

Lemma WriteFrame_carried c f fs :
  valid_frame f → carried c fs →
  let (e, c') := WriteFrame c f in
  carried c' (fs ++ [f]) ∧ (wr_room c = None → e = None ∧ wr_room c' = None).
Proof.
  intros [_ Hv] [Ho|[Hr Ho]]; unfold carried; rewrite fmap_app, concat_app; cbn [fmap list_fmap concat]; rewrite app_nil_r.
  - unfold WriteFrame, Encode. rewrite bool_decide_false by lia. unfold wire at 2 4.
    pose proof (Write_cut c (frame_header f)) as Hh. destruct (Write c (frame_header f)) as [[e|] c1].
    { destruct Hh as [(_ & ? & _)|(Hp & _ & Hn & Hr & _)]; [done|]. split; [|done]. right. split; [done|].
      rewrite <- Ho, app_assoc. by apply prefix_app_r. }
    destruct Hh as [(Hh & _ & Hn)|(_ & ? & _)]; [|done]. case_bool_decide.
    + pose proof (Write_cut c1 (Payload f)) as Hp. destruct (Write c1 (Payload f)) as [[e|] c2].
      * destruct Hp as [(_ & ? & _)|(Hp & _ & Hn2 & Hr & _)]; [done|]. split; [|intros Hc; by destruct (Hn2 (Hn Hc))].
        right. split; [done|]. by rewrite <- Ho, app_assoc, <- Hh.
      * destruct Hp as [(Hp & _ & Hn2)|(_ & ? & _)]; [|done]. split; [|intros Hc; split; [done|by apply Hn2, Hn]].
        left. by rewrite Hp, Hh, Ho, app_assoc.
    + split; [|intros Hc; split; [done|by apply Hn]]. left. destruct (Payload f) eqn:Hp; [|cbn in *; lia].
      by rewrite Hh, Ho, app_nil_r.
  - pose proof (WriteFrame_full c f Hr) as [H1 H2]. destruct (WriteFrame c f) as [e c']. cbn [snd] in H1, H2.
    split; [|congruence]. right. rewrite H1. split; [done|]. by apply prefix_app_r.
Qed.

(** A frame that is too large is refused whole. *)
Lemma WriteFrame_refused c f : Version f = ProtocolVersion → ¬ valid_frame f → ∃ e, WriteFrame c f = (Some e, c).
Proof.
  intros Hver Hv. unfold WriteFrame, Encode. case_bool_decide as Hp; [by eexists|]. destruct Hv. split; [done|lia].
Qed.

(** What the other end reads, wherever the bytes were cut, are the first frames. *)
Lemma read_loop_cut fs : Forall valid_frame fs → ∀ n fuel, length (take n (concat (wire <$> fs))) < fuel →
  ∃ m, fst (read_loop fuel (Protocol.mkReader (take n (concat (wire <$> fs))) None)) = take m fs ∧
    (length (concat (wire <$> fs)) ≤ n → take m fs = fs).
Proof.
  induction fs as [|f fs IH]; intros Hv n fuel Hf; (destruct fuel as [|fuel]; [cbn in Hf; lia|]).
  { exists 0. cbn. by rewrite take_nil. }
  apply Forall_cons in Hv as [Hv Hvs]. rewrite fmap_cons in Hf |- *. cbn [concat] in Hf |- *.
  destruct (decide (n < length (wire f))) as [Hn|Hn].
  - rewrite take_app_le by lia. destruct (ClientStream.ReadFrame_cut _ n Hv Hn) as (e & r & Hr).
    exists 0. cbn [read_loop]. rewrite Hr. split; [done|]. rewrite length_app. lia.
  - assert (Hfuel : length (take (n - length (wire f)) (concat (wire <$> fs))) < fuel).
    { rewrite take_app_ge, length_app in Hf by lia. pose proof (length_wire f). unfold HeaderSize in *. lia. }
    rewrite take_app_ge by lia. destruct (IH Hvs _ _ Hfuel) as (m & Hm & Hall). exists (S m). cbn [read_loop]. unfold ReadFrame. rewrite Decode_wire by done. cbn [wrap_err].
    destruct (read_loop fuel _) as [gs e]. cbn [fst] in Hm |- *. subst gs. split; [done|].
    rewrite length_app. intros Hle. cbn. rewrite Hall; [done|lia].
Qed.

(** What the client reads of a connection, when it lost everything after some byte. *)
Definition read_frames (n : nat) (c : writer) : list Frame := fst (Protocol.read_all (Protocol.mkReader (take n (wr_out c)) None)).

Lemma carried_read c fs n :
  Forall valid_frame fs → carried c fs →
  read_frames n c `prefix_of` fs ∧
  (wr_out c = concat (wire <$> fs) → length (wr_out c) ≤ n → read_frames n c = fs).
Proof.
  intros Hv Hc. unfold read_frames. set (k := Nat.min n (length (wr_out c))).
  assert (Hp : wr_out c `prefix_of` concat (wire <$> fs)) by (by destruct Hc as [->|[_ ?]]).
  assert (Hk : take n (wr_out c) = take k (concat (wire <$> fs))).
  { destruct Hp as [rest ->]. rewrite take_app_le by lia. unfold k. by rewrite <- take_take, firstn_all. }
  rewrite Hk. unfold Protocol.read_all. cbn [Protocol.rd_data].
  destruct (read_loop_cut fs Hv k _ (Nat.lt_succ_diag_r _)) as (m & -> & Hall).
  split; [exists (drop m fs); by rewrite take_drop|]. intros Ho Hn. apply Hall. unfold k. rewrite <- Ho. lia.
Qed.

(** *** The run *)

(** The other goroutines leave the subscription alone, and what they write to
    the connection are no events. *)
Definition others (sub : nat) (a : waction) : Prop :=
  match a with
  | OnBus (Event.AReceive q) | OnBus (Event.AUnsubscribe q) => q ≠ sub
  | Respond f => Version f = ProtocolVersion ∧ route_of f ≠ ToHandler
  | _ => True
  end.

Definition on_bus (a : waction) : option Event.action :=
  match a with
  | OnBus a => Some a
  | _ => None
  end.

Section Run.

Context (marshal : Event.Event → result bytes) (filter : bytes) (sub : nat) (c0 : writer).

#[local] Abbreviation frames l := (omap (frame_for marshal filter) l).

(** The connection has carried the frames of the events that were received;
    an event that was refused ended the goroutine. *)
Definition forwards (w : World) (g : Event.ghost) (fs : list Frame) : Prop :=
  Forall valid_frame fs ∧ carried (conn w) fs ∧
  ClientStream.on ToHandler fs `prefix_of` frames (Event.received g) ∧
  (returned w = false → ClientStream.on ToHandler fs = frames (Event.received g)) ∧
  (wr_room c0 = None → wr_room (conn w) = None).

Definition world_inv (w : World) (g : Event.ghost) (fs : list Frame) : Prop :=
  Event.bus_inv (bus w) ∧ Event.delivery sub (bus w) g ∧ forwards w g fs.

Lemma forwards_same w w' g g' fs :
  Event.received g' = Event.received g → conn w' = conn w → returned w' = returned w → forwards w g fs → forwards w' g' fs.
Proof. unfold forwards. by intros -> -> ->. Qed.

Lemma forwards_respond w g fs f :
  Version f = ProtocolVersion → route_of f ≠ ToHandler → forwards w g fs →
  ∃ fs', forwards (mkWorld (bus w) (snd (WriteFrame (conn w) f)) (returned w)) g fs'.
Proof.
  intros Hver Hf (Hv & Hc & Hp & He & Hr). destruct (decide (valid_frame f)) as [Hvf|Hvf].
  - pose proof (WriteFrame_carried (conn w) f fs Hvf Hc) as Hw. destruct (WriteFrame (conn w) f) as [e c'].
    destruct Hw as [Hw Hr']. exists (fs ++ [f]). unfold forwards. cbn [conn returned snd].
    rewrite ClientStream.on_app, (ClientStream.on_other ToHandler f Hf), app_nil_r.
    split_and!; try done; [|intros H; by apply Hr', Hr]. apply Forall_app. split; [done|by constructor].
  - destruct (WriteFrame_refused (conn w) f Hver Hvf) as [e ->]. cbn [snd]. by exists fs.
Qed.

Lemma unsubscribe_keeps w g fs :
  world_inv w g fs → ∃ w', forward_return sub w = Happens w' ∧ world_inv w' g fs ∧ Event.closed (bus w') = Event.closed (bus w).
Proof.
  intros (Hi & Hd & Hv & Hc & Hp & He & Hr).
  destruct (Event.act_spec sub (bus w) (Event.AUnsubscribe sub) g Hi Hd ltac:(done)) as (b & Hb & Hi' & Hd' & Hcl).
  cbn [Event.act Event.observe] in *. unfold forward_return. rewrite Hb. eexists. split; [done|].
  cbn [bus]. split; [by split_and!|by rewrite Hcl, orb_false_r].
Qed.

Lemma forward_event_eq e w :
  forward_event marshal filter sub e w =
    match frame_for marshal filter e with
    | None => Happens w
    | Some f =>
        match WriteFrame (conn w) f with
        | (None, c) => Happens (mkWorld (bus w) c false)
        | (Some _, c) => forward_return sub (mkWorld (bus w) c false)
        end
    end.
Proof. unfold forward_event, frame_for. destruct (_ && _); [done|]. by destruct (marshal e). Qed.

Lemma frame_for_event e f : frame_for marshal filter e = Some f → Version f = ProtocolVersion ∧ ClientStream.on ToHandler [f] = [f].
Proof. unfold frame_for. destruct (_ && _); [done|]. destruct (marshal e); [|done]. by intros [= <-]. Qed.

Lemma forward_event_keeps e w g g' fs :
  Event.bus_inv (bus w) → Event.delivery sub (bus w) g' → returned w = false → forwards w g fs →
  Event.received g' = Event.received g ++ [e] →
  ∃ w' fs', forward_event marshal filter sub e w = Happens w' ∧ world_inv w' g' fs' ∧
    Event.closed (bus w') = Event.closed (bus w).
Proof.
  intros Hi Hd Hret (Hv & Hc & Hp & He & Hr) Hg. specialize (He Hret). rewrite forward_event_eq.
  assert (Hrec : frames (Event.received g') = ClientStream.on ToHandler fs ++ option_list (frame_for marshal filter e)).
  { rewrite Hg, omap_app, He. cbn. by destruct (frame_for marshal filter e). }
  destruct (frame_for marshal filter e) as [f|] eqn:Hf; cbn [option_list] in Hrec.
  2: { exists w, fs. rewrite app_nil_r in Hrec. split; [done|]. split; [|done]. split; [done|]. split; [done|].
    unfold forwards. rewrite Hrec. by split_and!. }
  apply frame_for_event in Hf as [Hver Hon]. destruct (decide (valid_frame f)) as [Hvf|Hvf].
  - pose proof (WriteFrame_carried (conn w) f fs Hvf Hc) as Hwf. destruct (WriteFrame (conn w) f) as [err c'].
    destruct Hwf as [Hcar Hnone]. assert (Hinv : world_inv (mkWorld (bus w) c' false) g' (fs ++ [f])).
    { split; [done|]. split; [done|]. unfold forwards. cbn [conn returned]. rewrite ClientStream.on_app, Hon, Hrec.
      split_and!; try done; [|intros H; by apply Hnone, Hr]. apply Forall_app. split; [done|by constructor]. }
    destruct err as [err|]; [|by eexists _, _].
    destruct (unsubscribe_keeps _ _ _ Hinv) as (w' & Hw' & Hi' & Hcl). by exists w', (fs ++ [f]).
  - destruct (WriteFrame_refused (conn w) f Hver Hvf) as [err ->].
    destruct (Event.act_spec sub (bus w) (Event.AUnsubscribe sub) g' Hi Hd ltac:(done)) as (b & Hb & Hi' & Hd' & Hcl).
    cbn [Event.act Event.observe] in *. unfold forward_return. cbn [bus conn]. rewrite Hb. eexists _, fs. split; [done|].
    cbn [bus]. split; [|by rewrite Hcl, orb_false_r]. split; [done|]. split; [done|]. unfold forwards. cbn [conn returned].
    rewrite Hrec. split_and!; try done. by eexists.
Qed.

(** One round of the goroutine. *)
Lemma forward_keeps w g fs :
  world_inv w g fs →
  match forward marshal filter sub w with
  | Blocks => True
  | Panics => False
  | Happens w' => Event.closed (bus w') = Event.closed (bus w) ∧
      ∃ fs', world_inv w' (world_observe sub w Forward g) fs'
  end.
Proof.
  intros Hw. pose proof Hw as (Hi & Hd & Hf). unfold forward. cbn [world_observe bus_action].
  destruct (returned w) eqn:Hret; [done|].
  destruct (Event.receive_spec sub (bus w) sub g Hi Hd) as (Hi' & Hd' & Hcl).
  pose proof Hd as (s & Hs & _). revert Hi' Hd' Hcl. cbn [Event.observe]. rewrite decide_True by done.
  unfold Event.receive. rewrite Hs. destruct (Event.ch s) as [|e es] eqn:Hch; cbn [fst snd option_list]; intros Hi' Hd' Hcl.
  - rewrite app_nil_r. destruct (Event.ch_closed s); [|done].
    destruct (unsubscribe_keeps w g fs Hw) as (w' & -> & Hw' & Hb). split; [done|]. exists fs. by destruct g.
  - set (b := Event.with_sub _ _ _) in *. change (option_list (Some e)) with [e] in *.
    destruct (forward_event_keeps e (mkWorld b (conn w) false) g _ fs Hi' Hd' eq_refl) as (w' & fs' & -> & Hw' & Hb);
      [by apply (forwards_same w _ g g)|done|]. split; [by rewrite Hb|by exists fs'].
Qed.

Lemma world_step_keeps w a g fs :
  world_inv w g fs → others sub a → (∀ f, on_bus a = Some (Event.ASubscribe f) → Event.closed (bus w) = false) →
  match world_step marshal filter sub w a with
  | Blocks => True
  | Panics => False
  | Happens w' =>
      Event.closed (bus w') = (Event.closed (bus w) || match on_bus a with Some Event.AClose => true | _ => false end) ∧
      ∃ fs', world_inv w' (world_observe sub w a g) fs'
  end.
Proof.
  intros Hw Ho Hs. pose proof Hw as (Hi & Hd & Hf). destruct a as [a|f|]; cbn [world_step on_bus].
  - destruct (Event.act_spec sub (bus w) a g Hi Hd) as (b & -> & Hi' & Hd' & Hcl); [intros f ->; by eapply Hs|].
    cbn. split; [done|]. exists fs. split; [done|]. split; [done|]. eapply forwards_same; [|done..|exact Hf].
    cbn. destruct a; cbn; repeat case_match; done.
  - rewrite orb_false_r. split; [done|]. cbn [world_observe bus_action].
    destruct Ho as [Hver Hr]. destruct (forwards_respond w g fs f Hver Hr Hf) as [fs' Hf']. exists fs'. by split_and!.
  - rewrite orb_false_r. by apply forward_keeps in Hw.
Qed.

Lemma world_run_keeps l : ∀ w g fs,
  world_inv w g fs → Forall (others sub) l → Event.no_late_subscribe (Event.closed (bus w)) (omap on_bus l) = true →
  ∃ w' g' fs', world_run marshal filter sub w g l = Some (w', g') ∧ world_inv w' g' fs'.
Proof.
  induction l as [|a l IH]; intros w g fs Hw Ho Hl; [by eexists _, _, _|]. apply Forall_cons in Ho as [Ha Ho].
  pose proof (world_step_keeps w a g fs Hw Ha) as Hs. cbn [world_run].
  assert (Hopen : ∀ f, on_bus a = Some (Event.ASubscribe f) → Event.closed (bus w) = false).
  { intros f Hf. cbn [omap list_omap] in Hl. rewrite Hf in Hl. cbn in Hl. by destruct (Event.closed (bus w)). }
  specialize (Hs Hopen). destruct (world_step _ _ _ w a) as [| |w'] eqn:Hstep; [|done|].
  - destruct a; [cbn in Hstep; by destruct (Event.act _ _)|done|]. by eapply IH.
  - destruct Hs as [Hcl [fs' Hw']]. eapply IH; [exact Hw'|done|]. rewrite Hcl. cbn [omap list_omap] in Hl.
    destruct (on_bus a) as [[]|]; cbn in Hl; rewrite ?orb_false_r, ?orb_true_r; try done.
    by apply andb_true_iff in Hl as [_ ?].
Qed.
End Run.

(** *** The client *)

Section Client.

Context {V : Type} (unmarshal : bytes → ClientStream.Event V → ClientStream.Event V * option error).

(** A client with a handler has given it every event it has read. *)
Definition heard (s : ClientStream.Control V) : Prop :=
  ClientStream.invariant unmarshal s ∧ ClientStream.evtHandler s = true ∧
  ∃ seen, ClientStream.kept ToHandler (ClientStream.arrived s) seen [] None (ClientStream.unread s) (ClientStream.closed s) ∧
    ClientStream.handled s = (λ f, ClientStream.decodeEvent unmarshal (Payload f)) <$> seen.

Lemma heard_step s e s' :
  heard s → e ≠ ClientStream.OnEvent false → ClientStream.control_step unmarshal s e = Some s' → heard s'.
Proof.
  intros (Hi & Hh & seen & Hk & Hd) Hne Hs. pose proof (ClientStream.step_invariant unmarshal _ _ _ Hi Hs) as Hi'.
  split; [exact Hi'|]. clear Hi'. destruct s as [un en cl hd ret rs hi evh arr ans str hdl].
  destruct Hi as [_ _ _ _ Hheld Hc _]. cbn in *. subst evh.
  destruct e as [f| | |h| | | |]; cbn in Hs.
  - destruct en; [done|]. injection Hs as <-. split; [done|]. exists seen. split; [|done]. cbn.
    destruct cl; [by specialize (Hc eq_refl)|]. by apply ClientStream.kept_arrive.
  - injection Hs as <-. split; [done|]. by exists seen.
  - unfold ClientStream.Close in Hs. cbn in Hs. destruct cl; [done|]. injection Hs as <-.
    split; [done|]. exists seen. split; [by eapply ClientStream.kept_close|done].
  - injection Hs as <-. split; [by destruct h|]. by exists seen.
  - unfold ClientStream.readControl_read in Hs. cbn in Hs. destruct ret; [done|]. destruct hd as [f|]; [done|].
    destruct un as [|f un]; [destruct en; [|done]; injection Hs as <-; by eauto|].
    apply ClientStream.kept_read in Hk. destruct (route_of f) eqn:Hrt; injection Hs as <-; (split; [done|]); cbn.
    + exists (seen ++ [f]). rewrite fmap_app, Hd. split; [|done]. rewrite <- Hrt in Hk |- *.
      apply ClientStream.kept_put in Hk. by apply (ClientStream.kept_take _ _ _ _ []).
    + exists seen. split; [|done]. by apply ClientStream.kept_other in Hk; [|rewrite Hrt].
    + exists seen. split; [|done]. by apply ClientStream.kept_other in Hk; [|rewrite Hrt].
  - unfold ClientStream.readControl_put in Hs. cbn in Hs. destruct hd as [f|]; [|done]. cbn in Hs.
    destruct (route_of f); (case_decide; [|done]); injection Hs as <-; (split; [done|]); by exists seen.
  - unfold ClientStream.take_response in Hs. destruct (ClientStream.channel_receive _ _) as [[]|]; [|done].
    injection Hs as <-. split; [done|]. by exists seen.
  - unfold ClientStream.take_history in Hs. destruct (ClientStream.channel_receive _ _) as [[]|]; [|done].
    injection Hs as <-. split; [done|]. by exists seen.
Qed.

Lemma heard_run es : ∀ s s',
  heard s → ClientStream.OnEvent false ∉ es → ClientStream.control_run unmarshal s es = Some s' → heard s'.
Proof.
  induction es as [|e es IH]; intros s s' Hh Hn Hr; [by injection Hr as <-|]. apply not_elem_of_cons in Hn as [Hne Hn].
  cbn in Hr. apply bind_Some in Hr as (s1 & Hs & Hr). eapply IH; [|done|exact Hr]. by eapply heard_step.
Qed.
End Client.

(** ** Theorems *)

Section Theorems.

Context (marshal : Event.Event → result bytes) {V : Type}.

Context (unmarshal : bytes → ClientStream.Event V → ClientStream.Event V * option error).

(** What the client makes of the data of an event. *)
Context (data_of : list (bytes * Event.any) → option V).

Definition client_event (e : Event.Event) : ClientStream.Event V :=
  ClientStream.mkEvent (Event.Type_String (Event.Type__ e)) (Event.SessionID e) (data_of (Event.Payload e)).

(** The event that a client that asked for a session is told. *)
Definition reported (filter : bytes) (e : Event.Event) : option (ClientStream.Event V) :=
  if decide (filter = [] ∨ Event.SessionID e = filter) then
    match marshal e with
    | Ok _ => Some (client_event e)
    | Err _ => None
    end
  else None.

Lemma frame_for_wanted filter e :
  frame_for marshal filter e =
    if decide (filter = [] ∨ Event.SessionID e = filter) then
      match marshal e with
      | Ok data => Some (event_frame data)
      | Err _ => None
      end
    else None.
Proof.
  unfold frame_for. case_decide as H; repeat case_bool_decide; cbn [negb andb]; try (by destruct (marshal e)); try done; tauto.
Qed.

Lemma frames_reported filter (l : list Event.Event) :
  (∀ e data, marshal e = Ok data → ClientStream.decodeEvent unmarshal data = client_event e) →
  (λ f, ClientStream.decodeEvent unmarshal (Payload f)) <$> omap (frame_for marshal filter) l = omap (reported filter) l.
Proof.
  intros Hj. induction l as [|e l IH]; [done|]. cbn [omap list_omap]. rewrite frame_for_wanted. unfold reported at 1.
  case_decide; [|done]. destruct (marshal e) eqn:Hm; [|done]. rewrite fmap_cons, IH. cbn [Payload event_frame]. by rewrite (Hj _ _ Hm).
Qed.

(** C6: a client that has subscribed and has an event handler is told what
    happens in the daemon.  Whatever the goroutines of the daemon do with the
    bus and with the connection, as long as nobody subscribes after the bus was
    closed nothing panics; and wherever the connection is cut, what the handler
    is called with is the beginning of the events published since the
    subscription about the session that was asked for, in order and once, less
    those that found the channel full.  It is all of them when none did, the
    goroutine has caught up, the connection takes and gives every byte, and the
    client is open and has read them. *)
Theorem events_reach_the_handler filter (b : Event.Bus) c response l :
  (∀ e data, marshal e = Ok data → ClientStream.decodeEvent unmarshal data = client_event e) →
  Event.bus_inv b → Event.closed b = false → Event.no_late_subscribe false (omap on_bus l) = true →
  wr_out c = [] → Version response = ProtocolVersion → route_of response ≠ ToHandler →
  let (p, w) := subscribed b c response in
  Forall (others p) l →
  ∃ w' g waiting, world_run marshal filter p w (Event.mkGhost [] [] 0) l = Some (w', g) ∧
    Event.ch <$> Event.store (bus w') !! p = Some waiting ∧
    (Event.received g ++ waiting) `sublist_of` Event.sent g ∧
    (Event.dropped g = 0 → Event.received g ++ waiting = Event.sent g) ∧
    ∀ n es s, ClientStream.OnEvent false ∉ es →
      ClientStream.control_run unmarshal ClientStream.new_client (ClientStream.OnEvent true :: es) = Some s →
      ClientStream.arrived s `prefix_of` read_frames n (conn w') →
      ClientStream.handled s `prefix_of` omap (reported filter) (Event.received g) ∧
      (wr_room c = None → length (wr_out (conn w')) ≤ n → returned w' = false →
        ClientStream.arrived s = read_frames n (conn w') → ClientStream.unread s = [] → ClientStream.closed s = false →
        ClientStream.handled s = omap (reported filter) (Event.received g)).
Proof.
  intros Hj Hi Hcl Hl Hout Hver Hroute.
  destruct (Event.subscribe_spec b None Hi Hcl) as (Hi1 & Hc1 & Hs1 & _).
  assert (Hp : fst (Event.Subscribe b) = Event.next b) by (unfold Event.Subscribe, Event.subscribe; by rewrite Hcl).
  unfold subscribed. unfold Event.Subscribe in *. destruct (Event.subscribe b None) as [p b1].
  cbn [fst snd] in *. subst p. set (sub := Event.next b) in *. intros Ho.
  set (g0 := Event.mkGhost [] [] 0).
  assert (Hf : forwards marshal filter c (mkWorld b1 c false) g0 []).
  { unfold forwards, carried. cbn. rewrite Hout. by split_and!; [|left|..]. }
  destruct (forwards_respond marshal filter c _ _ _ response Hver Hroute Hf) as [fs0 Hf0]. cbn [bus conn returned] in Hf0.
  destruct (world_run_keeps marshal filter sub c l (mkWorld b1 (snd (WriteFrame c response)) false) g0 fs0)
    as (w' & g & fs & Hrun & _ & (sb & Hsb & Hsub & Hlen) & Hv & Hcar & Hpre & Hexact & Hroom);
    [split; [done|split; [by eexists|done]]|done|cbn; by rewrite Hc1|].
  exists w', g, (Event.ch sb). rewrite Hsb. split_and!; [done..| |].
  { intros Hd. apply sublist_eq_length; [done|lia]. }
  intros n es s Hnone Hcr Harr. destruct (carried_read _ _ n Hv Hcar) as [Hread Hall].
  assert (Hheard : heard unmarshal s).
  { cbn in Hcr. eapply heard_run; [|exact Hnone|exact Hcr]. split_and!; [|done|by exists []; split; [by exists []|]].
    by destruct (ClientStream.new_client_invariant unmarshal). }
  destruct Hheard as (_ & _ & seen & (lost & Hk & Hlost) & ->). cbn in Hk. rewrite <- (frames_reported filter _ Hj). split.
  - destruct Harr as [r1 Hr1], Hread as [r2 Hr2], Hpre as [r3 Hr3]. rewrite Hr3, Hr2, Hr1.
    rewrite !ClientStream.on_app, Hk, !fmap_app, <- !app_assoc. by eexists.
  - intros Hr Hn Hret Ha Hu Hclo. f_equal. rewrite <- (Hexact Hret), <- Hall; [|destruct Hcar as [?|[Hz _]]; [done|]|done].
    + by rewrite <- Ha, Hk, Hu, (Hlost Hclo), !app_nil_r.
    + rewrite (Hroom Hr) in Hz. done.
Qed.

(** A subscription made once the bus is closed, by a client that is still served
    while the daemon's program goes on, ends in a panic: the goroutine finds the
    channel closed and its deferred [Unsubscribe] closes it again. *)
Theorem late_subscription_panics filter (b : Event.Bus) c response :
  Event.closed b = true →
  let (p, w) := subscribed b c response in world_step marshal filter p w Forward = Panics.
Proof.
  intros Hc. unfold subscribed, Event.Subscribe, Event.subscribe. rewrite Hc. cbn [world_step]. unfold forward, Event.receive.
  cbn [returned bus Event.store]. rewrite lookup_insert_eq. cbn. unfold forward_return, Event.Unsubscribe. cbn.
  rewrite lookup_insert_eq. unfold Event.removeSub. cbn. by destruct (list_find (λ q, q = Event.next b) (Event.subs b)) as [[]|].
Qed.

(** *** Clients that are gone *)

(** What may happen while nothing is published about the session [filter] and
    the bus stays open. *)
Definition unconcerned (filter : bytes) (sub : nat) (a : waction) : Prop :=
  others sub a ∧
  match a with
  | OnBus (Event.APublish e) => Event.SessionID e ≠ filter
  | OnBus Event.AClose => False
  | _ => True
  end.

(** The subscription is served, and what waits in it is not for the client. *)
Definition kept_alive (filter : bytes) (sub : nat) (w : World) : Prop :=
  Event.bus_inv (bus w) ∧ Event.closed (bus w) = false ∧ returned w = false ∧ sub ∈ Event.subs (bus w) ∧
  ∃ s, Event.store (bus w) !! sub = Some s ∧ Event.ch_closed s = false ∧ Forall (λ e, Event.SessionID e ≠ filter) (Event.ch s).

Lemma Publish_alive filter sub w e :
  Event.SessionID e ≠ filter → kept_alive filter sub w →
  ∃ b, Event.Publish (bus w) e = Some b ∧ kept_alive filter sub (mkWorld b (conn w) (returned w)).
Proof using Type.
  intros He (Hi & Hcl & Hret & Hin & s & Hs & Hc & Hch). unfold Event.Publish. rewrite Hcl.
  destruct (Event.publish_all_spec e (Event.subs (bus w)) (bus w) Hi (proj1 Hi) ltac:(done)) as (b & -> & Hi' & Hsub & Hcl' & _ & Hst).
  exists b. split; [done|]. split_and!; cbn; [done|congruence|done|by rewrite Hsub|].
  specialize (Hst sub s Hin Hs). case_match; [|by exists s]. eexists. split; [exact Hst|]. split; [done|].
  apply Forall_app. split; [done|by constructor].
Qed.

Lemma removeSub_others (b : Event.Bus) (p q : nat) : p ≠ q → p ∈ Event.subs b → p ∈ Event.subs (Event.removeSub b q).
Proof using Type.
  intros Hpq Hp. unfold Event.removeSub.
  destruct (list_find (λ r, r = q) (Event.subs b)) as [[i r]|] eqn:Hf; [|done].
  apply list_find_Some in Hf as (Hi & -> & _). cbn. rewrite <- (take_drop_middle _ _ _ Hi) in Hp.
  rewrite elem_of_app, elem_of_cons in Hp. rewrite elem_of_app. tauto.
Qed.

(** The rest of what others do with the bus does not reach the subscription. *)
Lemma act_others sub b a b' :
  match a with
  | Event.AReceive q | Event.AUnsubscribe q => q ≠ sub
  | Event.ASubscribe _ => Event.closed b = false ∧ sub ≠ Event.next b
  | _ => False
  end →
  Event.act b a = Some b' → sub ∈ Event.subs b →
  sub ∈ Event.subs b' ∧ Event.store b' !! sub = Event.store b !! sub.
Proof using Type.
  destruct a as [e|q|q|f|]; cbn [Event.act]; try done.
  - intros Hq [= <-] Hin. unfold Event.receive. destruct (Event.store b !! q) as [s|]; [|done].
    destruct (Event.ch s); [done|]. cbn. by rewrite lookup_insert_ne.
  - intros Hq Hu Hin. unfold Event.Unsubscribe in Hu. destruct (Event.store b !! q) as [s|]; [|by injection Hu as <-].
    destruct (Event.once s); [by injection Hu as <-|]. unfold Event.close_ch in Hu. cbn in Hu.
    destruct (Event.ch_closed s); [done|]. injection Hu as <-. cbn. rewrite lookup_insert_ne by done.
    split; [by apply removeSub_others|]. unfold Event.removeSub. by destruct (list_find (λ r, r = q) (Event.subs b)) as [[]|].
  - intros [Hc Hn] [= <-] Hin. unfold Event.subscribe. rewrite Hc. cbn. rewrite lookup_insert_ne by done.
    split; [|done]. apply elem_of_app. by left.
Qed.

Lemma others_alive filter sub w a b' :
  kept_alive filter sub w → unconcerned filter sub (OnBus a) → Event.act (bus w) a = Some b' →
  kept_alive filter sub (mkWorld b' (conn w) (returned w)).
Proof using Type.
  intros Hk [Ho Ha] Hb. pose proof Hk as (Hi & Hcl & Hret & Hin & s & Hs & Hc & Hch).
  assert (Hlt : sub ≠ Event.next (bus w)) by (pose proof (proj1 (proj1 (proj2 (proj2 Hi)) _ _ Hs)); lia).
  assert (Hcase : (∃ e, a = Event.APublish e) ∨ ¬ ∃ e, a = Event.APublish e)
    by (destruct a; [by left; eexists|by right; intros [? ?]..]).
  destruct Hcase as [[e ->]|Hnp].
  { destruct (Publish_alive filter sub w e Ha Hk) as (b & Hb' & Hk'). cbn in Hb. congruence. }
  destruct (Event.act_spec sub (bus w) a (Event.mkGhost [] (Event.ch s) 0)) as (b1 & Hb1 & Hi' & _ & Hcl');
    [done|exists s; cbn; split_and!; [done|done|lia]|by intros|].
  assert (b1 = b') as -> by congruence.
  destruct (act_others sub (bus w) a b') as [Hin' Hst]; [destruct a; cbn in *; try done; destruct Hnp; by eexists|done|done|].
  split_and!; cbn; [done| |done|done|exists s; by rewrite Hst]. rewrite Hcl', Hcl. by destruct a.
Qed.

(** A goroutine whose client asked for a session about which nothing more is
    published stays for good, with its subscription, whatever has become of the
    client and its connection. *)
Theorem silent_subscription_is_never_ended filter sub l w g w' g' :
  filter ≠ [] → kept_alive filter sub w → Forall (unconcerned filter sub) l →
  world_run marshal filter sub w g l = Some (w', g') → kept_alive filter sub w'.
Proof using Type.
  intros Hne. revert w g. induction l as [|a l IH]; intros w g Hk Hl Hrun; [by injection Hrun as <- _|].
  apply Forall_cons in Hl as [Ha Hl]. cbn [world_run] in Hrun.
  destruct (world_step marshal filter sub w a) as [| |w1] eqn:Hs; [by eapply IH|done|]. eapply IH; [|done|exact Hrun].
  pose proof Hk as (Hi & Hcl & Hret & Hin & s & Hst & Hc & Hch). destruct a as [a|f|]; cbn [world_step] in Hs.
  - destruct (Event.act (bus w) a) as [b|] eqn:Hb; [|done]. injection Hs as <-. by eapply others_alive.
  - injection Hs as <-. by split_and!; [..|exists s].
  - unfold forward, Event.receive in Hs. rewrite Hret, Hst in Hs. destruct (Event.ch s) as [|e es] eqn:Hes.
    { rewrite Hc in Hs. done. }
    apply Forall_cons in Hch as [He Hes']. unfold forward_event in Hs.
    rewrite !bool_decide_eq_false_2 in Hs by done. injection Hs as <-. split_and!; cbn; [|done..|].
    + eapply Event.with_sub_inv; [done|done| |done]. by rewrite (proj2 (proj1 (proj2 (proj2 Hi)) _ _ Hst)).
    + eexists. rewrite lookup_insert_eq. split; [done|]. by cbn.
Qed.
End Theorems.

(** ** Witness *)

Section Witness.

(** A format that keeps the type and the session. *)
Definition example_marshal (e : Event.Event) : result bytes :=
  Ok (Event.Type_String (Event.Type__ e) ++ x3a :: Event.SessionID e).

Definition example_unmarshal (p : bytes) (e : ClientStream.Event unit) : ClientStream.Event unit * option error :=
  match GoStrings.index_byte p x3a with
  | Some k => (ClientStream.mkEvent (take k p) (drop (S k) p) None, None)
  | None => (e, Some (ENew #"EOF"))
  end.

Definition example_ok : Frame := mkFrame ProtocolVersion MsgOK [].

Definition example_world : list waction :=
  let publish t id := OnBus (Event.APublish (Event.mkEvent t id [])) in
  [publish Event.SessionCreated #"a"; publish Event.SessionCreated #"b"; Forward; Respond example_ok;
   publish Event.SessionExited #"a"; Forward; OnBus (Event.ASubscribe None); Forward; Forward].

Definition example_frames : list Frame :=
  [example_ok; event_frame #"session.created:a"; example_ok; event_frame #"session.exited:a"].

Definition example_client : list ClientStream.cevent :=
  (ClientStream.Arrive <$> example_frames) ++
  [ClientStream.ReadNext; ClientStream.Put; ClientStream.TakeResponse; ClientStream.ReadNext;
   ClientStream.ReadNext; ClientStream.Put; ClientStream.ReadNext].

Lemma events_reach_the_handler_witness :
  ∃ s, ClientStream.control_run example_unmarshal ClientStream.new_client (ClientStream.OnEvent true :: example_client) = Some s ∧
    ClientStream.handled s =
      [ClientStream.mkEvent #"session.created" #"a" None; ClientStream.mkEvent #"session.exited" #"a" None].
Proof.
  assert (Hj : ∀ e data, example_marshal e = Ok data →
    ClientStream.decodeEvent example_unmarshal data = client_event (λ _, None) e).
  { intros [t id pay] data [= <-]. by destruct t. }
  assert (Hi : Event.bus_inv Event.NewBus).
  { split_and!; cbn; [constructor|by intros ? ?%elem_of_nil|done|done]. }
  pose proof (events_reach_the_handler example_marshal example_unmarshal (λ _, None) #"a" Event.NewBus
    (mkWriter [] None (ENew #"EPIPE")) example_ok example_world Hj Hi eq_refl eq_refl eq_refl eq_refl ltac:(done)) as Hx.
  destruct Hx as (w' & g & waiting & Hrun & _ & _ & _ & Hc); [repeat constructor; done|].
  vm_compute in Hrun. injection Hrun as <- <-.
  eexists. split; [vm_compute; reflexivity|].
  edestruct (Hc 1000 example_client) as [_ Hall]; [|vm_compute; reflexivity| |].
  - unfold example_client. rewrite elem_of_app. intros [Hx|Hx].
    + by apply list_elem_of_fmap in Hx as (? & ? & _).
    + by rewrite !elem_of_cons, elem_of_nil in Hx; destruct_or! Hx.
  - apply (bool_decide_unpack _). vm_compute. exact I.
  - rewrite Hall; vm_compute; try reflexivity. apply Nat.leb_le. reflexivity.
Defined.
End Witness.
