(* ===== verification/ClientCalls.v ===== *)
(** * The client's calls: [pkg/client/session.go], [exec.go], [wait.go], [metadata.go], [environment.go], [event.go], [recordAction]

    Each method marshals one request, sends it, and reads its response.  A
    method is a computation over the state behind [sendRequest], so that
    methods follow one another; over a daemon that state is the daemon.
    [encoding/json] is a parameter, one function for each type that is written
    or read; the errors of marshalling that the code ignores are left out. *)

From S2P Require Import Prelude Files GoStrings Pipeline SessionValues Protocol Payload SessionManager DaemonTypes Daemon DaemonExample DaemonLemmas DaemonFrame DaemonClients DaemonReplies ClientHistory.

#[local] Open Scope Z_scope.

(** ** Computations that may fail *)

Definition rpc (X A : Type) : Type := X → result A * X.

#[export] Instance rpc_ret X : MRet (rpc X) := λ A a x, (Ok a, x).

#[export] Instance rpc_bind X : MBind (rpc X) := λ A B k m x,
  match m x with
  | (Ok a, x) => k a x
  | (Err e, x) => (Err e, x)
  end.

Definition lift {X A} (r : result A) : rpc X A := λ x, (r, x).

(** ** Values *)

Record CreateParams := mkCreateParams {
  cp_Shell : bytes;
  cp_Args : list bytes;
  cp_Cols : Z;
  cp_Rows : Z;
  cp_Cwd : bytes;
  cp_Env : list bytes;
}.

(** What is unmarshalled from the response to an attach request, and what the
    caller gets: the replay is empty when there is no snapshot. *)
Record attachResp := mkAttachResp {
  ar_Session : SessionInfo;
  ar_Snapshot : option bytes;
  ar_CommandHistory : list CommandResponse;
  ar_InFlightCommand : option CommandResponse;
}.

Record AttachResult := mkAttachResult {
  at_Session : SessionInfo;
  at_Replay : bytes;
  at_CommandHistory : list CommandResponse;
  at_InFlightCommand : option CommandResponse;
}.

Record RecordResult := mkRecordResult { rec_SessionID : bytes; rec_Recording : bool; rec_Path : bytes }.

Record KillPrefixResult := mkKillPrefixResult { kpr_Killed : list bytes; kpr_Errors : gmap bytes bytes }.

Record ClientJson := mkClientJson {
  marshal_create : CreateRequest → result bytes;
  marshal_attach : bytes → result bytes;
  marshal_session : bytes → bytes;
  marshal_resize : ResizeRequest → bytes;
  marshal_scrollback : UpdateEmulatorScrollbackRequest → bytes;
  marshal_prefix : bytes → result bytes;
  marshal_meta_set : MetaSetRequest → bytes;
  marshal_meta_get : MetaGetRequest → bytes;
  marshal_env : EnvForwardRequest → result bytes;
  marshal_exec : ExecRequest → result bytes;
  marshal_exec_sync : ExecSyncRequest → result bytes;
  marshal_wait : WaitRequest → result bytes;
  marshal_record : RecordRequest → result bytes;
  unmarshal_session : bytes → result SessionInfo;
  unmarshal_sessions : bytes → result (list SessionInfo);
  unmarshal_attach : bytes → result attachResp;
  unmarshal_kill_prefix : bytes → result KillPrefixResult;
  unmarshal_meta_value : bytes → result bytes;
  unmarshal_metadata : bytes → result (gmap bytes bytes);
  unmarshal_exec_sync : bytes → result (list ExecResult);
  unmarshal_wait : bytes → result WaitResponse;
  unmarshal_record : bytes → result RecordResult;
  unmarshal_error : bytes → result bytes;
}.

(** ** The methods *)

Section Client.

Context (C : ClientJson) {X : Type} (sendRequest : MessageType → bytes → rpc X Frame).

Definition parseError (resp : Frame) : error :=
  match unmarshal_error C (Payload resp) with
  | Err _ => ENew #"client: daemon error (unparsable)"
  | Ok msg => ENew (#"client: daemon: " ++ msg)
  end.

(** A request whose response is an error or not. *)
Definition acknowledged (t : MessageType) (payload : bytes) : rpc X unit :=
  resp ← sendRequest t payload;
  if decide (Type_ resp = MsgError) then lift (Err (parseError resp)) else mret tt.

(** A request whose response is read by [f]. *)
Definition answered {A} (t : MessageType) (payload : bytes) (what : bytes) (f : bytes → result A) : rpc X A :=
  resp ← sendRequest t payload;
  if decide (Type_ resp = MsgError) then lift (Err (parseError resp))
  else lift (wrap_err (#"client: unmarshal " ++ what) (f (Payload resp))).

Definition marshalled {A} (what : bytes) (r : result bytes) (k : bytes → rpc X A) : rpc X A :=
  payload ← lift (wrap_err (#"client: marshal " ++ what) r); k payload.

Definition Create (id : bytes) (params : CreateParams) : rpc X SessionInfo :=
  marshalled #"create"
    (marshal_create C (mkCreateRequest id (cp_Shell params) (cp_Args params) (cp_Cols params) (cp_Rows params)
       (cp_Cwd params) (cp_Env params)))
    (λ payload, answered MsgCreate payload #"session" (unmarshal_session C)).

Definition Attach (sessionID : bytes) : rpc X AttachResult :=
  marshalled #"attach" (marshal_attach C sessionID) (λ payload,
    r ← answered MsgAttach payload #"attach" (unmarshal_attach C);
    mret (mkAttachResult (ar_Session r) (default [] (ar_Snapshot r)) (ar_CommandHistory r) (ar_InFlightCommand r))).

Definition Detach (sessionID : bytes) : rpc X unit := acknowledged MsgDetach (marshal_session C sessionID).

Definition Kill (sessionID : bytes) : rpc X unit := acknowledged MsgKill (marshal_session C sessionID).

Definition client_Write (sessionID data : bytes) : rpc X unit :=
  acknowledged MsgInput (client_Write_payload sessionID data).

Definition Resize (sessionID : bytes) (cols rows : Z) : rpc X unit :=
  acknowledged MsgResize (marshal_resize C (mkResizeRequest sessionID cols rows)).

Definition UpdateEmulatorScrollback (sessionID : bytes) (lines : Z) : rpc X unit := λ x,
  match sendRequest MsgUpdateEmulatorScrollback (marshal_scrollback C (mkUpdateScrollbackRequest sessionID lines)) x with
  | (Err e, x) => (Err (EWrap #"update emulator scrollback" e), x)
  | (Ok resp, x) => (if decide (Type_ resp = MsgError) then Err (parseError resp) else Ok tt, x)
  end.

(** The prefix is what [WithListPrefix] was given last. *)
Definition List (prefix : bytes) : rpc X (list SessionInfo) :=
  payload ← (if decide (prefix = []) then mret []
             else lift (wrap_err #"client: marshal list" (marshal_prefix C prefix)));
  answered MsgList payload #"list" (unmarshal_sessions C).

Definition KillPrefix (prefix : bytes) : rpc X KillPrefixResult :=
  marshalled #"kill_prefix" (marshal_prefix C prefix)
    (λ payload, answered MsgKillPrefix payload #"kill_prefix" (unmarshal_kill_prefix C)).

Definition Info (sessionID : bytes) : rpc X SessionInfo :=
  answered MsgInfo (marshal_session C sessionID) #"session" (unmarshal_session C).

Definition MetaSet (sessionID key value : bytes) : rpc X unit :=
  acknowledged MsgMetaSet (marshal_meta_set C (mkMetaSetRequest sessionID key value)).

Definition MetaGet (sessionID key : bytes) : rpc X bytes :=
  answered MsgMetaGet (marshal_meta_get C (mkMetaGetRequest sessionID key)) #"meta get" (unmarshal_meta_value C).

Definition MetaGetAll (sessionID : bytes) : rpc X (gmap bytes bytes) :=
  answered MsgMetaGet (marshal_meta_get C (mkMetaGetRequest sessionID [])) #"meta get all" (unmarshal_metadata C).

Definition ForwardEnv (sessionID : bytes) (env : gmap bytes bytes) : rpc X unit :=
  marshalled #"env forward" (marshal_env C (mkEnvForwardRequest sessionID env)) (acknowledged MsgEnvForward).

(** [newline] is what [WithNewline] was given last, or true. *)
Definition Exec (sessionID input : bytes) (newline : bool) : rpc X unit :=
  marshalled #"exec" (marshal_exec C (mkExecRequest sessionID input newline)) (acknowledged MsgExec).

Definition execSyncRequest (payload : bytes) : rpc X (list ExecResult) :=
  answered MsgExecSync payload #"exec_sync response" (unmarshal_exec_sync C).

Definition ExecSync (input : bytes) (targets : list bytes) : rpc X (list ExecResult) :=
  marshalled #"exec_sync" (marshal_exec_sync C (mkExecSyncRequest targets [] input true)) execSyncRequest.

Definition ExecPrefix (prefix input : bytes) : rpc X (list ExecResult) :=
  marshalled #"exec_prefix" (marshal_exec_sync C (mkExecSyncRequest [] prefix input true)) execSyncRequest.

(** [timeout] is what [WithTimeout] was given last, or zero. *)
Definition wait (sessionID mode : bytes) (timeout idleFor : Z) (pattern : bytes) : rpc X WaitResponse :=
  marshalled #"wait"
    (marshal_wait C (mkWaitRequest sessionID mode (milliseconds timeout) (milliseconds idleFor) pattern))
    (λ payload, answered MsgWait payload #"wait response" (unmarshal_wait C)).

Definition UntilExit (sessionID : bytes) (timeout : Z) : rpc X WaitResponse := wait sessionID #"exit" timeout 0 [].

Definition UntilIdle (sessionID : bytes) (d timeout : Z) : rpc X WaitResponse := wait sessionID #"idle" timeout d [].

Definition UntilMatch (sessionID pattern : bytes) (timeout : Z) : rpc X WaitResponse :=
  wait sessionID #"match" timeout 0 pattern.

Definition recordAction (sessionID action : bytes) : rpc X RecordResult :=
  marshalled #"record" (marshal_record C (mkRecordRequest sessionID action))
    (λ payload, answered MsgRecord payload #"record response" (unmarshal_record C)).

Definition RecordStart (sessionID : bytes) : rpc X RecordResult := recordAction sessionID #"start".

Definition RecordStop (sessionID : bytes) : rpc X RecordResult := recordAction sessionID #"stop".

(** The request with which a new client asks for events. *)
Definition subscribe : rpc X unit := acknowledged MsgEvent [].

End Client.

(** ** Encodings that agree *)

(** The texts that JSON keeps (in Go, valid UTF-8), and the fields of the
    request and response types, which have the same names on both sides.  What
    is encoded from a value of a type can always be decoded to that type. *)
Record agree (J : Json) (E : ReplyJson) (C : ClientJson) (text : bytes → Prop) : Prop := mkAgree {
  ag_session id : text id → json_SessionID J (marshal_session C id) = Ok (mkSessionIDRequest id);
  ag_attach id : text id →
    ∃ p, marshal_attach C id = Ok p ∧ json_SessionID J p = Ok (mkSessionIDRequest id);
  ag_meta_set r : text (ms_SessionID r) → text (ms_Key r) → text (ms_Value r) →
    json_MetaSet J (marshal_meta_set C r) = Ok r;
  ag_meta_get r : text (mg_SessionID r) → text (mg_Key r) → json_MetaGet J (marshal_meta_get C r) = Ok r;
  ag_exec r : text (ex_SessionID r) → text (ex_Input r) →
    ∃ p, marshal_exec C r = Ok p ∧ json_Exec J p = Ok r;
  ag_info i : is_ok (unmarshal_session C (enc_response E (RSession i))) = true;
  ag_attached i s h f : is_ok (unmarshal_attach C (enc_response E (RAttach i s h f))) = true;
  ag_replay i s h f : ar_Snapshot <$> (match unmarshal_attach C (enc_response E (RAttach i s h f)) with
    | Ok r => Some r | Err _ => None end) = Some s;
  ag_value v : text v → unmarshal_meta_value C (enc_response E (RMeta v None)) = Ok v;
  ag_no_value m : unmarshal_meta_value C (enc_response E (RMeta [] (Some m))) = Ok [];
  ag_metadata m : map_Forall (λ k v, text k ∧ text v) m →
    unmarshal_metadata C (enc_response E (RMeta [] (Some m))) = Ok m;
  ag_empty : text [];
}.
