(* ===== verification/ClientExample.v ===== *)
(** * An encoding to run

    A concrete encoding of requests and responses on which the client and the
    daemon agree: a value is the list of its fields, and a field is its bytes,
    each after a mark, with an end.  The statements about clients over the
    daemon are applied to it. *)

From S2P Require Import Prelude Files GoStrings Pipeline SessionValues Protocol SessionManager DaemonTypes Daemon DaemonExample ClientHistory ClientCalls.

#[local] Open Scope Z_scope.

Fixpoint enc_field (b : bytes) : bytes :=
  match b with
  | [] => [x00]
  | x :: b => x01 :: x :: enc_field b
  end.

Definition enc (l : list bytes) : bytes := l ≫= enc_field.

Fixpoint dec (cur s : bytes) : list bytes :=
  match s with
  | x00 :: s => cur :: dec [] s
  | x01 :: x :: s => dec (cur ++ [x]) s
  | _ => []
  end.

Lemma dec_field b cur s : dec cur (enc_field b ++ s) = (cur ++ b) :: dec [] s.
Proof.
  revert cur. induction b as [|x b IH]; intros cur; cbn; [by rewrite app_nil_r|].
  by rewrite IH, <- app_assoc.
Qed.

Lemma dec_enc l : dec [] (enc l) = l.
Proof. induction l as [|b l IH]; [done|]. cbn. rewrite dec_field. unfold enc in IH. by rewrite IH. Qed.

Definition fields_of (s : bytes) : list bytes := dec [] s.

Definition one_of {A} (f : bytes → A) (s : bytes) : result A :=
  match fields_of s with a :: _ => Ok (f a) | _ => Err ErrSyntax end.

Definition two_of {A} (f : bytes → bytes → A) (s : bytes) : result A :=
  match fields_of s with a :: b :: _ => Ok (f a b) | _ => Err ErrSyntax end.

Definition three_of {A} (f : bytes → bytes → bytes → A) (s : bytes) : result A :=
  match fields_of s with a :: b :: c :: _ => Ok (f a b c) | _ => Err ErrSyntax end.

Definition number (s : bytes) : Z := fst (parse_int s).

Definition flag (b : bool) : bytes := if b then #"1" else #"0".

Definition unflag (s : bytes) : bool := bool_decide (s = #"1").

Definition enc_pairs (m : gmap bytes bytes) : list bytes := map_to_list m ≫= λ '(k, v), [k; v].

Fixpoint dec_pairs (l : list bytes) : list (bytes * bytes) :=
  match l with
  | k :: v :: l => (k, v) :: dec_pairs l
  | _ => []
  end.

Lemma dec_enc_pairs m : list_to_map (dec_pairs (enc_pairs m)) = m.
Proof.
  rewrite <- (list_to_map_to_list m) at 2. f_equal. unfold enc_pairs.
  induction (map_to_list m) as [|[k v] l IH]; [done|]. cbn. by rewrite IH.
Qed.

Definition example_wire : Json := {|
  json_Create s := three_of (λ id sh cwd, mkCreateRequest id sh [] 80 24 cwd []) s;
  json_List s := match one_of mkListRequest s with Ok r => r | Err _ => mkListRequest [] end;
  json_SessionID := one_of mkSessionIDRequest;
  json_Resize := three_of (λ id c r, mkResizeRequest id (number c) (number r));
  json_EventSubscribe := one_of mkEventSubscribeRequest;
  json_MetaSet := three_of mkMetaSetRequest;
  json_MetaGet := two_of mkMetaGetRequest;
  json_EnvForward s :=
    match fields_of s with id :: l => Ok (mkEnvForwardRequest id (list_to_map (dec_pairs l))) | [] => Err ErrSyntax end;
  json_Exec := three_of (λ id i n, mkExecRequest id i (unflag n));
  json_ExecSync s :=
    match fields_of s with
    | p :: i :: n :: l => Ok (mkExecSyncRequest l p i (unflag n))
    | _ => Err ErrSyntax
    end;
  json_Wait s :=
    match fields_of s with
    | id :: m :: t :: i :: p :: _ => Ok (mkWaitRequest id m (number t) (number i) p)
    | _ => Err ErrSyntax
    end;
  json_Record := two_of mkRecordRequest;
  json_UpdateScrollback := two_of (λ id n, mkUpdateScrollbackRequest id (number n));
  json_KillPrefix := one_of mkKillPrefixRequest;
  json_History := three_of (λ id f n, mkHistoryRequest id f (number n));
  json_meta_marshal _ := Ok #"{}";
  json_meta_unmarshal _ := Err (ENew #"EOF");
  json_cmds_marshal _ := Ok #"{}";
  json_cmds_unmarshal _ := Err (ENew #"EOF");
  json_record_line _ data := Ok data;
|}.

Definition enc_info (i : SessionInfo) : list bytes :=
  [si_ID i; si_State i; itoa (si_Pid i); itoa (si_Cols i); itoa (si_Rows i); si_Shell i].

Definition dec_info (l : list bytes) : result (SessionInfo * list bytes) :=
  match l with
  | id :: st :: p :: c :: r :: sh :: l => Ok (mkInfo id st (number p) (number c) (number r) sh, l)
  | _ => Err ErrSyntax
  end.

Fixpoint dec_infos (fuel : nat) (l : list bytes) : list SessionInfo :=
  match fuel with
  | O => []
  | S fuel => match dec_info l with Ok (i, l) => i :: dec_infos fuel l | Err _ => [] end
  end.

(** A response of a wait: the exit code, when there is one, is a field more. *)
Definition enc_wait (r : WaitResponse) : list bytes :=
  [wr_SessionID r; wr_Mode r; flag (wr_Matched r); flag (wr_TimedOut r)] ++
  match wr_ExitCode r with Some n => [itoa n] | None => [] end.

Definition dec_wait (l : list bytes) : result WaitResponse :=
  match l with
  | [id; m; f; t] => Ok (mkWaitResponse id m None (unflag f) (unflag t))
  | [id; m; f; t; n] => Ok (mkWaitResponse id m (Some (number n)) (unflag f) (unflag t))
  | _ => Err ErrSyntax
  end.

Definition enc_reply (r : response) : list bytes :=
  match r with
  | RSession i => enc_info i
  | RSessions l => l ≫= enc_info
  | RAttach i s _ _ => enc_info i ++ match s with Some s => [s] | None => [] end
  | RStatus v u s c => [v; itoa u; itoa s; itoa c]
  | RMeta v m => v :: match m with Some m => enc_pairs m | None => [] end
  | RExecSync l => l ≫= λ r, [er_SessionID r; flag (er_OK r); er_Error r]
  | RKillPrefix ids errs => [itoa (Z.of_nat (length ids))] ++ ids ++ enc_pairs errs
  | RWait r => enc_wait r
  | RRecord id b p => [id; flag b; join #"/" p]
  end.

Definition example_wire_replies : ReplyJson := {| enc_response r := enc (enc_reply r); enc_error m := enc [m] |}.

Fixpoint dec_results (l : list bytes) : list ExecResult :=
  match l with
  | id :: b :: e :: l => mkExecResult id (unflag b) e :: dec_results l
  | _ => []
  end.

Definition example_wire_client : ClientJson := {|
  marshal_create r := Ok (enc [cr_ID r; cr_Shell r; cr_Cwd r]);
  marshal_attach id := Ok (enc [id]);
  marshal_session id := enc [id];
  marshal_resize r := enc [rr_SessionID r; itoa (rr_Cols r); itoa (rr_Rows r)];
  marshal_scrollback r := enc [us_SessionID r; itoa (us_ScrollbackLines r)];
  marshal_prefix p := Ok (enc [p]);
  marshal_meta_set r := enc [ms_SessionID r; ms_Key r; ms_Value r];
  marshal_meta_get r := enc [mg_SessionID r; mg_Key r];
  marshal_env r := Ok (enc (ef_SessionID r :: enc_pairs (ef_Env r)));
  marshal_exec r := Ok (enc [ex_SessionID r; ex_Input r; flag (ex_Newline r)]);
  marshal_exec_sync r := Ok (enc ([xs_Prefix r; xs_Input r; flag (xs_Newline r)] ++ xs_SessionIDs r));
  marshal_wait r := Ok (enc [wq_SessionID r; wq_Mode r; itoa (wq_Timeout r); itoa (wq_IdleFor r); wq_Pattern r]);
  marshal_record r := Ok (enc [rq_SessionID r; rq_Action r]);
  unmarshal_session s := result_map fst (dec_info (fields_of s));
  unmarshal_sessions s := Ok (dec_infos (length s) (fields_of s));
  unmarshal_attach s :=
    match dec_info (fields_of s) with
    | Ok (i, l) => Ok (mkAttachResp i (head l) [] None)
    | Err e => Err e
    end;
  unmarshal_kill_prefix s :=
    match fields_of s with
    | n :: l => let k := Z.to_nat (number n) in
        Ok (mkKillPrefixResult (take k l) (list_to_map (dec_pairs (drop k l))))
    | [] => Err ErrSyntax
    end;
  unmarshal_meta_value := one_of (λ v, v);
  unmarshal_metadata s := Ok (list_to_map (dec_pairs (tail (fields_of s))));
  unmarshal_exec_sync s := Ok (dec_results (fields_of s));
  unmarshal_wait s := dec_wait (fields_of s);
  unmarshal_record := three_of (λ id b p, mkRecordResult id (unflag b) p);
  unmarshal_error := one_of (λ m, m);
|}.

(** Every byte sequence is kept. *)
Lemma example_agrees : agree example_wire example_wire_replies example_wire_client (λ _, True).
Proof.
  constructor.
  all: cbn -[enc]; unfold one_of, two_of, three_of, fields_of.
  all: repeat intros ?; rewrite ?dec_enc; try done.
  - eexists. by rewrite dec_enc.
  - by destruct r.
  - by destruct r.
  - destruct r as [id i n]. eexists. split; [done|]. rewrite dec_enc. by destruct n.
  - by destruct s.
  - cbn [enc_reply tail]. by rewrite dec_enc_pairs.
Qed.
