(* ===== verification/ClientDaemon.v ===== *)
(** * The client's calls over the daemon

    [sendRequest] of a client that the daemon answers: the methods of
    [ClientCalls] composed with the daemon's handlers, for encodings that
    [encoding/json] agrees on.  What a caller of the library observes. *)

From S2P Require Import Prelude Files GoStrings Pipeline SessionValues Protocol Payload SessionManager DaemonTypes Daemon DaemonExample DaemonLemmas DaemonFrame DaemonClients DaemonReplies ClientHistory ClientCalls ClientExample.

#[local] Open Scope Z_scope.

Definition ErrRequestTimeout : error := ENew #"client: request timeout".

Section Daemon.

Context {S : Type} `{SessionManagerLaws S}.

Context (J : Json) (E : ReplyJson) (C : ClientJson) (text : bytes → Prop) (stamp : time → bytes)
  (stat_ok : bytes → bool).

Hypothesis HA : agree J E C text.

(** ** The daemon behind a connection *)

(** One call at a time; a request that the daemon does not answer runs into
    the time-out. *)
Definition over (now : time) (c : bytes) (t : MessageType) (payload : bytes) : rpc (Daemon S) Frame := λ d,
  let (e, d') := dispatch J stamp stat_ok now c (mkFrame ProtocolVersion t payload) d in
  (match filter (λ f, route_of f = ToResponses) ((frame_of E ∘ snd) <$> replies e) with
   | f :: _ => Ok f
   | [] => Err ErrRequestTimeout
   end, d').

(** ** Lemmas *)

Lemma frame_of_plain m :
  (∀ r, m = MOk r → route_of (frame_of E m) = ToResponses ∧ Type_ (frame_of E m) = MsgOK) ∧
  (∀ msg, m = MError msg → route_of (frame_of E m) = ToResponses ∧ Type_ (frame_of E m) = MsgError).
Proof. split; [intros [r|] ->|intros msg ->]; done. Qed.

Lemma over_one now c t p (d : Daemon S) e d' m :
  dispatch J stamp stat_ok now c (mkFrame ProtocolVersion t p) d = (e, d') → replies e = [(c, m)] →
  route_of (frame_of E m) = ToResponses → over now c t p d = (Ok (frame_of E m), d').
Proof. intros Hd Hr Hm. unfold over. rewrite Hd, Hr. cbn. by rewrite decide_True. Qed.

Lemma over_reply now c t p (d : Daemon S) m :
  dispatch J stamp stat_ok now c (mkFrame ProtocolVersion t p) d = reply c m d →
  route_of (frame_of E m) = ToResponses → over now c t p d = (Ok (frame_of E m), d).
Proof. intros Hd. by apply (over_one now c t p d [Reply c m]). Qed.

(** A handler whose reply is the result of a call of the backend. *)
Lemma acknowledged_eq now c t p (d : Daemon S) (f : S → option error * S) :
  dispatch J stamp stat_ok now c (mkFrame ProtocolVersion t p) d = call f (reply_result c) d →
  acknowledged C (over now c) t p d =
    (match fst (f (backend d)) with
     | None => Ok tt
     | Some e => Err (parseError C (frame_of E (MError (err_text e))))
     end, set_backend d (snd (f (backend d)))).
Proof.
  intros Hd. unfold acknowledged, mbind, rpc_bind. unfold call in Hd. destruct (f (backend d)) as [[e|] s] eqn:Hf.
  - by rewrite (over_one now c t p d _ _ (MError (err_text e)) Hd).
  - by rewrite (over_one now c t p d _ _ (MOk None) Hd).
Qed.

Lemma acknowledged_result now c t p (d : Daemon S) (f : S → option error * S) :
  dispatch J stamp stat_ok now c (mkFrame ProtocolVersion t p) d = call f (reply_result c) d →
  let (r, d') := acknowledged C (over now c) t p d in
  (r = Ok tt ↔ fst (f (backend d)) = None) ∧ d' = set_backend d (snd (f (backend d))).
Proof. intros Hd. rewrite (acknowledged_eq _ _ _ _ _ _ Hd). by destruct (fst (f (backend d))). Qed.

Lemma Kill_over now c id (d : Daemon S) :
  text id →
  let (r, d') := Kill C (over now c) id d in
  (r = Ok tt ↔ fst (sm_Kill (backend d) id) = None) ∧ d' = set_backend d (snd (sm_Kill (backend d) id)).
Proof.
  intros Ht. apply (acknowledged_result _ _ _ _ _ (λ s, sm_Kill s id)).
  unfold dispatch. cbn -[call]. unfold handleKill, decode. by rewrite (ag_session _ _ _ _ HA).
Qed.

Lemma MetaSet_over now c id k v (d : Daemon S) :
  text id → text k → text v →
  let (r, d') := MetaSet C (over now c) id k v d in
  (r = Ok tt ↔ fst (sm_MetaSet (backend d) id k v) = None) ∧ d' = set_backend d (snd (sm_MetaSet (backend d) id k v)).
Proof.
  intros Hi Hk Hv. apply (acknowledged_result _ _ _ _ _ (λ s, sm_MetaSet s id k v)).
  unfold dispatch. cbn -[call]. unfold handleMetaSet, decode. by rewrite (ag_meta_set _ _ _ _ HA).
Qed.

Lemma Info_over now c id (d : Daemon S) :
  text id → is_ok (fst (Info C (over now c) id d)) = known (backend d) id.
Proof.
  intros Ht. unfold Info, answered, mbind, rpc_bind, known.
  assert (Hd : dispatch J stamp stat_ok now c (mkFrame ProtocolVersion MsgInfo (marshal_session C id)) d =
    match sm_Get (backend d) id with
    | Err e => reply_error c e d
    | Ok info => reply c (MOk (Some (RSession info))) d
    end).
  { change (handleInfo J c (marshal_session C id) d = match sm_Get (backend d) id with
      | Err e => reply_error c e d
      | Ok info => reply c (MOk (Some (RSession info))) d
      end). unfold handleInfo, decode. rewrite (ag_session _ _ _ _ HA) by done.
    unfold query. cbn [sr_SessionID]. by destruct (sm_Get (backend d) id). }
  destruct (sm_Get (backend d) id) as [i|e].
  - rewrite (over_reply _ _ _ _ _ _ Hd) by done. cbn. pose proof (ag_info _ _ _ _ HA i) as Hi.
    by destruct (unmarshal_session C _).
  - by rewrite (over_reply _ _ _ _ _ (MError (err_text e)) Hd).
Qed.

Lemma meta_over {A} now c id k (d : Daemon S) (f : bytes → result A) what :
  text id → text k →
  fst (answered C (over now c) MsgMetaGet (marshal_meta_get C (mkMetaGetRequest id k)) what f d) =
  match (if decide (k = []) then result_map (λ m, RMeta [] (Some m)) (sm_MetaGetAll (backend d) id)
         else result_map (λ v, RMeta v None) (sm_MetaGet (backend d) id k)) with
  | Ok r => wrap_err (#"client: unmarshal " ++ what) (f (enc_response E r))
  | Err e => Err (parseError C (frame_of E (MError (err_text e))))
  end.
Proof.
  intros Hi Hk. unfold answered, mbind, rpc_bind.
  assert (Hd : dispatch J stamp stat_ok now c
      (mkFrame ProtocolVersion MsgMetaGet (marshal_meta_get C (mkMetaGetRequest id k))) d =
    match (if decide (k = []) then result_map (λ m, RMeta [] (Some m)) (sm_MetaGetAll (backend d) id)
           else result_map (λ v, RMeta v None) (sm_MetaGet (backend d) id k)) with
    | Ok r => reply c (MOk (Some r)) d
    | Err e => reply_error c e d
    end).
  { change (handleMetaGet J c (marshal_meta_get C (mkMetaGetRequest id k)) d =
      match (if decide (k = []) then result_map (λ m, RMeta [] (Some m)) (sm_MetaGetAll (backend d) id)
             else result_map (λ v, RMeta v None) (sm_MetaGet (backend d) id k)) with
      | Ok r => reply c (MOk (Some r)) d
      | Err e => reply_error c e d
      end). unfold handleMetaGet, decode. rewrite (ag_meta_get _ _ _ _ HA) by done. cbn [mg_Key mg_SessionID].
    case_decide; unfold query; [by destruct (sm_MetaGetAll (backend d) id)|by destruct (sm_MetaGet (backend d) id k)]. }
  destruct (if decide _ then _ else _) as [r|e].
  - by rewrite (over_reply _ _ _ _ _ _ Hd) by done.
  - by rewrite (over_reply _ _ _ _ _ (MError (err_text e)) Hd) by done.
Qed.

(** ** Theorems *)

(** A client that kills a session is told so exactly when the daemon had
    it; from then on asking about it fails, and asking about any other session
    succeeds exactly when it did before. *)
Theorem killed_session_is_gone now c id d :
  sm_ok (backend d) → text id →
  let (r, d') := Kill C (over now c) id d in
  (r = Ok tt ↔ is_ok (fst (Info C (over now c) id d)) = true) ∧
  is_ok (fst (Info C (over now c) id d')) = false ∧
  ∀ id', text id' → id' ≠ id →
    is_ok (fst (Info C (over now c) id' d')) = is_ok (fst (Info C (over now c) id' d)).
Proof.
  intros Hok Ht. pose proof (Kill_over now c id d Ht) as Hk. destruct (Kill C (over now c) id d) as [r d'].
  destruct Hk as [Hr ->]. pose proof (sm_Kill_spec (backend d) id Hok) as Hs.
  destruct (sm_Kill (backend d) id) as [e s]. destruct Hs as (_ & He & Hs). cbn [fst snd] in *.
  split_and!.
  - rewrite Info_over by done. tauto.
  - rewrite Info_over by done. cbn. rewrite Hs, bool_decide_eq_true_2 by done. apply andb_false_r.
  - intros id' Ht' Hne. rewrite !Info_over by done. cbn. rewrite Hs, bool_decide_eq_false_2 by done. apply andb_true_r.
Qed.

(** Metadata that a client sets on a session is read back by every client:
    the value under its key, and all the pairs with that one replaced or added.
    The empty key is accepted and stored, but asking for it gives the empty
    text, since the daemon takes that request for one about all the pairs. *)
Theorem metadata_is_read_back `{!MetadataLaws S} now1 now2 c1 c2 id k v d m :
  sm_ok (backend d) → text id → text k → text v →
  sm_MetaGetAll (backend d) id = Ok m → map_Forall (λ k v, text k ∧ text v) m → known (backend d) id = true →
  let (r, d') := MetaSet C (over now1 c1) id k v d in
  r = Ok tt ∧
  fst (MetaGet C (over now2 c2) id k d') = Ok (if decide (k = []) then [] else v) ∧
  fst (MetaGetAll C (over now2 c2) id d') = Ok (<[k := v]> m).
Proof.
  intros Hok Hi Hk Hv Hm Hall Hkn. pose proof (MetaSet_over now1 c1 id k v d Hi Hk Hv) as Hs.
  destruct (MetaSet C (over now1 c1) id k v d) as [r d']. destruct Hs as [Hr ->].
  destruct (sm_Metadata_spec (backend d) id k v Hok Hkn) as (Hget & (m0 & Hm0 & Hm0') & _).
  assert (m0 = m) as -> by congruence.
  pose proof (sm_MetaSet_spec (backend d) id k v Hok) as Hspec.
  destruct (sm_MetaSet (backend d) id k v) as [e s]. destruct Hspec as [_ He]. cbn [fst snd] in *.
  pose proof (ag_empty _ _ _ _ HA) as He0. split; [by apply Hr, He|].
  unfold MetaGetAll, MetaGet. rewrite !meta_over by done. cbn [backend set_backend]. rewrite Hget, Hm0'. split.
  - case_decide; cbn [result_map]; [by rewrite (ag_no_value _ _ _ _ HA)|by rewrite (ag_value _ _ _ _ HA)].
  - rewrite decide_True by done. cbn [result_map]. rewrite (ag_metadata _ _ _ _ HA); [done|].
    by apply map_Forall_insert_2.
Qed.
End Daemon.

(** ** Witnesses *)

Definition wire_over (t : MessageType) (p : bytes) : rpc (Daemon example_backend) Frame :=
  over example_wire example_wire_replies example_stamp example_stat 5 #"c1" t p.

Lemma killed_session_is_gone_witness :
  let d' := snd (Kill example_wire_client wire_over #"a" example_daemon) in
  is_ok (fst (Info example_wire_client wire_over #"a" d')) = false ∧
  is_ok (fst (Info example_wire_client wire_over #"b" d')) = true.
Proof.
  pose proof (killed_session_is_gone example_wire example_wire_replies example_wire_client (λ _, True) example_stamp
    example_stat example_agrees 5 #"c1" #"a" example_daemon example_ok I) as Hg.
  fold wire_over in Hg.
  destruct (Kill _ _ _ _) as [r d'] eqn:Hk. destruct Hg as (_ & Ha & Hb). cbn [snd]. cbv zeta.
  split; [exact Ha|]. etransitivity; [apply (Hb #"b" I); discriminate|]. vm_compute. reflexivity.
Defined.

Lemma metadata_is_read_back_witness :
  let d' := snd (MetaSet example_wire_client wire_over #"a" #"k" #"v" example_daemon) in
  fst (MetaGet example_wire_client wire_over #"a" #"k" d') = Ok #"v" ∧
  fst (MetaGetAll example_wire_client wire_over #"a" d') = Ok {[ #"k" := #"v"]}.
Proof.
  pose proof (metadata_is_read_back example_wire example_wire_replies example_wire_client (λ _, True) example_stamp
    example_stat example_agrees 5 5 #"c1" #"c1" #"a" #"k" #"v" example_daemon ∅ example_ok I I I
    eq_refl (map_Forall_empty _) eq_refl) as Hg.
  destruct (MetaSet _ _ _ _ _ _) as [r d'] eqn:Hk. destruct Hg as (_ & Ha & Hb). exact (conj Ha Hb).
Defined.
