(* ===== verification/Config.v ===== *)
(** * The configuration file: [internal/platform/config]

    The values with their defaults, loading over a TOML library, and the
    goroutine that watches the file. *)

From S2P Require Import Prelude.

#[local] Open Scope Z_scope.

(** ** Values *)

Record DaemonConfig := mkDaemonConfig {
  dc_Socket : bytes;
  dc_MaxSessions : Z;
  dc_IdleTTL : bytes;
  dc_RSSWarning : bytes;
  dc_RemainOnExit : bool;
  dc_MaxConcurrentSpawns : Z;
  dc_AutomationMode : bytes;
}.

Record EmulatorConfig := mkEmulatorConfig { ec_Backend : bytes; ec_XtermBin : bytes }.

Record HistoryConfig := mkHistoryConfig {
  hc_MaxPerSession : bytes;
  hc_MaxTotal : bytes;
  hc_Recording : bool;
  hc_ColdRestore : bool;
  hc_MaxDumpSize : bytes;
}.

Record BackpressureConfig := mkBackpressureConfig {
  bc_HighWatermark : bytes;
  bc_LowWatermark : bytes;
  bc_BatchInterval : bytes;
}.

Record HeartbeatConfig := mkHeartbeatConfig { hb_Interval : bytes; hb_MaxMissed : Z }.

Record ShellConfig := mkShellConfig { sc_Default : bytes; sc_UseWrapper : bool }.

(** The sections with one value are that value. *)
Record Config := mkConfig {
  cfg_Daemon : DaemonConfig;
  cfg_Emulator : EmulatorConfig;
  cfg_History : HistoryConfig;
  cfg_Backpressure : BackpressureConfig;
  cfg_Heartbeat : HeartbeatConfig;
  cfg_ReaperCheckInterval : bytes;
  cfg_EnvironmentUpdate : list bytes;
  cfg_Shell : ShellConfig;
  cfg_WatchdogTimeout : bytes;
  cfg_ResizeStrategy : bytes;
  cfg_RecordingMaxFileSize : bytes;
}.

Definition Defaults : Config := {|
  cfg_Daemon := mkDaemonConfig #"~/.wmux/daemon.sock" 0 #"0" #"0" false 3 #"same-user";
  cfg_Emulator := mkEmulatorConfig #"none" [];
  cfg_History := mkHistoryConfig #"0" #"0" false false #"10MB";
  cfg_Backpressure := mkBackpressureConfig #"1MB" #"256KB" #"16ms";
  cfg_Heartbeat := mkHeartbeatConfig #"10s" 3;
  cfg_ReaperCheckInterval := #"5m";
  cfg_EnvironmentUpdate := [ #"SSH_AUTH_SOCK"; #"SSH_CONNECTION"; #"DISPLAY"];
  cfg_Shell := mkShellConfig [] false;
  cfg_WatchdogTimeout := #"30s";
  cfg_ResizeStrategy := #"leader";
  cfg_RecordingMaxFileSize := #"50MB";
|}.

Section Config.

(** The parsed file of the koanf library, its parser, and how it sets the values
    of a configuration that the file names. *)
Context {K : Type} (toml : bytes → result K) (unmarshal : K → Config → result Config).

(** [Load], of what reading the file gives. *)
Definition Load (file : result bytes) : result Config :=
  match file with
  | Err e => Err (EWrap #"config: load" e)
  | Ok data =>
      match toml data with
      | Err e => Err (EWrap #"config: load" e)
      | Ok k => wrap_err #"config: unmarshal" (unmarshal k Defaults)
      end
  end.

(** ** Watching *)

(** SHA-256, in hexadecimal. *)
Context (sha256 : bytes → bytes).

Definition fileHash (file : result bytes) : result bytes :=
  match file with
  | Err e => Err (EWrap #"config: open" e)
  | Ok data => Ok (sha256 data)
  end.

(** The hash that the goroutine holds, and whether it has been stopped. *)
Record watcher := mkWatcher { current : bytes; stopped : bool }.

(** [Watch], of what its two readings of the file give. *)
Definition Watch (first second : result bytes) : result watcher :=
  match Load first with
  | Err e => Err e
  | Ok _ =>
      match fileHash second with
      | Err e => Err (EWrap #"config: watch hash" e)
      | Ok hash => Ok (mkWatcher hash false)
      end
  end.

(** [stop]: a second call panics. *)
Definition stop (w : watcher) : option watcher := if stopped w then None else Some (mkWatcher (current w) true).

(** One tick: what the two readings of the file give, and the call of the
    callback, if there is one. *)
Definition watch_tick (first second : result bytes) (w : watcher) : option Config * watcher :=
  if stopped w then (None, w)
  else
    match fileHash first with
    | Err _ => (None, w)
    | Ok h =>
        if decide (h = current w) then (None, w)
        else
          let w := mkWatcher h false in
          match Load second with
          | Err _ => (None, w)
          | Ok cfg => (Some cfg, w)
          end
    end.

Fixpoint watch_run (l : list (result bytes)) (w : watcher) : list (option Config) * watcher :=
  match l with
  | [] => ([], w)
  | file :: l =>
      let (c, w) := watch_tick file file w in
      let (cs, w) := watch_run l w in (c :: cs, w)
  end.

(** ** Specification *)

(** The contents that a file has had last, as the ticks have seen them. *)
Definition last_seen (seen : bytes) (l : list (result bytes)) : bytes :=
  foldl (λ s f, match f with Ok data => data | Err _ => s end) seen l.

(** The configuration that a tick reports: the file has changed since the tick
    before that could read it, and what it holds now can be loaded. *)
Definition reported (seen : bytes) (file : result bytes) : option Config :=
  match file with
  | Err _ => None
  | Ok data =>
      if decide (data = seen) then None
      else match Load (Ok data) with Ok cfg => Some cfg | Err _ => None end
  end.

(** While it is not stopped, and as long as the hash tells the contents of
    the file apart, the watcher calls its callback at exactly the ticks at which
    the file differs from what it was when it could last be read and can be
    loaded, with the configuration that it holds then.  A file that cannot be
    loaded is not tried again until it changes. *)
Theorem watch_reports_changes seen w l :
  (∀ x y, sha256 x = sha256 y → x = y) →
  Watch (Ok seen) (Ok seen) = Ok w →
  let (cs, w') := watch_run l w in
  length cs = length l ∧
  (∀ i file, l !! i = Some file → cs !! i = Some (reported (last_seen seen (take i l)) file)) ∧
  stopped w' = false ∧ current w' = sha256 (last_seen seen l).
Proof.
  intros Hinj Hw. unfold Watch in Hw. destruct (Load _); [|done]. injection Hw as <-. revert seen.
  induction l as [|f l IH]; intros seen; [done|]. cbn [watch_run].
  assert (Ht : watch_tick f f (mkWatcher (sha256 seen) false) =
    (reported seen f, mkWatcher (sha256 (match f with Ok data => data | Err _ => seen end)) false)).
  { unfold watch_tick, fileHash, reported. cbn [stopped current]. destruct f as [data|e]; [|done].
    destruct (decide (data = seen)) as [->|Hne]; [by rewrite decide_True|].
    rewrite decide_False by (intros ?%Hinj; done). by destruct (Load _). }
  rewrite Ht. specialize (IH (match f with Ok data => data | Err _ => seen end)).
  destruct (watch_run l _) as [cs w']. destruct IH as (Hlen & Hall & Hs & Hc). cbn [length].
  split_and!; [by f_equal| |done|done]. intros [|i] file Hi; cbn in Hi; [by injection Hi as ->|].
  exact (Hall i file Hi).
Qed.
End Config.

(** ** Witness *)

(** A file that names the limit of a session's history. *)
Lemma watch_reports_changes_witness :
  let toml (s : bytes) := if decide (s = #"bad") then Err (ENew #"toml") else Ok s in
  let set_max (k : bytes) (c : Config) := Ok (mkConfig (cfg_Daemon c) (cfg_Emulator c)
    (mkHistoryConfig k #"0" false false #"10MB") (cfg_Backpressure c) (cfg_Heartbeat c) (cfg_ReaperCheckInterval c)
    (cfg_EnvironmentUpdate c) (cfg_Shell c) (cfg_WatchdogTimeout c) (cfg_ResizeStrategy c) (cfg_RecordingMaxFileSize c)) in
  let files := [Ok #"1MB"; Ok #"2MB"; Err (ENew #"gone"); Ok #"2MB"; Ok #"bad"; Ok #"3MB"] in
  (option_map (λ c, hc_MaxPerSession (cfg_History c)) <$> fst (watch_run toml set_max (λ x, x) files (mkWatcher #"1MB" false))) =
    [None; Some #"2MB"; None; None; None; Some #"3MB"] ∧
  current (snd (watch_run toml set_max (λ x, x) files (mkWatcher #"1MB" false))) = #"3MB".
Proof.
  cbv zeta. split; [vm_compute; reflexivity|].
  match goal with |- current (snd (watch_run ?t ?u _ ?f ?w)) = _ =>
    pose proof (watch_reports_changes t u (λ x, x) #"1MB" w f (λ x y Heq, Heq) eq_refl) as H;
    destruct (watch_run t u (λ x, x) f w) as [cs w'] end.
  destruct H as (_ & _ & _ & H). cbn [snd]. rewrite H. vm_compute. reflexivity.
Defined.
