(* ===== verification/ClientRestore.v ===== *)
(** * Cold restore: [pkg/client/restore.go]

    What an integrator reads of the history that a daemon has left on the disk,
    and what the daemon's next start leaves of it. *)

From S2P Require Import Prelude Files GoStrings SessionValues Protocol Payload SessionManager DaemonTypes Daemon DaemonExample ClientExample.
From S2P Require Import History.

#[local] Open Scope Z_scope.

(** ** Operations *)

Record SessionHistory := mkSessionHistory {
  sh_Scrollback : bytes;
  sh_SessionID : bytes;
  sh_Shell : bytes;
  sh_Cwd : bytes;
  sh_Cols : Z;
  sh_Rows : Z;
}.

(** Every error wraps [ErrColdRestoreNotAvailable]: the metadata could not be
    read, or has an end. *)
Inductive ErrColdRestoreNotAvailable := NoMetadata (e : error) | ExitedCleanly.

Section Operations.

Context (unmarshal : bytes → result Metadata).

Definition LoadSessionHistory (fs : FS) (dir : path) (id : bytes) : SessionHistory + ErrColdRestoreNotAvailable :=
  let sessionDir := join_path dir id in
  match ReadMetadata unmarshal fs sessionDir with
  | Err e => inr (NoMetadata e)
  | Ok meta =>
      match EndedAt meta with
      | Some _ => inr ExitedCleanly
      | None =>
          let scrollback := match ReadFile fs (sessionDir ++ [scrollback_file]) with Ok data => data | Err _ => [] end in
          inl (mkSessionHistory scrollback (SessionID meta) (Shell meta) (Cwd meta) (Cols meta) (Rows meta))
      end
  end.
End Operations.

(** [os.Stat]. *)
Definition stat (fs : FS) (p : path) : option error :=
  if decide (p ∈ locked fs) then Some ErrPermission
  else if decide (entries fs !! p = None) then Some ErrNotExist else None.

Definition CleanSessionHistory (fs : FS) (dir : path) (id : bytes) : option error * FS :=
  let sessionDir := join_path dir id in
  match stat fs sessionDir with
  | Some e => if err_is e ErrNotExist then (None, fs) else (Some (EWrap #"client: clean history: stat" e), fs)
  | None =>
      match RemoveAll fs sessionDir with
      | (Err e, fs) => (Some (EWrap #"client: clean history" e), fs)
      | (Ok _, fs) => (None, fs)
      end
  end.

(** ** Lemmas on the file system *)

Lemma ReadFile_same fs fs' p : entries fs' !! p = entries fs !! p → locked fs' = locked fs → ReadFile fs' p = ReadFile fs p.
Proof. intros He Hl. unfold ReadFile. by rewrite He, Hl. Qed.

Lemma WriteFile_frame fs p data q :
  q ≠ p → let fs' := snd (WriteFile fs p data) in entries fs' !! q = entries fs !! q ∧ locked fs' = locked fs.
Proof.
  intros Hq. unfold WriteFile. case_decide; [done|].
  destruct (entries fs !! p) as [[]|]; [done| |case_decide; [|done]]; cbn; by rewrite lookup_insert_ne.
Qed.

Lemma WriteFile_reads fs p data fs' : WriteFile fs p data = (Ok tt, fs') → ReadFile fs' p = Ok data ∧ locked fs' = locked fs.
Proof.
  unfold WriteFile, ReadFile. case_decide as Hl; [done|].
  destruct (entries fs !! p) as [[]|]; [done| |case_decide; [|done]]; intros [= <-]; cbn;
    by rewrite decide_False, lookup_insert_eq.
Qed.

(** ** What the daemon leaves *)

Section Daemon.

Context {S : Type} `{SessionManagerLaws S} (J : Json).

(** The state of a session's history on the disk and in the daemon: the
    metadata of a session that runs, and a writer whose file is on the disk. *)
Definition kept (dir : path) (id data : bytes) (meta : Metadata) (d : Daemon S) : Prop :=
  dataDir (config d) = Some dir ∧
  ReadMetadata (json_meta_unmarshal J) (disk d) (join_path dir id) = Ok meta ∧
  ReadFile (disk d) (session_file dir id scrollback_file) = Ok data ∧
  ∃ w, scrollbackWriters d !! id = Some w ∧ writer_inv w ∧ file w = data ∧ maxSize w = maxScrollbackSize (config d).

(** A write through to a file that is there. *)
Lemma write_through_reads fs p data old :
  ReadFile fs p = Ok old →
  ReadFile (write_through fs p data) p = Ok data ∧
  ∀ q, q ≠ p → ReadFile (write_through fs p data) q = ReadFile fs q.
Proof.
  unfold ReadFile, write_through. case_decide as Hl; [done|]. destruct (entries fs !! p) as [[|old']|] eqn:Hp; try done.
  intros _. cbn. rewrite decide_False, lookup_insert_eq by done. split; [done|]. intros q Hq.
  by rewrite lookup_insert_ne.
Qed.

Lemma write_through_frame fs p data q : q ≠ p → ReadFile (write_through fs p data) q = ReadFile fs q.
Proof.
  intros Hq. unfold ReadFile, write_through. destruct (entries fs !! p) as [[|old']|]; try done.
  cbn. by rewrite lookup_insert_ne.
Qed.

Lemma meta_not_scrollback dir id id' : join_path dir id ++ [metaFileName] ≠ session_file dir id' scrollback_file.
Proof. unfold session_file. intros [_ Heq]%app_inj_tail. done. Qed.

Lemma kept_same dir id data meta (d d' : Daemon S) :
  config d' = config d → disk d' = disk d → scrollbackWriters d' !! id = scrollbackWriters d !! id →
  kept dir id data meta d → kept dir id data meta d'.
Proof. intros Hc Hd Hw. unfold kept. by rewrite Hc, Hd, Hw. Qed.

(** Output of another session leaves the history, unless the two sessions have
    one directory. *)
Lemma persistOutput_other dir id data meta id' p (d : Daemon S) :
  id' ≠ id → join_path dir id' ≠ join_path dir id → kept dir id data meta d →
  kept dir id data meta (persistOutput id' p d).
Proof.
  intros Hid Hdir (Hdd & Hmeta & Hfile & w & Hw & Hinv & Hwf & Hmax). unfold persistOutput.
  destruct (scrollbackWriters d !! id') as [w'|]; [|by split_and!; [..|exists w]].
  destruct (Write None w' p) as [r w'']. rewrite Hdd. split_and!; [done|..]; cbn.
  - unfold ReadMetadata. by rewrite write_through_frame by apply meta_not_scrollback.
  - rewrite write_through_frame; [done|]. unfold session_file. intros [Heq _]%app_inj_tail. by apply Hdir.
  - exists w. by rewrite lookup_insert_ne.
Qed.

Lemma persistOutput_own dir id data meta p (d : Daemon S) :
  kept dir id data meta d → kept dir id (capped (maxScrollbackSize (config d)) (data ++ p)) meta (persistOutput id p d).
Proof.
  intros (Hdd & Hmeta & Hfile & w & Hw & Hinv & Hwf & Hmax). unfold persistOutput. rewrite Hw, Hdd.
  pose proof (scroll_Write_spec None w p Hinv) as Hs. destruct (Write None w p) as [[n err] w'].
  destruct Hs as (Hinv' & Hm' & _ & Hf). destruct (Hf eq_refl) as [_ Hf']. rewrite Hmax, Hwf in Hf'.
  destruct (write_through_reads (disk d) _ (file w') _ Hfile) as [Hown Hframe].
  split_and!; [done|..]; cbn [set_scrollback disk scrollbackWriters config].
  - unfold ReadMetadata. by rewrite Hframe by apply meta_not_scrollback.
  - by rewrite Hown, Hf'.
  - exists w'. rewrite lookup_insert_eq, Hm'. done.
Qed.

(** The output of the sessions, in the order in which it is persisted. *)
Definition persist_all (l : list (bytes * bytes)) (d : Daemon S) : Daemon S :=
  foldl (λ d '(id, p), persistOutput id p d) d l.

Definition output_of (id : bytes) (l : list (bytes * bytes)) : bytes := concat (snd <$> filter (λ x, fst x = id) l).

Lemma persistOutput_config id p (d : Daemon S) : config (persistOutput id p d) = config d.
Proof. unfold persistOutput. destruct (scrollbackWriters d !! id); [|done]. by destruct (Write _ _ _). Qed.

Lemma capped_app max a b : capped max (capped max a ++ b) = capped max (a ++ b).
Proof.
  unfold capped. case_bool_decide; [|done]. destruct (decide (length a <= Z.to_nat max)%nat).
  - by rewrite (take_ge a).
  - rewrite (take_app_le (take _ _)) by (rewrite length_take; lia).
    rewrite (take_app_le a) by lia. by rewrite take_take, Nat.min_id.
Qed.

Lemma persist_all_kept dir id data meta l (d : Daemon S) :
  Forall (λ x, fst x = id ∨ join_path dir (fst x) ≠ join_path dir id) l →
  capped (maxScrollbackSize (config d)) data = data → kept dir id data meta d →
  kept dir id (capped (maxScrollbackSize (config d)) (data ++ output_of id l)) meta (persist_all l d).
Proof.
  revert data d. induction l as [|[id' p] l IH]; intros data d Hl Hcap Hk.
  { unfold output_of. cbn. by rewrite app_nil_r, Hcap. }
  apply Forall_cons in Hl as [Hd Hl]. cbn [fst] in Hd. unfold persist_all. cbn [foldl]. fold (persist_all l (persistOutput id' p d)).
  unfold output_of. rewrite filter_cons. cbn [fst]. case_decide as Hid.
  - subst id'. cbn [fmap list_fmap snd concat]. fold (output_of id l). rewrite app_assoc, <- capped_app.
    rewrite <- (persistOutput_config id p). apply IH; [done| |].
    + rewrite persistOutput_config. pose proof (capped_app (maxScrollbackSize (config d)) (data ++ p) []) as Hc.
      by rewrite !app_nil_r in Hc.
    + rewrite persistOutput_config. by apply persistOutput_own.
  - fold (output_of id l). rewrite <- (persistOutput_config id' p). apply IH; [done|by rewrite persistOutput_config|].
    destruct Hd as [|Hd]; [done|]. by apply persistOutput_other.
Qed.

Lemma kept_loads dir id data meta (d : Daemon S) :
  EndedAt meta = None → kept dir id data meta d →
  LoadSessionHistory (json_meta_unmarshal J) (disk d) dir id =
    inl (mkSessionHistory data (SessionID meta) (Shell meta) (Cwd meta) (Cols meta) (Rows meta)).
Proof.
  intros He (_ & Hm & Hf & _). unfold LoadSessionHistory. rewrite Hm, He.
  unfold session_file in Hf. by rewrite Hf.
Qed.

(** Opening the files of a new session. *)
Lemma persistSessionCreate_kept now id req dir (d : Daemon S) :
  dataDir (config d) = Some dir → scrollbackWriters d !! id = None →
  let m := mkMetadata id (cr_Shell req) (cr_Cwd req) (cr_Cols req) (cr_Rows req) now None None in
  (∀ p, json_meta_marshal J m = Ok p → json_meta_unmarshal J p = Ok m) →
  let d' := persistSessionCreate J now id req d in
  is_Some (scrollbackWriters d' !! id) → config d' = config d ∧ kept dir id [] m d'.
Proof.
  intros Hdir Hnew m Hj d'. subst d'. unfold persistSessionCreate. rewrite Hdir.
  assert (Hno : ¬ is_Some (scrollbackWriters d !! id)) by (rewrite Hnew; apply is_Some_None).
  destruct (coldRestore (config d)) eqn:Hcold; cbn [negb]; [|done]. unfold EnsureSessionDir.
  destruct (Files.MkdirAll (disk d) (join_path dir id)) as [[[]|e] fs1]; [|done]. fold m. unfold WriteMetadata.
  destruct (json_meta_marshal J m) as [data|e] eqn:Hm; [|done].
  destruct (WriteFile fs1 _ data) as [[[]|e] fs2] eqn:Hw2; [|done]. unfold NewWriter.
  destruct (WriteFile fs2 _ []) as [[[]|e] fs3] eqn:Hw3; [|done]. intros _. split; [done|].
  apply WriteFile_reads in Hw2 as [Hr2 Hl2].
  pose proof (WriteFile_frame fs2 _ [] _ (meta_not_scrollback dir id id)) as Hf. unfold session_file in Hf. rewrite Hw3 in Hf.
  apply WriteFile_reads in Hw3 as [Hr3 _]. destruct Hf as [Hf1 Hf2].
  split_and!; [done| | |]; cbn [set_scrollback disk scrollbackWriters config].
  - unfold ReadMetadata. rewrite (ReadFile_same fs2 fs3), Hr2 by done. unfold wrap_err. by rewrite Hj.
  - exact Hr3.
  - eexists. rewrite lookup_insert_eq. split; [done|]. split_and!; cbn; [|done..]. split_and!; cbn; [done|done|lia].
Qed.

(** ** Theorems *)

(** C14: the history of a session that has been created and has not ended is
    loaded as the daemon has written it, whenever the daemon stops: the
    parameters that the session was created with, and its output up to the
    limit, whatever other sessions write.  It is enough that the daemon could
    open the session's files and that no other session's identifier names the
    same directory. *)
Theorem crashed_session_is_restored now id req dir l (d : Daemon S) :
  dataDir (config d) = Some dir → scrollbackWriters d !! id = None →
  let m := mkMetadata id (cr_Shell req) (cr_Cwd req) (cr_Cols req) (cr_Rows req) now None None in
  (∀ p, json_meta_marshal J m = Ok p → json_meta_unmarshal J p = Ok m) →
  let d1 := persistSessionCreate J now id req d in
  is_Some (scrollbackWriters d1 !! id) →
  Forall (λ x, fst x = id ∨ join_path dir (fst x) ≠ join_path dir id) l →
  LoadSessionHistory (json_meta_unmarshal J) (disk (persist_all l d1)) dir id =
    inl (mkSessionHistory (capped (maxScrollbackSize (config d)) (output_of id l)) id
           (cr_Shell req) (cr_Cwd req) (cr_Cols req) (cr_Rows req)).
Proof.
  intros Hdir Hnew m Hj d1 Hsome Hl.
  destruct (persistSessionCreate_kept now id req dir d Hdir Hnew Hj Hsome) as [Hc Hk].
  apply (persist_all_kept _ _ _ _ l) in Hk; [|done|unfold capped; by rewrite take_nil, Tauto.if_same].
  fold d1 in Hc, Hk. rewrite Hc in Hk. exact (kept_loads dir id _ m _ eq_refl Hk).
Qed.

(** One update of the metadata of a session. *)
Lemma UpdateMetadataExit_reads now code fs p m :
  (∀ m, ∃ x, json_meta_marshal J m = Ok x ∧ json_meta_unmarshal J x = Ok m) →
  ReadMetadata (json_meta_unmarshal J) fs p = Ok m →
  let (e, fs') := UpdateMetadataExit (json_meta_marshal J) (json_meta_unmarshal J) fs p now code in
  e = None ∧ (∃ m', ReadMetadata (json_meta_unmarshal J) fs' p = Ok m' ∧ EndedAt m' = Some now).
Proof.
  intros Hj Hm. unfold UpdateMetadataExit. rewrite Hm. unfold WriteMetadata. set (m' := mkMetadata _ _ _ _ _ _ _ _).
  destruct (Hj m') as (x & Hx & Hx'). rewrite Hx.
  assert (Hw : ∃ fs', WriteFile fs (p ++ [metaFileName]) x = (Ok tt, fs')).
  { unfold ReadMetadata, ReadFile in Hm. unfold WriteFile. case_decide as Hl; [done|].
    destruct (entries fs !! _) as [[]|]; [done|by eexists|done]. }
  destruct Hw as [fs' Hw]. rewrite Hw. split; [done|]. apply WriteFile_reads in Hw as [Hr _].
  exists m'. unfold ReadMetadata. rewrite Hr. unfold wrap_err. by rewrite Hx'.
Qed.

Lemma UpdateMetadataExit_frame now code fs p q :
  q ≠ p ++ [metaFileName] →
  ReadFile (snd (UpdateMetadataExit (json_meta_marshal J) (json_meta_unmarshal J) fs p now code)) q = ReadFile fs q.
Proof.
  intros Hq. unfold UpdateMetadataExit, WriteMetadata. destruct (ReadMetadata _ fs p); [|done].
  destruct (json_meta_marshal J _) as [x|]; [|done].
  pose proof (WriteFile_frame fs _ x _ Hq) as Hf. destruct (WriteFile fs _ x) as [[[]|] fs']; apply ReadFile_same; apply Hf.
Qed.

(** The sessions that are given an end, in turn. *)
Definition reconcile_all (now : time) (l : list SessionDirInfo) (acc : Z * FS) : Z * FS :=
  foldl (λ '(n, fs) i,
    match info_EndedAt i with
    | Some _ => (n, fs)
    | None =>
        match UpdateMetadataExit (json_meta_marshal J) (json_meta_unmarshal J) fs (Path i) now (-1) with
        | (Some _, fs) => (n, fs)
        | (None, fs) => (n + 1, fs)
        end
    end) acc l.

Lemma reconcile_all_frame now l n fs q :
  Forall (λ i, q ≠ Path i ++ [metaFileName]) l → ReadFile (snd (reconcile_all now l (n, fs))) q = ReadFile fs q.
Proof.
  revert n fs. induction l as [|i l IH]; intros n fs; [done|]. intros [Hi Hl]%Forall_cons. unfold reconcile_all. cbn [foldl].
  destruct (info_EndedAt i); [by apply IH|].
  pose proof (UpdateMetadataExit_frame now (-1) fs (Path i) q Hi) as Hf.
  destruct (UpdateMetadataExit _ _ fs (Path i) now (-1)) as [[e|] fs']; cbn [snd] in Hf; rewrite <- Hf; by apply IH.
Qed.

(** A session that has an end keeps one, and one in the list gets one. *)
Lemma reconcile_all_ends now l n fs p m :
  (∀ m, ∃ x, json_meta_marshal J m = Ok x ∧ json_meta_unmarshal J x = Ok m) →
  ReadMetadata (json_meta_unmarshal J) fs p = Ok m →
  is_Some (EndedAt m) ∨ (∃ i, i ∈ l ∧ Path i = p ∧ info_EndedAt i = None) →
  ∃ m', ReadMetadata (json_meta_unmarshal J) (snd (reconcile_all now l (n, fs))) p = Ok m' ∧ is_Some (EndedAt m').
Proof.
  intros Hj. revert n fs m. induction l as [|i l IH]; intros n fs m Hm Hor.
  { exists m. split; [done|]. destruct Hor as [Hor|(i & Hi & _)]; [done|by apply not_elem_of_nil in Hi]. }
  unfold reconcile_all. cbn [foldl]. destruct (info_EndedAt i) as [t|] eqn:Ht.
  { apply (IH _ _ m); [done|]. destruct Hor as [Hor|(i' & [-> |Hi]%elem_of_cons & Hp & He)]; [by left|congruence|right; by exists i']. }
  destruct (decide (Path i = p)) as [<-|Hne].
  - pose proof (UpdateMetadataExit_reads now (-1) fs (Path i) m Hj Hm) as Hu.
    destruct (UpdateMetadataExit _ _ fs (Path i) now (-1)) as [e fs']. destruct Hu as (-> & m' & Hm' & He').
    apply (IH _ _ m'); [done|]. left. by rewrite He'.
  - assert (Hp : p ++ [metaFileName] ≠ Path i ++ [metaFileName]) by (intros [Heq _]%app_inj_tail; by subst).
    pose proof (UpdateMetadataExit_frame now (-1) fs (Path i) _ Hp) as Hf.
    destruct (UpdateMetadataExit _ _ fs (Path i) now (-1)) as [e fs']. cbn [snd] in Hf.
    assert (Hm' : ReadMetadata (json_meta_unmarshal J) fs' p = Ok m) by (unfold ReadMetadata; by rewrite Hf).
    assert (Hor' : is_Some (EndedAt m) ∨ (∃ i', i' ∈ l ∧ Path i' = p ∧ info_EndedAt i' = None)).
    { destruct Hor as [Hor|(i' & [-> |Hi]%elem_of_cons & Hp' & He)]; [by left|done|right; by exists i']. }
    destruct e; by apply (IH _ _ m).
Qed.

End Daemon.

(** ** Witnesses *)

Section Witnesses.

(** An encoding of every metadata value: the bits of its number. *)
Fixpoint enc_pos (p : positive) : bytes :=
  match p with
  | xH => []
  | xO p => x00 :: enc_pos p
  | xI p => x01 :: enc_pos p
  end.

Fixpoint dec_pos (s : bytes) : positive :=
  match s with
  | [] => xH
  | b :: s => if decide (b = x00) then xO (dec_pos s) else xI (dec_pos s)
  end.

Lemma dec_enc_pos p : dec_pos (enc_pos p) = p.
Proof. induction p as [p IH|p IH|]; cbn; by rewrite ?IH. Qed.

Definition enc_Z (z : Z) : bytes :=
  match z with
  | Z0 => []
  | Zpos p => x00 :: enc_pos p
  | Zneg p => x01 :: enc_pos p
  end.

Definition dec_Z (s : bytes) : Z :=
  match s with
  | [] => 0
  | b :: s => if decide (b = x00) then Zpos (dec_pos s) else Zneg (dec_pos s)
  end.

Lemma dec_enc_Z z : dec_Z (enc_Z z) = z.
Proof. destruct z; cbn; by rewrite ?dec_enc_pos. Qed.

Definition enc_meta (m : Metadata) : bytes :=
  enc [SessionID m; Shell m; Cwd m; enc_Z (Cols m); enc_Z (Rows m); enc_Z (StartedAt m);
       from_option (λ t, x01 :: enc_Z t) [] (EndedAt m); from_option (λ c, x01 :: enc_Z c) [] (ExitCode m)].

Definition dec_option (s : bytes) : option Z :=
  match s with
  | [] => None
  | _ :: s => Some (dec_Z s)
  end.

Definition dec_meta (s : bytes) : result Metadata :=
  match fields_of s with
  | [id; shell; dir; cols; rows; start; ended; code] =>
      Ok (mkMetadata id shell dir (dec_Z cols) (dec_Z rows) (dec_Z start) (dec_option ended) (dec_option code))
  | _ => Err (ENew #"EOF")
  end.

Lemma dec_enc_meta m : dec_meta (enc_meta m) = Ok m.
Proof.
  unfold dec_meta, enc_meta, fields_of. rewrite dec_enc, !dec_enc_Z.
  destruct m as [? ? ? ? ? ? [t|] [c|]]; cbn; by rewrite ?dec_enc_Z.
Qed.

Definition restore_json : Json := {|
  json_Create := json_Create example_json;
  json_List := json_List example_json;
  json_SessionID := json_SessionID example_json;
  json_Resize := json_Resize example_json;
  json_EventSubscribe := json_EventSubscribe example_json;
  json_MetaSet := json_MetaSet example_json;
  json_MetaGet := json_MetaGet example_json;
  json_EnvForward := json_EnvForward example_json;
  json_Exec := json_Exec example_json;
  json_ExecSync := json_ExecSync example_json;
  json_Wait := json_Wait example_json;
  json_Record := json_Record example_json;
  json_UpdateScrollback := json_UpdateScrollback example_json;
  json_KillPrefix := json_KillPrefix example_json;
  json_History := json_History example_json;
  json_meta_marshal m := Ok (enc_meta m);
  json_meta_unmarshal := dec_meta;
  json_cmds_marshal := json_cmds_marshal example_json;
  json_cmds_unmarshal := json_cmds_unmarshal example_json;
  json_record_line := json_record_line example_json;
|}.

Definition restore_daemon : Daemon example_backend :=
  NewDaemon (mkConfig #"dev" (Some [ #"h"]) true 5 0 [] 0 false) example_sessions None None None (mkFS {[ [ #"h"] := EDir ]} ∅).

Definition restore_create : CreateRequest := mkCreateRequest #"a" #"/bin/sh" [] 80 24 #"/" [].

Definition restore_output : list (bytes * bytes) := [(#"a", #"abc"); (#"b", #"zz"); (#"a", #"def")].

(** The disk when the daemon stops. *)
Definition crashed : FS := disk (persist_all restore_output (persistSessionCreate restore_json 1 #"a" restore_create restore_daemon)).

Lemma crashed_session_is_restored_witness :
  LoadSessionHistory dec_meta crashed [ #"h"] #"a" = inl (mkSessionHistory #"abcde" #"a" #"/bin/sh" #"/" 80 24).
Proof.
  apply (crashed_session_is_restored restore_json 1 #"a" restore_create [ #"h"] restore_output restore_daemon eq_refl
    (lookup_empty _)).
  - intros p [= <-]. apply dec_enc_meta.
  - vm_compute. by eexists.
  - apply Forall_cons; split; [by left|]. apply Forall_cons; split; [right; vm_compute; discriminate|].
    apply Forall_cons; split; [by left|constructor].
Defined.

End Witnesses.
