(* ===== verification/ClientConnect.v ===== *)
(** * Connecting: [connect] and [dialStream] of [pkg/client], [dialDaemon] and [dialStream] of [cmd/wmux]

    The two handshakes of a client, over the sockets' outcomes, and then
    against the handshake of the transport server. *)

From S2P Require Import Prelude GoStrings Protocol ClientCalls Transport.

#[local] Open Scope Z_scope.

(** ** Handshakes *)

(** Writing the frame failed, or reading the answer. *)
Inductive hello_error := HelloWrite (e : error) | HelloRead (e : error).

(** The frame that is sent on a new connection, and its answer. *)
Definition hello (X : Type) : Type := Frame → X → (Frame + hello_error) * X.

Definition auth_frame (payload : bytes) : Frame := mkFrame ProtocolVersion MsgAuth payload.

Definition control_payload (token : bytes) : bytes := ChannelControl :: token.

Definition stream_payload (token clientID : bytes) : bytes :=
  ChannelStream :: token ++ byte_of (Z.of_nat (length clientID)) :: clientID.

Section Connect.

Context {X : Type}.

(** [client.dialStream]: [dial] is the error of dialling. *)
Definition client_dialStream (dial : option error) (say : hello X) (token clientID : bytes) : rpc X unit := λ x,
  match dial with
  | Some e => (Err (EWrap #"dial stream" e), x)
  | None =>
      match say (auth_frame (stream_payload token clientID)) x with
      | (inr (HelloWrite e), x) => (Err (EWrap #"auth write" e), x)
      | (inr (HelloRead e), x) => (Err (EWrap #"auth read" e), x)
      | (inl frame, x) => (if decide (Type_ frame = MsgOK) then Ok tt else Err (ENew #"auth rejected"), x)
      end
  end.

(** [client.connect] up to the goroutines: the client's identifier. *)
Definition connect (file : result bytes) (dial_control dial_stream : option error) (say_control say_stream : hello X) :
    rpc X bytes := λ x,
  match LoadFromFile file with
  | Err e => (Err (EWrap #"client: read token" e), x)
  | Ok token =>
      match dial_control with
      | Some e => (Err (EWrap #"client: dial control" e), x)
      | None =>
          match say_control (auth_frame (control_payload token)) x with
          | (inr (HelloWrite e), x) => (Err (EWrap #"client: auth write" e), x)
          | (inr (HelloRead e), x) => (Err (EWrap #"client: auth read" e), x)
          | (inl frame, x) =>
              if decide (Type_ frame = MsgOK) then
                match client_dialStream dial_stream say_stream token (Payload frame) x with
                | (Err e, x) => (Err (EWrap #"client: stream" e), x)
                | (Ok _, x) => (Ok (Payload frame), x)
                end
              else (Err (ENew #"client: auth failed"), x)
          end
      end
  end.

(** [dialDaemon] of the command line. *)
Definition dialDaemon (file : result bytes) (dial : option error) (say : hello X) : rpc X bytes := λ x,
  match LoadFromFile file with
  | Err e => (Err (EWrap #"read token" e), x)
  | Ok token =>
      match dial with
      | Some e => (Err (EWrap #"connect to daemon" e), x)
      | None =>
          match say (auth_frame (control_payload token)) x with
          | (inr (HelloWrite e), x) => (Err (EWrap #"auth handshake" e), x)
          | (inr (HelloRead e), x) => (Err (EWrap #"auth response" e), x)
          | (inl frame, x) =>
              (if decide (Type_ frame = MsgOK) then Ok (Payload frame)
               else Err (ENew (#"auth failed: " ++ Payload frame)), x)
          end
      end
  end.

(** [dialStream] of the command line. *)
Definition cli_dialStream (file : result bytes) (dial : option error) (say : hello X) (clientID : bytes) : rpc X unit := λ x,
  match LoadFromFile file with
  | Err e => (Err (EWrap #"read token" e), x)
  | Ok token =>
      match dial with
      | Some e => (Err (EWrap #"connect stream" e), x)
      | None =>
          match say (auth_frame (stream_payload token clientID)) x with
          | (inr (HelloWrite e), x) => (Err (EWrap #"stream auth" e), x)
          | (inr (HelloRead e), x) => (Err (EWrap #"stream response" e), x)
          | (inl frame, x) =>
              (if decide (Type_ frame = MsgOK) then Ok tt
               else Err (ENew (#"stream auth failed: " ++ Payload frame)), x)
          end
      end
  end.
End Connect.

(** ** The server behind the socket *)

Section Server.

Context (stat_file : Z → option bytes) (write_err : nat → Frame → option error) (self_uid self_pid : Z).

Context (creds : PeerCredentials) (now : time).

(** The first frame that the server writes, or the end of the connection. *)
Definition first_frame (eff : list effect) : Frame + hello_error :=
  match omap (λ e, match e with WriteTo _ f => Some f | _ => None end) eff with
  | f :: _ => inl f
  | [] => inr (HelloRead (ENew #"EOF"))
  end.

(** The server accepts connection [conn] from a process with [creds]. *)
Definition served (conn : nat) (newid : result bytes) : hello Server := λ f s,
  let (eff, s') := handleConn stat_file write_err self_uid self_pid s conn (mkHandshake true (Ok creds) (Ok f) true newid now) in
  (first_frame eff, s').

Lemma control_served s conn id :
  length (token s) = TokenSize → checkAutomationMode stat_file self_uid self_pid (mode s) creds = None →
  write_err conn (mkFrame ProtocolVersion MsgOK id) = None →
  served conn (Ok id) (auth_frame (control_payload (token s))) s =
    (inl (mkFrame ProtocolVersion MsgOK id),
     mkServer (token s) (<[id := next s]> (clients s))
       (<[next s := mkClient id (Some conn) None creds now zero_time 0]> (store s)) (S (next s)) (mode s) (closed s)).
Proof.
  intros Ht Hm Hw. unfold served, handleConn. cbn [hs_deadline hs_creds hs_frame negb auth_frame Type_ Payload hs_cleared hs_newid hs_now].
  rewrite bool_decide_eq_false_2 by (intros H; by apply H).
  rewrite bool_decide_eq_false_2 by (cbn [control_payload length]; lia).
  assert (Hv : Verify (token s) (take TokenSize (drop 1 (control_payload (token s)))) = true).
  { apply Verify_spec. change (drop 1 (control_payload (token s))) with (token s).
    by rewrite take_ge by (by rewrite Ht). }
  rewrite Hv, Hm. cbn [negb]. rewrite decide_True by done. unfold registerControl, write_ok.
  by rewrite bool_decide_eq_true_2.
Qed.

(** A client that is registered and has no stream gets one. *)
Lemma stream_served s conn id ptr c :
  length (token s) = TokenSize → checkAutomationMode stat_file self_uid self_pid (mode s) creds = None →
  write_err conn (mkFrame ProtocolVersion MsgOK []) = None → (0 < length id)%nat → Z.of_nat (length id) < 256 →
  clients s !! id = Some ptr → store s !! ptr = Some c → Stream c = None →
  ∀ newid, served conn newid (auth_frame (stream_payload (token s) id)) s =
    (inl (mkFrame ProtocolVersion MsgOK []), with_client s ptr (set_stream c (Some conn))).
Proof.
  intros Ht Hm Hw Hne Hid Hc Hs Hst newid. unfold served, handleConn.
  cbn [hs_deadline hs_creds hs_frame negb auth_frame Type_ Payload hs_cleared hs_newid hs_now].
  rewrite bool_decide_eq_false_2 by (intros H; by apply H).
  assert (Hlen : length (stream_payload (token s) id) = (TokenSize + 2 + length id)%nat).
  { unfold stream_payload. cbn [length]. rewrite length_app. cbn [length]. rewrite Ht. lia. }
  rewrite bool_decide_eq_false_2 by lia.
  assert (Hv : Verify (token s) (take TokenSize (drop 1 (stream_payload (token s) id))) = true).
  { apply Verify_spec. change (drop 1 (stream_payload (token s) id)) with (token s ++ byte_of (Z.of_nat (length id)) :: id).
    by rewrite <- Ht, take_app_length. }
  rewrite Hv, Hm. cbn [negb]. rewrite decide_False, decide_True by done. unfold registerStream. cbv zeta.
  rewrite bool_decide_eq_false_2 by lia.
  assert (Hhead : drop (1 + TokenSize) (stream_payload (token s) id) = byte_of (Z.of_nat (length id)) :: id).
  { change (drop (1 + TokenSize) (stream_payload (token s) id)) with
      (drop TokenSize (token s ++ byte_of (Z.of_nat (length id)) :: id)). by rewrite <- Ht, drop_app_length. }
  assert (Hidx : Z.to_nat (byte_val (stream_payload (token s) id !!! (1 + TokenSize)%nat)) = length id).
  { rewrite <- (Nat.add_0_r (1 + TokenSize)), <- lookup_total_drop, Hhead. cbn [lookup_total list_lookup_total].
    rewrite byte_val_of. rewrite Z.mod_small by lia. apply Nat2Z.id. }
  rewrite Hidx, bool_decide_eq_false_2 by lia.
  assert (Hcid : take (length id) (drop (1 + TokenSize + 1) (stream_payload (token s) id)) = id).
  { rewrite <- drop_drop, Hhead. cbn [drop]. by rewrite take_ge. }
  rewrite Hcid, Hc. cbn [mbind option_bind]. rewrite Hs. cbn [mbind option_bind]. rewrite Hst. unfold write_ok.
  by rewrite bool_decide_eq_true_2.
Qed.

(** Both handshakes, with the token of the server. *)
Lemma connect_served file s c1 c2 id newid :
  LoadFromFile file = Ok (token s) → length (token s) = TokenSize → (0 < length id)%nat → Z.of_nat (length id) < 256 →
  checkAutomationMode stat_file self_uid self_pid (mode s) creds = None →
  write_err c1 (mkFrame ProtocolVersion MsgOK id) = None → write_err c2 (mkFrame ProtocolVersion MsgOK []) = None →
  let c := mkClient id (Some c1) None creds now zero_time 0 in
  connect file None None (served c1 (Ok id)) (served c2 newid) s =
    (Ok id, mkServer (token s) (<[id := next s]> (clients s)) (<[next s := set_stream c (Some c2)]> (<[next s := c]> (store s)))
              (S (next s)) (mode s) (closed s)).
Proof.
  intros Hf Ht Hpos Hid Hm Hw1 Hw2 c. unfold connect. rewrite Hf, control_served by done.
  cbn [Type_]. rewrite decide_True by done. unfold client_dialStream. cbn [Payload]. fold c.
  set (s1 := mkServer (token s) (<[id := next s]> (clients s)) (<[next s := c]> (store s)) (S (next s)) (mode s) (closed s)).
  change (token s) with (token s1) at 1.
  rewrite (stream_served s1 c2 id (next s) c); try done; by apply lookup_insert_eq.
Qed.

(** ** Theorems *)

(** A client that reads the server's own token from its file, from a
    process that the automation mode admits, connects, and is told the
    identifier of a client of the registry that has just its two connections
    and nothing missed; the other clients are as they were. *)
Theorem connect_registers_the_client s c1 c2 id :
  server_inv s → length (token s) = TokenSize → (0 < length id)%nat → Z.of_nat (length id) < 256 → clients s !! id = None →
  checkAutomationMode stat_file self_uid self_pid (mode s) creds = None →
  write_err c1 (mkFrame ProtocolVersion MsgOK id) = None → write_err c2 (mkFrame ProtocolVersion MsgOK []) = None →
  let (r, s') := connect (Ok (token s)) None None (served c1 (Ok id)) (served c2 (Ok id)) s in
  r = Ok id ∧ server_inv s' ∧
  (∃ ptr, lookup_client s' id = Some (ptr, mkClient id (Some c1) (Some c2) creds now zero_time 0)) ∧
  ∀ j, j ≠ id → lookup_client s' j = lookup_client s j.
Proof.
  intros Hi Ht Hpos Hid Hfresh Hm Hw1 Hw2.
  rewrite connect_served; try done; [|unfold LoadFromFile; by rewrite bool_decide_eq_false_2 by (intros H; by apply H)].
  assert (Hl : ∀ j ptr, clients s !! j = Some ptr → ptr ≠ next s) by (intros j ptr Hj; destruct (Hi _ _ Hj); lia).
  split_and!; [done| | |].
  - intros j ptr Hj. cbn in Hj. apply lookup_insert_Some in Hj as [[<- <-]|[Hne Hj]]; cbn.
    + split; [lia|]. eexists. split; [apply lookup_insert_eq|done].
    + destruct (Hi _ _ Hj) as (Hlt & c' & Hc' & Hid'). split; [lia|]. exists c'.
      rewrite !lookup_insert_ne by (apply not_eq_sym; by eapply Hl). done.
  - exists (next s). apply lookup_client_Some. cbn. by rewrite !lookup_insert_eq.
  - intros j Hj. apply lookup_client_store; cbn; [by rewrite lookup_insert_ne|].
    intros ptr Hp. rewrite !lookup_insert_ne by (apply not_eq_sym; by eapply Hl). done.
Qed.
End Server.

Lemma connect_registers_the_client_witness :
  let s := mkServer (replicate 32 "k"%byte) ∅ ∅ 0 ModeOpen false in
  server_inv s ∧
  fst (connect (Ok (token s)) None None (served (λ _, None) (λ _ _, None) 0 1 (mkCreds 0 7) 5 3 (Ok #"c1"))
    (served (λ _, None) (λ _ _, None) 0 1 (mkCreds 0 7) 5 4 (Ok #"c1")) s) = Ok #"c1".
Proof.
  cbv zeta. set (s := mkServer _ _ _ _ _ _).
  assert (Hi : server_inv s) by (intros id ptr H; cbn in H; by apply lookup_empty_Some in H).
  split; [exact Hi|].
  pose proof (connect_registers_the_client (λ _, None) (λ _ _, None) 0 1 (mkCreds 0 7) 5 s 3 4 #"c1" Hi eq_refl
    ltac:(cbn; lia) ltac:(done) (lookup_empty _) eq_refl eq_refl eq_refl) as H.
  destruct (connect _ _ _ _ _ s) as [r s']. apply H.
Defined.
