(* ===== verification/EnvFiles.v ===== *)
(** * Forwarded environments on disk: [internal/daemon/environment.go]

    What the effects of [handleEnvForward] do to a file system with symbolic
    links: a variable whose value is the path of something becomes a link in the
    session's directory, the others become lines of the file [env].  A link is
    followed at the end of a path only. *)

From S2P Require Import Prelude GoStrings SessionValues Files Paths DaemonTypes Daemon.
From S2P Require Import SessionManager DaemonExample ClientExample.
From S2P Require Import ClientRestore.

(** ** Links *)

(** Files and directories, and the links with their targets. *)
Record tree := mkTree { plain : FS; links : gmap path bytes }.

Definition ErrExist : error := ENew #"file exists".

Definition ErrLoop : error := ENew #"too many levels of symbolic links".

Definition max_links : nat := 40.

(** What a path leads to; a relative target counts from the link's directory. *)
Fixpoint resolve (n : nat) (t : tree) (p : path) : option path :=
  match n with
  | O => None
  | S n =>
      match links t !! p with
      | Some target => resolve n t (abs (dir_of p) target)
      | None => Some p
      end
  end.

Section Env.

(** The working directory of the daemon. *)
Context (cwd : path).

(** [os.Stat] of a string. *)
Definition tree_stat (t : tree) (name : bytes) : option error :=
  if decide (name = []) then Some ErrNotExist
  else
    match resolve max_links t (abs cwd name) with
    | None => Some ErrLoop
    | Some p => ClientRestore.stat (plain t) p
    end.

(** [os.Remove], which removes a link itself. *)
Definition tree_Remove (t : tree) (p : path) : option error * tree :=
  match links t !! p with
  | Some _ =>
      if decide (p ∈ locked (plain t)) then (Some ErrPermission, t)
      else (None, mkTree (plain t) (delete p (links t)))
  | None =>
      match Remove (plain t) p with
      | (Ok _, fs) => (None, mkTree fs (links t))
      | (Err e, fs) => (Some e, mkTree fs (links t))
      end
  end.

Definition Symlink (t : tree) (target : bytes) (p : path) : option error * tree :=
  if decide (p ∈ locked (plain t)) then (Some ErrPermission, t)
  else if decide (is_Some (links t !! p) ∨ is_Some (entries (plain t) !! p)) then (Some ErrExist, t)
  else if decide (entries (plain t) !! dir_of p = Some EDir) then (None, mkTree (plain t) (<[p := target]> (links t)))
  else (Some ErrNotExist, t).

(** [os.WriteFile], which follows links. *)
Definition tree_WriteFile (t : tree) (p : path) (data : bytes) : option error * tree :=
  match resolve max_links t p with
  | None => (Some ErrLoop, t)
  | Some q =>
      match WriteFile (plain t) q data with
      | (Ok _, fs) => (None, mkTree fs (links t))
      | (Err e, fs) => (Some e, mkTree fs (links t))
      end
  end.

(** [os.ReadFile], which follows links. *)
Definition tree_ReadFile (t : tree) (p : path) : result bytes :=
  match resolve max_links t p with
  | None => Err ErrLoop
  | Some q => Files.ReadFile (plain t) q
  end.

(** ** The operations *)

Definition ForwardEnv (link : path) (value : bytes) (t : tree) : option error * tree :=
  match tree_stat t value with
  | Some e => (Some (EWrap #"environment: stat" e), t)
  | None =>
      let t := snd (tree_Remove t link) in
      match Symlink t value link with
      | (Some e, t) => (Some (EWrap #"environment: symlink" e), t)
      | (None, t) => (None, t)
      end
  end.

Definition WriteEnvFile (sessionDir : path) (env : gmap bytes bytes) (t : tree) : option error * tree :=
  let '(e, t) := tree_WriteFile t (sessionDir ++ [ #"env"]) (env_content env) in
  (EWrap #"environment: write env file" <$> e, t).

(** What an effect of the handler does on disk; errors are only logged. *)
Definition on_disk (t : tree) (e : effect) : tree :=
  match e with
  | DaemonTypes.MkdirAll p => mkTree (snd (Files.MkdirAll (plain t) p)) (links t)
  | ForwardLink link target => snd (ForwardEnv link target t)
  | WriteEnv p content => snd (tree_WriteFile t p content)
  | _ => t
  end.

Definition all_on_disk (t : tree) (es : list effect) : tree := foldl on_disk t es.

(** The link of a variable. *)
Definition link_of (sessionDir : path) (k : bytes) : path := join_path sessionDir k.

(** ** Lemmas *)

Definition good_seg (s : bytes) : Prop := s ≠ [] ∧ s ≠ #"." ∧ s ≠ #"..".

Definition clean_from (acc : list bytes) (s : bytes) : list bytes :=
  if decide (s = [] ∨ s = #".") then acc else if decide (s = #"..") then take (length acc - 1) acc else acc ++ [s].

Lemma clean_good_acc l acc : Forall good_seg acc → Forall good_seg (foldl clean_from acc l).
Proof using Type.
  revert acc. induction l as [|s l IH]; intros acc Hacc; [done|]. cbn [foldl]. apply IH. unfold clean_from.
  case_decide as H1; [done|]. case_decide as H2; [by apply Forall_take|].
  apply Forall_app. split; [done|]. constructor; [|done]. unfold good_seg. tauto.
Qed.

Lemma clean_good_id acc l : Forall good_seg l → foldl clean_from acc l = acc ++ l.
Proof using Type.
  intros Hl. revert acc. induction Hl as [|s l (H1 & H2 & H3) Hl IH]; intros acc; cbn [foldl]; [by rewrite app_nil_r|].
  unfold clean_from at 2. rewrite decide_False by tauto. rewrite decide_False by done. by rewrite IH, <- app_assoc.
Qed.

(** A name that is one segment. *)
Lemma link_of_plain dir id k : plain_seg k → link_of (join_path dir id) k = join_path dir id ++ [k].
Proof using Type.
  intros (H1 & H2 & H3 & H4). unfold link_of. unfold join_path at 1. rewrite split_none by done.
  apply (clean_good_id []), Forall_app. split; [by apply clean_good_acc|by repeat constructor].
Qed.

Lemma dir_of_snoc (p : path) k : dir_of (p ++ [k]) = p.
Proof using Type. unfold dir_of. rewrite length_app. cbn. rewrite Nat.add_sub. by rewrite take_app_length. Qed.

Lemma snoc_ne (p : path) k : p ≠ p ++ [k].
Proof using Type. intros H. apply (f_equal length) in H. rewrite length_app in H. cbn in H. lia. Qed.

(** A place for a link: a link, a file or nothing. *)
Definition placeable (t : tree) (p : path) : Prop :=
  (p ∉ locked (plain t)) ∧
  (entries (plain t) !! p = None ∨ links t !! p = None ∧ ∃ data, entries (plain t) !! p = Some (EFile data)).

(** Two trees that are the same but for what is at some paths. *)
Definition same_but (P : path → Prop) (t t' : tree) : Prop :=
  locked (plain t') = locked (plain t) ∧
  ∀ q, ¬ P q → entries (plain t') !! q = entries (plain t) !! q ∧ links t' !! q = links t !! q.

Lemma same_but_trans P t t1 t2 : same_but P t t1 → same_but P t1 t2 → same_but P t t2.
Proof using Type.
  intros [H1 H2] [H3 H4]. split; [congruence|]. intros q Hq. destruct (H2 q Hq), (H4 q Hq). split; congruence.
Qed.

Lemma same_but_mono (P Q : path → Prop) t t' : (∀ q, P q → Q q) → same_but P t t' → same_but Q t t'.
Proof using Type. intros HPQ [H1 H2]. split; [done|]. intros q Hq. apply H2. naive_solver. Qed.

Lemma ForwardEnv_links t dir k v :
  tree_stat t v = None → placeable t (dir ++ [k]) → entries (plain t) !! dir = Some EDir →
  let (e, t') := ForwardEnv (dir ++ [k]) v t in
  e = None ∧ links t' !! (dir ++ [k]) = Some v ∧ entries (plain t') !! (dir ++ [k]) = None ∧
  same_but (λ q, q = dir ++ [k]) t t'.
Proof using Type.
  intros Hs [Hl Hp] Hd. unfold ForwardEnv. rewrite Hs. set (p := dir ++ [k]) in *.
  assert (Hr : let t1 := snd (tree_Remove t p) in
    entries (plain t1) !! p = None ∧ links t1 !! p = None ∧ same_but (λ q, q = p) t t1).
  { unfold tree_Remove. destruct (links t !! p) as [x|] eqn:Hx.
    - rewrite decide_False by done. cbn. rewrite lookup_delete_eq.
      destruct Hp as [Hp|[? _]]; [|done]. split_and!; [done..|]. split; [done|]. intros q Hq. cbn. by rewrite lookup_delete_ne.
    - unfold Remove. rewrite decide_False by done. destruct Hp as [Hp|[_ [data Hp]]]; rewrite Hp; cbn.
      + split_and!; [done..|]. by split.
      + rewrite lookup_delete_eq. split_and!; [done..|]. split; [done|]. intros q Hq. cbn. by rewrite lookup_delete_ne. }
  destruct Hr as (He & Hk & Hsame). set (t1 := snd (tree_Remove t p)) in *. destruct Hsame as [Hlock Hsame].
  assert (Hne : dir ≠ p) by apply snoc_ne. unfold Symlink. rewrite Hlock, decide_False by done.
  rewrite decide_False by (rewrite He, Hk; intros [[? ?]|[? ?]]; done).
  assert (Hdir : dir_of p = dir) by apply dir_of_snoc. rewrite Hdir, (proj1 (Hsame dir Hne)), decide_True by done.
  cbn. rewrite lookup_insert_eq.
  split_and!; [done..|]. split; [done|]. intros q Hq. cbn. rewrite lookup_insert_ne by done. by apply Hsame.
Qed.

(** A value that names no link, at a path that is left alone, is still there. *)
Lemma tree_stat_same P t t' v :
  same_but P t t' → ¬ P (abs cwd v) → links t !! abs cwd v = None → tree_stat t' v = tree_stat t v.
Proof using Type.
  intros [Hl Hs] Hp Hn. destruct (Hs _ Hp) as [He Hk]. unfold tree_stat, max_links. case_decide; [done|].
  cbn [resolve]. rewrite Hk, Hn. unfold ClientRestore.stat. by rewrite Hl, He.
Qed.

Lemma MkdirAll_there fs p :
  entries fs !! p = Some EDir →
  let fs' := snd (Files.MkdirAll fs p) in
  locked fs' = locked fs ∧ entries fs' !! p = Some EDir ∧
  ∀ q, (q ∉ ancestors p → entries fs' !! q = entries fs !! q) ∧ (entries fs !! q ≠ None → entries fs' !! q ≠ None).
Proof using Type.
  intros Hp. unfold Files.MkdirAll. case_decide; [done|]. case_decide; [|done]. cbn.
  assert (Hlk : ∀ l q, foldr (λ q, <[q := EDir]>) (entries fs) l !! q = if decide (q ∈ l) then Some EDir else entries fs !! q).
  { intros l q. induction l as [|x l IH]; [done|]. cbn [foldr]. destruct (decide (x = q)) as [->|Hne].
    - rewrite lookup_insert_eq, decide_True; [done|by left].
    - rewrite lookup_insert_ne, IH by done. repeat case_decide; set_solver. }
  split; [done|]. rewrite Hlk. split; [by case_decide|]. intros q. rewrite Hlk. by case_decide.
Qed.

Definition forward_all (dir : path) (vars : list (bytes * bytes)) (t : tree) : tree :=
  foldl (λ t kv, snd (ForwardEnv (dir ++ [kv.1]) kv.2 t)) t vars.

(** Every variable gets its link. *)
Lemma forward_all_links dir vars : ∀ t,
  NoDup vars.*1 → entries (plain t) !! dir = Some EDir →
  (∀ k v, (k, v) ∈ vars → tree_stat t v = None ∧ placeable t (dir ++ [k]) ∧ links t !! abs cwd v = None ∧
    ∀ k', k' ∈ vars.*1 → abs cwd v ≠ dir ++ [k']) →
  let t' := forward_all dir vars t in
  same_but (λ q, ∃ k, k ∈ vars.*1 ∧ q = dir ++ [k]) t t' ∧
  ∀ k v, (k, v) ∈ vars → links t' !! (dir ++ [k]) = Some v ∧ entries (plain t') !! (dir ++ [k]) = None.
Proof using Type.
  induction vars as [|[k v] vars IH]; intros t Hnd Hdir Hv; cbn [forward_all foldl fst snd].
  { split; [by split|]. by intros ? ? ?%elem_of_nil. }
  apply NoDup_cons in Hnd as [Hk Hnd]. cbn in Hk, Hnd. destruct (Hv k v ltac:(by left)) as (Hs & Hpl & _ & _).
  pose proof (ForwardEnv_links t dir k v Hs Hpl Hdir) as Hf. destruct (ForwardEnv (dir ++ [k]) v t) as [e t1].
  destruct Hf as (_ & Hk1 & He1 & Hsame). cbn [snd]. pose proof Hsame as [Hlock Hs1].
  destruct (IH t1 Hnd) as [Hsame2 Hall].
  { rewrite (proj1 (Hs1 dir (snoc_ne dir k))). done. }
  { intros k' v' Hin. destruct (Hv k' v' ltac:(by right)) as (Hs' & [Hl' Hp'] & Hn' & Hne').
    assert (Hkk : dir ++ [k'] ≠ dir ++ [k]).
    { intros [= ->]%(inj (app dir)). apply Hk. by apply (list_elem_of_fmap_2 fst) in Hin. }
    destruct (Hs1 _ Hkk) as [He' Hl1]. assert (Hvne : abs cwd v' ≠ dir ++ [k]) by (apply Hne'; by left). split_and!.
    - by rewrite (tree_stat_same _ t t1 v' Hsame).
    - unfold placeable. by rewrite Hlock, He', Hl1.
    - by rewrite (proj2 (Hs1 _ Hvne)).
    - intros k2 Hk2. apply Hne'. by right. }
  fold (forward_all dir vars t1). split.
  - eapply same_but_trans; [eapply same_but_mono; [|exact Hsame]|eapply same_but_mono; [|exact Hsame2]].
    + intros q ->. exists k. split; [by left|done].
    + intros q (k' & Hk' & ->). exists k'. split; [by right|done].
  - intros k' v' [[= -> ->]|Hin]%elem_of_cons; [|by apply Hall].
    destruct Hsame2 as [_ Hs2]. destruct (Hs2 (dir ++ [k])) as [-> ->]; [|done].
    intros (k' & Hk' & Heq%(inj (app dir))). by simplify_eq.
Qed.

Lemma snoc_not_ancestor (p : path) k : p ++ [k] ∉ ancestors p.
Proof using Type.
  intros (n & Heq & _)%list_elem_of_fmap. apply (f_equal length) in Heq. rewrite length_app, length_take in Heq. cbn in Heq. lia.
Qed.

(** What the handler writes is what it says. *)
Lemma env_effects {S} `{SessionManager.SessionManager S} (J : Json) (stat_ok : bytes → bool) c payload (d : Daemon S) req dir :
  json_EnvForward J payload = Ok req → dataDir (config d) = Some dir →
  let sd := join_path dir (ef_SessionID req) in
  let vars := filter (λ kv, stat_ok kv.2 = true) (map_to_list (ef_Env req)) in
  let rest := filter (λ kv, stat_ok kv.2 = false) (ef_Env req) in
  fst (handleEnvForward J stat_ok c payload d) =
    DaemonTypes.MkdirAll sd :: ((λ kv, ForwardLink (link_of sd kv.1) kv.2) <$> vars) ++
    (if decide (rest = ∅) then [] else [WriteEnv (sd ++ [ #"env"]) (env_content rest)]) ++ [Reply c (MOk None)].
Proof using Type.
  intros Hj Hdir sd vars rest. unfold handleEnvForward, decode. rewrite Hj, Hdir. fold sd vars rest.
  assert (He : ∀ l, each (λ '(k, v), emit (ForwardLink (join_path sd k) v)) l d = ((λ kv, ForwardLink (link_of sd kv.1) kv.2) <$> l, d)).
  { intros l. induction l as [|[k v] l IH]; [done|]. cbn [each]. unfold andThen, emit in *. by rewrite IH. }
  unfold andThen at 1, emit at 1. unfold andThen at 1. rewrite He. unfold andThen.
  by case_decide.
Qed.

Lemma tree_WriteFile_env t dir data :
  placeable t (dir ++ [ #"env"]) → links t !! (dir ++ [ #"env"]) = None → entries (plain t) !! dir = Some EDir →
  let t' := snd (tree_WriteFile t (dir ++ [ #"env"]) data) in
  ReadFile (plain t') (dir ++ [ #"env"]) = Ok data ∧ same_but (λ q, q = dir ++ [ #"env"]) t t'.
Proof using Type.
  intros [Hl Hp] Hk Hd. set (p := dir ++ [ #"env"]) in *. unfold tree_WriteFile, max_links. cbn [resolve]. rewrite Hk.
  assert (Hw : ∃ fs, WriteFile (plain t) p data = (Ok tt, fs)).
  { unfold WriteFile. rewrite decide_False by done. assert (Hdir : dir_of p = dir) by apply dir_of_snoc.
    destruct Hp as [Hp|[_ [x Hp]]]; rewrite Hp; [rewrite Hdir, decide_True by done|]; by eexists. }
  destruct Hw as [fs Hw]. rewrite Hw. cbn [snd plain]. destruct (ClientRestore.WriteFile_reads _ _ _ _ Hw) as [Hr Hlock].
  split; [done|]. split; [done|]. intros q Hq. cbn [plain links]. split; [|done].
  pose proof (ClientRestore.WriteFile_frame (plain t) p data q Hq) as [He _]. by rewrite Hw in He.
Qed.

(** Making the directory again changes nothing that matters. *)
Lemma after_MkdirAll t sd :
  entries (plain t) !! sd = Some EDir →
  let t1 := mkTree (snd (Files.MkdirAll (plain t) sd)) (links t) in
  entries (plain t1) !! sd = Some EDir ∧ same_but (λ q, q ∈ ancestors sd) t t1 ∧
  ∀ v, links t !! abs cwd v = None → tree_stat t v = None → tree_stat t1 v = None.
Proof using Type.
  intros Hsd. destruct (MkdirAll_there (plain t) sd Hsd) as (Hl & Hd & Hq). cbn. split_and!; [done| |].
  - split; [done|]. intros q Hnq. split; [by apply Hq|done].
  - intros v Hn. unfold tree_stat, max_links. case_decide; [done|]. cbn [resolve links]. rewrite Hn. cbn [plain].
    unfold ClientRestore.stat. rewrite Hl. case_decide; [done|]. case_decide as H1; [done|]. intros _.
    by rewrite decide_False by (by apply Hq).
Qed.

(** The environment of a request that can be put in place: its names are plain
    and none is [env]; what is at their places and at that of the file can be
    replaced; and no value names a link or one of these places. *)
Definition fits (t : tree) (sd : path) (env : gmap bytes bytes) : Prop :=
  entries (plain t) !! sd = Some EDir ∧
  placeable t (sd ++ [ #"env"]) ∧ links t !! (sd ++ [ #"env"]) = None ∧
  ∀ k v, env !! k = Some v → plain_seg k ∧ k ≠ #"env" ∧ placeable t (sd ++ [k]) ∧
    (tree_stat t v = None → links t !! abs cwd v = None ∧ ∀ k', is_Some (env !! k') → abs cwd v ≠ sd ++ [k']).

(** The environment that is read back from the lines of a file. *)
Definition env_line (l : bytes) : option (bytes * bytes) :=
  i ← index_byte l "="%byte; Some (take i l, drop (S i) l).

Definition read_env (content : bytes) : gmap bytes bytes := list_to_map (omap env_line (split x0a content)).

Lemma split_join_sep (c : byte) segs : segs ≠ [] → Forall (λ s, c ∉ s) segs → split c (join [c] segs) = segs.
Proof using Type.
  intros Hne Hs. induction Hs as [|x segs Hx Hs IH]; [done|].
  destruct segs as [|y segs]; [by apply split_none|].
  change (join [c] (x :: y :: segs)) with (x ++ c :: join [c] (y :: segs)). by rewrite split_cons, IH.
Qed.

Lemma join_snoc_empty (c : byte) segs : segs ≠ [] → join [c] (segs ++ [[]]) = join [c] segs ++ [c].
Proof using Type.
  induction segs as [|x [|y segs] IH]; intros Hne; [done|done|].
  change ((x :: y :: segs) ++ [[]]) with (x :: (y :: segs) ++ [[]]).
  assert (Hj : ∀ l, l ≠ [] → join [c] (x :: l) = x ++ [c] ++ join [c] l) by by intros [].
  rewrite !Hj by done. by rewrite IH, <- !app_assoc.
Qed.

(** The lines of an environment are read back as it, when no name or value has a
    line break and no name an equals sign. *)
Lemma read_env_content m :
  m ≠ ∅ → (∀ k v, m !! k = Some v → (x0a ∉ k) ∧ ("="%byte ∉ k) ∧ (x0a ∉ v)) → read_env (env_content m) = m.
Proof using Type.
  intros Hm Hok. unfold read_env, env_content. set (keys := merge_sort bytes_le ((map_to_list m).*1)).
  assert (Hkeys : keys ≡ₚ (map_to_list m).*1) by apply merge_sort_Permutation.
  assert (Hin : ∀ k, k ∈ keys ↔ is_Some (m !! k)).
  { intros k. rewrite Hkeys, list_elem_of_fmap. split.
    - intros ([k' v] & -> & Hx%elem_of_map_to_list). by eexists.
    - intros [v Hv]. exists (k, v). by rewrite elem_of_map_to_list. }
  set (line k := k ++ #"=" ++ default [] (m !! k)).
  assert (Hne : line <$> keys ≠ []).
  { intros Hn%fmap_nil_inv. rewrite Hn in Hkeys. symmetry in Hkeys. apply Permutation_nil_r in Hkeys.
    apply fmap_nil_inv, map_to_list_empty_iff in Hkeys. done. }
  assert (Hlines : Forall (λ s, x0a ∉ s) (line <$> keys)).
  { apply Forall_fmap, Forall_forall. intros k [v Hv]%Hin. destruct (Hok k v Hv) as (H1 & _ & H3).
    change (x0a ∉ k ++ #"=" ++ default [] (m !! k)). rewrite Hv. cbn. rewrite elem_of_app, elem_of_cons. intros [?|[Hx|?]]; [done|by vm_compute in Hx|done]. }
  rewrite <- join_snoc_empty, split_join_sep; [|by destruct (line <$> keys)| |done].
  2: { apply Forall_app. split; [done|]. constructor; [apply not_elem_of_nil|done]. }
  assert (Homap : omap env_line ((line <$> keys) ++ [[]]) = (λ k, (k, default [] (m !! k))) <$> keys).
  { rewrite omap_app. cbn [omap list_omap env_line index_byte mbind option_bind]. rewrite app_nil_r.
    assert (Hall : Forall (λ k, is_Some (m !! k)) keys) by (apply Forall_forall; intros k; by apply Hin).
    clear Hkeys Hne Hlines Hin. induction Hall as [|k keys' [v Hv] Hall IH]; [done|]. rewrite !fmap_cons. cbn [omap list_omap].
    rewrite IH. destruct (Hok k v Hv) as (_ & H2 & _). unfold env_line, line.
    change (k ++ #"=" ++ default [] (m !! k)) with (k ++ "="%byte :: default [] (m !! k)).
    rewrite index_byte_app_l by done. cbn [mbind option_bind]. rewrite take_app_length. do 2 f_equal.
    change ("="%byte :: default [] (m !! k)) with (["="%byte] ++ default [] (m !! k)). rewrite app_assoc.
    replace (S (length k)) with (length (k ++ ["="%byte])) by (rewrite length_app; cbn; lia). by rewrite drop_app_length. }
  rewrite Homap. apply map_eq. intros k.
  assert (Hnd : NoDup ((λ k, (k, default [] (m !! k))) <$> keys).*1).
  { rewrite <- list_fmap_compose. assert (Hid : (fst ∘ (λ k, (k, default [] (m !! k)))) <$> keys = keys) by apply list_fmap_id.
    rewrite Hid, Hkeys. apply NoDup_fst_map_to_list. }
  destruct (m !! k) as [v|] eqn:Hv.
  - apply elem_of_list_to_map_1; [done|]. apply list_elem_of_fmap. exists k. rewrite Hv. split; [done|]. apply Hin. by eexists.
  - apply not_elem_of_list_to_map_1. rewrite <- list_fmap_compose. intros (k' & -> & Hk')%list_elem_of_fmap.
    apply Hin in Hk' as [v Hv']. cbn in Hv. congruence.
Qed.

Lemma forward_effects dir id vars : Forall (λ kv, plain_seg (kv : bytes * bytes).1) vars → ∀ t,
  all_on_disk t ((λ kv, ForwardLink (link_of (join_path dir id) kv.1) kv.2) <$> vars) = forward_all (join_path dir id) vars t.
Proof using Type.
  induction 1 as [|[k v] vars Hk Hv IH]; intros t; [done|]. rewrite fmap_cons. cbn [all_on_disk forward_all foldl on_disk fst snd].
  rewrite link_of_plain by done. apply IH.
Qed.

(** The variables of an environment that become links, and the rest. *)
Definition link_vars (t : tree) (env : gmap bytes bytes) : list (bytes * bytes) :=
  filter (λ kv, bool_decide (tree_stat t kv.2 = None) = true) (map_to_list env).

Definition rest_vars (t : tree) (env : gmap bytes bytes) : gmap bytes bytes :=
  filter (λ kv, bool_decide (tree_stat t kv.2 = None) = false) env.

Lemma elem_of_link_vars t env k v : (k, v) ∈ link_vars t env ↔ env !! k = Some v ∧ tree_stat t v = None.
Proof using Type. unfold link_vars. rewrite list_elem_of_filter, elem_of_map_to_list. cbn. rewrite bool_decide_eq_true. tauto. Qed.

Lemma link_vars_names t env k : k ∈ (link_vars t env).*1 → is_Some (env !! k).
Proof using Type. intros ([k' v] & -> & [Hk _]%elem_of_link_vars)%list_elem_of_fmap. by eexists. Qed.

(** The places that the handler writes to. *)
Definition written_at (sd : path) (env : gmap bytes bytes) (q : path) : Prop :=
  q ∈ ancestors sd ∨ q = sd ++ [ #"env"] ∨ ∃ k, is_Some (env !! k) ∧ q = sd ++ [k].

(** After the directory and the links. *)
Definition linked (t : tree) (sd : path) (env : gmap bytes bytes) : tree :=
  forward_all sd (link_vars t env) (mkTree (snd (Files.MkdirAll (plain t) sd)) (links t)).

Lemma linked_spec t sd env :
  fits t sd env →
  let t2 := linked t sd env in
  same_but (written_at sd env) t t2 ∧
  (∀ k v, (k, v) ∈ link_vars t env → links t2 !! (sd ++ [k]) = Some v ∧ entries (plain t2) !! (sd ++ [k]) = None) ∧
  entries (plain t2) !! sd = Some EDir ∧ placeable t2 (sd ++ [ #"env"]) ∧ links t2 !! (sd ++ [ #"env"]) = None.
Proof using Type.
  intros (Hsd & Hpe & Hke & Hfit). cbv zeta. unfold linked. set (t1 := mkTree _ _).
  destruct (after_MkdirAll t sd Hsd) as (Hsd1 & Hsame1 & Hstat1). fold t1 in Hsd1, Hsame1, Hstat1.
  assert (Hpl : ∀ k, placeable t (sd ++ [k]) → placeable t1 (sd ++ [k])).
  { intros k. unfold placeable. destruct Hsame1 as [-> Hs]. destruct (Hs _ (snoc_not_ancestor sd k)) as [-> ->]. done. }
  destruct (forward_all_links sd (link_vars t env) t1) as [Hsame2 Hlinks]; [|done| |].
  { eapply sublist_NoDup; [exact (NoDup_fst_map_to_list env)|]. apply fmap_sublist, sublist_filter. }
  { intros k v [Hk Hs]%elem_of_link_vars. destruct (Hfit k v Hk) as (_ & _ & Hp & Hv). destruct (Hv Hs) as [Hn Hne].
    split_and!; [by apply Hstat1|by apply Hpl|done|]. intros k' Hk'. by eapply Hne, link_vars_names. }
  destruct Hsame2 as [Hlock2 Hs2]. destruct (Hs2 (sd ++ [ #"env"])) as [He2 Hk2].
  { intros (k & Hk & [= <-]%(inj (app sd))). destruct (link_vars_names _ _ _ Hk) as [v Hv].
    by destruct (Hfit _ _ Hv) as (_ & ? & _). }
  split_and!; [|exact Hlinks| |unfold placeable; rewrite Hlock2, He2, Hk2; by apply Hpl|by rewrite Hk2].
  - eapply same_but_trans; [eapply same_but_mono; [|exact Hsame1]; by left|].
    eapply (same_but_mono (λ q, ∃ k, k ∈ (link_vars t env).*1 ∧ q = sd ++ [k])); [|by split].
    intros q (k & Hk & ->). right; right. exists k. split; [by eapply link_vars_names|done].
  - destruct (Hs2 sd) as [-> _]; [|done]. intros (k & _ & Heq). by apply (snoc_ne sd k).
Qed.

(** ** Theorems *)

Context {S : Type} `{SessionManager.SessionManager S} (J : Json).

Lemma env_forwarded t c payload (d : Daemon S) req dir :
  json_EnvForward J payload = Ok req → dataDir (config d) = Some dir →
  let sd := join_path dir (ef_SessionID req) in
  let env := ef_Env req in
  fits t sd env →
  let t' := all_on_disk t (fst (handleEnvForward J (λ v, bool_decide (tree_stat t v = None)) c payload d)) in
  let rest := rest_vars t env in
  (∀ k v, env !! k = Some v → tree_stat t v = None →
    links t' !! (sd ++ [k]) = Some v ∧ entries (plain t') !! (sd ++ [k]) = None) ∧
  (rest ≠ ∅ → ReadFile (plain t') (sd ++ [ #"env"]) = Ok (env_content rest) ∧
    ((∀ k v, rest !! k = Some v → (x0a ∉ k) ∧ ("="%byte ∉ k) ∧ (x0a ∉ v)) → read_env (env_content rest) = rest)) ∧
  same_but (written_at sd env) t t'.
Proof.
  intros Hj Hdir sd env Hfits. cbv zeta. rewrite (env_effects J _ c payload d req dir Hj Hdir). fold sd env.
  fold (link_vars t env) (rest_vars t env). set (rest := rest_vars t env).
  destruct (linked_spec t sd env Hfits) as (Hsame & Hlinks & Hsd2 & Hp2 & Hk2). destruct Hfits as (Hsd & _ & _ & Hfit).
  set (t2 := linked t sd env) in *. set (vars := link_vars t env) in *.
  assert (Hplain : Forall (λ kv, plain_seg (kv : bytes * bytes).1) vars).
  { apply Forall_forall. intros [k v] [Hk _]%elem_of_link_vars. by destruct (Hfit k v Hk). }
  destruct (tree_WriteFile_env t2 sd (env_content rest) Hp2 Hk2 Hsd2) as [Hread Hsame3].
  assert (Hrun : all_on_disk t (DaemonTypes.MkdirAll sd :: ((λ kv, ForwardLink (link_of sd kv.1) kv.2) <$> vars) ++
      (if decide (rest = ∅) then [] else [WriteEnv (sd ++ [ #"env"]) (env_content rest)]) ++ [Reply c (MOk None)]) =
    if decide (rest = ∅) then t2 else snd (tree_WriteFile t2 (sd ++ [ #"env"]) (env_content rest))).
  { unfold all_on_disk. cbn [foldl on_disk]. rewrite !foldl_app.
    pose proof (forward_effects dir (ef_SessionID req) vars Hplain) as Hfe. fold sd in Hfe. unfold all_on_disk in Hfe.
    rewrite Hfe. by case_decide. }
  rewrite Hrun. split_and!.
  - intros k v Hk Hs. destruct (Hlinks k v) as [Hl He]; [by apply elem_of_link_vars|]. case_decide; [done|].
    destruct Hsame3 as [_ Hs3]. destruct (Hs3 (sd ++ [k])) as [-> ->]; [|done]. intros [= ->]%(inj (app sd)).
    by destruct (Hfit _ _ Hk) as (_ & ? & _).
  - intros Hne. rewrite decide_False by done. split; [done|]. intros Hok. by apply read_env_content.
  - case_decide; [done|]. eapply same_but_trans; [exact Hsame|]. eapply same_but_mono; [|exact Hsame3].
    intros q ->. right; by left.
Qed.

(** Reading through a link. *)
Lemma tree_ReadFile_link t p v :
  links t !! p = Some v → links t !! abs (dir_of p) v = None →
  tree_ReadFile t p = Files.ReadFile (plain t) (abs (dir_of p) v).
Proof using Type. intros Hp Hn. unfold tree_ReadFile, max_links. cbn [resolve]. by rewrite Hp, Hn. Qed.

(** What is read under a variable's name is the file that its value leads to
    from the session's directory, for every name: a variable with the name of
    the session's metadata gives the session those of another file. *)
Theorem forwarded_name_reads_the_target t c payload (d : Daemon S) req dir k v :
  json_EnvForward J payload = Ok req → dataDir (config d) = Some dir →
  let sd := join_path dir (ef_SessionID req) in
  let q := abs sd v in
  fits t sd (ef_Env req) → ef_Env req !! k = Some v → tree_stat t v = None →
  links t !! q = None → ¬ written_at sd (ef_Env req) q →
  let t' := all_on_disk t (fst (handleEnvForward J (λ v, bool_decide (tree_stat t v = None)) c payload d)) in
  tree_ReadFile t' (sd ++ [k]) = Files.ReadFile (plain t) q.
Proof.
  intros Hj Hdir sd q Hfits Hk Hs Hlq Hq. cbv zeta.
  destruct (env_forwarded t c payload d req dir Hj Hdir Hfits) as (Hlinks & _ & [Hlock Hsame]).
  destruct (Hlinks k v Hk Hs) as [Hl _]. destruct (Hsame q Hq) as [He Hn]. rewrite Hlq in Hn.
  fold sd in Hl. rewrite (tree_ReadFile_link _ _ v Hl); rewrite dir_of_snoc; [|done].
  unfold Files.ReadFile. fold q. by rewrite Hlock, He.
Qed.
End Env.

(** ** Witness *)

Section Witness.

(** The session's directory, where an earlier client has left its link, and the
    socket of the agent of the new one. *)
Definition example_tree : tree :=
  mkTree
    (mkFS (list_to_map [([ #"h"], EDir); ([ #"h"; #"a"], EDir); ([ #"h"; #"a"; #"meta.json"], EFile #"{}");
      ([ #"tmp"], EDir); ([ #"tmp"; #"new"], EFile [])]) ∅)
    {[ [ #"h"; #"a"; #"SSH_AUTH_SOCK"] := #"/tmp/old" ]}.

Definition example_payload : bytes := enc [ #"a"; #"SSH_AUTH_SOCK"; #"/tmp/new"; #"LANG"; #"C"].

Definition example_env : gmap bytes bytes := {[ #"SSH_AUTH_SOCK" := #"/tmp/new"; #"LANG" := #"C" ]}.

End Witness.
