(* ===== verification/Cli.v ===== *)
(** * The command line: [cmd/wmux/main.go]

    Each command parses its arguments, dials the daemon, sends one request and
    prints what it makes of the response; [events], [history] and [attach] then
    read frames until the connection or the history ends.  A command is a
    function of its arguments and of a world that holds the environment, the
    outcome of dialling and what arrives on the connection after a request.
    A command that waits for a frame that never arrives has no exit code. *)

From S2P Require Import Prelude Files GoStrings Debug Protocol Payload DaemonTypes ClientCalls.
From S2P Require SessionManager.

#[local] Open Scope Z_scope.

Import SessionManager (SessionInfo, si_ID, si_State, si_Pid, si_Cols, si_Rows, si_Shell).

(** ** The world of a command *)

(** What the command line marshals and reads besides the client library. *)
Record CliJson := mkCliJson {
  lib : ClientJson;
  marshal_event : bytes → result bytes;
  marshal_history : HistoryRequest → result bytes;
  unmarshal_created : bytes → result (bytes * Z);
  unmarshal_status : bytes → result (bytes * bytes * Z * Z);
  event_line : bytes → option bytes;  (** an event, read and written as a line *)
}.

(** [arriving] are the frames that come after a request, and [ended] the error
    of reading past them; the connection stays open when there is none. *)
Record world := mkWorld {
  getenv : bytes → bytes;
  cwd : bytes;
  dialed : result bytes;
  stream_dialed : option error;
  write_error : option error;
  arriving : MessageType → bytes → list Frame;
  ended : option error;
  streamed : list Frame;
  stream_ended : bool;
}.

Record outcome := mkOutcome {
  code : option Z;
  stdout : bytes;
  stderr : bytes;
  sent : list (MessageType * bytes);
}.

#[export] Instance outcome_eq_decision : EqDecision outcome.
Proof. solve_decision. Defined.

(** ** Printing *)

Definition line (s : bytes) : bytes := s ++ [x0a].

(** [%-ns], for texts of one byte a character. *)
Definition pad (n : nat) (s : bytes) : bytes := s ++ replicate (n - length s) " "%byte.

Definition exits (n : Z) : outcome := mkOutcome (Some n) [] [] [].

Definition prints (out : bytes) (n : Z) : outcome := mkOutcome (Some n) out [] [].

Definition complains (lines : list bytes) (n : Z) : outcome := mkOutcome (Some n) [] (lines ≫= line) [].

(** [fmt.Fprintf(os.Stderr, "error: %v\n", err); return 1]. *)
Definition fails (e : error) : outcome := complains [ #"error: " ++ err_text e] 1.

(** One after the other. *)
Definition before (out err : bytes) (o : outcome) : outcome :=
  mkOutcome (code o) (out ++ stdout o) (err ++ stderr o) (sent o).

Definition having_sent (t : MessageType) (p : bytes) (o : outcome) : outcome :=
  mkOutcome (code o) (stdout o) (stderr o) ((t, p) :: sent o).

(** ** Global flags *)

Definition default_socket : bytes := #"~/.wmux/daemon.sock".

Definition default_token : bytes := #"~/.wmux/daemon.token".

(** The socket path, whether it was given, the token path, and the rest. *)
Fixpoint global_flags (args : list bytes) (sock : bytes) (custom : bool) (tok : bytes) :
    bytes * bool * bytes * list bytes :=
  match args with
  | a :: v :: rest =>
      if decide (a = #"--socket") then global_flags rest v true tok
      else if decide (a = #"--token") then global_flags rest sock custom v
      else (sock, custom, tok, args)
  | _ => (sock, custom, tok, args)
  end.

(** The socket path, the token path, the command and its arguments. *)
Definition parseGlobalFlags (args : list bytes) : bytes * bytes * bytes * list bytes :=
  let '(sock, custom, tok, rest) := global_flags args default_socket false default_token in
  let tok := if custom && bool_decide (tok = default_token) then trim_suffix sock #".sock" ++ #".token" else tok in
  match rest with
  | [] => (sock, tok, [], [])
  | cmd :: rest => (sock, tok, cmd, rest)
  end.

(** [home] is [os.UserHomeDir]. *)
Definition expandHome (home : result bytes) (p : bytes) : bytes :=
  if has_prefix p #"~" then
    match home with
    | Err _ => p
    | Ok h => filepath_join [h; drop 1 p]
    end
  else p.

(** ** Requests *)

Section Commands.

Context (K : CliJson) (w : world).

(** The next frame, unless the command waits for ever. *)
Definition next_frame (l : list Frame) : option (result Frame * list Frame) :=
  match l with
  | f :: l => Some (Ok f, l)
  | [] => (λ e, (Err e, [])) <$> ended w
  end.

Definition blocks : outcome := mkOutcome None [] [] [].

(** The line that is printed for an error frame. *)
Definition checkError (resp : Frame) : option bytes :=
  if decide (Type_ resp = MsgError) then
    Some (line (#"error: " ++ match unmarshal_error (lib K) (Payload resp) with
                              | Ok msg => msg
                              | Err _ => Payload resp
                              end))
  else None.

(** [sendRequest] on a connection that is open, and what follows a response
    that is no error; [rest] is what arrives after it. *)
Definition exchange (t : MessageType) (payload : result bytes) (k : Frame → list Frame → outcome) : outcome :=
  match payload with
  | Err e => fails (EWrap #"marshal request" e)
  | Ok p =>
      match write_error w with
      | Some e => fails (EWrap #"send request" e)
      | None =>
          having_sent t p
            match next_frame (arriving w t p) with
            | None => blocks
            | Some (Err e, _) => fails (EWrap #"read response" e)
            | Some (Ok resp, rest) =>
                match checkError resp with
                | Some msg => mkOutcome (Some 1) [] msg []
                | None => k resp rest
                end
            end
      end
  end.

(** Dial, then one exchange. *)
Definition request (t : MessageType) (payload : result bytes) (k : Frame → list Frame → outcome) : outcome :=
  match dialed w with
  | Err e => fails e
  | Ok _ => exchange t payload k
  end.

(** ** Commands on one session *)

Fixpoint create_flags (args : list bytes) (shell dir : bytes) : bytes * bytes :=
  match args with
  | a :: rest =>
      match rest with
      | v :: rest' =>
          if decide (a = #"--shell") then create_flags rest' v dir
          else if decide (a = #"--cwd") then create_flags rest' shell v
          else create_flags rest shell dir
      | [] => (shell, dir)
      end
  | [] => (shell, dir)
  end.

Definition or_shell (s : bytes) : bytes := if decide (s = []) then #"/bin/sh" else s.

Definition cmdCreate (args : list bytes) : outcome :=
  match args with
  | [] => complains [ #"Usage: wmux create <session-id> [--shell /bin/zsh] [--cwd /path]"] 1
  | id :: flags =>
      let '(shell, dir) := create_flags flags (or_shell (getenv w #"SHELL")) (cwd w) in
      request MsgCreate (marshal_create (lib K) (mkCreateRequest id shell [] 80 24 dir [])) (λ resp _,
        match unmarshal_created K (Payload resp) with
        | Ok (id, pid) => prints (line (#"Created session " ++ id ++ #" (pid " ++ itoa pid ++ #")")) 0
        | Err _ => exits 0
        end)
  end.

Definition cmdDetach (args : list bytes) : outcome :=
  match args with
  | [] => complains [ #"Usage: wmux detach <session-id>"] 1
  | id :: _ => request MsgDetach (Ok (marshal_session (lib K) id)) (λ _ _, prints (line (#"Detached from session " ++ id)) 0)
  end.

Definition cmdKillPrefix (prefix : bytes) : outcome :=
  request MsgKillPrefix (marshal_prefix (lib K) prefix) (λ resp _,
    match unmarshal_kill_prefix (lib K) (Payload resp) with
    | Err e => fails e
    | Ok r =>
        prints ((kpr_Killed r ≫= λ id, line (id ++ #": killed")) ++
                (map_to_list (kpr_Errors r) ≫= λ '(id, msg), line (id ++ #": error: " ++ msg)))
          (if decide (kpr_Errors r = ∅) then 0 else 1)
    end).

Definition cmdKill (args : list bytes) : outcome :=
  let one id := request MsgKill (Ok (marshal_session (lib K) id)) (λ _ _, prints (line (#"Killed session " ++ id)) 0) in
  match args with
  | [] => complains [ #"Usage: wmux kill <session-id>"; #"       wmux kill --prefix <prefix>"] 1
  | [id] => one id
  | a :: prefix :: _ => if decide (a = #"--prefix") then cmdKillPrefix prefix else one a
  end.

Definition cmdInfo (args : list bytes) : outcome :=
  match args with
  | [] => complains [ #"Usage: wmux info <session-id>"] 1
  | id :: _ =>
      request MsgInfo (Ok (marshal_session (lib K) id)) (λ resp _,
        match unmarshal_session (lib K) (Payload resp) with
        | Err e => fails e
        | Ok s =>
            prints (line (#"ID:    " ++ si_ID s) ++ line (#"State: " ++ si_State s) ++
                    line (#"PID:   " ++ itoa (si_Pid s)) ++
                    line (#"Size:  " ++ itoa (si_Cols s) ++ #"x" ++ itoa (si_Rows s)) ++
                    line (#"Shell: " ++ si_Shell s)) 0
        end)
  end.

Definition cmdRecord (args : list bytes) : outcome :=
  match args with
  | action :: id :: _ =>
      if decide (action ≠ #"start" ∧ action ≠ #"stop") then complains [ #"error: action must be 'start' or 'stop'"] 1
      else
        request MsgRecord (marshal_record (lib K) (mkRecordRequest id action)) (λ resp _,
          match unmarshal_record (lib K) (Payload resp) with
          | Err _ => exits 0
          | Ok r =>
              prints (line (if rec_Recording r
                            then #"Recording started: " ++ rec_SessionID r ++ #" -> " ++ rec_Path r
                            else #"Recording stopped: " ++ rec_SessionID r)) 0
          end)
  | _ => complains [ #"Usage: wmux record <start|stop> <session-id>"] 1
  end.
(** ** Commands on many sessions *)

(** The prefix, whether to be quiet; [None] when the prefix has no value.  What
    follows the flags is not looked at. *)
Fixpoint list_flags (args : list bytes) (prefix : bytes) (quiet : bool) : option (bytes * bool) :=
  match args with
  | a :: rest =>
      if decide (a = #"--prefix") then
        match rest with
        | v :: rest' => list_flags rest' v quiet
        | [] => None
        end
      else if decide (a = #"--quiet" ∨ a = #"-q") then list_flags rest prefix true
      else Some (prefix, quiet)
  | [] => Some (prefix, quiet)
  end.

Definition row (id state pid cols rows shell : bytes) : bytes :=
  line (pad 20 id ++ #" " ++ pad 10 state ++ #" " ++ pad 8 pid ++ #" " ++ pad 6 cols ++ #" " ++ pad 6 rows ++
        #" " ++ shell).

Definition info_row (s : SessionInfo) : bytes :=
  row (si_ID s) (si_State s) (itoa (si_Pid s)) (itoa (si_Cols s)) (itoa (si_Rows s)) (si_Shell s).

Definition cmdList (args : list bytes) : outcome :=
  match list_flags args [] false with
  | None => complains [ #"error: --prefix requires a value"] 1
  | Some (prefix, quiet) =>
      request MsgList (if decide (prefix = []) then Ok [] else marshal_prefix (lib K) prefix) (λ resp _,
        match unmarshal_sessions (lib K) (Payload resp) with
        | Err e => fails e
        | Ok [] => if quiet then exits 0 else prints (line #"No sessions") 0
        | Ok l =>
            if quiet then prints (l ≫= λ s, line (si_ID s)) 0
            else prints (row #"ID" #"STATE" #"PID" #"COLS" #"ROWS" #"SHELL" ++ (l ≫= info_row)) 0
        end)
  end.

(** The version and the commit that the linker set. *)
Definition cmdStatus (Version Commit : bytes) : outcome :=
  request MsgStatus (Ok []) (λ resp _,
    match unmarshal_status K (Payload resp) with
    | Err e => fails e
    | Ok (version, uptime, sessions, clients) =>
        prints (line (#"Build:    " ++ Version ++ #" (" ++ Commit ++ #")") ++ line (#"Protocol: " ++ version) ++
                line (#"Uptime:   " ++ uptime) ++ line (#"Sessions: " ++ itoa sessions) ++
                line (#"Clients:  " ++ itoa clients)) 0
    end).

Definition printExecSyncResults (resp : Frame) : outcome :=
  match unmarshal_exec_sync (lib K) (Payload resp) with
  | Err e => fails e
  | Ok l =>
      prints (l ≫= λ r, line (er_SessionID r ++ if er_OK r then #": ok" else #": error: " ++ er_Error r))
        (if forallb er_OK l then 0 else 1)
  end.

(** The mode, and what follows the flags; [None] when the prefix has no value. *)
Fixpoint exec_flags (args : list bytes) (sync : bool) (prefix : bytes) (noNewline : bool) :
    option (bool * bytes * bool * list bytes) :=
  match args with
  | a :: rest =>
      if decide (a = #"--sync") then exec_flags rest true prefix noNewline
      else if decide (a = #"--prefix") then
        match rest with
        | v :: rest' => exec_flags rest' sync v noNewline
        | [] => None
        end
      else if decide (a = #"--no-newline") then exec_flags rest sync prefix true
      else Some (sync, prefix, noNewline, args)
  | [] => Some (sync, prefix, noNewline, [])
  end.

Definition execSingle (args : list bytes) (newline : bool) : outcome :=
  match args with
  | id :: x :: rest =>
      request MsgExec (marshal_exec (lib K) (mkExecRequest id (join #" " (x :: rest)) newline)) (λ _ _, exits 0)
  | _ => complains [ #"Usage: wmux exec <session-id> <input>"] 1
  end.

(** The position of the first separator. *)
Definition separator (args : list bytes) : option nat := fst <$> list_find (λ a, a = #"--") args.

Definition execSync (args : list bytes) (newline : bool) : outcome :=
  match separator args with
  | Some i =>
      if decide (1 <= i ∧ i < length args - 1)%nat then
        request MsgExecSync
          (marshal_exec_sync (lib K) (mkExecSyncRequest (take i args) [] (join #" " (drop (i + 1) args)) newline))
          (λ resp _, printExecSyncResults resp)
      else complains [ #"Usage: wmux exec --sync <id1> <id2> ... -- <input>"] 1
  | None => complains [ #"Usage: wmux exec --sync <id1> <id2> ... -- <input>"] 1
  end.

(** The input is what follows the separator, or everything without one. *)
Definition prefix_input (args : list bytes) : option bytes :=
  match separator args, args with
  | Some i, _ =>
      if decide (i < length args - 1)%nat then Some (join #" " (drop (i + 1) args))
      else match args with
           | a :: _ => if decide (a = #"--") then None else Some (join #" " args)
           | [] => None
           end
  | None, [] => None
  | None, _ => Some (join #" " args)
  end.

Definition execPrefix (args : list bytes) (prefix : bytes) (newline : bool) : outcome :=
  match prefix_input args with
  | Some input =>
      request MsgExecSync (marshal_exec_sync (lib K) (mkExecSyncRequest [] prefix input newline))
        (λ resp _, printExecSyncResults resp)
  | None => complains [ #"Usage: wmux exec --prefix <prefix> -- <input>"] 1
  end.

Definition execUsage : list bytes := [
  #"Usage: wmux exec <session-id> <input>";
  #"       wmux exec --sync <id1> <id2> ... -- <input>";
  #"       wmux exec --prefix <prefix> -- <input>";
  [];
  #"Flags:";
  #"  --no-newline  Do not append newline to input";
  #"  --sync        Send to multiple sessions by ID";
  #"  --prefix      Send to all sessions matching prefix"].

Definition cmdExec (args : list bytes) : outcome :=
  match args with
  | [] => complains execUsage 1
  | _ =>
      match exec_flags args false [] false with
      | None => complains [ #"error: --prefix requires a value"] 1
      | Some (sync, prefix, noNewline, rest) =>
          if decide (prefix = []) then
            if sync then execSync rest (negb noNewline) else execSingle rest (negb noNewline)
          else execPrefix rest prefix (negb noNewline)
      end
  end.

(** ** Waiting *)

(** What an option's value is parsed to: the text of the error has the value. *)
Definition parse_number (what s : bytes) : Z + bytes :=
  match parse_int s with
  | (n, None) => inl n
  | (_, Some _) => inr (#"error: invalid " ++ what ++ #": " ++ s)
  end.

Fixpoint timeout_flag (args : list bytes) (timeout : Z) : Z + bytes :=
  match args with
  | a :: rest =>
      match rest with
      | v :: rest' =>
          if decide (a = #"--timeout") then
            match parse_number #"timeout" v with
            | inl n => timeout_flag rest' n
            | inr msg => inr msg
            end
          else timeout_flag rest timeout
      | [] => inl timeout
      end
  | [] => inl timeout
  end.

(** The idle time, the pattern and the arguments after them, for a mode. *)
Definition wait_mode (mode : bytes) (args : list bytes) : (Z * bytes * list bytes) + bytes :=
  if decide (mode = #"exit") then inl (0, [], args)
  else if decide (mode = #"idle") then
    match args with
    | [] => inr #"error: idle mode requires <idle-ms> argument"
    | a :: args => match parse_number #"idle-ms" a with inl n => inl (n, [], args) | inr msg => inr msg end
    end
  else if decide (mode = #"match") then
    match args with
    | [] => inr #"error: match mode requires <pattern> argument"
    | a :: args => inl (0, a, args)
    end
  else inr (#"error: unknown wait mode: " ++ mode).

Definition wait_report (r : WaitResponse) : outcome :=
  if wr_TimedOut r then complains [ #"wait: timed out (" ++ wr_Mode r ++ #" mode)"] 2
  else if decide (wr_Mode r = #"exit") then
    match wr_ExitCode r with
    | Some n => prints (line (#"session " ++ wr_SessionID r ++ #" exited with code " ++ itoa n)) 0
    | None => exits 0
    end
  else if decide (wr_Mode r = #"idle") then prints (line (#"session " ++ wr_SessionID r ++ #" idle")) 0
  else if decide (wr_Mode r = #"match") then
    if wr_Matched r then prints (line (#"session " ++ wr_SessionID r ++ #" matched")) 0
    else
      match wr_ExitCode r with
      | Some n =>
          prints (line (#"session " ++ wr_SessionID r ++ #" exited (code " ++ itoa n ++ #") before match")) 1
      | None => exits 0
      end
  else exits 0.

Definition cmdWait (args : list bytes) : outcome :=
  match args with
  | id :: mode :: remaining =>
      match wait_mode mode remaining with
      | inr msg => complains [msg] 1
      | inl (idleFor, pattern, remaining) =>
          match timeout_flag remaining 0 with
          | inr msg => complains [msg] 1
          | inl timeout =>
              request MsgWait (marshal_wait (lib K) (mkWaitRequest id mode timeout idleFor pattern)) (λ resp _,
                match unmarshal_wait (lib K) (Payload resp) with
                | Err e => fails e
                | Ok r => wait_report r
                end)
          end
      end
  | _ =>
      complains [
        #"Usage: wmux wait <session-id> exit [--timeout <ms>]";
        #"       wmux wait <session-id> idle <idle-ms> [--timeout <ms>]";
        #"       wmux wait <session-id> match <pattern> [--timeout <ms>]"] 1
  end.

(** ** Streams *)

Definition io_EOF : error := ENew #"EOF".

(** Reading past what has arrived ends the command, or waits for ever. *)
Definition stream_end (n : Z) : outcome :=
  match ended w with
  | None => blocks
  | Some e => if err_is e io_EOF then exits n else complains [ #"error: " ++ err_text e] n
  end.

(** The last argument that is no flag; [--all] is not looked at. *)
Definition events_session (args : list bytes) : bytes :=
  foldl (λ id a, if decide (a ≠ #"--all") then if has_prefix a #"--" then id else a else id) [] args.

Fixpoint print_events (l : list Frame) : outcome :=
  match l with
  | [] => stream_end 0
  | f :: l =>
      before (if decide (Type_ f = MsgEvent) then from_option line [] (event_line K (Payload f)) else []) []
        (print_events l)
  end.

Definition cmdEvents (args : list bytes) : outcome :=
  request MsgEvent (marshal_event K (events_session args)) (λ _ rest, print_events rest).

Fixpoint history_flags (args : list bytes) (format : bytes) (lines : Z) : (bytes * Z) + bytes :=
  match args with
  | a :: rest =>
      match rest with
      | v :: rest' =>
          if decide (a = #"--format") then history_flags rest' v lines
          else if decide (a = #"--lines") then
            match atoi v with
            | (n, None) => history_flags rest' format n
            | (_, Some _) => inr (#"error: invalid --lines value: " ++ v)
            end
          else history_flags rest format lines
      | [] => inl (format, lines)
      end
  | [] => inl (format, lines)
  end.

(** Until the end of the history, or of the connection. *)
Fixpoint print_history (l : list Frame) : outcome :=
  match l with
  | [] => stream_end 0
  | f :: l =>
      if decide (Type_ f = MsgHistoryEnd) then exits 0
      else before (if decide (Type_ f = MsgHistory) then Payload f else []) [] (print_history l)
  end.

Definition cmdHistory (args : list bytes) : outcome :=
  match args with
  | [] => complains [ #"Usage: wmux history <session-id> [--format ansi|text|html] [--lines N]"] 1
  | id :: flags =>
      match history_flags flags #"ansi" 0 with
      | inr msg => complains [msg] 1
      | inl (format, lines) =>
          request MsgHistory (marshal_history K (mkHistoryRequest id format lines)) (λ resp rest,
            before (if decide (Type_ resp = MsgHistory) then Payload resp else []) [] (print_history rest))
      end
  end.

(** What a frame of the stream channel writes to standard output. *)
Definition attach_output (f : Frame) : bytes :=
  if decide (Type_ f = MsgData) then
    match Payload f with
    | n :: (_ :: _) as p =>
        let idLen := Z.to_nat (byte_val n) in
        if decide (1 + idLen <= length p)%nat then drop (1 + idLen) p else []
    | _ => []
    end
  else [].

(** The frames that the reads of standard input send. *)
Definition attach_input (id : bytes) (reads : list bytes) : list (MessageType * bytes) :=
  (λ data, (MsgInput, client_Write_payload id data)) <$> filter (λ data, data ≠ []) reads.

(** The command ends when the stream channel does. *)
Definition cmdAttach (args reads : list bytes) : outcome :=
  match args with
  | [] => complains [ #"Usage: wmux attach <session-id>"] 1
  | id :: _ =>
      match dialed w, stream_dialed w with
      | Err e, _ => fails e
      | Ok _, Some e => fails e
      | Ok _, None =>
          exchange MsgAttach (Ok (marshal_session (lib K) id)) (λ _ _,
            mkOutcome (if stream_ended w then Some 0 else None) (streamed w ≫= attach_output) []
              (attach_input id reads))
      end
  end.

Definition cmdVersion (Version Commit : bytes) : outcome :=
  prints (line (#"wmux " ++ Version ++ #" (commit: " ++ Commit ++ #")")) 0.
End Commands.

(** ** The program *)

Definition usage : list bytes := [
  #"Usage: wmux <command> [args]";
  [];
  #"Commands:";
  #"  daemon    Start the daemon in foreground";
  #"  create    Create a new session";
  #"  attach    Attach to an existing session";
  #"  detach    Detach from a session";
  #"  kill      Kill a session or all by prefix (--prefix <prefix>)";
  #"  list      List sessions (--prefix <prefix>, --quiet)";
  #"  info      Show session information";
  #"  status    Show daemon status";
  #"  exec      Send input to a session without attaching";
  #"  wait      Wait for a session condition (exit, idle, match)";
  #"  record    Start or stop session recording";
  #"  history   Export session scrollback history";
  #"  events    Stream session events";
  #"  version   Show wmux version";
  [];
  #"Global flags:";
  #"  --socket <path>  Daemon socket path (default: ~/.wmux/daemon.sock)";
  #"  --token <path>   Auth token path (default: ~/.wmux/daemon.token)"].

(** [world_at] is the world for the socket and the token paths, [daemon] the
    command that serves, and [reads] what standard input gives. *)
Definition main (K : CliJson) (world_at : bytes → bytes → world) (daemon : bytes → list bytes → outcome)
    (Version Commit : bytes) (args reads : list bytes) : outcome :=
  let '(sock, tok, cmd, args) := parseGlobalFlags args in
  let w := world_at sock tok in
  if decide (cmd = []) then complains usage 1
  else if decide (cmd = #"daemon") then daemon sock args
  else if decide (cmd = #"create") then cmdCreate K w args
  else if decide (cmd = #"attach") then cmdAttach K w args reads
  else if decide (cmd = #"detach") then cmdDetach K w args
  else if decide (cmd = #"kill") then cmdKill K w args
  else if decide (cmd = #"list") then cmdList K w args
  else if decide (cmd = #"info") then cmdInfo K w args
  else if decide (cmd = #"status") then cmdStatus K w Version Commit
  else if decide (cmd = #"events") then cmdEvents K w args
  else if decide (cmd = #"exec") then cmdExec K w args
  else if decide (cmd = #"wait") then cmdWait K w args
  else if decide (cmd = #"record") then cmdRecord K w args
  else if decide (cmd = #"history") then cmdHistory K w args
  else if decide (cmd = #"version") then cmdVersion Version Commit
  else complains ([ #"unknown command: " ++ cmd] ++ usage) 1.
