(* ===== verification/CliDaemon.v ===== *)
(** * The command line over the daemon

    The commands of [Cli] in a world whose daemon answers them: what a user of
    [wmux] sees of the daemon's replies. *)

From S2P Require Import Prelude Files GoStrings SessionValues Protocol Payload SessionManager DaemonTypes Daemon DaemonExample DaemonLemmas DaemonClients DaemonReplies DaemonWaiters ClientHistory ClientCalls ClientExample Cli.

#[local] Open Scope Z_scope.

(** ** Waiting *)

(** The exit code of [wmux wait] is 2 exactly when the time-out came first,
    1 when the session exited before the pattern was seen, and 0 otherwise.  In
    idle mode a session that exits is reported as idle, whatever its exit
    code. *)
Theorem wait_exit_codes now k w r :
  good w → wake_response now k w = Some r →
  code (wait_report r) =
    Some (if decide (k = WakeTimeout) then 2
          else if decide (w_mode w = #"match" ∧ wr_Matched r = false ∧ is_Some (wr_ExitCode r)) then 1 else 0) ∧
  (k ≠ WakeTimeout → w_mode w = #"idle" → wait_report r = prints (line (#"session " ++ w_session w ++ #" idle")) 0).
Proof.
  intros (Hm & Hi & Hd) Hr. destruct k; cbn [wake_response] in Hr.
  - destruct (Hd _ Hr) as (<- & Hmode & Ht). rewrite <- Hmode in *. rewrite decide_False by done.
    unfold wait_report. rewrite Ht. rewrite !elem_of_cons, elem_of_nil in Hm. split.
    + repeat case_decide; destruct (wr_ExitCode r), (wr_Matched r); try done; try (exfalso; naive_solver).
      all: match goal with H : ?m = _, H' : ?m = _ ∧ _ |- _ => destruct H' as [H' _]; rewrite H in H'; discriminate H' end.
    + intros _ ->. done.
  - destruct (w_idle w) as [t|] eqn:Hidle; [|done]. cbn in Hr. case_bool_decide; [|done]. injection Hr as <-.
    assert (Hmode : w_mode w = #"idle") by (by apply Hi). rewrite Hmode. split; [|done].
    rewrite decide_False, decide_False; [done| |done]. by intros [? _].
  - destruct (from_option _ _ _); [|done]. injection Hr as <-. done.
Qed.

Section Cli.

Context {S : Type} `{SessionManagerLaws S}.

Context (J : Json) (E : ReplyJson) (K : CliJson) (stamp : time → bytes) (stat_ok : bytes → bool).

(** A world in which the daemon answers a request with the frames of its
    replies, and keeps the connection open. *)
Definition daemon_world (env : bytes → bytes) (dir : bytes) (now : time) (c : bytes) (d : Daemon S) : world :=
  mkWorld env dir (Ok c) None None
    (λ t p, (frame_of E ∘ snd) <$> replies (fst (dispatch J stamp stat_ok now c (mkFrame ProtocolVersion t p) d)))
    None [] false.

(** ** Lemmas *)

Lemma print_history_dump w l :
  print_history w (dump_frames l) = prints (concat l) 0.
Proof.
  induction l as [|ch l IH]; [done|]. unfold dump_frames in *. cbn [fmap list_fmap app print_history Type_ Payload].
  rewrite decide_False, decide_True by done. rewrite IH. unfold before, prints. cbn. done.
Qed.

(** Flags, identifiers, a separator and words are parsed as such. *)
Definition exec_flag_names : list bytes := [ #"--sync"; #"--prefix"; #"--no-newline"].

Lemma separator_app ids words : #"--" ∉ ids → separator (ids ++ #"--" :: words) = Some (length ids).
Proof.
  intros Hn. unfold separator. induction ids as [|id ids IH]; [done|].
  apply not_elem_of_cons in Hn as [Hne Hn]. cbn [app list_find]. rewrite decide_False by congruence.
  specialize (IH Hn). destruct (list_find _ (ids ++ _)) as [[i x]|]; [|done]. cbn in IH |- *.
  by injection IH as ->.
Qed.

Lemma exec_flags_stop args sync prefix nn :
  (∀ a, head args = Some a → a ∉ exec_flag_names) → exec_flags args sync prefix nn = Some (sync, prefix, nn, args).
Proof.
  destruct args as [|a args]; [done|]. intros Ha. specialize (Ha a eq_refl). unfold exec_flag_names in Ha.
  rewrite !not_elem_of_cons in Ha. destruct Ha as (H1 & H2 & H3 & _). cbn [exec_flags].
  by rewrite !decide_False by done.
Qed.

Lemma exec_sync_parsed w ids words :
  #"--" ∉ ids → ids ≠ [] → words ≠ [] → (∀ a, head ids = Some a → a ∉ exec_flag_names) →
  cmdExec K w ([ #"--sync"] ++ ids ++ [ #"--"] ++ words) =
    request K w MsgExecSync (marshal_exec_sync (lib K) (mkExecSyncRequest ids [] (join #" " words) true))
      (λ resp _, printExecSyncResults K resp).
Proof.
  intros Hn Hi Hw Hh. unfold cmdExec. cbn [app]. cbn [exec_flags]. rewrite decide_True by done.
  rewrite exec_flags_stop; cycle 1. { destruct ids; [done|]. exact Hh. }
  rewrite decide_True by done. unfold execSync. rewrite separator_app by done. rewrite decide_True; cycle 1.
  { rewrite length_app. destruct ids, words; cbn in *; first [done|lia]. }
  rewrite take_app_length, (cons_middle (#"--")), app_assoc, drop_app_length'; [done|].
  rewrite length_app. done.
Qed.

(** What is printed of the results, and the exit code. *)
Lemma exec_lines rs :
  (exec_result <$> rs) ≫= (λ r, line (er_SessionID r ++ if er_OK r then #": ok" else #": error: " ++ er_Error r)) =
  rs ≫= (λ r, line (fst r ++ match snd r with None => #": ok" | Some e => #": error: " ++ err_text e end)).
Proof. induction rs as [|[id [e|]] rs IH]; [done|..]; cbn; by f_equal. Qed.

Lemma exec_all_ok rs : forallb er_OK (exec_result <$> rs) = forallb (λ r, bool_decide (snd r = None)) rs.
Proof. induction rs as [|[id [e|]] rs IH]; [done|done|exact IH]. Qed.

Lemma exec_targets data l s :
  sm_ok s →
  let rs := fst (for_targets (λ s id, sm_WriteInput s id data) l s) in
  fst <$> rs = l ∧ Forall (λ r, known s (fst r) = false → snd r ≠ None) rs.
Proof.
  intros Hok. revert s Hok. induction l as [|id l IH]; intros s Hok; [done|]. cbn [for_targets].
  pose proof (sm_WriteInput_spec s id data Hok) as Hs. destruct (sm_WriteInput s id data) as [e s'].
  destruct Hs as [[Hok' Hk] He]. destruct (IH s' Hok') as [H1 H2].
  destruct (for_targets _ l s') as [rs s2]. cbn [fst fmap list_fmap] in *. split; [by rewrite H1|].
  constructor; [exact He|]. eapply Forall_impl; [exact H2|]. intros r Hr. by rewrite <- Hk.
Qed.

(** ** Theorems *)

(** C21: [wmux history] on a session that can be rendered prints exactly the
    rendered contents, cut to the daemon's limit and whatever number of lines
    was asked for, and exits with 0, when there are any; when there are none it
    never ends, because it takes the end of the history for its first frame and
    goes on to wait for another. *)
Theorem history_prints_the_dump_or_hangs env dir now c d id flags format lines p replay :
  history_flags flags #"ansi" 0 = inl (format, lines) → marshal_history K (mkHistoryRequest id format lines) = Ok p →
  json_History J p = Ok (mkHistoryRequest id format lines) →
  format ∈ [ #"ansi"; #"text"; #"html"] → sm_Snapshot (backend d) id = Ok replay →
  let data := limited (maxHistoryDumpSize (config d)) (rendered format replay) in
  cmdHistory K (daemon_world env dir now c d) (id :: flags) =
    mkOutcome (if decide (data = []) then None else Some 0) data [] [(MsgHistory, p)].
Proof.
  intros Hf Hm Hj Hfmt Hsnap. cbv zeta. set (data := limited _ _).
  unfold cmdHistory. rewrite Hf. unfold request, exchange. cbn [dialed write_error daemon_world]. rewrite Hm.
  cbn [arriving daemon_world].
  assert (Hr : replies (fst (dispatch J stamp stat_ok now c (mkFrame ProtocolVersion MsgHistory p) d)) =
    ((λ ch, (c, MHistory ch)) <$> chunks (length data) data) ++ [(c, MHistoryEnd)]).
  { change (dispatch J stamp stat_ok now c (mkFrame ProtocolVersion MsgHistory p) d) with (handleHistory J c p d).
    destruct (handleHistory_cases J c p d) as [_ [(msg & Hmsg)|(req & rp & Hreq & _ & Hs & Hr)]].
    - exfalso. unfold handleHistory, decode in Hmsg. rewrite Hj in Hmsg. cbn [hr_Format hr_SessionID] in Hmsg.
      rewrite decide_True, Hsnap in Hmsg by done. fold data in Hmsg. rewrite andThen_eq in Hmsg. cbn [reply emit fst snd] in Hmsg.
      destruct (replies_chunks c (chunks (length data) data) d) as [Hc _]. rewrite replies_app, Hc in Hmsg.
      by destruct (chunks _ _) as [|? [|??]].
    - rewrite Hj in Hreq. injection Hreq as <-. cbn [hr_SessionID hr_Format] in *.
      rewrite Hsnap in Hs. injection Hs as <-. exact Hr. }
  rewrite Hr, fmap_app, <- list_fmap_compose. clear Hr.
  destruct (chunks_spec (length data) data (le_n _)) as [Hcat Hall]. clearbody data.
  destruct (chunks (length data) data) as [|ch l].
  - cbn in Hcat. subst data. done.
  - apply Forall_cons in Hall as [[Hch _] _]. rewrite decide_False; cycle 1.
    { rewrite <- Hcat. cbn [concat]. by destruct ch. }
    cbn [fmap list_fmap app next_frame compose snd frame_of]. unfold checkError. cbn [Type_ Payload].
    rewrite decide_False, decide_True by done.
    match goal with |- context [print_history ?w ?x] => change (print_history w x) with (print_history w (dump_frames l)) end.
    rewrite print_history_dump. unfold before, having_sent, prints. cbn [code stdout stderr sent app concat]. by rewrite <- Hcat.
Qed.

(** [wmux exec --sync] with identifiers, a separator and words types the
    words, joined by spaces and ended by a newline, into each of those sessions
    in turn, prints for each what came of it, and exits with 0 exactly when all
    of them took the input; a session that does not exist is always an error. *)
Theorem exec_sync_types_into_each env dir now c d ids words p :
  sm_ok (backend d) → #"--" ∉ ids → ids ≠ [] → words ≠ [] → (∀ a, head ids = Some a → a ∉ exec_flag_names) →
  let req := mkExecSyncRequest ids [] (join #" " words) true in
  marshal_exec_sync (lib K) req = Ok p → json_ExecSync J p = Ok req →
  (∀ l, unmarshal_exec_sync (lib K) (enc_response E (RExecSync l)) = Ok l) →
  let rs := fst (for_targets (λ s id, sm_WriteInput s id (join #" " words ++ [x0a])) ids (backend d)) in
  cmdExec K (daemon_world env dir now c d) ([ #"--sync"] ++ ids ++ [ #"--"] ++ words) =
    mkOutcome (Some (if forallb (λ r, bool_decide (snd r = None)) rs then 0 else 1))
      (rs ≫= λ r, line (fst r ++ match snd r with None => #": ok" | Some e => #": error: " ++ err_text e end))
      [] [(MsgExecSync, p)] ∧
  fst <$> rs = ids ∧ Forall (λ r, known (backend d) (fst r) = false → snd r ≠ None) rs.
Proof.
  intros Hok Hn Hi Hw Hh. cbv zeta. intros Hm Hj Hu. split.
  - rewrite exec_sync_parsed by done. unfold request, exchange. cbn [dialed daemon_world write_error]. rewrite Hm.
    cbn [arriving daemon_world].
    change (dispatch J stamp stat_ok now c (mkFrame ProtocolVersion MsgExecSync p) d) with (handleExecSync J c p d).
    unfold handleExecSync, decode. rewrite Hj. cbn [xs_SessionIDs xs_Prefix xs_Input xs_Newline].
    rewrite bool_decide_eq_false_2 by done. rewrite bool_decide_eq_true_2 by done. cbn [negb andb].
    unfold query. cbv beta.
    rewrite (decide_True (P := [] = [])), decide_False by done. unfold call, exec_input.
    destruct (for_targets _ ids (backend d)) as [rs s]. cbn [fst snd reply emit replies omap list_omap].
    cbn [next_frame fmap list_fmap compose frame_of snd]. unfold checkError. cbn [Type_ Payload].
    rewrite decide_False by done. unfold printExecSyncResults. cbn [Payload].
    rewrite Hu, exec_lines, exec_all_ok. done.
  - by apply exec_targets.
Qed.
End Cli.

(** ** Witnesses *)

Section Witnesses.

Definition example_cli : CliJson := {|
  lib := example_wire_client;
  marshal_event id := Ok (enc [id]);
  marshal_history r := Ok (enc [hr_SessionID r; hr_Format r; itoa (hr_Lines r)]);
  unmarshal_created s := match dec_info (fields_of s) with Ok (i, _) => Ok (si_ID i, si_Pid i) | Err e => Err e end;
  unmarshal_status s :=
    match fields_of s with v :: u :: n :: c :: _ => Ok (v, u, number n, number c) | _ => Err ErrSyntax end;
  event_line s := Some s;
|}.

#[local] Abbreviation wmux_at d :=
  (daemon_world example_wire example_wire_replies example_stamp example_stat (λ _, []) #"/" 5 #"c" d) (only parsing).

(** A session whose screen shows a prompt, and one that shows nothing. *)
Lemma history_prints_the_dump_or_hangs_witness :
  let args := [ #"a"; #"--lines"; #"10"] in
  stdout (cmdHistory example_cli (wmux_at transcript_daemon) args) = #"$ ls" ∧
  code (cmdHistory example_cli (wmux_at transcript_daemon) args) = Some 0 ∧
  code (cmdHistory example_cli (wmux_at example_daemon) args) = None.
Proof.
  cbv zeta.
  rewrite (history_prints_the_dump_or_hangs example_wire example_wire_replies example_cli example_stamp example_stat
    (λ _, []) #"/" 5 #"c" transcript_daemon #"a" _ #"ansi" 10 (enc [ #"a"; #"ansi"; #"10"]) #"$ ls")
    by (done || by left).
  rewrite (history_prints_the_dump_or_hangs example_wire example_wire_replies example_cli example_stamp example_stat
    (λ _, []) #"/" 5 #"c" example_daemon #"a" _ #"ansi" 10 (enc [ #"a"; #"ansi"; #"10"]) [])
    by (done || by left).
  split_and!; vm_compute; reflexivity.
Defined.

Definition example_idle : waiter := mkWaiter #"c" #"a" #"idle" [] 5 (Some 9) None (Some (mkWaitResponse #"a" #"idle" (Some 3) false false)).

Lemma wait_exit_codes_witness :
  good example_idle ∧ wait_report (mkWaitResponse #"a" #"idle" (Some 3) false false) = prints (line #"session a idle") 0.
Proof.
  assert (Hg : good example_idle).
  { split; [by right; left|]. split; [by split; [|intros _; eexists]|]. by intros r [= <-]. }
  split; [exact Hg|]. by apply (proj2 (wait_exit_codes 7 WakeDone example_idle _ Hg eq_refl)).
Defined.

Lemma exec_sync_types_into_each_witness :
  stdout (cmdExec example_cli (wmux_at example_daemon) ([ #"--sync"] ++ [ #"a"; #"x"] ++ [ #"--"] ++ [ #"ls"; #"-l"])) =
    line #"a: ok" ++ line #"x: error: session adapter: write input: session not found" ∧
  code (cmdExec example_cli (wmux_at example_daemon) ([ #"--sync"] ++ [ #"a"; #"x"] ++ [ #"--"] ++ [ #"ls"; #"-l"])) = Some 1.
Proof.
  destruct (exec_sync_types_into_each example_wire example_wire_replies example_cli example_stamp example_stat
    (λ _, []) #"/" 5 #"c" example_daemon [ #"a"; #"x"] [ #"ls"; #"-l"]
    (enc [ []; #"ls -l"; #"1"; #"a"; #"x"]) example_ok) as [Heq _].
  - apply (bool_decide_unpack _). vm_compute. exact I.
  - done.
  - done.
  - intros a [= <-]. apply (bool_decide_unpack _). vm_compute. exact I.
  - reflexivity.
  - vm_compute. reflexivity.
  - intros l. cbn -[enc]. unfold fields_of. rewrite dec_enc. f_equal.
    induction l as [|[id [] e] l IH]; [done|..]; cbn; by f_equal.
  - rewrite Heq. split; vm_compute; reflexivity.
Defined.
End Witnesses.
