(* ===== verification/Startup.v ===== *)
(** * Starting a daemon

    [NewDaemon] and [Serve] of [pkg/client/daemon.go], [New] and [startDaemon]
    of [pkg/client/client.go], [cmd/wmux/daemon.go], [internal/daemon/pidfile.go]
    and the token file of [internal/platform/auth], over the file system: what
    is made on the disk, and which token a daemon and its clients read.  Error
    texts leave out the quoted paths. *)

From S2P Require Import Prelude Files GoStrings SessionValues Debug Paths ClientConfig Protocol SessionManager DaemonTypes Daemon DaemonExample DaemonHistory ClientCalls ClientConnect Transport Cli Config ClientRestore.
From S2P Require History.

#[local] Open Scope Z_scope.

Section Startup.

Context (cwd : path).

(** ** The token file ([internal/platform/auth]) *)

Definition auth_LoadFromFile (fs : FS) (p : bytes) : result bytes := LoadFromFile (ReadFile fs (abs cwd p)).

Definition SaveToFile (token : bytes) (p : bytes) (fs : FS) : option error * FS :=
  match WriteFile fs (abs cwd p) token with
  | (Err e, fs) => (Some (EWrap #"auth: save token" e), fs)
  | (Ok _, fs) => (None, fs)
  end.

(** [random] is what [Generate] reads. *)
Definition auth_Ensure (random : result bytes) (p : bytes) (fs : FS) : result bytes * FS :=
  match auth_LoadFromFile fs p with
  | Ok token => (Ok token, fs)
  | Err e =>
      if negb (err_is e Files.ErrNotExist) && negb (err_is e ErrInvalidToken) then (Err e, fs)
      else
        match random with
        | Err e => (Err (EWrap #"auth: generate token" e), fs)
        | Ok token =>
            match SaveToFile token p fs with
            | (Some e, fs) => (Err e, fs)
            | (None, fs) => (Ok token, fs)
            end
        end
  end.

(** ** The pid file ([internal/daemon/pidfile.go]) *)

Record Info := mkInfo { info_PID : Z; info_Version : bytes; info_StartedAt : time }.

Context (marshal_info : Info → result bytes) (unmarshal_info : bytes → result Info).

Definition WritePIDFile (p : bytes) (info : Info) (fs : FS) : option error * FS :=
  match marshal_info info with
  | Err e => (Some (EWrap #"daemon: marshal pid file" e), fs)
  | Ok data =>
      match WriteFile fs (abs cwd p) data with
      | (Err e, fs) => (Some (EWrap #"daemon: write pid file" e), fs)
      | (Ok _, fs) => (None, fs)
      end
  end.

Definition ReadPIDFile (fs : FS) (p : bytes) : result Info :=
  match ReadFile fs (abs cwd p) with
  | Err e => Err (EWrap #"daemon: read pid file" e)
  | Ok data => wrap_err #"daemon: unmarshal pid file" (unmarshal_info data)
  end.

Definition RemovePIDFile (p : bytes) (fs : FS) : option error * FS :=
  match Remove fs (abs cwd p) with
  | (Err e, fs) => (if err_is e Files.ErrNotExist then None else Some (EWrap #"daemon: remove pid file" e), fs)
  | (Ok _, fs) => (None, fs)
  end.

(** [processRunning] asks the operating system.  The result is whether the
    process runs, and what the file says. *)
Definition CheckPIDFile (processRunning : Z → bool) (fs : FS) (p : bytes) : result (bool * option Info) :=
  match ReadPIDFile fs p with
  | Err e => if err_is e Files.ErrNotExist then Ok (false, None) else Err e
  | Ok info => Ok (processRunning (info_PID info), Some info)
  end.

(** ** The socket ([internal/platform/ipc/listener.go]) *)

(** [bind] is the error of resolving the address or of binding to it.  A file
    that is there is removed, whoever listens on it. *)
Definition Listen (bind : option error) (p : bytes) (fs : FS) : option error * FS :=
  let '(removed, fs) :=
    match stat fs (abs cwd p) with
    | None => Remove fs (abs cwd p)
    | Some _ => (Ok tt, fs)
    end in
  match removed, bind with
  | Err e, _ => (Some (EWrap #"ipc: remove stale socket" e), fs)
  | Ok _, Some e => (Some (EWrap #"ipc: listen" e), fs)
  | Ok _, None =>
      match WriteFile fs (abs cwd p) [] with
      | (Err e, fs) => (Some (EWrap #"ipc: listen" e), fs)
      | (Ok _, fs) => (None, fs)
      end
  end.

(** ** The embedded daemon ([pkg/client/daemon.go]) *)

Context {F S : Type} `{SM : SessionManager S} (J : Json) (home : result bytes) (tmp : bytes).

Abbreviation client_config := (ClientConfig.config F).

Abbreviation client_option := (ClientConfig.Option_ F).

(** What the operating system gives a daemon: random bytes, the errors of
    binding the socket and of opening the trace file, the environment of the
    tracer, the process identifier and the time. *)
Record os := mkOs {
  os_random : result bytes;
  os_bind : option error;
  os_tracer : option error;
  os_env : EnvConfig;
  os_pid : Z;
  os_now : time;
}.

Definition client_NewDaemon (opts : list client_option) (fs : FS) : result client_config * FS :=
  let cfg := resolveConfig home tmp (newConfig opts) in
  match Files.MkdirAll fs (abs cwd (filepath_dir (socket cfg))) with
  | (Err e, fs) => (Err (EWrap #"client: create namespace dir" e), fs)
  | (Ok _, fs) =>
      match Files.MkdirAll fs (abs cwd (ClientConfig.dataDir cfg)) with
      | (Err e, fs) => (Err (EWrap #"client: create data dir" e), fs)
      | (Ok _, fs) => (Ok cfg, fs)
      end
  end.

Definition pid_file (cfg : client_config) : bytes := filepath_join [filepath_dir (socket cfg); #"wmux.pid"].

(** [Serve] up to the loop that accepts connections: the token of the server,
    and the daemon, started; [s] is the new session service. *)
Definition Serve (o : os) (s : S) (cfg : client_config) (fs : FS) : result (bytes * Daemon S) * FS :=
  match auth_Ensure (os_random o) (tokenPath cfg) fs with
  | (Err e, fs) => (Err (EWrap #"client: ensure token" e), fs)
  | (Ok token, fs) =>
      match Listen (os_bind o) (socket cfg) fs with
      | (Some e, fs) => (Err (EWrap #"client: listen" e), fs)
      | (None, fs) =>
          match (if Enabled (resolveDebugConfig (os_env o) cfg) then os_tracer o else None) with
          | Some e => (Err (EWrap #"client: create debug tracer" e), fs)
          | None =>
              match WritePIDFile (pid_file cfg) (mkInfo (os_pid o) #"0.1.0" (os_now o)) fs with
              | (Some e, fs) => (Err (EWrap #"client: daemon start" (EWrap #"daemon: write pid file" e)), fs)
              | (None, fs) =>
                  let d := Start J (os_now o) (client_Serve (Some (abs cwd (ClientConfig.dataDir cfg)))
                             (ClientConfig.coldRestore cfg) (ClientConfig.maxScrollbackSize cfg) s fs) in
                  (Ok (token, d), disk d)
              end
          end
      end
  end.

(** What [Serve] does once the loop has ended with [err]: the histories of
    commands are closed and the pid file is removed, whether it is there or not. *)
Definition Serve_ends (now : time) (cfg : client_config) (err : option error) (d : Daemon S) : option error * FS :=
  (EWrap #"client: daemon start" ∘ EWrap #"daemon: serve" <$> err,
   snd (RemovePIDFile (pid_file cfg) (disk (serve_ended J now d)))).

(** ** The command [wmux daemon] ([cmd/wmux/daemon.go]) *)

(** The socket and the options after the flags, from those before them. *)
Fixpoint daemon_flags (args : list bytes) (sock : bytes) (opts : list client_option) : bytes * list client_option :=
  match args with
  | a :: rest =>
      match rest with
      | v :: rest' =>
          if decide (a = #"--socket") then
            let sock := expandHome home v in
            daemon_flags rest' sock
              (opts ++ [WithSocket sock; WithDataDir (filepath_join [filepath_dir sock; #"sessions"])])
          else if decide (a = #"--data-dir") then daemon_flags rest' sock (opts ++ [WithDataDir (expandHome home v)])
          else if decide (a = #"--log-level") then daemon_flags rest' sock opts
          else daemon_flags rest sock opts
      | [] => (sock, opts)
      end
  | [] => (sock, opts)
  end.

(** [config.Load] of a path. *)
Context (load_config : result bytes → result Config.Config).

(** The outcome has no exit code while the daemon serves. *)
Definition cmdDaemon (o : os) (s : S) (socketPath : bytes) (args : list bytes) (fs : FS) :
    outcome * option (bytes * Daemon S) * FS :=
  let sock := expandHome home socketPath in
  let '(sock, opts) := daemon_flags args sock
    [WithSocket sock; WithDataDir (filepath_join [filepath_dir sock; #"sessions"])] in
  let configPath := filepath_join [filepath_dir sock; #"config.toml"] in
  let cfg :=
    match stat fs (abs cwd configPath) with
    | None => load_config (ReadFile fs (abs cwd configPath))
    | Some _ => Ok Config.Defaults
    end in
  match cfg with
  | Err e => (complains [ #"error: load config: " ++ err_text e] 1, None, fs)
  | Ok cfg =>
      match History.ParseSize (Config.hc_MaxPerSession (Config.cfg_History cfg)) with
      | Err e => (complains [ #"error: parse max_per_session: " ++ err_text e] 1, None, fs)
      | Ok maxScrollback =>
          let opts := opts ++ [WithColdRestore (Config.hc_ColdRestore (Config.cfg_History cfg));
                               WithMaxScrollbackSize maxScrollback] in
          match client_NewDaemon opts fs with
          | (Err e, fs) => (fails e, None, fs)
          | (Ok cfg, fs) =>
              let banner := line (#"wmux daemon listening on " ++ sock) in
              match Serve o s cfg fs with
              | (Err e, fs) => (before [] banner (fails e), None, fs)
              | (Ok d, fs) => (mkOutcome None [] banner [], Some d, fs)
              end
          end
      end
  end.
End Startup.

(** ** The client's start ([pkg/client/client.go]) *)

(** The file system, and the server that listens: the path of its socket. *)
Record machine := mkMachine { m_fs : FS; m_server : option (path * Server) }.

Section Client.

Context (cwd : path) {F S : Type} `{SM : SessionManager S} (J : Json) (home : result bytes) (tmp : bytes).

Context (marshal_info : Info → result bytes) (o : os) (s : S).

(** The executable, whether starting it fails, the options that its program
    gives [ServeDaemon], and what the daemon's random source gives. *)
Context (exe : result bytes) (spawn_error : option error) (extra : list (Option_ F)) (random : result bytes).

(** The connections of the client: their peer, the time, the numbers of the
    control and the stream connection, and the identifier that is generated. *)
Context (stat_file : Z → option bytes) (self_uid self_pid : Z) (creds : PeerCredentials) (now : time).

Context (conn1 conn2 : nat) (newid : bytes).

Definition refused : error := ENew #"connect: connection refused".

(** The server at a path, if there is one. *)
Definition listening (m : machine) (p : bytes) : option Server :=
  match m_server m with
  | Some (q, srv) => if decide (q = abs cwd p) then Some srv else None
  | None => None
  end.

(** [connect] up to the request for events; connections do not fail. *)
Definition connect_to (cfg : ClientConfig.config F) (m : machine) : result bytes * machine :=
  let file := ReadFile (m_fs m) (abs cwd (tokenPath cfg)) in
  let say conn := served stat_file (λ _ _, None) self_uid self_pid creds now conn (Ok newid) in
  match listening m (socket cfg) with
  | None =>
      (fst (connect file (Some refused) (Some refused) (say conn1) (say conn2) (NewServer [] ModeOpen)), m)
  | Some srv =>
      let (r, srv) := connect file None None (say conn1) (say conn2) srv in
      (r, mkMachine (m_fs m) (Some (abs cwd (socket cfg), srv)))
  end.

(** The program that is started calls [ServeDaemon]: it serves when its
    arguments say so. *)
Definition child (args : list bytes) (m : machine) : machine :=
  if negb (isDaemonMode args) then m
  else
    match client_NewDaemon cwd home tmp (parseDaemonArgs args ++ extra) (m_fs m) with
    | (Err _, fs) => mkMachine fs (m_server m)
    | (Ok cfg, fs) =>
        match Serve cwd marshal_info J o s cfg fs with
        | (Err _, fs) => mkMachine fs (m_server m)
        | (Ok (token, _), fs) => mkMachine fs (Some (abs cwd (socket cfg), NewServer token ModeOpen))
        end
    end.

Definition startDaemon (cfg : ClientConfig.config F) (m : machine) : option error * machine :=
  let on_disk fs := mkMachine fs (m_server m) in
  match Files.MkdirAll (m_fs m) (abs cwd (filepath_dir (socket cfg))) with
  | (Err e, fs) => (Some (EWrap #"create dirs" e), on_disk fs)
  | (Ok _, fs) =>
      match Files.MkdirAll fs (abs cwd (ClientConfig.dataDir cfg)) with
      | (Err e, fs) => (Some (EWrap #"create data dir" e), on_disk fs)
      | (Ok _, fs) =>
          match auth_Ensure cwd random (tokenPath cfg) fs with
          | (Err e, fs) => (Some (EWrap #"ensure token" e), on_disk fs)
          | (Ok _, fs) =>
              match exe, spawn_error with
              | Err e, _ => (Some (EWrap #"resolve executable" e), on_disk fs)
              | Ok _, Some e => (Some (EWrap #"spawn daemon" e), on_disk fs)
              | Ok exe, None =>
                  let m := child (exe :: buildDaemonArgs cfg) (on_disk fs) in
                  (if bool_decide (is_Some (listening m (socket cfg))) then None
                   else Some (ENew #"daemon did not start within 3s"), m)
              end
          end
      end
  end.

Definition New (opts : list (Option_ F)) (m : machine) : result bytes * machine :=
  let cfg := resolveConfig home tmp (newConfig opts) in
  match connect_to cfg m with
  | (Ok id, m) => (Ok id, m)
  | (Err e, m) =>
      if negb (autoStart cfg) then (Err e, m)
      else
        match startDaemon cfg m with
        | (Some e, m) => (Err (EWrap #"client: auto-start" e), m)
        | (None, m) => connect_to cfg m
        end
  end.
End Client.

(** ** Lemmas *)

Section Lemmas.

Context (cwd : path).

Lemma LoadFromFile_whole data : length data = TokenSize → LoadFromFile (Ok data) = Ok data.
Proof. intros Hl. unfold LoadFromFile. rewrite bool_decide_eq_false_2; [done|]. intros H. by apply H. Qed.

(** A token that has been ensured is the one that is loaded from then on. *)
Lemma auth_Ensure_loads random p fs token fs' :
  (∀ x, random = Ok x → length x = TokenSize) →
  auth_Ensure cwd random p fs = (Ok token, fs') → auth_LoadFromFile cwd fs' p = Ok token ∧ length token = TokenSize.
Proof.
  intros Hr. unfold auth_Ensure. destruct (auth_LoadFromFile cwd fs p) as [t|e] eqn:Hl.
  - intros [= <- <-]. split; [done|]. unfold auth_LoadFromFile, LoadFromFile in Hl.
    destruct (ReadFile fs _) as [data|]; [|done]. case_bool_decide as Hd; [done|]. injection Hl as <-.
    destruct (decide (length data = TokenSize)) as [|Hn]; [done|]. by destruct Hd.
  - destruct (_ && _); [done|]. destruct random as [t|]; [|done]. unfold SaveToFile.
    destruct (WriteFile fs _ t) as [[[]|] fs1] eqn:Hw; [|done]. intros [= <- <-].
    apply WriteFile_reads in Hw as [Hw _]. unfold auth_LoadFromFile. rewrite Hw.
    split; [by apply LoadFromFile_whole, Hr|by apply Hr].
Qed.

(** Nothing is made below a directory, except in its data directory. *)
Definition unmade (p : path) (fs fs' : FS) : Prop :=
  locked fs' = locked fs ∧ ∀ x l, x ≠ #"sessions" → entries fs' !! (p ++ x :: l) = entries fs !! (p ++ x :: l).

Lemma unmade_trans p fs fs1 fs2 : unmade p fs fs1 → unmade p fs1 fs2 → unmade p fs fs2.
Proof. intros [H1 H2] [H3 H4]. split; [congruence|]. intros x l Hx. by rewrite H4, H2. Qed.

Lemma unmade_reads p fs fs' x l : unmade p fs fs' → x ≠ #"sessions" → ReadFile fs' (p ++ x :: l) = ReadFile fs (p ++ x :: l).
Proof. intros [Hl He] Hx. apply ReadFile_same; [by apply He|done]. Qed.

Lemma auth_Ensure_frame random p fs q :
  q ≠ abs cwd p → ReadFile (snd (auth_Ensure cwd random p fs)) q = ReadFile fs q.
Proof.
  intros Hq. unfold auth_Ensure. destruct (auth_LoadFromFile cwd fs p); [done|]. destruct (_ && _); [done|].
  destruct random as [t|]; [|done]. unfold SaveToFile. pose proof (WriteFile_frame fs _ t _ Hq) as [He Hl].
  destruct (WriteFile fs _ t) as [[[]|] fs1]; by apply ReadFile_same.
Qed.

(** A directory that is not there takes no token. *)
Lemma auth_Ensure_no_dir random p fs :
  entries fs !! abs cwd p = None → entries fs !! dir_of (abs cwd p) = None →
  ∃ e fs', auth_Ensure cwd random p fs = (Err e, fs').
Proof.
  intros Hp Hd. unfold auth_Ensure, auth_LoadFromFile, ReadFile, SaveToFile, WriteFile. rewrite Hp, Hd.
  repeat case_decide; try done; cbn [LoadFromFile].
  - destruct (_ && _); [by eexists _, _|]. destruct random; by eexists _, _.
  - destruct (_ && _); [by eexists _, _|]. destruct random; by eexists _, _.
Qed.

Lemma MkdirAll_frame fs p q :
  q ∉ ancestors p →
  let fs' := snd (Files.MkdirAll fs p) in entries fs' !! q = entries fs !! q ∧ locked fs' = locked fs.
Proof.
  intros Hq. unfold Files.MkdirAll. repeat case_decide; [done| |done]. cbn. split; [|done]. revert Hq.
  generalize (ancestors p). intros l. induction l as [|x l IH]; [done|]. intros [Hx Hl]%not_elem_of_cons. cbn.
  rewrite lookup_insert_ne by done. by apply IH.
Qed.

Lemma not_ancestor (p l k : path) : ¬ l `prefix_of` k → p ++ l ∉ ancestors (p ++ k).
Proof.
  intros Hn (n & Heq & _)%list_elem_of_fmap. apply Hn. apply (prefix_app_inv p). rewrite Heq.
  exists (drop n (p ++ k)). by rewrite take_drop.
Qed.

Lemma Listen_frame bind p fs q :
  q ≠ abs cwd p → ReadFile (snd (Listen cwd bind p fs)) q = ReadFile fs q.
Proof.
  intros Hq. unfold Listen.
  assert (Hrm : let '(_, fs1) := match stat fs (abs cwd p) with None => Remove fs (abs cwd p) | Some _ => (Ok tt, fs) end in
    ReadFile fs1 q = ReadFile fs q).
  { destruct (stat fs _); [done|]. pose proof (Remove_frame fs (abs cwd p) q Hq) as [He Hl].
    destruct (Remove fs _) as [r fs1]. by apply ReadFile_same. }
  destruct (match stat _ _ with None => _ | Some _ => _ end) as [removed fs1]. rewrite <- Hrm.
  destruct removed; [|done]. destruct bind; [done|].
  pose proof (WriteFile_frame fs1 _ [] _ Hq) as [He Hl]. destruct (WriteFile fs1 _ []) as [[[]|] fs2]; by apply ReadFile_same.
Qed.

Lemma WritePIDFile_frame marshal p info fs q :
  q ≠ abs cwd p → ReadFile (snd (WritePIDFile cwd marshal p info fs)) q = ReadFile fs q.
Proof.
  intros Hq. unfold WritePIDFile. destruct (marshal info) as [data|]; [|done].
  pose proof (WriteFile_frame fs _ data _ Hq) as [He Hl]. destruct (WriteFile fs _ data) as [[[]|] fs2]; by apply ReadFile_same.
Qed.

Section Daemon.

Context {S : Type} `{SM : SessionManager S} (J : Json).

Lemma restore_one_disk now dir d m : disk (restore_one (S := S) J now dir d m) = disk d.
Proof.
  unfold restore_one. destruct (snd m); [|done]. destruct (RestoreCommandsForSession _ _ _ _ _ _) as [[e|] svc]; done.
Qed.

(** Starting changes only the metadata of sessions directly in the data directory. *)
Lemma Start_frame now (d : Daemon S) dir q :
  dataDir (config d) = Some dir → (∀ n, q ≠ dir ++ [n; History.metaFileName]) →
  ReadFile (disk (Start J now d)) q = ReadFile (disk d) q.
Proof.
  intros Hdir Hq. unfold Start. cbn [config set_startedAt dataDir]. rewrite Hdir.
  set (d1 := set_commands (set_startedAt d now) _ _ _ _).
  assert (H1 : ReadFile (disk d1) q = ReadFile (disk d) q).
  { subst d1. cbn [disk set_commands]. unfold ReconcileOrphans. cbn [disk set_startedAt].
    destruct (History.ListSessionDirs _ (disk d) dir) as [l|] eqn:Hls; [|done].
    change (foldl _ (0, disk d) l) with (reconcile_all J now l (0, disk d)).
    pose proof (reconcile_all_frame J now l 0 (disk d) q) as Hf. destruct (reconcile_all J now l (0, disk d)) as [k fs].
    apply Hf. apply Forall_forall. intros i Hi. destruct (History.listed_member _ _ _ _ _ Hls Hi) as (n & Hp & _).
    rewrite Hp, <- app_assoc. apply Hq. }
  cbn [disk set_commands]. destruct (_ && _); [|done]. rewrite <- H1. clearbody d1. clear H1.
  unfold restoreCommandHistoriesAtStartup. destruct (ReadDir (disk d1) dir) as [l|]; [|done].
  revert d1. induction l as [|m l IH]; intros d1; [done|]. cbn [foldl]. by rewrite IH, restore_one_disk.
Qed.

(** Paths that a daemon's start does not write to. *)
Definition apart {F} (cfg : ClientConfig.config F) : Prop :=
  let q := abs cwd (tokenPath cfg) in
  q ≠ abs cwd (socket cfg) ∧ q ≠ abs cwd (pid_file cfg) ∧
  ∀ n, q ≠ abs cwd (ClientConfig.dataDir cfg) ++ [n; History.metaFileName].

(** The token that a daemon serves with is the one that its clients load. *)
Lemma Serve_token {F} (cfg : ClientConfig.config F) marshal_info o (s : S) fs token d fs' :
  apart cfg → (∀ x, os_random o = Ok x → length x = TokenSize) →
  Serve cwd marshal_info J o s cfg fs = (Ok (token, d), fs') →
  auth_LoadFromFile cwd fs' (tokenPath cfg) = Ok token ∧ length token = TokenSize.
Proof.
  intros (Hs & Hp & Hm) Hr. unfold Serve.
  destruct (auth_Ensure cwd (os_random o) (tokenPath cfg) fs) as [[t|] fs1] eqn:He; [|done].
  apply auth_Ensure_loads in He as [Hl Ht]; [|done].
  pose proof (Listen_frame (os_bind o) (socket cfg) fs1 _ Hs) as Hf2. destruct (Listen cwd _ _ fs1) as [[e|] fs2]; [done|].
  destruct (if Enabled _ then _ else _); [done|].
  pose proof (WritePIDFile_frame marshal_info (pid_file cfg) (mkInfo (os_pid o) #"0.1.0" (os_now o)) fs2 _ Hp) as Hf3.
  destruct (WritePIDFile cwd _ _ _ fs2) as [[e|] fs3]; [done|].
  set (d0 := client_Serve _ _ _ s fs3). pose proof (Start_frame (os_now o) d0 _ _ eq_refl Hm) as Hf4.
  set (d1 := Start J (os_now o) d0) in *. clearbody d1. cbn zeta. intros [= <- <- <-]. split; [|done].
  unfold auth_LoadFromFile. cbn [snd] in Hf2, Hf3. change (disk d0) with fs3 in Hf4. by rewrite Hf4, Hf3, Hf2.
Qed.

(** What a daemon's start does not write to stays as it is. *)
Lemma Serve_frame {F} (cfg : ClientConfig.config F) marshal_info o (s : S) fs q :
  q ≠ abs cwd (tokenPath cfg) → q ≠ abs cwd (socket cfg) → q ≠ abs cwd (pid_file cfg) →
  (∀ n, q ≠ abs cwd (ClientConfig.dataDir cfg) ++ [n; History.metaFileName]) →
  ReadFile (snd (Serve cwd marshal_info J o s cfg fs)) q = ReadFile fs q.
Proof.
  intros Ht Hs Hp Hm. unfold Serve. pose proof (auth_Ensure_frame (os_random o) (tokenPath cfg) fs q Ht) as Hf1.
  destruct (auth_Ensure cwd _ _ fs) as [[t|] fs1]; [|done]. rewrite <- Hf1.
  pose proof (Listen_frame (os_bind o) (socket cfg) fs1 _ Hs) as Hf2. cbn [snd].
  destruct (Listen cwd _ _ fs1) as [[e|] fs2]; rewrite <- Hf2; [done|].
  destruct (if Enabled _ then _ else _); [done|]. cbn [snd].
  pose proof (WritePIDFile_frame marshal_info (pid_file cfg) (mkInfo (os_pid o) #"0.1.0" (os_now o)) fs2 _ Hp) as Hf3.
  destruct (WritePIDFile cwd _ _ _ fs2) as [[e|] fs3]; rewrite <- Hf3; [done|]. cbn [snd].
  by rewrite (Start_frame (os_now o) (client_Serve _ _ _ s fs3) _ q eq_refl Hm).
Qed.
End Daemon.
End Lemmas.

(** ** Theorems *)

Section Theorems.

Context (cwd : path) {F S : Type} `{SM : SessionManager S} (J : Json) (home : result bytes) (tmp : bytes).

Context (marshal_info : Info → result bytes) (o : os) (s : S).

(** The configuration of [wmux daemon] without flags, in the home directory of [hs]. *)
Lemma default_daemon_config hs opts (cold : bool) max :
  hs ≠ [] → Forall plain_seg hs →
  let sock := expandHome (Ok (root hs)) default_socket in
  opts = [WithSocket sock; WithDataDir (filepath_join [filepath_dir sock; #"sessions"])] →
  let cfg := resolveConfig (Ok (root hs)) tmp (newConfig (opts ++ [WithColdRestore cold; WithMaxScrollbackSize max]))
    : ClientConfig.config F in
  let wmux := hs ++ [ #".wmux"] in
  abs cwd (filepath_dir (socket cfg)) = wmux ∧ abs cwd (socket cfg) = wmux ++ [ #"daemon.sock"] ∧
  abs cwd (tokenPath cfg) = wmux ++ [ #"default"; #"daemon.token"] ∧
  abs cwd (ClientConfig.dataDir cfg) = wmux ++ [ #"sessions"] ∧ abs cwd (pid_file cfg) = wmux ++ [ #"wmux.pid"].
Proof.
  intros Hne Hs sock -> cfg wmux.
  assert (Hw : wmux ≠ []) by (by destruct hs). assert (Hwp : Forall plain_seg wmux).
  { apply Forall_app. split; [done|]. constructor; [|constructor]. apply (bool_decide_unpack _). by vm_compute. }
  assert (Hx : ∀ x, bool_decide (plain_seg x) = true → plain_seg x) by (intros x; apply bool_decide_eq_true_1).
  assert (Hsock : sock = root (wmux ++ [ #"daemon.sock"])).
  { unfold sock, expandHome. change (has_prefix default_socket #"~") with true. cbn iota.
    change (drop 1 default_socket) with #"/.wmux/daemon.sock".
    rewrite (join_root hs #"/.wmux/daemon.sock" [ #".wmux"; #"daemon.sock"]); [unfold wmux; by rewrite <- app_assoc|done..]. }
  assert (Hdir : filepath_dir sock = root wmux) by (rewrite Hsock; apply dir_root; [done..|by apply Hx; vm_compute]).
  assert (Hbase : baseDir cfg = root wmux).
  { change (baseDir cfg) with (filepath_join [root hs; #".wmux"]). apply join_root_seg; [done..|by apply Hx; vm_compute]. }
  assert (Htok : tokenPath cfg = root (wmux ++ [ #"default"; #"daemon.token"])).
  { change (tokenPath cfg) with (filepath_join [filepath_join [baseDir cfg; #"default"]; #"daemon.token"]).
    rewrite Hbase, join_root_seg, join_root_seg, <- app_assoc; [done|..]; try done; try by apply Hx; vm_compute.
    - by destruct wmux.
    - apply Forall_app. split; [done|]. constructor; [by apply Hx; vm_compute|constructor]. }
  assert (Hc : socket cfg = sock).
  { change (socket cfg) with (or_else sock (filepath_join [filepath_join [baseDir cfg; #"default"]; #"daemon.sock"])).
    apply or_else_id. by rewrite Hsock. }
  assert (Hd : ClientConfig.dataDir cfg = root (wmux ++ [ #"sessions"])).
  { change (ClientConfig.dataDir cfg) with
      (or_else (filepath_join [filepath_dir sock; #"sessions"]) (filepath_join [filepath_join [baseDir cfg; #"default"]; #"sessions"])).
    rewrite Hdir, join_root_seg; [by apply or_else_id|done..|by apply Hx; vm_compute]. }
  assert (Hpid : pid_file cfg = root (wmux ++ [ #"wmux.pid"])).
  { unfold pid_file. rewrite Hc, Hdir. apply join_root_seg; [done..|by apply Hx; vm_compute]. }
  assert (Habs : ∀ l, Forall plain_seg l → abs cwd (root (wmux ++ l)) = wmux ++ l).
  { intros l Hl. apply abs_root; [by destruct wmux|by apply Forall_app]. }
  rewrite Hc, Hdir, Hsock, Htok, Hd, Hpid. split_and!; [by apply abs_root|..]; apply Habs;
    repeat (constructor; [by apply Hx; vm_compute|]); constructor.
Qed.

(** The daemon that a client starts serves the socket of the client with a token
    that the client can load. *)
Lemma startDaemon_serves exe extra random (cfg : ClientConfig.config F) m :
  resolved cfg → m_server m = None → in_i64 (ClientConfig.maxScrollbackSize cfg) → plain_arg (F := F) exe →
  (∀ c : ClientConfig.config F, let c' := foldl (λ c o, o c) c extra in
    baseDir c' = baseDir c ∧ socket c' = socket c ∧ tokenPath c' = tokenPath c ∧
    ClientConfig.dataDir c' = ClientConfig.dataDir c) →
  apart cwd cfg → (∀ x, os_random o = Ok x → length x = TokenSize) →
  fst (startDaemon cwd J home tmp marshal_info o s (Ok exe) None extra random cfg m) = None →
  ∃ fs token, startDaemon cwd J home tmp marshal_info o s (Ok exe) None extra random cfg m =
      (None, mkMachine fs (Some (abs cwd (socket cfg), NewServer token ModeOpen))) ∧
    auth_LoadFromFile cwd fs (tokenPath cfg) = Ok token ∧ length token = TokenSize.
Proof.
  intros Hres Hno Hi64 Hexe Hextra Hapart Hr. unfold startDaemon. destruct (Files.MkdirAll (m_fs m) _) as [[[]|] fs1]; [|done].
  destruct (Files.MkdirAll fs1 _) as [[[]|] fs2]; [|done].
  destruct (auth_Ensure cwd random (tokenPath cfg) fs2) as [[t|] fs3]; [|done]. cbn [m_fs m_server]. unfold child.
  pose proof (daemon_config_args home tmp exe cfg extra Hres Hi64 Hexe) as Hdc. unfold daemon_config in Hdc.
  destruct (isDaemonMode _); [|done]. apply (inj Some) in Hdc. cbn [negb]. unfold client_NewDaemon. rewrite Hdc. clear Hdc.
  set (c0 := ClientConfig.mkConfig _ _ _ _ _ _ _ _ _ _ _ _ _ _).
  destruct (Hextra c0) as (Hb & Hsock & Htok & Hdata). set (c1' := foldl _ c0 extra) in *.
  destruct Hres as (R1 & R2 & R3 & R4).
  assert (Hs' : socket (resolveConfig home tmp c1') = socket cfg) by (cbn; rewrite Hsock; by apply or_else_id).
  assert (Ht' : tokenPath (resolveConfig home tmp c1') = tokenPath cfg) by (cbn; rewrite Htok; by apply or_else_id).
  assert (Hd' : ClientConfig.dataDir (resolveConfig home tmp c1') = ClientConfig.dataDir cfg)
    by (cbn; rewrite Hdata; by apply or_else_id).
  assert (Hap : apart cwd (resolveConfig home tmp c1')).
  { unfold apart, pid_file in *. by rewrite Hs', Ht', Hd'. }
  cbn [m_fs m_server].
  assert (Hfail : ∀ fs, bool_decide (is_Some (listening cwd (mkMachine fs (m_server m)) (socket cfg))) = false).
  { intros fs. unfold listening. cbn [m_server]. rewrite Hno. apply bool_decide_eq_false_2. by intros [? ?]. }
  destruct (Files.MkdirAll fs3 _) as [[[]|] fs5]; [|by rewrite Hfail].
  destruct (Files.MkdirAll fs5 _) as [[[]|] fs6]; [|by rewrite Hfail].
  destruct (Serve cwd marshal_info J o s _ fs6) as [[[token d]|] fs4] eqn:Hserve; [|by rewrite Hfail].
  rewrite Hs'. case_bool_decide as Hl; [|done]. intros _. exists fs4, token. split; [done|]. rewrite <- Ht'. by eapply Serve_token.
Qed.

(** C7: a client that finds no daemon, and whose program can be started as one,
    is connected to that daemon: the daemon reads from the arguments the socket
    and the token file of the client, its token is the one that the client
    loads, and the client is registered with both its connections.  The
    program's own options must not name paths, and the token file must not be a
    file that the daemon writes. *)
Theorem new_client_connects_to_its_daemon exe extra random stat_file self_uid self_pid creds now c1 c2 newid opts m :
  let cfg := resolveConfig home tmp (newConfig opts) : ClientConfig.config F in
  m_server m = None → autoStart cfg = true → in_i64 (ClientConfig.maxScrollbackSize cfg) → plain_arg (F := F) exe →
  (∀ c : ClientConfig.config F, let c' := foldl (λ c o, o c) c extra in
    baseDir c' = baseDir c ∧ socket c' = socket c ∧ tokenPath c' = tokenPath c ∧
    ClientConfig.dataDir c' = ClientConfig.dataDir c) →
  apart cwd cfg → (∀ x, os_random o = Ok x → length x = TokenSize) →
  (0 < length newid)%nat → Z.of_nat (length newid) < 256 →
  fst (startDaemon cwd J home tmp marshal_info o s (Ok exe) None extra random cfg m) = None →
  let (r, m') := New cwd J home tmp marshal_info o s (Ok exe) None extra random stat_file self_uid self_pid creds now
    c1 c2 newid opts m in
  r = Ok newid ∧
  ∃ srv ptr, m_server m' = Some (abs cwd (socket cfg), srv) ∧
    lookup_client srv newid = Some (ptr, mkClient newid (Some c1) (Some c2) creds now zero_time 0).
Proof.
  intros cfg Hno Hauto Hi64 Hexe Hextra Hapart Hr Hpos Hlen Hstart. unfold New. fold cfg.
  assert (Hres : resolved cfg) by apply resolveConfig_resolved.
  (** There is nothing to connect to. *)
  assert (Hc1 : ∃ e, connect_to cwd stat_file self_uid self_pid creds now c1 c2 newid cfg m = (Err e, m)).
  { unfold connect_to, listening. rewrite Hno. unfold connect. destruct (LoadFromFile _); by eexists. }
  destruct Hc1 as [e ->]. rewrite Hauto. cbn [negb].
  (** The daemon that is started serves the client's socket with the client's token. *)
  destruct (startDaemon_serves exe extra random cfg m) as (fs & token & -> & Hload & Htlen); [done..|].
  unfold connect_to, listening. cbn [m_server m_fs]. rewrite decide_True by done.
  rewrite (connect_served stat_file (λ _ _, None) self_uid self_pid creds now _ (NewServer token ModeOpen)) by done.
  split; [done|]. eexists _, 0%nat. split; [done|]. apply lookup_client_Some. cbn. by rewrite !lookup_insert_eq.
Qed.


(** The token file that the other commands read without flags. *)
Lemma default_token_file hs :
  hs ≠ [] → Forall plain_seg hs →
  abs cwd (expandHome (Ok (root hs)) default_token) = hs ++ [ #".wmux"; #"daemon.token"].
Proof.
  intros Hne Hs. unfold expandHome. change (has_prefix default_token #"~") with true. cbn iota.
  change (drop 1 default_token) with #"/.wmux/daemon.token".
  rewrite (join_root hs #"/.wmux/daemon.token" [ #".wmux"; #"daemon.token"]) by done.
  apply abs_root; [by destruct hs|]. apply Forall_app. split; [done|].
  repeat (constructor; [by apply (bool_decide_unpack _); vm_compute|]). constructor.
Qed.

(** Making the directories leaves the files and the directory of the token. *)
Lemma MkdirAll_unmade (wmux : path) fs k :
  k = [] ∨ k = [ #"sessions"] → unmade wmux fs (snd (Files.MkdirAll fs (wmux ++ k))).
Proof.
  intros Hk. assert (Hna : ∀ x l, x ≠ #"sessions" → wmux ++ x :: l ∉ ancestors (wmux ++ k)).
  { intros x l Hx. apply not_ancestor. intros [m Hm]. destruct Hk as [-> | ->]; [done|].
    injection Hm as Hm _. by destruct Hx. }
  split; [|intros x l Hx; by apply MkdirAll_frame, Hna]. by eapply MkdirAll_frame, (Hna #"x" []).
Qed.

(** A daemon with the files of [wmux daemon] without flags: it leaves the token
    file of the other commands, makes its own, and fails without the directory
    of it. *)
Lemma Serve_default (wmux : path) (cfg : ClientConfig.config F) fs :
  (∀ x, os_random o = Ok x → length x = TokenSize) →
  abs cwd (socket cfg) = wmux ++ [ #"daemon.sock"] →
  abs cwd (tokenPath cfg) = wmux ++ [ #"default"; #"daemon.token"] →
  abs cwd (ClientConfig.dataDir cfg) = wmux ++ [ #"sessions"] → abs cwd (pid_file cfg) = wmux ++ [ #"wmux.pid"] →
  let (r, fs') := Serve cwd marshal_info J o s cfg fs in
  ReadFile fs' (wmux ++ [ #"daemon.token"]) = ReadFile fs (wmux ++ [ #"daemon.token"]) ∧
  (∀ token d, r = Ok (token, d) → ReadFile fs' (wmux ++ [ #"default"; #"daemon.token"]) = Ok token) ∧
  (entries fs !! (wmux ++ [ #"default"]) = None → entries fs !! (wmux ++ [ #"default"; #"daemon.token"]) = None →
    ∃ e, r = Err e).
Proof.
  intros Hr Hsock Htok Hdata Hpid. pose proof (Serve_frame cwd J cfg marshal_info o s fs (wmux ++ [ #"daemon.token"])) as Hframe.
  destruct (Serve cwd marshal_info J o s cfg fs) as [r fs'] eqn:Hserve. cbn [snd] in Hframe. split_and!.
  - apply Hframe; rewrite ?Hsock, ?Htok, ?Hpid, ?Hdata; [intros Heq%(inj (app wmux)); done..|].
    intros n. rewrite <- app_assoc. intros Heq%(inj (app wmux)). done.
  - intros token d ->. apply Serve_token in Hserve as [Hl _]; [|split_and!; rewrite ?Hsock, ?Htok, ?Hpid, ?Hdata|done].
    + unfold auth_LoadFromFile, LoadFromFile in Hl. rewrite Htok in Hl.
      destruct (ReadFile fs' _); [|done]. case_bool_decide; [done|]. by injection Hl as ->.
    + intros Heq%(inj (app wmux)). done.
    + intros Heq%(inj (app wmux)). done.
    + intros n. rewrite <- app_assoc. intros Heq%(inj (app wmux)). done.
  - intros Hn1 Hn2. revert Hserve. unfold Serve.
    destruct (auth_Ensure_no_dir cwd (os_random o) (tokenPath cfg) fs) as (e & fs3 & ->); [by rewrite Htok| |].
    + rewrite Htok. replace (dir_of (wmux ++ [ #"default"; #"daemon.token"])) with (wmux ++ [ #"default"]); [done|].
      unfold dir_of. rewrite length_app. cbn [length].
      rewrite take_app_ge by lia. by replace (length wmux + 2 - 1 - length wmux)%nat with 1%nat by lia.
    + intros [= <- _]. by eexists.
Qed.

(** C24: [wmux daemon] without flags makes its token in [~/.wmux/default], a
    directory that it does not make; without that directory it ends with exit
    code 1.  The other commands without flags read [~/.wmux/daemon.token], which
    it never writes: on a machine that has no such file none of them reaches the
    daemon, whether it serves or not. *)
Theorem cli_daemon_and_commands_share_no_token load hs fs :
  hs ≠ [] → Forall plain_seg hs → (∀ x, os_random o = Ok x → length x = TokenSize) →
  let wmux := hs ++ [ #".wmux"] in
  let '(out, running, fs') :=
    cmdDaemon cwd marshal_info (F := F) J (Ok (root hs)) tmp load o s default_socket [] fs in
  (entries fs !! (wmux ++ [ #"default"]) = None → entries fs !! (wmux ++ [ #"default"; #"daemon.token"]) = None →
    code out = Some 1 ∧ running = None) ∧
  (∀ token d, running = Some (token, d) → ReadFile fs' (wmux ++ [ #"default"; #"daemon.token"]) = Ok token) ∧
  let theirs := ReadFile fs' (abs cwd (expandHome (Ok (root hs)) default_token)) in
  theirs = ReadFile fs (wmux ++ [ #"daemon.token"]) ∧
  (theirs = Err Files.ErrNotExist →
    ∀ X dial (say : hello X) x, ∃ e, dialDaemon theirs dial say x = (Err (EWrap #"read token" e), x)).
Proof.
  intros Hne Hs Hr wmux. unfold cmdDaemon. cbn [daemon_flags]. set (sock := expandHome _ default_socket).
  rewrite default_token_file by done. change (hs ++ [ #".wmux"; #"daemon.token"]) with (hs ++ [ #".wmux"] ++ [ #"daemon.token"]).
  rewrite app_assoc. fold wmux. assert (Hlast : ∀ (f : FS) X dial (say : hello X) x,
    ReadFile f (wmux ++ [ #"daemon.token"]) = Err Files.ErrNotExist →
    ∃ e, dialDaemon (ReadFile f (wmux ++ [ #"daemon.token"])) dial say x = (Err (EWrap #"read token" e), x)).
  { intros f X dial say x ->. by eexists. }
  destruct (match stat fs _ with None => _ | Some _ => _ end) as [c|e]; [|by split_and!; eauto].
  destruct (History.ParseSize _) as [max|e]; [|by split_and!; eauto].
  set (opts := [WithSocket _; _]).
  pose proof (default_daemon_config hs opts (Config.hc_ColdRestore (Config.cfg_History c)) max Hne Hs eq_refl) as Hcfg.
  unfold client_NewDaemon. cbv zeta in Hcfg. set (cfg := resolveConfig _ tmp _) in *.
  destruct Hcfg as (Hdir & Hsock & Htok & Hdata & Hpid). rewrite Hdir, Hdata. fold wmux in Hsock, Htok, Hdata, Hpid |- *.
  pose proof (MkdirAll_unmade wmux fs [] (or_introl eq_refl)) as Hmk1. rewrite app_nil_r in Hmk1.
  destruct (Files.MkdirAll fs wmux) as [[[]|e] fs1]; cbn [snd] in Hmk1.
  2: { split_and!; [done|done|by apply (unmade_reads wmux fs fs1)|intros; by apply Hlast]. }
  pose proof (MkdirAll_unmade wmux fs1 _ (or_intror eq_refl)) as Hmk2.
  destruct (Files.MkdirAll fs1 _) as [[[]|e] fs2]; cbn [snd] in Hmk2; pose proof (unmade_trans _ _ _ _ Hmk1 Hmk2) as Hmk3.
  2: { split_and!; [done|done|by apply (unmade_reads wmux fs fs2)|intros; by apply Hlast]. }
  pose proof (Serve_default wmux cfg fs2 Hr Hsock Htok Hdata Hpid) as Hserve.
  rewrite !(proj2 Hmk3), (unmade_reads wmux fs fs2) in Hserve by done.
  destruct (Serve cwd marshal_info J o s cfg fs2) as [[[token d]|e] fs3]; destruct Hserve as (Hframe & Htoken & Hnone).
  - split_and!; [|by intros ? ? [= <- <-]; eapply Htoken|done|intros; by apply Hlast].
    intros H1 H2. by destruct (Hnone H1 H2).
  - split_and!; [done|done|done|intros; by apply Hlast].
Qed.
End Theorems.

(** ** Witnesses *)

Section Witnesses.

Definition example_token : bytes := replicate TokenSize "t"%byte.

Definition example_os : os := mkOs (Ok example_token) None None (mkEnvConfig false [] 0 50 7) 77 5.

Definition example_info (i : Info) : result bytes := Ok (itoa (info_PID i)).

Definition example_none : example_backend := (example_empty, []).

Definition example_creds : PeerCredentials := mkCreds 0 7.

Lemma new_client_connects_to_its_daemon_witness :
  let cfg := resolveConfig (Ok #"/h") #"/tmp" (newConfig [WithNamespace #"work"]) : ClientConfig.config unit in
  socket cfg = #"/h/.wmux/work/daemon.sock" ∧
  fst (New [] example_json (Ok #"/h") #"/tmp" example_info example_os example_none (Ok #"/bin/app") None [] (Ok example_token)
    (λ _, None) 0 1 example_creds 5 3 4 #"c1" ([WithNamespace #"work"] : list (Option_ unit)) (mkMachine (mkFS ∅ ∅) None)) = Ok #"c1".
Proof.
  cbv zeta. split; [vm_compute; reflexivity|].
  pose proof (new_client_connects_to_its_daemon [] (F := unit) example_json (Ok #"/h") #"/tmp" example_info example_os
    example_none #"/bin/app" [] (Ok example_token) (λ _, None) 0 1 example_creds 5 3 4 #"c1"
    [WithNamespace #"work"] (mkMachine (mkFS ∅ ∅) None)) as H. cbv zeta in H.
  destruct (New _ _ _ _ _ _ _ _ _ _ _ _ _ _ _ _ _ _ _ _ _) as [r m'].
  apply H; clear H; [done|vm_compute; reflexivity|split; vm_compute; discriminate| |done| | |vm_compute; lia|vm_compute; done|].
  - split; [vm_compute; discriminate|]. intros v. vm_compute. reflexivity.
  - split_and!; [vm_compute; discriminate..|]. intros n. vm_compute. discriminate.
  - intros x [= <-]. vm_compute. reflexivity.
  - vm_compute. reflexivity.
Defined.

(** The home directory [/h] has nothing in it. *)
Lemma cli_daemon_and_commands_share_no_token_witness :
  let '(out, running, fs') := cmdDaemon [] example_info (F := unit) example_json (Ok (root [ #"h"])) #"/tmp"
    (Config.Load (λ _, Ok tt) (λ _ c, Ok c)) example_os example_none default_socket [] (mkFS {[ [ #"h"] := EDir ]} ∅) in
  code out = Some 1 ∧ ReadFile fs' [ #"h"; #".wmux"; #"daemon.token"] = Err Files.ErrNotExist.
Proof.
  pose proof (cli_daemon_and_commands_share_no_token [] (F := unit) example_json #"/tmp" example_info example_os
    example_none (Config.Load (λ _, Ok tt) (λ _ c, Ok c)) [ #"h"] (mkFS {[ [ #"h"] := EDir ]} ∅) ltac:(done)) as H.
  assert (Hp : Forall plain_seg [ #"h"]) by (constructor; [apply (bool_decide_unpack _); by vm_compute|constructor]).
  specialize (H Hp ltac:(intros x [= <-]; vm_compute; reflexivity)). cbv zeta in H.
  destruct (cmdDaemon _ _ _ _ _ _ _ _ _ _ _) as [[out running] fs'].
  destruct H as (H1 & _ & H2 & _). split; [apply H1; vm_compute; reflexivity|].
  transitivity (ReadFile (mkFS {[ [ #"h"] := EDir ]} ∅) ([ #"h"] ++ [ #".wmux"] ++ [ #"daemon.token"])); [|vm_compute; reflexivity].
  etransitivity; [|etransitivity; [exact H2|]]; [|done]. f_equal.
Defined.
End Witnesses.
