(* ===== verification/Discovery.v ===== *)
(** * Finding a daemon: [internal/daemon/autodaemon.go]

    No code of the repository calls it. *)

From S2P Require Import Prelude GoStrings Files Debug Paths ClientConfig Cli Startup.

#[local] Open Scope Z_scope.

Definition ErrDaemonNotRunning : error := ENew #"daemon: not running".

(** [polls] are the results of looking for the file, at every poll that begins
    before the deadline. *)
Fixpoint WaitForSocket (polls : list bool) : option error :=
  match polls with
  | [] => Some ErrDaemonNotRunning
  | true :: _ => None
  | false :: polls => WaitForSocket polls
  end.

Definition BuildDaemonArgs (socketPath pidFilePath logLevel : bytes) : list bytes :=
  [ #"daemon"; #"--socket"; socketPath; #"--pid-file"; pidFilePath; #"--log-level"; logLevel].

(** What is executed, and the error.  [timeout] is the text of the time-out. *)
Definition Autodaemonize (executable : result bytes) (start : bytes → list bytes → option error) (release : option error)
    (polls : list bool) (timeout : bytes) (socketPath pidFilePath logLevel : bytes) : list (list bytes) * option error :=
  match executable with
  | Err e => ([], Some (EWrap #"daemon: find executable" e))
  | Ok exe =>
      let args := BuildDaemonArgs socketPath pidFilePath logLevel in
      match start exe args with
      | Some e => ([exe :: args], Some (EWrap #"daemon: start background process" e))
      | None =>
          match release with
          | Some e => ([exe :: args], Some (EWrap #"daemon: release process" e))
          | None => ([exe :: args], EWrap (#"daemon: socket not ready after " ++ timeout) <$> WaitForSocket polls)
          end
      end
  end.

Lemma WaitForSocket_None polls : WaitForSocket polls = None ↔ true ∈ polls.
Proof. induction polls as [|[] polls IH]; cbn; [set_solver|set_solver|]. rewrite IH. set_solver. Qed.

(** It succeeds exactly when the program could be started and the socket was
    seen in time; it starts the program at most once. *)
Theorem Autodaemonize_correct executable start release polls timeout s p l :
  let '(runs, e) := Autodaemonize executable start release polls timeout s p l in
  (e = None ↔ ∃ exe, executable = Ok exe ∧ start exe (BuildDaemonArgs s p l) = None ∧ release = None ∧ true ∈ polls) ∧
  (length runs <= 1)%nat.
Proof.
  unfold Autodaemonize. destruct executable as [exe|x]; [|split; [split; [done|by intros (? & ? & _)]|cbn; lia]].
  destruct (start exe _) as [x|] eqn:Hs; [split; [split; [done|intros (? & [= <-] & Hn & _); congruence]|cbn; lia]|].
  destruct release as [x|]; [split; [split; [done|by intros (? & _ & _ & ? & _)]|cbn; lia]|].
  split; [|cbn; lia]. rewrite fmap_None, WaitForSocket_None. naive_solver.
Qed.

Section Arguments.

Context {F : Type} (home : result bytes).

(** The daemon command takes the socket from these arguments, and ignores the
    pid file and the log level that come with it. *)
Theorem daemon_ignores_the_pid_file s p l sock (opts : list (ClientConfig.Option_ F)) :
  p ≠ #"--socket" → p ≠ #"--data-dir" → p ≠ #"--log-level" →
  daemon_flags home (drop 1 (BuildDaemonArgs s p l)) sock opts =
    (expandHome home s,
     opts ++ [WithSocket (expandHome home s); WithDataDir (filepath_join [filepath_dir (expandHome home s); #"sessions"])]).
Proof.
  intros H1 H2 H3. unfold BuildDaemonArgs. cbn [drop daemon_flags].
  rewrite decide_True by done. do 3 rewrite decide_False by done. do 3 rewrite (decide_False (P := p = _)) by done.
  by rewrite decide_False, decide_False, decide_True by done.
Qed.
End Arguments.
