(* ===== verification/Hosts.v ===== *)
(** * Daemons on one machine: the listener's life, and the end of [Serve]

    The listener of [internal/platform/ipc/listener.go] is closed when the
    context of [Serve] of [internal/transport/service.go] is done; [Start] of
    [internal/daemon/service.go] then removes the pid file.  Here several daemon
    processes share a file system: a socket is reached through its file, and it
    is the process that bound the file last that answers there. *)

From S2P Require Import Prelude Files GoStrings SessionValues Debug Paths ClientConfig Protocol SessionManager DaemonTypes Daemon DaemonExample DaemonHistory ClientCalls ClientConnect Transport Cli Config ClientRestore Startup.
From S2P Require History.

(** ** The listener *)

Section Listener.

Context (cwd : path).

(** [unlink] of a path. *)
Definition Unlink (fs : FS) (p : path) : FS :=
  match entries fs !! p with
  | Some (EFile _) => snd (Remove fs p)
  | _ => fs
  end.

(** [Listener.Close]: closing a [UnixListener] unlinks its path and then closes
    the socket, with the error [close]; the path is then removed once more. *)
Definition listener_Close (close : option error) (p : bytes) (fs : FS) : option error * FS :=
  let fs := Unlink fs (abs cwd p) in
  match close with
  | Some e => (Some (EWrap #"ipc: close listener" e), fs)
  | None => (None, snd (Remove fs (abs cwd p)))
  end.

Definition Accept {A} (accept : result A) : result A := wrap_err #"ipc: accept" accept.
End Listener.

(** ** The machine *)

(** A process that serves: its configuration and its token. *)
Record process (F : Type) := mkProcess { p_cfg : ClientConfig.config F; p_token : bytes }.
Arguments mkProcess {F}.
Arguments p_cfg {F}.
Arguments p_token {F}.

(** The file system, the processes that serve, and which of them bound the
    socket whose file is at a path. *)
Record host (F : Type) := mkHost { h_fs : FS; running : gmap nat (process F); bound : gmap path nat }.
Arguments mkHost {F}.
Arguments h_fs {F}.
Arguments running {F}.
Arguments bound {F}.

Section Hosts.

Context (cwd : path) {F S : Type} `{SM : SessionManager S} (J : Json) (marshal_info : Info → result bytes).

Inductive hlabel := Starts (i : nat) | Ends (i : nat).

(** A process starts to serve, or its context is done: the listener is closed,
    [Accept] fails, the histories are closed and the pid file is removed. *)
Inductive hstep : host F → hlabel → host F → Prop :=
  | hs_start h i cfg o (s : S) token d fs :
      running h !! i = None → Serve cwd marshal_info J o s cfg (h_fs h) = (Ok (token, d), fs) →
      hstep h (Starts i) (mkHost fs (<[i := mkProcess cfg token]> (running h)) (<[abs cwd (socket cfg) := i]> (bound h)))
  | hs_end h i p now close err (d : Daemon S) :
      running h !! i = Some p → unsaved d → disk d = snd (listener_Close cwd close (socket (p_cfg p)) (h_fs h)) →
      hstep h (Ends i) (mkHost (snd (Serve_ends cwd J now (p_cfg p) err d)) (delete i (running h))
        (delete (abs cwd (socket (p_cfg p))) (bound h))).

(** The process that a connection to a path gets to. *)
Definition reaches (h : host F) (p : bytes) : option nat :=
  match ReadFile (h_fs h) (abs cwd p) with
  | Ok _ => i ← bound h !! abs cwd p; _ ← running h !! i; Some i
  | Err _ => None
  end.

(** ** Lemmas *)

Lemma Unlink_frame fs p q : q ≠ p → entries (Unlink fs p) !! q = entries fs !! q ∧ locked (Unlink fs p) = locked fs.
Proof using Type.
  intros Hq. unfold Unlink. destruct (entries fs !! p) as [[|data]|]; [done| |done]. by apply Remove_frame.
Qed.

Lemma listener_Close_gone close p fs :
  (abs cwd p ∉ locked fs) → (∀ e, ReadFile fs (abs cwd p) = Err e → e = Files.ErrNotExist) →
  ReadFile (snd (listener_Close cwd close p fs)) (abs cwd p) = Err Files.ErrNotExist.
Proof using Type.
  intros Hl Hr. set (q := abs cwd p) in *.
  assert (Hu : entries (Unlink fs q) !! q = None ∧ locked (Unlink fs q) = locked fs).
  { unfold Unlink, Remove. unfold ReadFile in Hr. rewrite decide_False in Hr by done.
    destruct (entries fs !! q) as [[|data]|] eqn:He; [specialize (Hr _ eq_refl); by vm_compute in Hr| |done].
    rewrite decide_False by done. cbn. split; [apply lookup_delete_eq|done]. }
  destruct Hu as [Hn Hk]. assert (Hg : ReadFile (Unlink fs q) q = Err Files.ErrNotExist).
  { unfold ReadFile. by rewrite Hk, decide_False, Hn. }
  unfold listener_Close. fold q. destruct close; [done|]. cbn [snd]. unfold Remove. rewrite Hn. by case_decide.
Qed.

Lemma ReadFile_file fs q data : ReadFile fs q = Ok data ↔ (q ∉ locked fs) ∧ entries fs !! q = Some (EFile data).
Proof using Type.
  unfold ReadFile. case_decide as Hl; [naive_solver|]. destruct (entries fs !! q) as [[|d]|]; naive_solver.
Qed.

Lemma ReadFile_dir fs q : ReadFile fs q = Err ErrIsDir → (q ∉ locked fs) ∧ entries fs !! q = Some EDir.
Proof using Type.
  unfold ReadFile. case_decide as Hl; [intros H; by vm_compute in H|].
  destruct (entries fs !! q) as [[|d]|]; [done|done|intros H; by vm_compute in H].
Qed.

(** Listening at a socket where somebody listens already. *)
Lemma Listen_again p fs data :
  ReadFile fs (abs cwd p) = Ok data → ReadFile fs (dir_of (abs cwd p)) = Err ErrIsDir →
  ∃ fs', Listen cwd None p fs = (None, fs') ∧ ReadFile fs' (abs cwd p) = Ok [].
Proof using Type.
  intros [Hl He]%ReadFile_file [Hl2 He2]%ReadFile_dir. assert (Hne : dir_of (abs cwd p) ≠ abs cwd p) by congruence.
  unfold Listen, stat. rewrite decide_False, He, decide_False by done.
  unfold Remove. rewrite decide_False, He by done. unfold WriteFile. cbn [locked set_entries entries].
  rewrite decide_False, lookup_delete_eq, lookup_delete_ne, He2, decide_True by done. eexists. split; [done|].
  apply ReadFile_file. cbn. by rewrite lookup_insert_eq.
Qed.

Lemma WritePIDFile_again p info fs data :
  ReadFile fs (abs cwd p) = Ok data → (∃ x, marshal_info info = Ok x) → ∃ fs', WritePIDFile cwd marshal_info p info fs = (None, fs').
Proof using Type.
  intros [Hl He]%ReadFile_file [x Hx]. unfold WritePIDFile, WriteFile. rewrite Hx, decide_False, He by done. by eexists.
Qed.

Lemma Listen_file bind p fs fs' : Listen cwd bind p fs = (None, fs') → ReadFile fs' (abs cwd p) = Ok [].
Proof using Type.
  unfold Listen. destruct (match stat _ _ with None => _ | Some _ => _ end) as [[[]|] fs1]; [|by destruct bind].
  destruct bind; [done|]. destruct (WriteFile fs1 _ []) as [[[]|] fs2] eqn:Hw; [|done]. intros [= <-].
  by apply WriteFile_reads in Hw as [? _].
Qed.

Lemma WritePIDFile_file p info fs fs' :
  WritePIDFile cwd marshal_info p info fs = (None, fs') → ∃ data, ReadFile fs' (abs cwd p) = Ok data.
Proof using Type.
  unfold WritePIDFile. destruct (marshal_info info) as [data|]; [|done].
  destruct (WriteFile fs _ data) as [[[]|] fs2] eqn:Hw; [|done]. intros [= <-].
  apply WriteFile_reads in Hw as [? _]. by exists data.
Qed.

(** The socket, the pid file and the token file of a daemon are different, and
    none of them, nor the directory of the socket, is the metadata of a session
    directly in its data directory. *)
Definition well_placed (cfg : ClientConfig.config F) : Prop :=
  let sock := abs cwd (socket cfg) in let pid := abs cwd (pid_file cfg) in let token := abs cwd (tokenPath cfg) in
  sock ≠ pid ∧ token ≠ sock ∧ token ≠ pid ∧ (dir_of sock ∉ [sock; pid; token]) ∧
  ∀ q n, q ∈ [sock; pid; token; dir_of sock] → q ≠ abs cwd (ClientConfig.dataDir cfg) ++ [n; History.metaFileName].

(** Where a daemon that has started has put things. *)
Lemma Serve_made (cfg : ClientConfig.config F) o (s : S) fs token d fs' :
  well_placed cfg → Serve cwd marshal_info J o s cfg fs = (Ok (token, d), fs') →
  ReadFile fs' (abs cwd (socket cfg)) = Ok [] ∧ (∃ data, ReadFile fs' (abs cwd (pid_file cfg)) = Ok data) ∧
  ReadFile fs' (dir_of (abs cwd (socket cfg))) = ReadFile fs (dir_of (abs cwd (socket cfg))).
Proof.
  intros (Hsp & Hts & Htp & Hd & Hm) Hserve. rewrite !not_elem_of_cons in Hd. destruct Hd as (Hds & Hdp & Hdt & _).
  assert (Hdir : ReadFile (snd (Serve cwd marshal_info J o s cfg fs)) (dir_of (abs cwd (socket cfg))) =
    ReadFile fs (dir_of (abs cwd (socket cfg)))).
  { apply Serve_frame; [done..|]. intros n. apply Hm. set_solver. }
  rewrite Hserve in Hdir. cbn [snd] in Hdir. split_and!; [..|exact Hdir]; clear Hdir; revert Hserve; unfold Serve;
    (destruct (auth_Ensure cwd _ _ fs) as [[t|] fs1]; [|done]);
    (destruct (Listen cwd _ _ fs1) as [[e|] fs2] eqn:Hl; [done|]);
    (destruct (if Enabled _ then _ else _); [done|]);
    pose proof (WritePIDFile_frame cwd marshal_info (pid_file cfg) (mkInfo (os_pid o) #"0.1.0" (os_now o)) fs2 _ Hsp) as Hf;
    (destruct (WritePIDFile cwd _ _ _ fs2) as [[e|] fs3] eqn:Hp; [done|]); cbn zeta;
    set (d0 := client_Serve _ _ _ s fs3); intros [= <- _ <-].
  - rewrite (Start_frame J (os_now o) d0 _ _ eq_refl) by (intros n; apply Hm; set_solver). change (disk d0) with fs3.
    cbn [snd] in Hf. rewrite Hf. by apply Listen_file in Hl.
  - rewrite (Start_frame J (os_now o) d0 _ _ eq_refl) by (intros n; apply Hm; set_solver). change (disk d0) with fs3.
    by apply WritePIDFile_file in Hp.
Qed.

(** The end of a process, on a machine whose socket and pid file are files. *)
Lemma ending_removes h i p h' sock pid :
  running h !! i = Some p → abs cwd (socket (p_cfg p)) = sock → abs cwd (pid_file (p_cfg p)) = pid → sock ≠ pid →
  (∃ data, ReadFile (h_fs h) sock = Ok data) → (∃ data, ReadFile (h_fs h) pid = Ok data) → hstep h (Ends i) h' →
  running h' = delete i (running h) ∧ ReadFile (h_fs h') sock = Err Files.ErrNotExist ∧
  ReadFile (h_fs h') pid = Err Files.ErrNotExist.
Proof.
  intros Hp Hsock Hpid Hne [x Hs] [y Hy] Hstep. inversion Hstep as [|? ? p' now close err d Hp' Hu Hd]; subst.
  assert (p' = p) as -> by congruence. cbn [running h_fs]. split; [done|].
  set (sock := abs cwd (socket (p_cfg p))) in *. set (pid := abs cwd (pid_file (p_cfg p))) in *.
  pose proof (listener_Close_gone close (socket (p_cfg p)) (h_fs h)) as Hgone. fold sock in Hgone.
  assert (Hframe : ReadFile (disk d) pid = ReadFile (h_fs h) pid).
  { rewrite Hd. unfold listener_Close. fold sock. destruct (Unlink_frame (h_fs h) sock pid) as [He Hl]; [done|].
    destruct close; cbn [snd]; [by apply ReadFile_same|].
    destruct (Remove_frame (Unlink (h_fs h) sock) sock pid) as [He2 Hl2]; [done|]. apply ReadFile_same; congruence. }
  rewrite <- Hframe in Hy. apply ReadFile_file in Hy as [Hl He]. apply ReadFile_file in Hs as Hs'. destruct Hs' as [Hls _].
  rewrite <- Hd in Hgone. unfold Serve_ends, RemovePIDFile. cbn [snd]. rewrite (serve_ended_unsaved J now d Hu). fold pid.
  unfold Remove. rewrite decide_False, He by done. cbn [snd]. split.
  - rewrite <- Hgone; [|done|intros e Herr; congruence]. apply ReadFile_same; [|done]. cbn. by rewrite lookup_delete_ne.
  - unfold ReadFile. cbn. by rewrite decide_False, lookup_delete_eq.
Qed.

Lemma well_placed_apart cfg : well_placed cfg → apart cwd cfg.
Proof using Type. intros (_ & Hts & Htp & _ & Hm). split_and!; [done..|]. intros n. apply Hm. set_solver. Qed.

(** With the token of the first one, a second daemon starts. *)
Lemma Serve_again cfg o (s : S) fs token pid :
  well_placed cfg → auth_LoadFromFile cwd fs (tokenPath cfg) = Ok token → ReadFile fs (abs cwd (socket cfg)) = Ok [] →
  ReadFile fs (abs cwd (pid_file cfg)) = Ok pid → ReadFile fs (dir_of (abs cwd (socket cfg))) = Err ErrIsDir →
  os_bind o = None → os_tracer o = None → (∀ info, ∃ x, marshal_info info = Ok x) →
  ∃ d fs', Serve cwd marshal_info J o s cfg fs = (Ok (token, d), fs').
Proof.
  intros (Hsp & _) Hl Hs Hp Hd Hb Ht Hm. unfold Serve, auth_Ensure. rewrite Hl, Hb, Ht.
  destruct (Listen_again (socket cfg) fs [] Hs Hd) as (fs1 & Hlisten & _).
  pose proof (Listen_frame cwd None (socket cfg) fs (abs cwd (pid_file cfg)) (not_eq_sym Hsp)) as Hf.
  rewrite Hlisten in Hf |- *. cbn [snd] in Hf. rewrite Hp in Hf.
  destruct (Enabled _); destruct (WritePIDFile_again (pid_file cfg) (mkInfo (os_pid o) #"0.1.0" (os_now o)) fs1 pid Hf (Hm _))
    as (fs2 & ->); by eexists _, _.
Qed.

(** ** Theorem *)

(** C8: nothing keeps a second daemon from starting where one serves already.
    The check that its error [ErrDaemonRunning] is for is never made, and the
    listener takes the socket's file for a stale one: the second daemon gets the
    socket, the pid file and the same token, and the first serves on with its
    sessions where nobody reaches it.  When the first one ends it removes what
    are now the second one's socket and pid file, and then nobody reaches either. *)
Theorem second_daemon_takes_the_socket h i cfg o (s : S) token d fs j o2 (s2 : S) :
  well_placed cfg → ReadFile (h_fs h) (dir_of (abs cwd (socket cfg))) = Err ErrIsDir →
  (∀ x, os_random o = Ok x → length x = TokenSize) → running h !! i = None →
  Serve cwd marshal_info J o s cfg (h_fs h) = (Ok (token, d), fs) →
  i ≠ j → running h !! j = None → os_bind o2 = None → os_tracer o2 = None → (∀ info, ∃ x, marshal_info info = Ok x) →
  ∃ h1, hstep h (Starts i) h1 ∧ reaches h1 (socket cfg) = Some i ∧
  (∃ h2, hstep h1 (Starts j) h2 ∧ running h2 !! j = Some (mkProcess cfg token)) ∧
  ∀ h2 token2, hstep h1 (Starts j) h2 → running h2 !! j = Some (mkProcess cfg token2) →
    token2 = token ∧ running h2 !! i = Some (mkProcess cfg token) ∧ reaches h2 (socket cfg) = Some j ∧
    ∀ h3, hstep h2 (Ends i) h3 →
      running h3 !! j = Some (mkProcess cfg token) ∧ reaches h3 (socket cfg) = None ∧
      ReadFile (h_fs h3) (abs cwd (socket cfg)) = Err Files.ErrNotExist ∧
      ReadFile (h_fs h3) (abs cwd (pid_file cfg)) = Err Files.ErrNotExist.
Proof.
  intros Hw Hdir Hr Hi Hserve Hij Hj Hb Ht Hm. eexists. split; [by eapply hs_start|].
  destruct (Serve_made cfg o s _ _ _ _ Hw Hserve) as (Hsock & [data Hpid] & Hd). rewrite Hdir in Hd.
  destruct (Serve_token cwd J cfg marshal_info o s _ _ _ _ (well_placed_apart _ Hw) Hr Hserve) as [Hl _]. split_and!.
  - unfold reaches. cbn. rewrite Hsock, lookup_insert_eq. cbn. by rewrite lookup_insert_eq.
  - destruct (Serve_again cfg o2 s2 fs token data Hw Hl Hsock Hpid Hd Hb Ht Hm) as (d2 & fs2 & Hs2).
    eexists. split; [eapply hs_start; [|exact Hs2]; cbn; by rewrite lookup_insert_ne|]. cbn. by rewrite lookup_insert_eq.
  - intros h2 token2 Hstep Hrun. inversion Hstep as [? ? cfg' o' s' token' d' fs' Hn Hserve'|]; subst.
    cbn in Hrun. rewrite lookup_insert_eq in Hrun. injection Hrun as -> ->.
    destruct (Serve_made cfg o' s' _ _ _ _ Hw Hserve') as (Hsock2 & Hpid2 & Hd2). cbn [h_fs] in Hserve'.
    assert (token2 = token) as ->.
    { unfold Serve, auth_Ensure in Hserve'. rewrite Hl in Hserve'. repeat case_match; simplify_eq; done. }
    split_and!; [done| | |].
    + cbn. by rewrite lookup_insert_ne, lookup_insert_eq.
    + unfold reaches. cbn. rewrite Hsock2, lookup_insert_eq. cbn. by rewrite lookup_insert_eq.
    + intros h3 Hend. eapply ending_removes in Hend as (Hrun3 & Hs3 & Hp3);
        [|cbn; rewrite lookup_insert_ne by done; apply lookup_insert_eq|done|done|apply Hw|by exists []|done].
      cbn [p_cfg] in Hs3, Hp3. split_and!; [|unfold reaches; by rewrite Hs3|done|done]. rewrite Hrun3. cbn. by rewrite lookup_delete_ne, lookup_insert_eq.
Qed.
End Hosts.

(** ** Witness *)

Section Witness.

#[local] Abbreviation cfg := (resolveConfig (Ok #"/h") #"/tmp" (newConfig [WithNamespace #"work"]) : ClientConfig.config unit) (only parsing).

Definition example_host : host unit :=
  mkHost (mkFS (list_to_map [([ #"h"], EDir); ([ #"h"; #".wmux"], EDir); ([ #"h"; #".wmux"; #"work"], EDir);
    ([ #"h"; #".wmux"; #"work"; #"sessions"], EDir)]) ∅) ∅ ∅.

Lemma second_daemon_takes_the_socket_witness :
  socket cfg = #"/h/.wmux/work/daemon.sock" ∧
  ∃ h1, hstep [] example_json example_info (S := example_backend) example_host (Starts 1) h1 ∧
    reaches [] h1 (socket cfg) = Some 1 ∧
    ∃ h2, hstep [] example_json example_info (S := example_backend) h1 (Starts 2) h2 ∧ reaches [] h2 (socket cfg) = Some 2 ∧
    ∀ h3, hstep [] example_json example_info (S := example_backend) h2 (Ends 1) h3 → reaches [] h3 (socket cfg) = None.
Proof.
  split; [vm_compute; reflexivity|].
  destruct (Serve [] example_info example_json example_os example_none cfg (h_fs example_host)) as [r fs] eqn:Hs.
  assert (Hr : is_Some (match r with Ok td => Some td | Err _ => None end)).
  { apply (f_equal (λ x, match fst x with Ok td => true | Err _ => false end)) in Hs. vm_compute in Hs.
    destruct r; [by eexists|done]. }
  destruct r as [[token d]|]; [|by destruct Hr].
  destruct (second_daemon_takes_the_socket [] example_json example_info example_host 1 cfg example_os example_none token d fs
    2 example_os example_none) as (h1 & Hh1 & Hr1 & (h2 & Hh2 & Hrun) & Hall).
  - split_and!; [vm_compute; discriminate..| |].
    + apply (bool_decide_unpack _). vm_compute. exact I.
    + intros q n Hq. rewrite !elem_of_cons, elem_of_nil in Hq. destruct_or! Hq; subst q; vm_compute; done.
  - vm_compute. reflexivity.
  - intros x [= <-]. vm_compute. reflexivity.
  - done.
  - exact Hs.
  - done.
  - done.
  - done.
  - done.
  - intros info. by eexists.
  - exists h1. split; [exact Hh1|]. split; [exact Hr1|]. exists h2. split; [exact Hh2|].
    destruct (Hall h2 token Hh2 Hrun) as (_ & _ & Hr2 & Hend). split; [exact Hr2|].
    intros h3 Hh3. apply (Hend h3 Hh3).
Defined.
End Witness.
