(* ===== verification/Tmux.v ===== *)
(** * The tmux shim: [cmd/wmux-tmux/main.go]

    Each command parses its arguments, connects a client and makes one call of
    the client library, or two.  A command is a computation over the state
    behind the client, and ends with an exit code and what it has printed. *)

From S2P Require CmdLifecycle.
From S2P Require Import Prelude Files GoStrings SessionValues Protocol Payload SessionManager DaemonTypes Daemon DaemonExample DaemonLemmas DaemonClients DaemonReplies ClientHistory ClientCalls ClientExample ClientDaemon.

#[local] Open Scope Z_scope.

(** ** Keys *)

(** [strings.NewReplacer]: from the left, without overlaps, the first pair in
    the order of the arguments whose old text is there. *)
Fixpoint replace_loop (fuel : nat) (pairs : list (bytes * bytes)) (s : bytes) : bytes :=
  match fuel, s with
  | S fuel, x :: s' =>
      match list_find (λ p, has_prefix s (fst p) = true) pairs with
      | Some (_, (old, new)) => new ++ replace_loop fuel pairs (drop (length old) s)
      | None => x :: replace_loop fuel pairs s'
      end
  | _, _ => []
  end.

Definition key_names : list (bytes * bytes) := [
  (#"Enter", [x0a]);
  (#"C-c", [x03]);
  (#"C-d", [x04]);
  (#"C-z", [x1a]);
  (#"C-l", [x0c]);
  (#"Escape", [x1b]);
  (#"Tab", [x09]);
  (#"Space", #" ");
  (#"BSpace", [x7f])].

(** Every round takes a byte at least. *)
Definition translateKeys (keys : bytes) : bytes := replace_loop (length keys) key_names keys.

(** ** Flags *)

(** The name, the columns and the rows; [None] when [-s] has no value.  A size
    that is no number is left as it was. *)
Fixpoint new_session_flags (args : list bytes) (name : bytes) (cols rows : Z) : option (bytes * Z * Z) :=
  match args with
  | [] => Some (name, cols, rows)
  | a :: rest =>
      if decide (a = #"-s") then
        match rest with
        | v :: rest' => new_session_flags rest' v cols rows
        | [] => None
        end
      else if decide (a = #"-x") then
        match rest with
        | v :: rest' =>
            new_session_flags rest' name (match atoi v with (n, None) => n | (_, Some _) => cols end) rows
        | [] => Some (name, cols, rows)
        end
      else if decide (a = #"-y") then
        match rest with
        | v :: rest' =>
            new_session_flags rest' name cols (match atoi v with (n, None) => n | (_, Some _) => rows end)
        | [] => Some (name, cols, rows)
        end
      else new_session_flags rest name cols rows
  end.

(** Targets before the keys; the last one counts. *)
Fixpoint send_keys_flags (args : list bytes) (target : bytes) : bytes * list bytes :=
  match args with
  | a :: v :: rest => if decide (a = #"-t") then send_keys_flags rest v else (target, args)
  | _ => (target, args)
  end.

(** The last target among all arguments. *)
Fixpoint target_flag (args : list bytes) (target : bytes) : bytes :=
  match args with
  | a :: rest =>
      match rest with
      | v :: rest' => if decide (a = #"-t") then target_flag rest' v else target_flag rest target
      | [] => target
      end
  | [] => target
  end.

Fixpoint capture_flags (args : list bytes) (target : bytes) (print : bool) : bytes * bool :=
  match args with
  | a :: rest =>
      if decide (a = #"-p") then capture_flags rest target true
      else if decide (a = #"-t") then
        match rest with
        | v :: rest' => capture_flags rest' v print
        | [] => (target, print)
        end
      else capture_flags rest target print
  | [] => (target, print)
  end.

(** ** Commands *)

Record shim := mkShim { sh_code : Z; sh_out : bytes; sh_err : bytes }.

#[export] Instance shim_eq_decision : EqDecision shim.
Proof. solve_decision. Defined.

Definition shim_line (s : bytes) : bytes := s ++ [x0a].

Definition shim_fails (msg : bytes) : shim := mkShim 1 [] (shim_line (#"wmux-tmux: " ++ msg)).

Section Commands.

Context (C : ClientJson) {X : Type} (send : MessageType → bytes → rpc X Frame).

(** The environment, and the error of [client.New] in the namespace that the
    environment names. *)
Context (getenv : bytes → bytes) (connect : bytes → option error).

Definition newClient : option error :=
  EWrap #"wmux-tmux: connect" <$> connect (getenv #"WMUX_NAMESPACE").

Definition with_client (k : X → shim * X) : X → shim * X := λ x,
  match newClient with
  | Some e => (shim_fails (err_text e), x)
  | None => k x
  end.

(** One call, and what a success makes of its value. *)
Definition run {A} (m : rpc X A) (ok : A → X → shim * X) : X → shim * X := λ x,
  match m x with
  | (Err e, x) => (shim_fails (err_text e), x)
  | (Ok a, x) => ok a x
  end.

Definition done_ {A} (_ : A) (x : X) : shim * X := (mkShim 0 [] [], x).

Definition cmdNewSession (args : list bytes) : X → shim * X := λ x,
  match new_session_flags args [] 80 24 with
  | None => (shim_fails #"-s requires a session name", x)
  | Some (name, cols, rows) =>
      if decide (name = []) then (shim_fails #"new-session requires -s NAME", x)
      else
        let shell := getenv #"SHELL" in
        let shell := if decide (shell = []) then #"/bin/sh" else shell in
        with_client (run (Create C send name (mkCreateParams shell [] cols rows [] [])) done_) x
  end.

Definition cmdSendKeys (args : list bytes) : X → shim * X := λ x,
  let '(target, rest) := send_keys_flags args [] in
  if decide (target = []) then (shim_fails #"send-keys requires -t NAME", x)
  else
    let keys := join #" " rest in
    if decide (keys = []) then done_ tt x
    else with_client (run (Exec C send target (translateKeys keys) false) done_) x.

(** The error of [Detach] is dropped. *)
Definition cmdCapturePane (args : list bytes) : X → shim * X := λ x,
  let '(target, print) := capture_flags args [] false in
  if decide (target = []) then (shim_fails #"capture-pane requires -t NAME", x)
  else if negb print then (shim_fails #"capture-pane requires -p flag", x)
  else
    with_client (run (Attach C send target) (λ r x,
      (mkShim 0 (at_Replay r) [], snd (Detach C send target x)))) x.

Definition cmdKillSession (args : list bytes) : X → shim * X := λ x,
  let target := target_flag args [] in
  if decide (target = []) then (shim_fails #"kill-session requires -t NAME", x)
  else with_client (run (Kill C send target) done_) x.

Definition session_line (s : SessionInfo) : bytes :=
  shim_line (si_ID s ++ #": 1 windows (" ++ si_State s ++ #") [" ++ itoa (si_Cols s) ++ #"x" ++ itoa (si_Rows s) ++ #"]").

Definition cmdListSessions : X → shim * X :=
  with_client (run (List C send []) (λ l x, (mkShim 0 (l ≫= session_line) [], x))).

(** No errors are printed: without a daemon there is no session. *)
Definition cmdHasSession (args : list bytes) : X → shim * X := λ x,
  let target := target_flag args [] in
  if decide (target = []) then (shim_fails #"has-session requires -t NAME", x)
  else
    match newClient with
    | Some _ => (mkShim 1 [] [], x)
    | None =>
        let (r, x) := Info C send target x in
        (mkShim (if is_ok r then 0 else 1) [] [], x)
    end.

Definition shim_usage : list bytes := [
  #"Usage: tmux <command> [flags]";
  [];
  #"Supported commands (wmux-tmux shim):";
  #"  new-session     -d -s NAME [-x COLS] [-y ROWS]";
  #"  send-keys       -t NAME KEYS...";
  #"  capture-pane    -t NAME -p";
  #"  kill-session    -t NAME";
  #"  list-sessions";
  #"  has-session     -t NAME"].

Definition shim_main (args : list bytes) : X → shim * X := λ x,
  match args with
  | [] => (mkShim 1 [] (shim_usage ≫= shim_line), x)
  | cmd :: args =>
      if decide (cmd = #"new-session") then cmdNewSession args x
      else if decide (cmd = #"send-keys") then cmdSendKeys args x
      else if decide (cmd = #"capture-pane") then cmdCapturePane args x
      else if decide (cmd = #"kill-session") then cmdKillSession args x
      else if decide (cmd = #"list-sessions") then cmdListSessions x
      else if decide (cmd = #"has-session") then cmdHasSession args x
      else (mkShim 1 [] (([ #"wmux-tmux: unsupported command: " ++ cmd] ++ shim_usage) ≫= shim_line), x)
  end.
End Commands.

(** ** Lemmas on keys *)

Definition names : list bytes := fst <$> key_names.

Lemma replace_fuel fuel fuel' s :
  (length s <= fuel)%nat → (length s <= fuel')%nat → replace_loop fuel key_names s = replace_loop fuel' key_names s.
Proof.
  revert fuel' s. induction fuel as [|fuel IH]; intros fuel' [|x s] H1 H2; cbn in H1, H2; try lia;
    [by destruct fuel'..|]. destruct fuel' as [|fuel']; [lia|]. cbn [replace_loop].
  destruct (list_find _ key_names) as [[i [old new]]|] eqn:Hf.
  - f_equal. assert (0 < length old)%nat.
    { apply list_find_Some in Hf as (Hi & _ & _). apply list_elem_of_lookup_2 in Hi.
      unfold key_names in Hi. rewrite !elem_of_cons, elem_of_nil in Hi.
      destruct_or!; simplify_eq; cbn; lia. }
    apply IH; rewrite length_drop; cbn; lia.
  - f_equal. apply IH; lia.
Qed.

(** The first name that a text begins with. *)
Definition name_at (s : bytes) : option (bytes * bytes) :=
  snd <$> list_find (λ p, has_prefix s (fst p) = true) key_names.

Lemma name_at_spec s p : name_at s = Some p → p ∈ key_names ∧ has_prefix s (fst p) = true ∧ (0 < length (fst p))%nat.
Proof.
  unfold name_at. destruct (list_find _ key_names) as [[i q]|] eqn:Hf; [|done]. intros [= ->].
  apply list_find_Some in Hf as (Hi & Hp & _). apply list_elem_of_lookup_2 in Hi. split_and!; [done..|].
  unfold key_names in Hi. rewrite !elem_of_cons, elem_of_nil in Hi. destruct_or!; subst; cbn; lia.
Qed.

Lemma name_at_None s : (∀ p, p ∈ key_names → has_prefix s (fst p) = false) → name_at s = None.
Proof.
  intros Hn. unfold name_at. destruct (list_find _ key_names) as [[i q]|] eqn:Hf; [|done].
  apply list_find_Some in Hf as (Hi & Hp & _). apply list_elem_of_lookup_2 in Hi. by rewrite Hn in Hp.
Qed.

Lemma translate_cons x s :
  translateKeys (x :: s) =
  match name_at (x :: s) with
  | Some (old, new) => new ++ translateKeys (drop (length old) (x :: s))
  | None => x :: translateKeys s
  end.
Proof.
  unfold translateKeys at 1. cbn [length replace_loop]. unfold name_at.
  destruct (list_find _ key_names) as [[i [old new]]|] eqn:Hf; [|done]. cbn [fmap option_fmap option_map snd].
  f_equal. apply replace_fuel; [|done].
  assert (Hn : name_at (x :: s) = Some (old, new)) by (unfold name_at; by rewrite Hf).
  apply name_at_spec in Hn as (_ & _ & Hl). rewrite length_drop. cbn in *. lia.
Qed.

(** A name at the front is replaced. *)
Lemma translate_name p s : p ∈ key_names → translateKeys (fst p ++ s) = snd p ++ translateKeys s.
Proof.
  intros Hp. assert (Hn : name_at (fst p ++ s) = Some p).
  { unfold key_names in Hp. rewrite !elem_of_cons, elem_of_nil in Hp. by destruct_or!; subst. }
  destruct (fst p ++ s) as [|x s'] eqn:Hs.
  - apply name_at_spec in Hn as (_ & _ & Hl). apply (f_equal length) in Hs. rewrite length_app in Hs.
    cbn in Hs. lia.
  - rewrite translate_cons, Hn. destruct p as [old new]. cbn [fst snd] in *. by rewrite <- Hs, drop_app_length.
Qed.

(** A text in which no name occurs, before a space or at the end. *)
Definition literal (u : bytes) : Prop := ∀ p, p ∈ key_names → contains u (fst p) = false.

Definition ends (s : bytes) : Prop := s = [] ∨ ∃ s', s = " "%byte :: s'.

Lemma prefix_of_literal u s n :
  " "%byte ∉ n → ends s → has_prefix (u ++ s) n = true → has_prefix u n = true.
Proof.
  intros Hn Hs. revert u. induction n as [|y n IH]; intros u; [done|].
  apply not_elem_of_cons in Hn as [Hy Hn]. destruct u as [|x u].
  - destruct Hs as [->|[s' ->]]; [done|]. cbn. rewrite bool_decide_eq_false_2 by done. done.
  - cbn. intros [Hx Hp]%andb_true_iff. rewrite Hx. by apply IH.
Qed.

Lemma literal_cons x u : literal (x :: u) → (∀ p, p ∈ key_names → has_prefix (x :: u) (fst p) = false) ∧ literal u.
Proof.
  intros Hl. split; intros p Hp; specialize (Hl p Hp); unfold contains in *; cbn [index] in Hl;
    destruct (has_prefix (x :: u) (fst p)) eqn:He; try done.
  destruct (index u (fst p)) eqn:Hi; [done|done].
Qed.

Lemma names_have_no_space p : p ∈ key_names → " "%byte ∉ fst p.
Proof.
  intros Hp. unfold key_names in Hp. rewrite !elem_of_cons, elem_of_nil in Hp.
  destruct_or!; subst; by apply (bool_decide_unpack _); vm_compute.
Qed.

(** A literal text is kept. *)
Lemma translate_literal u s : literal u → ends s → translateKeys (u ++ s) = u ++ translateKeys s.
Proof.
  intros Hl Hs. induction u as [|x u IH]; [done|]. apply literal_cons in Hl as [Hx Hl].
  cbn [app]. rewrite translate_cons, name_at_None; [by rewrite IH|].
  intros p Hp. destruct (has_prefix (x :: u ++ s) (fst p)) eqn:He; [|done].
  apply (prefix_of_literal (x :: u)) in He; [by rewrite Hx in He|by apply names_have_no_space|done].
Qed.

Lemma translate_space s : translateKeys (" "%byte :: s) = " "%byte :: translateKeys s.
Proof. by rewrite translate_cons. Qed.

(** What a word becomes. *)
Definition key_of (w : bytes) : bytes :=
  match list_find (λ p, fst p = w) key_names with
  | Some (_, (_, new)) => new
  | None => w
  end.

Definition key_word (w : bytes) : Prop := (∃ p, p ∈ key_names ∧ fst p = w) ∨ literal w.

Lemma translate_word w s : key_word w → ends s → translateKeys (w ++ s) = key_of w ++ translateKeys s.
Proof.
  intros [(p & Hp & <-)|Hl] Hs.
  - rewrite translate_name by done. f_equal. unfold key_names in Hp. rewrite !elem_of_cons, elem_of_nil in Hp.
    by destruct_or!; subst.
  - rewrite translate_literal by done. f_equal. unfold key_of.
    destruct (list_find _ key_names) as [[i [old new]]|] eqn:Hf; [|done].
    apply list_find_Some in Hf as (Hi & <- & _). apply list_elem_of_lookup_2 in Hi.
    specialize (Hl _ Hi). cbn [fst] in Hl. unfold contains in Hl.
    assert (Hp : has_prefix old old = true) by (rewrite <- (app_nil_r old) at 1; apply has_prefix_app).
    destruct old; cbn in Hl, Hp; by rewrite ?Hp in Hl.
Qed.

Lemma translate_words ws :
  Forall key_word ws → translateKeys (join #" " ws) = join #" " (key_of <$> ws).
Proof.
  intros Hall. induction Hall as [|w ws Hw Hall IH]; [done|]. destruct ws as [|w' ws].
  - cbn [join fmap list_fmap]. rewrite <- (app_nil_r w) at 1. rewrite translate_word by (done || by left).
    apply app_nil_r.
  - change (join #" " (w :: w' :: ws)) with (w ++ " "%byte :: join #" " (w' :: ws)).
    rewrite translate_word, translate_space, IH by (done || by right; eexists). done.
Qed.

(** ** The shim over the daemon *)

Section Daemon.

Context {S : Type} `{SessionManagerLaws S}.

Context (J : Json) (E : ReplyJson) (C : ClientJson) (text : bytes → Prop) (stamp : time → bytes)
  (stat_ok : bytes → bool).

Hypothesis HA : agree J E C text.

(** The daemon of the namespace accepts the client [c]. *)
Context (getenv : bytes → bytes) (connect : bytes → option error) (now : time) (c : bytes).

Hypothesis Hconnect : connect (getenv #"WMUX_NAMESPACE") = None.

#[local] Abbreviation send := (over J E stamp stat_ok now c) (only parsing).

Lemma with_client_connected {X} (k : X → shim * X) : with_client getenv connect k = k.
Proof. unfold with_client, newClient. by rewrite Hconnect. Qed.

Lemma Attach_over id (d : Daemon S) i :
  text id → sm_ok (backend d) → sm_Get (backend d) id = Ok i →
  let s := snd (sm_Attach (backend d) id) in
  ∃ r, Attach C send id d = (Ok r, attach_client c id (set_backend d s)) ∧
    at_Replay r = match sm_Snapshot s id with Ok replay => replay | Err _ => [] end.
Proof.
  intros Ht Hok Hg. cbv zeta. destruct (ag_attach _ _ _ _ HA id Ht) as (p & Hp & Hj).
  pose proof (sm_Attach_spec (backend d) id Hok) as Hs.
  assert (Hd : dispatch J stamp stat_ok now c (mkFrame ProtocolVersion MsgAttach p) d = handleAttach J c p d) by done.
  unfold handleAttach, decode in Hd. rewrite Hj in Hd. unfold query in Hd. cbn [sr_SessionID] in Hd.
  rewrite Hg in Hd. unfold call in Hd. destruct (sm_Attach (backend d) id) as [e s]. destruct Hs as [_ He].
  assert (e = None) as -> by (apply He; unfold known; by rewrite Hg).
  rewrite andThen_eq in Hd. cbn [modify fst snd app] in Hd. rewrite andThen_eq in Hd.
  cbn [reply emit publishEvent fst snd] in Hd.
  set (d' := attach_client c id (set_backend d s)) in *.
  unfold Attach, marshalled, mbind, rpc_bind, lift. rewrite Hp. cbn [wrap_err]. unfold answered, mbind, rpc_bind.
  erewrite over_one; [|exact Hd|by destruct (hasBus (config d'))|done]. cbn [frame_of Type_ Payload].
  rewrite decide_False by done. unfold lift.
  assert (Hsnap : ∃ h f, attach_response i id d' =
    RAttach i (match sm_Snapshot s id with
               | Ok replay => if decide (replay = []) then None else Some replay
               | Err _ => None end) h f).
  { unfold attach_response. change (backend d') with s. destruct (cmdSvc d'); [|by eexists _, _].
    destruct (CmdLifecycle.Snapshot _ _); by eexists _, _. }
  destruct Hsnap as (h & f & ->). set (sn := match sm_Snapshot s id with Ok _ => _ | Err _ => _ end).
  pose proof (ag_replay _ _ _ _ HA i sn h f) as Hr.
  destruct (unmarshal_attach C _) as [r|]; [|done]. cbn in Hr. injection Hr as Hr. eexists. split; [done|].
  cbn [at_Replay snd]. rewrite Hr. unfold sn. destruct (sm_Snapshot s id) as [replay|]; [|done]. by case_decide; subst.
Qed.

(** What leaves the session when the client was attached just before. *)
Lemma drop_attached (id : bytes) (a : gmap bytes (gset bytes)) :
  c ∉ default ∅ (a !! id) → a !! id ≠ Some ∅ →
  drop_client c id (<[id := {[c]} ∪ default ∅ (a !! id)]> a) = (a, bool_decide (a !! id = None)).
Proof.
  intros Hc Hne. unfold drop_client. rewrite lookup_insert_eq.
  assert (Hs : ({[c]} ∪ default ∅ (a !! id)) ∖ {[c]} = default ∅ (a !! id)) by set_solver.
  rewrite Hs. destruct (a !! id) as [cs|] eqn:Ha.
  - change (default ∅ (Some cs)) with cs. rewrite decide_False by congruence. rewrite insert_insert_eq, insert_id by done. done.
  - rewrite decide_True by done. by rewrite delete_insert_eq, delete_id.
Qed.

Lemma Detach_over id (d : Daemon S) :
  text id → snd (Detach C send id d) = snd (leave c id d).
Proof.
  intros Ht. unfold Detach, acknowledged, mbind, rpc_bind.
  destruct (over J E stamp stat_ok now c MsgDetach (marshal_session C id) d) as [r d'] eqn:Ho.
  assert (Hd : d' = snd (leave c id d)).
  { assert (Hd : d' = snd (handleDetach J c (marshal_session C id) d)).
    { unfold over in Ho. change (dispatch J stamp stat_ok now c (mkFrame ProtocolVersion MsgDetach (marshal_session C id)) d)
        with (handleDetach J c (marshal_session C id) d) in Ho.
      destruct (handleDetach J c _ d) as [e d'']. by injection Ho as _ ->. }
    unfold handleDetach, decode in Hd. rewrite (ag_session _ _ _ _ HA) in Hd by done.
    rewrite andThen_eq in Hd. exact Hd. }
  destruct r as [f|e]; [|done]. by case_decide.
Qed.

(** ** Theorems *)


(** [capture-pane] of a session prints its snapshot and leaves who is
    attached to what as it was: the client that it attaches is gone again.  The
    session itself has been attached, and is detached again exactly when no
    other client is attached to it. *)
Theorem capture_pane_leaves_the_clients id d i :
  text id → id ≠ [] → sm_ok (backend d) → sm_Get (backend d) id = Ok i →
  clientSession d !! c = None → c ∉ default ∅ (attachments d !! id) → attachments d !! id ≠ Some ∅ →
  let s := snd (sm_Attach (backend d) id) in
  let (o, d') := cmdCapturePane C send getenv connect [ #"-t"; id; #"-p"] d in
  o = mkShim 0 (match sm_Snapshot s id with Ok replay => replay | Err _ => [] end) [] ∧
  attachments d' = attachments d ∧ clientSession d' = clientSession d ∧
  backend d' = if decide (attachments d !! id = None) then snd (sm_Detach s id) else s.
Proof.
  intros Ht Hid Hok Hg Hc Ha Hne. cbv zeta. unfold cmdCapturePane.
  change (capture_flags [ #"-t"; id; #"-p"] [] false) with (id, true).
  cbv beta iota. rewrite decide_False by done. cbn [negb]. rewrite with_client_connected. unfold run.
  destruct (Attach_over id d i Ht Hok Hg) as (r & -> & Hr). rewrite Hr.
  split; [done|]. rewrite Detach_over by done. set (s := snd (sm_Attach (backend d) id)).
  unfold leave. cbn [attachments set_clients set_backend attach_client clientSession].
  rewrite drop_attached by done. rewrite delete_insert_id by done.
  case_bool_decide as Hn; [rewrite decide_True by done|rewrite decide_False by done; done].
  unfold call. cbn [backend set_clients set_backend attach_client]. by destruct (sm_Detach s id).
Qed.
End Daemon.

(** ** Witnesses *)

Section Witnesses.

#[local] Abbreviation wire := (over example_wire example_wire_replies example_stamp example_stat 5 #"c") (only parsing).


Lemma capture_pane_leaves_the_clients_witness :
  sh_out (fst (cmdCapturePane example_wire_client
    (over example_wire example_wire_replies example_stamp example_stat 5 #"c") (λ _, []) (λ _, None)
    [ #"-t"; #"a"; #"-p"] transcript_daemon)) = #"$ ls".
Proof.
  destruct (sm_Get (backend transcript_daemon) #"a") as [i|e] eqn:Hg; [|vm_compute in Hg; discriminate].
  assert (Hok : sm_ok (backend transcript_daemon)).
  { pose proof (sm_Create_spec (mkManager (Session.NewService (E := bytes) 0 true true (Some (λ _ _ _, #"$ ls"))) 0 [])
      #"a" (mkCreateOptions #"/bin/sh" [] 80 24 #"/" [])
      (proj1 (Session.reachable_svc_inv (λ _ _, 0%nat) 0 true true _ _ (rtc_refl _ _)))) as Hs.
    unfold transcript_daemon. cbn [backend NewDaemon]. destruct (sm_Create _ _ _) as [r s]. apply Hs. }
  pose proof (capture_pane_leaves_the_clients example_wire example_wire_replies example_wire_client (λ _, True)
    example_stamp example_stat example_agrees (λ _, []) (λ _, None) 5 #"c" eq_refl #"a" transcript_daemon i I
    ltac:(discriminate) Hok Hg eq_refl (not_elem_of_empty _) ltac:(discriminate)) as Hc.
  destruct (cmdCapturePane _ _ _ _ _ _) as [o d']. destruct Hc as [-> _]. vm_compute. reflexivity.
Defined.
End Witnesses.
