(* ===== verification/Emulator.v ===== *)
(** * The emulator addon: [addons/charmvt]

    A screen emulator over a third-party terminal: how it tracks the last
    clear, and the replay that a snapshot is made of.  The terminal and the
    styles of its cells are parameters. *)

From S2P Require Import Prelude GoStrings Pipeline Adapters.

#[local] Open Scope Z_scope.

(** ** The terminal *)

(** A style of the ultraviolet library: [zero] is the default style, and
    [style_string] the escape sequence that selects a style. *)
Class StyleOps (Style : Type) := {
  zero : Style;
  is_zero : Style → bool;
  equal : Style → Style → bool;
  style_string : Style → bytes;
}.

(** [IsZero] and [Equal] mean what they say. *)
Class StyleLaws (Style : Type) `{StyleOps Style} := {
  is_zero_spec s : is_zero s = true ↔ s = zero;
  equal_spec s t : equal s t = true ↔ s = t;
}.

Record Cell (Style : Type) := mkCell { Content : bytes; cell_Style : Style }.
Arguments mkCell {Style}.
Arguments Content {Style}.
Arguments cell_Style {Style}.

(** A terminal of the vt library.  Cells are given by column and line. *)
Class Terminal (T Style : Type) := {
  vt_Write : T → bytes → T;
  vt_Resize : T → Z → Z → T;
  vt_SetScrollbackSize : T → Z → T;
  vt_Close : T → option error * T;
  vt_IsAltScreen : T → bool;
  vt_ScrollbackLen : T → nat;
  vt_ScrollbackCellAt : T → nat → nat → option (Cell Style);
  vt_Render : T → bytes;
  vt_ScrollRegion : T → Z * Z * bool;
  vt_SavedCursor : T → Z * Z;
  vt_CursorPosition : T → Z * Z;
}.

Section Render.

Context {Style : Type} `{StyleOps Style}.

(** ** Rendering the scrollback ([render.go]) *)

(** The buffer is the list of what was written to it. *)
Inductive write := WSpaces (n : nat) | WStyle (s : Style) | WText (b : bytes) | WReset | WBreak.

Definition sgrForStyle (s : Style) : bytes := if is_zero s then x1b :: #"[m" else style_string s.

Definition write_bytes (w : write) : bytes :=
  match w with
  | WSpaces n => replicate n " "%byte
  | WStyle s => sgrForStyle s
  | WText b => b
  | WReset => x1b :: #"[m"
  | WBreak => [x0d; x0a]
  end.

(** No cell, or an empty one in the default style. *)
Definition blank (c : option (Cell Style)) : bool :=
  match c with
  | None => true
  | Some c => (bool_decide (Content c = []) || bool_decide (Content c = #" ")) && is_zero (cell_Style c)
  end.

Definition cell_text (c : Cell Style) : bytes := if decide (Content c = []) then #" " else Content c.

(** The cells of a line: spaces are held back until a cell that is written. *)
Fixpoint render_cells (l : list (option (Cell Style))) (trailing : nat) (prev : Style) : list write * Style :=
  match l with
  | [] => ([], prev)
  | c :: l =>
      match c with
      | None => render_cells l (S trailing) prev
      | Some x =>
          if blank c then render_cells l (S trailing) prev
          else
            let spaces := if decide (trailing = 0%nat) then [] else [WSpaces trailing] in
            let style := if equal (cell_Style x) prev then [] else [WStyle (cell_Style x)] in
            let prev := if equal (cell_Style x) prev then prev else cell_Style x in
            let (ws, prev) := render_cells l 0 prev in
            (spaces ++ style ++ [WText (cell_text x)] ++ ws, prev)
      end
  end.

Fixpoint render_lines (ls : list (list (option (Cell Style)))) (first : bool) (prev : Style) : list write * Style :=
  match ls with
  | [] => ([], prev)
  | l :: ls =>
      let break := if first then [] else [WBreak] in
      let reset := if is_zero prev then [] else [WReset] in
      let (ws, prev) := render_cells l 0 (if is_zero prev then prev else zero) in
      let (rest, prev) := render_lines ls false prev in
      (break ++ reset ++ ws ++ rest, prev)
  end.

(** The lines, a reset when one is due, and a break. *)
Definition render_scrollback (ls : list (list (option (Cell Style)))) : list write :=
  let (ws, prev) := render_lines ls true zero in
  ws ++ (if is_zero prev then [] else [WReset]) ++ [WBreak].

Definition scrollback_lines {T} `{Terminal T Style} (t : T) (cols : Z) (from : nat) : list (list (option (Cell Style))) :=
  (λ y, (λ x, vt_ScrollbackCellAt t x y) <$> seq 0 (Z.to_nat cols)) <$> seq from (vt_ScrollbackLen t - from).

(** Nothing when there are no lines from there on. *)
Definition renderScrollbackFrom {T} `{Terminal T Style} (t : T) (cols : Z) (from : nat) : option bytes :=
  if decide (vt_ScrollbackLen t = 0 ∨ vt_ScrollbackLen t <= from)%nat then None
  else Some (render_scrollback (scrollback_lines t cols from) ≫= write_bytes).
End Render.
Arguments write Style : clear implicits.

(** ** The emulator ([emulator.go], [options.go]) *)

Inductive SnapshotScrollbackMode := SnapshotScrollbackAll | SnapshotScrollbackSinceLastClear.

#[export] Instance mode_eq_decision : EqDecision SnapshotScrollbackMode.
Proof. solve_decision. Defined.

(** What the integrator observes, and what a terminal calls; a call of either is
    a value of [A]. *)
Record Callbacks (A : Type) := mkCallbacks {
  cb_Bell : option (bytes → A);
  cb_Title : option (bytes → bytes → A);
  cb_WorkingDirectory : option (bytes → bytes → A);
  cb_AltScreen : option (bytes → bool → A);
}.
Arguments mkCallbacks {A}.
Arguments cb_Bell {A}.
Arguments cb_Title {A}.
Arguments cb_WorkingDirectory {A}.
Arguments cb_AltScreen {A}.

(** The callbacks of the vt library that the addon may set; it leaves the others
    nil. *)
Record vt_Callbacks (A : Type) := mkVtCallbacks {
  vt_Bell : option A;
  vt_Title : option (bytes → A);
  vt_WorkingDirectory : option (bytes → A);
  vt_AltScreen : option (bool → A);
}.
Arguments mkVtCallbacks {A}.

(** A new terminal, and what is set on it before its first byte: [L] is the type
    of a logger. *)
Class TerminalSetup (T A L : Type) := {
  vt_NewEmulator : Z → Z → T;
  vt_SetED2SavesScrollback : T → bool → T;
  vt_SetLogger : T → L → T;
  vt_SetCallbacks : T → vt_Callbacks A → T;
}.

Section Options.

Context {A L : Type}.

Record emu_config := mkEmuConfig {
  scrollback : Z;
  scrollbackMode : SnapshotScrollbackMode;
  emu_callbacks : option (Callbacks A);
  emu_logger : option L;
}.

Definition defaultConfig : emu_config := mkEmuConfig 10000 SnapshotScrollbackAll None None.

Definition emu_Option : Type := emu_config → emu_config.

Definition WithScrollbackSize (lines : Z) : emu_Option := λ c,
  mkEmuConfig lines (scrollbackMode c) (emu_callbacks c) (emu_logger c).

Definition WithCallbacks (cb : Callbacks A) : emu_Option := λ c,
  mkEmuConfig (scrollback c) (scrollbackMode c) (Some cb) (emu_logger c).

Definition WithLogger (l : L) : emu_Option := λ c,
  mkEmuConfig (scrollback c) (scrollbackMode c) (emu_callbacks c) (Some l).

Definition WithSnapshotScrollbackMode (m : SnapshotScrollbackMode) : emu_Option := λ c,
  mkEmuConfig (scrollback c) m (emu_callbacks c) (emu_logger c).

(** The configuration that [Backend] and [NewEmulatorFactory] give a factory. *)
Definition factory_config (opts : list emu_Option) : emu_config := foldl (λ c o, o c) defaultConfig opts.

(** The callbacks of one session. *)
Definition bound_callbacks (sessionID : bytes) (cb : Callbacks A) : vt_Callbacks A :=
  mkVtCallbacks ((λ f, f sessionID) <$> cb_Bell cb) ((λ f, f sessionID) <$> cb_Title cb)
    ((λ f, f sessionID) <$> cb_WorkingDirectory cb) ((λ f, f sessionID) <$> cb_AltScreen cb).
End Options.
Arguments emu_config : clear implicits.
Arguments emu_Option : clear implicits.

Definition ed2Seq : bytes := x1b :: #"[2J".

Fixpoint skip_newlines (s : bytes) : bytes :=
  match s with
  | x :: s' => if decide (x = x0a) then skip_newlines s' else s
  | [] => []
  end.

(** [strings.TrimRight(s, "\n")]. *)
Definition trimTrailingEmptyRows (s : bytes) : bytes := reverse (skip_newlines (reverse s)).

Definition toTerminalLineEndings (s : bytes) : bytes := s ≫= λ b, if decide (b = x0a) then [x0d; x0a] else [b].

Section Emulator.

Context {T Style : Type} `{StyleOps Style} `{Terminal T Style}.

(** The mutex makes each operation one step; [Close] does not take it. *)
Record emulator := mkEmulator {
  term : T;
  emu_cols : Z;
  mode : SnapshotScrollbackMode;
  scrollbackBaseline : nat;
}.

(** An erased display does not move the view to the scrollback.  The goroutine
    that reads the terminal's own answers is started here. *)
Definition newEmulator {A L} `{TerminalSetup T A L} (sessionID : bytes) (cols rows : Z) (cfg : emu_config A L) : emulator :=
  let t := vt_NewEmulator (L := L) cols rows in
  let t := vt_SetScrollbackSize t (scrollback cfg) in
  let t := vt_SetED2SavesScrollback (L := L) t false in
  let t := match emu_logger cfg with Some l => vt_SetLogger t l | None => t end in
  let t := match emu_callbacks cfg with
           | Some cb => vt_SetCallbacks (L := L) t (bound_callbacks sessionID cb)
           | None => t
           end in
  mkEmulator t cols (scrollbackMode cfg) 0.

(** [Create] of the factory that [Backend] and [NewEmulatorFactory] make. *)
Definition factory_Create {A L} `{TerminalSetup T A L} (opts : list (emu_Option A L)) (sessionID : bytes) (cols rows : Z) : emulator :=
  newEmulator sessionID cols rows (factory_config opts).

Definition emu_Process (e : emulator) (data : bytes) : emulator :=
  let t := vt_Write (term e) data in
  mkEmulator t (emu_cols e) (mode e)
    (if bool_decide (mode e = SnapshotScrollbackSinceLastClear) && contains data ed2Seq && negb (vt_IsAltScreen t)
     then vt_ScrollbackLen t else scrollbackBaseline e).

Definition esc (s : bytes) : bytes := x1b :: s.

(** [\e\[row;colH]. *)
Definition cup (row col : Z) : bytes := esc (#"[" ++ itoa row ++ #";" ++ itoa col ++ #"H").

Definition emu_Snapshot (e : emulator) : bytes :=
  let t := term e in
  let from := if decide (mode e = SnapshotScrollbackSinceLastClear)
              then Nat.min (scrollbackBaseline e) (vt_ScrollbackLen t) else 0%nat in
  let sb := renderScrollbackFrom t (emu_cols e) from in
  let viewport := match sb with None => trimTrailingEmptyRows (vt_Render t) | Some _ => vt_Render t end in
  let '(top, bottom, defined) := vt_ScrollRegion t in
  let (savedX, savedY) := vt_SavedCursor t in
  let (x, y) := vt_CursorPosition t in
  esc #"[2J" ++ esc #"[H" ++ esc #"[3J" ++ default [] sb ++ toTerminalLineEndings viewport ++
  (if defined then esc (#"[" ++ itoa top ++ #";" ++ itoa bottom ++ #"r") else []) ++
  cup (savedY + 1) (savedX + 1) ++ esc #"7" ++ cup (y + 1) (x + 1).

Definition emu_SetScrollbackSize (e : emulator) (lines : Z) : emulator :=
  mkEmulator (vt_SetScrollbackSize (term e) lines) (emu_cols e) (mode e) (scrollbackBaseline e).

Definition emu_Resize (e : emulator) (cols rows : Z) : emulator :=
  mkEmulator (vt_Resize (term e) cols rows) cols (mode e) (scrollbackBaseline e).

Definition emu_Close (e : emulator) : option error * emulator :=
  let (err, t) := vt_Close (term e) in
  (EWrap #"emulator close" <$> err, mkEmulator t (emu_cols e) (mode e) (scrollbackBaseline e)).

(** The addon is an emulator of the client library, with both optional methods. *)
#[export] Instance charmvt : ClientEmulator emulator := {|
  em_Process := emu_Process;
  em_Snapshot := emu_Snapshot;
  em_Resize := emu_Resize;
  em_SetScrollbackSize := Some emu_SetScrollbackSize;
  em_Close := Some emu_Close;
|}.
End Emulator.

(** ** What a terminal shows *)

Section Shown.

Context {Style : Type} `{StyleLaws Style}.

(** Every text is drawn in the style that was selected last; a break ends a
    line.  [paint] gives the lines, the last one unfinished. *)
Fixpoint paint (ws : list (write Style)) (cur : Style) (line : list (bytes * Style)) : list (list (bytes * Style)) :=
  match ws with
  | [] => [line]
  | WSpaces n :: ws => paint ws cur (line ++ replicate n (#" ", cur))
  | WText b :: ws => paint ws cur (line ++ [(b, cur)])
  | WStyle s :: ws => paint ws s line
  | WReset :: ws => paint ws zero line
  | WBreak :: ws => line :: paint ws cur []
  end.

(** The cells of a line without the blank ones at its end; a blank cell before
    one that is not is drawn in style [gap c], for the style [c] of the last
    cell that is not blank. *)
Fixpoint trimmed (gap : Style → Style) (l : list (option (Cell Style))) (last : Style) : list (bytes * Style) :=
  match l with
  | [] => []
  | c :: l' =>
      match c with
      | Some x =>
          if blank c then (if forallb blank l' then [] else (#" ", gap last) :: trimmed gap l' last)
          else (cell_text x, cell_Style x) :: trimmed gap l' (cell_Style x)
      | None => if forallb blank l' then [] else (#" ", gap last) :: trimmed gap l' last
      end
  end.

(** As the screen had it: blanks are in the default style. *)
Definition on_screen (l : list (option (Cell Style))) : list (bytes * Style) := trimmed (λ _, zero) l zero.

(** No blank lies between a cell in another style than the default and a later
    cell that is not blank. *)
Fixpoint no_styled_gap (l : list (option (Cell Style))) (last : Style) : bool :=
  match l with
  | [] => true
  | c :: l' =>
      match c with
      | Some x =>
          if blank c then (forallb blank l' || is_zero last) && no_styled_gap l' last
          else no_styled_gap l' (cell_Style x)
      | None => (forallb blank l' || is_zero last) && no_styled_gap l' last
      end
  end.

(** ** Lemmas *)

Lemma forallb_blank_cons c (l : list (option (Cell Style))) : forallb blank (c :: l) = blank c && forallb blank l.
Proof. done. Qed.

Lemma trimmed_blank gap l last : forallb blank l = true → trimmed gap l last = [].
Proof.
  destruct l as [|c l]; [done|]. rewrite forallb_blank_cons. intros [Hc Hl]%andb_true_iff. cbn [trimmed].
  destruct c as [x|]; [rewrite Hc|]; by rewrite Hl.
Qed.

(** The cells of a line, after [t] spaces that were held back. *)
Lemma paint_cells l t prev line rest :
  let (ws, p) := render_cells l t prev in
  paint (ws ++ rest) prev line =
    paint rest p (line ++ (if forallb blank l then [] else replicate t (#" ", prev)) ++ trimmed (λ s, s) l prev).
Proof.
  revert t prev line. induction l as [|c l IH]; intros t prev line.
  { cbn. by rewrite app_nil_r. }
  assert (Hblank : blank c = true →
    let (ws, p) := render_cells l (S t) prev in
    paint (ws ++ rest) prev line =
      paint rest p (line ++ (if forallb blank (c :: l) then [] else replicate t (#" ", prev)) ++
        (if forallb blank l then [] else (#" ", prev) :: trimmed (λ s, s) l prev))).
  { intros Hc. specialize (IH (S t) prev line). destruct (render_cells l (S t) prev) as [ws p]. rewrite IH.
    rewrite forallb_blank_cons, Hc. cbn [andb]. destruct (forallb blank l) eqn:Hl; [by rewrite trimmed_blank|].
    rewrite replicate_S_end, <- !app_assoc. done. }
  destruct c as [x|]; [|by apply Hblank].
  cbn [render_cells trimmed]. destruct (blank (Some x)) eqn:Hx; [by apply Hblank|].
  assert (Hp : (if equal (cell_Style x) prev then prev else cell_Style x) = cell_Style x).
  { destruct (equal _ _) eqn:He; [|done]. by apply equal_spec in He. }
  rewrite Hp. rewrite forallb_blank_cons, Hx. cbn [andb].
  specialize (IH 0%nat (cell_Style x)). destruct (render_cells l 0 (cell_Style x)) as [ws p].
  assert (Hrest : ∀ line', paint (WText (cell_text x) :: ws ++ rest) (cell_Style x) line' =
    paint rest p (line' ++ (cell_text x, cell_Style x) :: trimmed (λ s, s) l (cell_Style x))).
  { intros line'. cbn [paint]. rewrite IH. f_equal. rewrite <- app_assoc. by destruct (forallb blank l). }
  rewrite <- !app_assoc. cbn [app].
  assert (Hstyle : ∀ line', paint ((if equal (cell_Style x) prev then [] else [WStyle (cell_Style x)]) ++
      WText (cell_text x) :: ws ++ rest) prev line' =
    paint rest p (line' ++ (cell_text x, cell_Style x) :: trimmed (λ s, s) l (cell_Style x))).
  { intros line'. destruct (equal _ _) eqn:He; [apply equal_spec in He; subst prev|]; apply Hrest. }
  case_decide as Ht; [subst t; cbn [replicate app]; apply Hstyle|].
  cbn [app paint]. rewrite Hstyle. by rewrite <- app_assoc.
Qed.

(** Lines after one that is not ended, and the end. *)
Lemma paint_lines ls prev line :
  let (ws, p) := render_lines ls false prev in
  paint (ws ++ (if is_zero p then [] else [WReset]) ++ [WBreak]) prev line =
    line :: ((λ l, trimmed (λ s, s) l zero) <$> ls) ++ [[]].
Proof.
  revert prev line. induction ls as [|l ls IH]; intros prev line; [cbn; by destruct (is_zero prev)|].
  cbn [render_lines]. assert (Hz : (if is_zero prev then prev else zero) = zero).
  { destruct (is_zero prev) eqn:Hp; [|done]. by apply is_zero_spec in Hp. }
  rewrite Hz. pose proof (paint_cells l 0 zero) as Hl. destruct (render_cells l 0 zero) as [ws p].
  specialize (IH p). destruct (render_lines ls false p) as [rest q]. cbn [app paint]. f_equal.
  rewrite <- !app_assoc.
  assert (Hr : paint (ws ++ rest ++ (if is_zero q then [] else [WReset]) ++ [WBreak]) zero [] =
    trimmed (λ s, s) l zero :: ((λ l, trimmed (λ s, s) l zero) <$> ls) ++ [[]]).
  { rewrite Hl, IH. cbn [replicate]. by destruct (forallb blank l). }
  destruct (is_zero prev) eqn:Hp; [apply is_zero_spec in Hp; subst prev|]; exact Hr.
Qed.

Lemma trimmed_gap l last :
  trimmed (λ s, s) l last = trimmed (λ _, zero) l last ↔ no_styled_gap l last = true.
Proof.
  assert (Hz : ∀ s, is_zero s = true ↔ s = zero) by apply is_zero_spec.
  revert last. induction l as [|c l IH]; intros last; [done|].
  assert (Hblank : (if forallb blank l then [] else (#" ", last) :: trimmed (λ s, s) l last) =
      (if forallb blank l then [] else (#" ", zero) :: trimmed (λ _, zero) l last) ↔
    (forallb blank l || is_zero last) && no_styled_gap l last = true).
  { rewrite andb_true_iff, orb_true_iff, <- IH, Hz. destruct (forallb blank l) eqn:Hl.
    - rewrite !trimmed_blank by done. tauto.
    - split; [intros [= -> ?]; by split; [right|]|]. intros [[?| ->] ->]; done. }
  destruct c as [x|]; [|exact Hblank]. cbn [trimmed no_styled_gap].
  destruct (blank (Some x)); [exact Hblank|]. rewrite <- IH. split; [by intros [= ?]|by intros ->].
Qed.

(** ** Theorems *)

End Shown.

(** ** Witness *)

Section Witness.

#[local] Instance number_styles : StyleOps Z := {|
  zero := 0;
  is_zero s := bool_decide (s = 0);
  equal s t := bool_decide (s = t);
  style_string s := x1b :: #"[" ++ itoa s ++ #"m";
|}.

#[local] Instance number_laws : StyleLaws Z.
Proof. split; intros; apply bool_decide_eq_true. Qed.

End Witness.
